(* ===== verification/_CoqProject ===== *)
-Q . S2P
Prelude.v
Defs.v
LinkedList.v
Bitmap.v
Page.v
PageQueues.v
BootReserve.v
Pmm.v
Cmpctmalloc.v
HeapPages.v
HeapLists.v
CmpctHeap.v
KernelHeap.v
Vmar.v
RBTree.v
VmPageList.v
Mmu.v
Aspace.v
Allocator.v
DeviceTree.v
Console.v
Mutex.v
VmCow.v
Thread.v
DtScan.v
Platform.v
Wiring.v
Boot.v
Tests.v
