(* ===== verification/Prelude.v ===== *)
(** * sCore kernel: verification development

    sCore is a small RISC-V kernel in Rust (kernel/src), modelled on Zircon,
    with a parser for flattened device trees as a crate of its own
    (device_tree/src).  This library translates the kernel, from its
    containers and memory management to threads and the boot sequence, and the
    device tree parser into executable definitions, function by function, and
    proves what makes them correct.

    ** The program and its files

    At boot [setup_vm] builds the first page tables; then [_lk_main] gets a
    thread context ([thread_init_early]), the platform code reads the device
    tree and reserves ranges, [add_arena] turns memory into free pages,
    [vm_init_preheap] lays out the kernel address space, [heap_init] sets up
    the page allocator of the heap and the heap, [vm_init] protects the
    physmap, and a thread with a pinned stack object is created.

    - Prelude.v: results and errors (errors.rs), the outcome of running code,
      the state monad [M], machine words, tactics and shared lemmas.
    - Defs.v: config_generated.rs, defines.rs, align.rs, klib/range.rs, cpu.rs.
    - LinkedList.v: klib/list.rs, the intrusive doubly linked list, on a
      memory of nodes ([lmem]); [dll] says that a list object holds a
      sequence, [frame] what an operation leaves alone.
    - Bitmap.v: klib/bitmap.rs.
    - Page.v: page.rs and vm_page_state.rs; PageQueues.v: vm/page_queues.rs.
    - BootReserve.v: platform/riscv/boot_reserve.rs.
    - Pmm.v: pmm.rs, arenas, the free list and page allocation on the memory
      of page descriptors and list nodes.
    - Cmpctmalloc.v: klib/cmpctmalloc.rs; HeapPages.v: its requests for pages
      ([os_run]); HeapLists.v: its free lists and bits as a list of free
      blocks; CmpctHeap.v: the invariant of the heap (areas of adjacent
      blocks) and its preservation, with the bytes that change; KernelHeap.v:
      what callers of the heap get.  The class [PageAllocator] and its laws
      are what the heap asks of [VirtualAlloc].
    - Vmar.v: vm/vmar.rs, regions and free spots in them.
    - RBTree.v: klib/rbtree.rs; VmPageList.v: vm/vm_page_list.rs on top of it.
    - Mmu.v: arch/riscv64/mmu.rs, page tables as words in memory; [walk] is
      the translation the hardware makes, [pt_inv] says that the tables form
      a tree.  The class [FrameAlloc] with its laws is what mapping asks of
      the physical memory manager; Pmm.v's [alloc_page] discharges it.
    - Aspace.v: aspace.rs and vm/vm.rs.
    - Allocator.v: allocator.rs, the boot allocator, the stages of the global
      allocator and [VirtualAlloc]; it composes Bitmap, Pmm, Mmu and Aspace.
    - DeviceTree.v: device_tree/src/util.rs and lib.rs.
    - Console.v: arch/riscv64/sbi.rs, stdio.rs, debug.rs, panic.rs and
      klib/memory.rs; firmware calls are a trace.
    - Mutex.v: locking/mutex.rs and spinlock.rs, and the interleavings of
      contexts that use one mutex ([mstep], [mutex_inv]).
    - VmCow.v: vm/vm_cow_pages.rs, vm_object_paged.rs and page_source.rs on
      top of Mutex, VmPageList, PageQueues and Pmm.
    - Thread.v: sched.rs, thread.rs, percpu.rs, vm/kstack.rs and the parts of
      arch/riscv64/smp.rs, irq.rs and csr.rs they use.
    - DtScan.v: the scan of the device tree by platform/riscv/mod.rs;
      Platform.v: the rest of it, periphmap.rs and mark_pages_in_use;
      Wiring.v: from memory regions to arenas and reserved pages.
    - Boot.v: main.rs; [boot_world] joins the states of the components and
      [_lk_main] composes their initialisers.
    - Tests.v: tests/, the kernel's own tests of the heap and the mutex, with
      a client's loads and stores on the bytes of the heap.

    ** How code is translated

    A [usize] is a [Z] in [0, 2^64).  The kernel is built with [--release]
    (kernel/Makefile), so [+], [-], [*] and shifts wrap and every operation
    whose result can leave the range is written with its wrap-around ([uadd],
    [usub], [ushl], ...).  Stateful code is a function [S → outcome (A * S)];
    an outcome is a value, a panic ([panic!], [todo!], a failed assertion, an
    index out of bounds), a fault (an access through a pointer to no live
    object) or [Spin] (out of fuel).  Raw pointers are addresses: memory is a
    finite map from addresses to objects, so that aliasing, dangling links
    and null are visible.  Linker symbols, the addresses of globals and of
    local list objects, and the code behind interfaces are parameters.

    Fuel.  Loops that run over a count or a list recurse on it.  The others
    take fuel, and the theorems say how much is enough: the length of the list
    or of the range searched for [List_len] and [Bitmap::find], 22 rounds for
    the heap's grow loop (the request is halved from at most 2^21 bytes on
    until it is granted or too small), the height bound of a red-black tree
    for its loops, 5 levels and 2 rounds per level for mapping one page, 5 for
    a query, the length of the buffer for the device tree, the number of nodes
    of a page list for a walk over it, the entries of a reg property for its
    scan, the pages of a list for wiring them.  No theorem about a
    result is conditional on the fuel having been enough.

    ** What is proved

    - Lists: every operation refines the sequence it stands for; splicing;
      length; what iteration really yields.
    - Heap: allocation, release and aligned allocation keep the invariant of
      the heap, answer with a block that was free, fit and aligned as asked,
      leave the other live blocks and every byte of their payloads alone, and
      fail only when the page allocator refuses a request they made; an
      allocation has at most one request of at most 2 MiB granted, a release
      none; live blocks never overlap; size classes; initialisation.  The
      kernel's own test of the heap passes on every heap that keeps the
      invariant: the patterns it writes are found again.
    - Red-black tree: insertion keeps order, colours and black height and adds
      exactly the key; lookup and ordered iteration are those of the sorted
      sequence.  Page lists: store and lookup, visiting of a range.
    - Physical memory: adding an arena establishes the invariant (every page
      has one descriptor, free pages are exactly those on the free list);
      page, multi-page and range allocation; address to page.  Adding the
      arenas of all memory regions and taking the reserved pages.
    - Address space: mapping and querying refine a partial map from pages to
      frames, errors included; the regions at boot; the gaps of the physmap;
      the lowest free spot of a region; the composition in
      [alloc_map_pages].
    - Boot: reservations stay sorted and disjoint, the search finds the
      highest free range; the boot allocator's live blocks are disjoint.
      From the static state the first initialisers of [_lk_main] establish the
      invariants the later ones start from; the boot thread and its
      scheduler's bookkeeping; memory ranges and the layout of peripheral
      windows; a scan finds exactly the ranges of the device tree, and ends, and
      the bytes of an encoded tree become the arenas of its memory nodes.
    - Mutex: mutual exclusion, serialisability of the updates, and progress
      over all interleavings.  Threads: priorities and weights, the preemption
      counter.  Page objects keep their field widths.
    - Memory objects: creation on every branch without pinning, and pinning of
      a range with its effect on the page queues, errors included.
    - Bitmap: set and clear on the bits a word has, and what [find] and
      [reverse_scan] really return.
    - Device tree: loading returns on every buffer; loading inverts a
      reference encoder; look-up follows the path.  Printed words read back.
    - Behaviours that differ from what the code means to do are stated as
      theorems too: [List_iter_skips_first], [bitmap_alloc_overlaps],
      [small_block_free_corrupts], [map_pages_misplaces],
      [setup_vm_large_image], [mark_pages_in_use_faults], [memory_setup_stops],
      [process_mem_ranges_ram], [Mutex_thread_zero],
      [memset_writes_one_byte] and the branches of the theorems above that say
      what happens when memory runs out.

    ** Not modelled

    The effect of assembly is modelled where code relies on it (tp, sstatus,
    [arch_zero_page], [ecall]); start.S, the firmware, the TLB and interrupts
    are not.  Output is left out of all files but Console.v, and the
    formatting of core::fmt altogether.  Vec, String and Arc are lists,
    strings and addresses: the memory they take from the global allocator is
    not tracked.  Locks around single-threaded boot code are left out of the
    models of the code they guard, except in VmCow.v and Thread.v; the
    atomics of Mutex.v are sequentially consistent.  Getters of linker symbols
    are the parameters themselves, and declarations without code (modules,
    type aliases, marker impls) have nothing to model.  Functions that are [todo!] panic. *)

From Stdlib Require Export ZArith Lia.
From stdpp Require Export base tactics numbers option list gmap.

#[global] Open Scope Z_scope.
#[global] Set Default Goal Selector "!".

(** ** Errors and results *)

(** [ErrNO] of errors.rs, constructor for constructor. *)
Inductive ErrNO :=
  | _OK
  | NotFound | NotSupported | NoResources | AlreadyExists
  | InvalidArgs
  | NoDev | NoMem
  | BadAlign | OutOfRange
  | LackBuf
  | NoDTB | BadDTB
  | BadState
  | BadRange.

#[export] Instance ErrNO_eq_dec : EqDecision ErrNO.
Proof. solve_decision. Defined.

(** Rust's [Result<A, ErrNO>]. *)
Inductive Result (A : Type) :=
  | Ok (a : A)
  | Err (e : ErrNO).
Arguments Ok {A} a.
Arguments Err {A} e.

(** What running a piece of kernel code can lead to: a value, a panic
    ([panic!], [todo!], a failed [ZX_ASSERT!], an index out of bounds), an
    access through a pointer to no live object, or, for the loops that are
    modelled with fuel, no answer within the fuel. *)
Inductive outcome (A : Type) :=
  | Ret (a : A)
  | Panic
  | Fault
  | Spin.
Arguments Ret {A} a.
Arguments Panic {A}.
Arguments Fault {A}.
Arguments Spin {A}.

#[export] Instance outcome_ret : MRet outcome := λ A a, Ret a.
#[export] Instance outcome_bind : MBind outcome := λ A B f m,
  match m with Ret a => f a | Panic => Panic | Fault => Fault | Spin => Spin end.

(** State passing over [outcome]: the code that mutates memory reachable from
    a [self] or from a global. *)
Definition M (S A : Type) : Type := S → outcome (A * S).

#[export] Instance M_ret S : MRet (M S) := λ A a s, Ret (a, s).
#[export] Instance M_bind S : MBind (M S) := λ A B f m s,
  match m s with
  | Ret (a, s') => f a s'
  | Panic => Panic | Fault => Fault | Spin => Spin
  end.

Section M_ops.
Context {S : Type}.

Definition getS : M S S := λ s, Ret (s, s).
Definition putS (s : S) : M S unit := λ _, Ret ((), s).
Definition modifyS (f : S → S) : M S unit := λ s, Ret ((), f s).
Definition panic {A} : M S A := λ _, Panic.
Definition fault {A} : M S A := λ _, Fault.
Definition spin {A} : M S A := λ _, Spin.
(** [ZX_ASSERT!]. *)
Definition zx_assert (b : bool) : M S unit := if b then mret () else panic.
(** A read through a raw pointer. *)
Definition deref {A} (o : S → option A) : M S A :=
  λ s, match o s with Some a => Ret (a, s) | None => Fault end.

(** Rust's [?] on a [Result]. *)
Definition bindR {A B} (m : M S (Result A)) (k : A → M S (Result B)) :
    M S (Result B) :=
  m ≫= λ r, match r with Ok a => k a | Err e => mret (Err e) end.

(** Run code of a component inside a larger state. *)
Definition zoom {T A} (get : S → T) (set : T → S → S) (m : M T A) : M S A :=
  λ s, match m (get s) with
       | Ret (a, t) => Ret (a, set t s)
       | Panic => Panic | Fault => Fault | Spin => Spin
       end.
End M_ops.

Notation "x ←? m ; k" := (bindR m (λ x, k))
  (at level 20, m at level 100, k at level 200, only parsing) : stdpp_scope.

(** Symbolic execution: a bind whose first part is known to run. *)
Lemma M_bind_run {S A B} (m : M S A) (k : A → M S B) s a s' :
  m s = Ret (a, s') → (m ≫= k) s = k a s'.
Proof. intros H. unfold mbind, M_bind. by rewrite H. Qed.

Lemma bindR_run {S A B} (m : M S (Result A)) (k : A → M S (Result B)) s a s' :
  m s = Ret (Ok a, s') → bindR m k s = k a s'.
Proof. intros H. unfold bindR. by rewrite (M_bind_run _ _ _ _ _ H). Qed.

Lemma bindR_err {S A B} (m : M S (Result A)) (k : A → M S (Result B)) s e s' :
  m s = Ret (Err e, s') → bindR m k s = Ret (Err e, s').
Proof. intros H. unfold bindR. by rewrite (M_bind_run _ _ _ _ _ H). Qed.

Lemma M_bind_inv {S A B} (m : M S A) (k : A → M S B) s b s'' :
  (m ≫= k) s = Ret (b, s'') →
  ∃ a s', m s = Ret (a, s') ∧ k a s' = Ret (b, s'').
Proof.
  unfold mbind, M_bind. destruct (m s) as [[a s']| | |]; intros H; try done.
  eauto.
Qed.

Lemma deref_run {S A} (o : S → option A) s a :
  o s = Some a → deref o s = Ret (a, s).
Proof. unfold deref. by intros ->. Qed.

Lemma zx_assert_true {S} (b : bool) (s : S) :
  b = true → zx_assert b s = Ret ((), s).
Proof. by intros ->. Qed.

(** Run the head of a monadic program: a known read, a passed assertion, a
    state update, a called operation whose run is a hypothesis. *)
Ltac step :=
  match goal with
  | |- context [(mbind ?k ?m) ?s] =>
      first
        [ erewrite (M_bind_run m k s) by (reflexivity || eassumption)
        | erewrite (M_bind_run m k s) by (eapply deref_run; first [eassumption | by simplify_map_eq])
        | erewrite (M_bind_run m k s) by (apply zx_assert_true; first [eassumption | reflexivity]) ]
  | |- context [bindR ?m ?k ?s] =>
      first [ erewrite (bindR_run m k s) by (reflexivity || eassumption)
            | erewrite (bindR_err m k s) by (reflexivity || eassumption) ]
  end.

(** Closed decidable goals. *)
Ltac by_compute := apply (bool_decide_unpack _); vm_compute; exact I.

(** Replace a closed term by its value. *)
Ltac vm_replace a b := replace a with b by (vm_compute; reflexivity).

(** ** Machine words *)

(** [usize] is a [Z] in [[0, 2^64)].  The kernel is built with [--release]
    (kernel/Makefile), so overflow wraps and a shift amount is taken modulo
    the width. *)
Definition usize_max : Z := Z.ones 64.
Definition usize_wrap (z : Z) : Z := z mod 2 ^ 64.
Definition uadd (a b : Z) : Z := usize_wrap (a + b).
Definition usub (a b : Z) : Z := usize_wrap (a - b).
Definition umul (a b : Z) : Z := usize_wrap (a * b).
Definition ushl (a n : Z) : Z := usize_wrap (Z.shiftl a (n mod 64)).
Definition ushr (a n : Z) : Z := Z.shiftr a (n mod 64).
Definition unot (a : Z) : Z := Z.lxor a usize_max.
Definition is_usize (z : Z) : Prop := 0 ≤ z < 2 ^ 64.

(** [u32], the same way. *)
Definition u32_max : Z := Z.ones 32.
Definition u32_wrap (z : Z) : Z := z mod 2 ^ 32.
Definition is_u32 (z : Z) : Prop := 0 ≤ z < 2 ^ 32.

#[export] Instance is_usize_dec z : Decision (is_usize z).
Proof. unfold is_usize. apply _. Defined.

Create HintDb word.

Lemma usize_wrap_small z : is_usize z → usize_wrap z = z.
Proof. unfold is_usize, usize_wrap. intros. by rewrite Z.mod_small. Qed.

Lemma usize_wrap_range z : is_usize (usize_wrap z).
Proof. apply Z.mod_pos_bound. lia. Qed.

Lemma uadd_small a b : is_usize (a + b) → uadd a b = a + b.
Proof. apply usize_wrap_small. Qed.

Lemma usub_small a b : is_usize (a - b) → usub a b = a - b.
Proof. apply usize_wrap_small. Qed.

Lemma umul_small a b : is_usize (a * b) → umul a b = a * b.
Proof. apply usize_wrap_small. Qed.

#[export] Hint Resolve usize_wrap_range : word.
#[export] Hint Extern 1 (is_usize _) => (unfold is_usize in *; lia) : word.

(** Remove wrap-around where the operands are small enough for it. *)
Ltac unwrap :=
  repeat first
    [ rewrite uadd_small in * by (unfold is_usize in *; lia)
    | rewrite usub_small in * by (unfold is_usize in *; lia)
    | rewrite umul_small in * by (unfold is_usize in *; lia)
    | rewrite usize_wrap_small in * by (unfold is_usize in *; lia) ].

(** Bits of words. *)
Lemma usize_max_testbit i : Z.testbit usize_max i = bool_decide (0 ≤ i < 64).
Proof.
  unfold usize_max. case_bool_decide as H.
  - apply Z.ones_spec_low. lia.
  - destruct (decide (i < 0)) as [|]; [by apply Z.testbit_neg_r|].
    apply Z.ones_spec_high. lia.
Qed.

(** Bounds by bits, for any width. *)
Lemma u_bits_bound n x : 0 ≤ n → 0 ≤ x → (∀ l, n ≤ l → Z.testbit x l = false) → 0 ≤ x < 2 ^ n.
Proof.
  intros Hn Hx Hb. split; [done|]. destruct (decide (x = 0)) as [->|]; [lia|].
  apply Z.log2_lt_pow2; [lia|]. destruct (decide (n ≤ Z.log2 x)) as [Hl|]; [|lia].
  specialize (Hb _ Hl). rewrite Z.bit_log2 in Hb by lia. done.
Qed.

Lemma u_bits_high n x l : 0 ≤ x < 2 ^ n → n ≤ l → Z.testbit x l = false.
Proof.
  intros [H0 Hx] Hl. destruct (decide (x = 0)) as [->|]; [apply Z.bits_0|].
  apply Z.bits_above_log2; [lia|]. apply Z.log2_lt_pow2 in Hx; lia.
Qed.

Lemma u_lor_bound n x y : 0 ≤ n → 0 ≤ x < 2 ^ n → 0 ≤ y < 2 ^ n → 0 ≤ Z.lor x y < 2 ^ n.
Proof.
  intros Hn Hx Hy. apply u_bits_bound; [done|apply Z.lor_nonneg; lia|].
  intros l Hl. by rewrite Z.lor_spec, !(u_bits_high n).
Qed.

Lemma u_land_bound n x y : 0 ≤ n → 0 ≤ x < 2 ^ n → 0 ≤ Z.land x y < 2 ^ n.
Proof.
  intros Hn Hx. apply u_bits_bound; [done|apply Z.land_nonneg; lia|].
  intros l Hl. by rewrite Z.land_spec, (u_bits_high n x).
Qed.

Lemma usize_testbit_high z i : is_usize z → 64 ≤ i → Z.testbit z i = false.
Proof. apply u_bits_high. Qed.

Lemma unot_testbit z i :
  0 ≤ i < 64 → Z.testbit (unot z) i = negb (Z.testbit z i).
Proof.
  intros Hi. unfold unot. rewrite Z.lxor_spec, usize_max_testbit.
  rewrite bool_decide_true by done. by destruct (Z.testbit z i).
Qed.

Lemma usize_wrap_testbit z i :
  Z.testbit (usize_wrap z) i = bool_decide (i < 64) && Z.testbit z i.
Proof.
  unfold usize_wrap. case_bool_decide; simpl.
  - by apply Z.mod_pow2_bits_low.
  - apply Z.mod_pow2_bits_high. lia.
Qed.

Lemma is_usize_bits z :
  0 ≤ z → (∀ i, 64 ≤ i → Z.testbit z i = false) → is_usize z.
Proof. by apply u_bits_bound. Qed.

Lemma land_usize_l a b : is_usize a → 0 ≤ b → is_usize (Z.land a b).
Proof.
  intros Ha Hb. apply is_usize_bits.
  - apply Z.land_nonneg. left. apply Ha.
  - intros i Hi. by rewrite Z.land_spec, (usize_testbit_high a i).
Qed.

Lemma lor_usize a b : is_usize a → is_usize b → is_usize (Z.lor a b).
Proof.
  intros Ha Hb. apply is_usize_bits.
  - apply Z.lor_nonneg. split; [apply Ha|apply Hb].
  - intros i Hi. by rewrite Z.lor_spec, !usize_testbit_high.
Qed.

Lemma unot_usize a : is_usize a → is_usize (unot a).
Proof.
  intros Ha. apply is_usize_bits.
  - apply Z.lxor_nonneg. split; [intros _; unfold usize_max; done|].
    intros _. apply Ha.
  - intros i Hi. unfold unot.
    by rewrite Z.lxor_spec, usize_max_testbit, (usize_testbit_high a i),
      bool_decide_false by (done || lia).
Qed.

#[export] Hint Resolve land_usize_l lor_usize unot_usize : word.

(** Bits that do not meet add up. *)
Lemma lor_add a b n : 0 ≤ n → 0 ≤ b < 2 ^ n → Z.lor (a * 2 ^ n) b = a * 2 ^ n + b.
Proof.
  intros Hn Hb.
  assert (Z.land (a * 2 ^ n) b = 0) as Hl.
  { apply Z.bits_inj'. intros i Hi. rewrite Z.land_spec, Z.bits_0.
    destruct (decide (i < n)); [by rewrite Z.mul_pow2_bits_low|].
    rewrite <-(Z.mod_small b (2 ^ n)), Z.mod_pow2_bits_high, andb_false_r by lia. done. }
  by rewrite <-Z.lxor_lor, <-Z.add_nocarry_lxor.
Qed.

(** ** Lists *)

Lemma list_filter_keep {A} (P : A → Prop) `{!∀ x, Decision (P x)} (l : list A) :
  (∀ x, x ∈ l → P x) → filter P l = l.
Proof.
  induction l as [|x l IH]; intros Hp; [done|].
  rewrite filter_cons_True by (apply Hp; set_solver). f_equal.
  apply IH. intros y Hy. apply Hp. set_solver.
Qed.

Lemma disjoint_Forall `{EqDecision A} (l k : list A) : Forall (λ x, x ∉ k) l → l ## k.
Proof. rewrite Forall_forall. intros Hf x Hl Hk. by apply (Hf x). Qed.

(** ** Leading and trailing zeros of machine words *)

(** [usize::trailing_zeros]. *)
Fixpoint pos_ctz (p : positive) : Z :=
  match p with xO q => 1 + pos_ctz q | _ => 0 end.
Definition trailing_zeros (z : Z) : Z :=
  match z with Zpos p => pos_ctz p | _ => 64 end.
(** [usize::leading_zeros]. *)
Definition leading_zeros (z : Z) : Z := if z =? 0 then 64 else 63 - Z.log2 z.

Lemma pos_ctz_nonneg p : 0 ≤ pos_ctz p.
Proof. induction p; simpl; lia. Qed.

Lemma pos_ctz_spec p :
  Z.testbit (Z.pos p) (pos_ctz p) = true ∧
  ∀ i, 0 ≤ i < pos_ctz p → Z.testbit (Z.pos p) i = false.
Proof.
  induction p as [p _|p [IH1 IH2]|]; simpl pos_ctz.
  - split; [done|lia].
  - pose proof (pos_ctz_nonneg p). change (Z.pos p~0) with (2 * Z.pos p). split.
    + replace (1 + pos_ctz p) with (Z.succ (pos_ctz p)) by lia.
      by rewrite Z.double_bits_succ.
    + intros i Hi. destruct (decide (i = 0)) as [->|]; [by rewrite Z.testbit_even_0|].
      replace i with (Z.succ (i - 1)) by lia. rewrite Z.double_bits_succ.
      apply IH2. lia.
  - split; [done|lia].
Qed.

Lemma trailing_zeros_spec z :
  is_usize z → z ≠ 0 →
  0 ≤ trailing_zeros z < 64 ∧ Z.testbit z (trailing_zeros z) = true ∧
  ∀ i, 0 ≤ i < trailing_zeros z → Z.testbit z i = false.
Proof.
  intros Hz Hne. destruct z as [|p|p]; [done| |unfold is_usize in Hz; lia].
  destruct (pos_ctz_spec p) as [H1 H2]. simpl. split; [|done].
  split; [apply pos_ctz_nonneg|].
  destruct (decide (pos_ctz p < 64)) as [|Hge]; [done|].
  rewrite usize_testbit_high in H1 by (done || lia). done.
Qed.

Lemma leading_zeros_spec z :
  is_usize z → z ≠ 0 →
  0 ≤ leading_zeros z < 64 ∧ Z.testbit z (63 - leading_zeros z) = true ∧
  ∀ i, 63 - leading_zeros z < i → Z.testbit z i = false.
Proof.
  intros Hz Hne. unfold leading_zeros. rewrite (proj2 (Z.eqb_neq z 0)) by done.
  assert (0 < z) by (unfold is_usize in Hz; lia).
  pose proof (Z.log2_nonneg z).
  assert (Z.log2 z < 64) by (apply Z.log2_lt_pow2; [done|apply Hz]).
  split; [lia|]. replace (63 - (63 - Z.log2 z)) with (Z.log2 z) by lia.
  split; [by apply Z.bit_log2|]. intros i Hi. apply Z.bits_above_log2; lia.
Qed.

Lemma usize_eq_0 z : is_usize z → (∀ i, 0 ≤ i < 64 → Z.testbit z i = false) → z = 0.
Proof.
  intros Hz Hb. apply Z.bits_inj'. intros i Hi. rewrite Z.bits_0.
  destruct (decide (i < 64)); [apply Hb; lia|apply usize_testbit_high; [done|lia]].
Qed.
