(* ===== verification/Defs.v ===== *)
(** * Constants, alignment macros, ranges and the physmap

    Models kernel/src/config_generated.rs, defines.rs, align.rs,
    klib/range.rs and cpu.rs.  The theorems show that the alignment macros are
    exact for powers of two, that the range tests decide what their names say
    on machine words, that [NBITS!] counts bits, and that the physmap
    translation is a bijection between its two windows. *)

From S2P Require Import Prelude.

(** ** config_generated.rs and defines.rs *)

Definition _CONFIG_KERNEL_BASE : Z := 0xffffffff00000000.
Definition _CONFIG_PAGE_SHIFT : Z := 12.
Definition _CONFIG_NR_CPUS : Z := 8.
Definition _CONFIG_KERNEL_ASPACE_BASE : Z := 0xffff000000000000.
Definition _CONFIG_ARCH_PHYSMAP_SIZE : Z := Z.shiftl 1 39.
Definition _CONFIG_MMU_MAX_LEVEL : Z := 5.
Definition _CONFIG_HEAP_MAX_SIZE_MB : Z := 2048.
Definition _CONFIG_ARCH_HEAP_ALIGN_BITS : Z := 21.

Definition BYTE_BITS : Z := 8.
Definition BYTES_PER_USIZE : Z := 64 / 8.
Definition PAGE_SHIFT : Z := _CONFIG_PAGE_SHIFT.
Definition PAGE_SIZE : Z := ushl 1 PAGE_SHIFT.
Definition PAGE_MASK : Z := unot (PAGE_SIZE - 1).
Definition KERNEL_BASE : Z := _CONFIG_KERNEL_BASE.
Definition ARCH_PHYSMAP_SIZE : Z := _CONFIG_ARCH_PHYSMAP_SIZE.
Definition MMU_MAX_LEVEL : Z := _CONFIG_MMU_MAX_LEVEL.
Definition KERNEL_ASPACE_BASE : Z := _CONFIG_KERNEL_ASPACE_BASE.
Definition KERNEL_ASPACE_SIZE : Z := usub 0 _CONFIG_KERNEL_ASPACE_BASE.
Definition KERNEL_ASPACE_MASK : Z := KERNEL_ASPACE_SIZE - 1.
Definition HEAP_MAX_SIZE_MB : Z := _CONFIG_HEAP_MAX_SIZE_MB.
Definition ARCH_HEAP_ALIGN_BITS : Z := _CONFIG_ARCH_HEAP_ALIGN_BITS.
Definition ARCH_DEFAULT_STACK_SIZE : Z := 8192.
Definition SMP_MAX_CPUS : Z := _CONFIG_NR_CPUS.
Definition MB : Z := 1024 * 1024.

(** The [NBITS!] family: each macro halves the width it looks at. *)
Definition IFTE {A} (c : Z) (t e : A) : A := if c =? 0 then e else t.
Definition NBITS01 (n : Z) : Z := IFTE n 1 0.
Definition NBITS02 (n : Z) : Z := IFTE (ushr n 1) (1 + NBITS01 (ushr n 1)) (NBITS01 n).
Definition NBITS04 (n : Z) : Z := IFTE (ushr n 2) (2 + NBITS02 (ushr n 2)) (NBITS02 n).
Definition NBITS08 (n : Z) : Z := IFTE (ushr n 4) (4 + NBITS04 (ushr n 4)) (NBITS04 n).
Definition NBITS16 (n : Z) : Z := IFTE (ushr n 8) (8 + NBITS08 (ushr n 8)) (NBITS08 n).
Definition NBITS32 (n : Z) : Z := IFTE (ushr n 16) (16 + NBITS16 (ushr n 16)) (NBITS16 n).
Definition NBITS (n : Z) : Z := IFTE (ushr n 32) (32 + NBITS32 (ushr n 32)) (NBITS32 n).

Definition KERNEL_ASPACE_BITS : Z := NBITS KERNEL_ASPACE_MASK.

Definition PHYSMAP_BASE : Z := KERNEL_ASPACE_BASE.
Definition PHYSMAP_SIZE : Z := ARCH_PHYSMAP_SIZE.
Definition PHYSMAP_BASE_PHYS : Z := 0.

Definition is_physmap_addr (va : Z) : bool :=
  (PHYSMAP_BASE <=? va) && (usub va PHYSMAP_BASE <? PHYSMAP_SIZE).

Definition is_physmap_phys_addr (pa : Z) : bool :=
  usub pa PHYSMAP_BASE_PHYS <? PHYSMAP_SIZE.

Definition paddr_to_physmap (pa : Z) : Z :=
  uadd (usub pa PHYSMAP_BASE_PHYS) PHYSMAP_BASE.

Definition physmap_to_paddr (va : Z) : outcome Z :=
  if is_physmap_addr va
  then Ret (uadd (usub va PHYSMAP_BASE) PHYSMAP_BASE_PHYS)
  else Panic.

(** [_start] and [_kernel_base_phys] come from the linker script: parameters. *)
Definition kernel_va_to_pa (kernel_base_virt kernel_base_phys va : Z) : outcome Z :=
  if is_physmap_addr va then Panic
  else Ret (uadd (usub va kernel_base_virt) kernel_base_phys).

(** ** align.rs *)

Definition ROUNDUP (a b : Z) : Z := Z.land (uadd a (usub b 1)) (unot (usub b 1)).
Definition ROUNDDOWN (a b : Z) : Z := Z.land a (unot (usub b 1)).
Definition ALIGN (a b : Z) : Z := ROUNDUP a b.
Definition IS_ALIGNED (a b : Z) : bool := Z.land a (usub b 1) =? 0.
Definition PAGE_ALIGN (a : Z) : Z := ALIGN a PAGE_SIZE.
Definition ROUNDUP_PAGE_SIZE (x : Z) : Z := ROUNDUP x PAGE_SIZE.
Definition IS_PAGE_ALIGNED (x : Z) : bool := IS_ALIGNED x PAGE_SIZE.

(** ** klib/range.rs *)

Definition intersects (offset1 len1 offset2 len2 : Z) : bool :=
  if (len1 =? 0) || (len2 =? 0) then false
  else if offset1 <=? offset2
  then if uadd offset1 len1 <=? offset2 then false else true
  else if uadd offset2 len2 <=? offset1 then false else true.

Definition is_in_range (offset len min max : Z) : bool :=
  let offset := usub offset min in
  let max := usub max min in
  if uadd offset len <? offset then false
  else if max <? offset then false
  else if max <? uadd offset len then false
  else true.

(** ** cpu.rs *)

Definition INVALID_CPU : Z := usize_max.
Definition CPU_MASK_ALL : Z := usize_max.
Definition is_valid_cpu_num (num : Z) : bool := num <? SMP_MAX_CPUS.
Definition cpu_num_to_mask (num : Z) : Z :=
  if negb (is_valid_cpu_num num) then 0 else ushl 1 num.

(** ** Alignment *)

Lemma land_unot_pow2 a k :
  is_usize a → 0 ≤ k < 64 → Z.land a (unot (2 ^ k - 1)) = a - a mod 2 ^ k.
Proof.
  intros Ha Hk.
  assert (a - a mod 2 ^ k = Z.shiftl (Z.shiftr a k) k) as ->.
  { rewrite Z.shiftl_mul_pow2, Z.shiftr_div_pow2 by lia.
    pose proof (Z.div_mod a (2 ^ k) ltac:(lia)). lia. }
  replace (2 ^ k - 1) with (Z.ones k) by (rewrite Z.ones_equiv; lia).
  apply Z.bits_inj'. intros i Hi. rewrite Z.land_spec, Z.shiftl_spec by lia.
  destruct (decide (i < k)) as [Hlt|Hge].
  - rewrite unot_testbit, Z.ones_spec_low, (Z.testbit_neg_r _ (i - k)) by lia.
    by rewrite andb_false_r.
  - rewrite Z.shiftr_spec by lia. replace (i - k + k) with i by lia.
    destruct (decide (i < 64)).
    + rewrite unot_testbit, Z.ones_spec_high by lia. apply andb_true_r.
    + by rewrite (usize_testbit_high a) by (done || lia).
Qed.

Lemma usub_pow2_1 k : 0 ≤ k < 64 → usub (2 ^ k) 1 = 2 ^ k - 1.
Proof.
  intros Hk. apply usub_small.
  assert (0 < 2 ^ k < 2 ^ 64).
  { split; [lia|]. apply Z.pow_lt_mono_r; lia. }
  unfold is_usize. lia.
Qed.

Lemma pow2_lt_usize k : 0 ≤ k < 64 → 0 < 2 ^ k < 2 ^ 64.
Proof. intros. split; [lia|]. apply Z.pow_lt_mono_r; lia. Qed.

Lemma ROUNDDOWN_spec a k :
  is_usize a → 0 ≤ k < 64 → ROUNDDOWN a (2 ^ k) = a - a mod 2 ^ k.
Proof. intros. unfold ROUNDDOWN. by rewrite usub_pow2_1, land_unot_pow2. Qed.

Lemma ROUNDUP_spec a k :
  0 ≤ k < 64 → 0 ≤ a → a + 2 ^ k - 1 < 2 ^ 64 →
  ROUNDUP a (2 ^ k) = (a + (2 ^ k - 1)) - (a + (2 ^ k - 1)) mod 2 ^ k.
Proof.
  intros Hk Ha Hb. unfold ROUNDUP. rewrite usub_pow2_1 by done.
  pose proof (pow2_lt_usize k Hk).
  rewrite uadd_small by (unfold is_usize; lia).
  apply land_unot_pow2; [unfold is_usize; lia|done].
Qed.

Lemma IS_ALIGNED_spec a k :
  0 ≤ k < 64 → IS_ALIGNED a (2 ^ k) = true ↔ a mod 2 ^ k = 0.
Proof.
  intros Hk. unfold IS_ALIGNED. rewrite usub_pow2_1 by done.
  rewrite <-Z.land_ones, Z.ones_equiv, <-Z.sub_1_r by lia. by rewrite Z.eqb_eq.
Qed.

Lemma PAGE_SIZE_eq : PAGE_SIZE = 2 ^ 12.
Proof. done. Qed.

Lemma IS_PAGE_ALIGNED_spec a : IS_PAGE_ALIGNED a = true ↔ a mod 4096 = 0.
Proof. apply (IS_ALIGNED_spec a 12). lia. Qed.

Lemma IS_PAGE_ALIGNED_false a : IS_PAGE_ALIGNED a = false ↔ a mod 4096 ≠ 0.
Proof. rewrite <-not_true_iff_false, IS_PAGE_ALIGNED_spec. done. Qed.

Lemma ROUNDUP_bounds a k :
  0 ≤ k < 64 → 0 ≤ a → a + 2 ^ k - 1 < 2 ^ 64 →
  (2 ^ k | ROUNDUP a (2 ^ k)) ∧ a ≤ ROUNDUP a (2 ^ k) < a + 2 ^ k.
Proof.
  intros Hk Ha Hb. rewrite ROUNDUP_spec by done.
  set (x := a + (2 ^ k - 1)).
  pose proof (Z.mod_pos_bound x (2 ^ k) ltac:(lia)).
  split; [|lia]. apply Z.mod_divide; [lia|].
  rewrite Zminus_mod, Z.mod_mod, Z.sub_diag by lia. done.
Qed.

Lemma ROUNDUP_page x :
  0 ≤ x → x + 4095 < 2 ^ 64 → ROUNDUP x PAGE_SIZE = (x + 4095) / 4096 * 4096.
Proof.
  intros Hx Hb. rewrite PAGE_SIZE_eq, ROUNDUP_spec by lia.
  change (2 ^ 12) with 4096. replace (x + (4096 - 1)) with (x + 4095) by lia.
  pose proof (Z.div_mod (x + 4095) 4096 ltac:(lia)). lia.
Qed.

(** ** Ranges *)

Lemma intersects_spec o1 l1 o2 l2 :
  0 ≤ o1 → 0 ≤ l1 → 0 ≤ o2 → 0 ≤ l2 → o1 + l1 < 2 ^ 64 → o2 + l2 < 2 ^ 64 →
  intersects o1 l1 o2 l2 = true ↔ ∃ x, o1 ≤ x < o1 + l1 ∧ o2 ≤ x < o2 + l2.
Proof.
  intros. unfold intersects. unwrap.
  split.
  - intros Hi. exists (Z.max o1 o2).
    destruct (Z.eqb_spec l1 0), (Z.eqb_spec l2 0); simpl in Hi; try done.
    destruct (Z.leb_spec o1 o2).
    + destruct (Z.leb_spec (o1 + l1) o2); [done|lia].
    + destruct (Z.leb_spec (o2 + l2) o1); [done|lia].
  - intros (x & Hx1 & Hx2).
    destruct (Z.eqb_spec l1 0), (Z.eqb_spec l2 0); simpl; try lia.
    destruct (Z.leb_spec o1 o2).
    + destruct (Z.leb_spec (o1 + l1) o2); [lia|done].
    + destruct (Z.leb_spec (o2 + l2) o1); [lia|done].
Qed.

Lemma intersects_disjoint o1 l1 o2 l2 :
  0 ≤ o1 → 0 < l1 → 0 ≤ o2 → 0 < l2 → o1 + l1 < 2 ^ 64 → o2 + l2 < 2 ^ 64 →
  intersects o1 l1 o2 l2 = false ↔ o1 + l1 ≤ o2 ∨ o2 + l2 ≤ o1.
Proof.
  intros. rewrite <-not_true_iff_false, intersects_spec by lia. split.
  - intros Hn. destruct (decide (o1 + l1 ≤ o2 ∨ o2 + l2 ≤ o1)) as [|Hd]; [done|].
    destruct Hn. exists (Z.max o1 o2). lia.
  - intros ? (x & ? & ?). lia.
Qed.

(** Doc of range.rs: the test never wraps; an offset below [min] is rejected
    although the subtraction wraps. *)
Lemma is_in_range_spec offset len mn mx :
  is_usize offset → is_usize len → is_usize mx → 0 ≤ mn ≤ mx →
  is_in_range offset len mn mx = true ↔ mn ≤ offset ∧ offset + len ≤ mx.
Proof.
  unfold is_usize. intros Ho Hl Hx Hmn. unfold is_in_range.
  rewrite (usub_small mx mn) by (unfold is_usize; lia).
  assert (usub offset mn = if decide (mn ≤ offset) then offset - mn
                           else offset - mn + 2 ^ 64) as ->.
  { unfold usub, usize_wrap. case_decide; [rewrite Z.mod_small; lia|].
    rewrite <-(Z.mod_add _ 1), Z.mod_small by lia. lia. }
  case_decide as Hc.
  - unfold uadd, usize_wrap.
    destruct (decide (offset - mn + len < 2 ^ 64)) as [Hs|Hs].
    + rewrite (Z.mod_small (offset - mn + len)) by lia.
      repeat case_match; lia.
    + assert ((offset - mn + len) mod 2 ^ 64 = offset - mn + len - 2 ^ 64) as ->.
      { rewrite <-(Z.mod_add _ (-1)), Z.mod_small by lia. lia. }
      repeat case_match; lia.
  - set (o' := offset - mn + 2 ^ 64).
    assert (Z.ltb (mx - mn) o' = true) as -> by (apply Z.ltb_lt; lia).
    repeat case_match; (split; [done|lia]).
Qed.

(** ** Bit counting *)

Lemma NBITS_step k f n :
  0 ≤ k < 64 → 0 ≤ n →
  (∀ x, 0 < x < 2 ^ k → f x = Z.log2 x + 1) →
  0 < n < 2 ^ (2 * k) →
  IFTE (ushr n k) (k + f (ushr n k)) (f n) = Z.log2 n + 1.
Proof.
  intros Hk Hn Hf Hb. unfold IFTE, ushr. rewrite (Z.mod_small k 64) by done.
  rewrite Z.shiftr_div_pow2 by lia.
  assert (0 < 2 ^ k) by lia.
  destruct (Z.eqb_spec (n / 2 ^ k) 0) as [E|E].
  - apply Hf. split; [lia|]. apply Z.div_small_iff in E; lia.
  - assert (0 < n / 2 ^ k) by (pose proof (Z.div_pos n (2 ^ k)); lia).
    rewrite Hf.
    + rewrite <-Z.shiftr_div_pow2, Z.log2_shiftr by lia.
      assert (k ≤ Z.log2 n); [|lia].
      apply Z.log2_le_pow2; [lia|].
      destruct (decide (2 ^ k ≤ n)); [done|]. rewrite Z.div_small in E by lia. lia.
    + split; [done|]. apply Z.div_lt_upper_bound; [done|].
      rewrite <-Z.pow_add_r by lia. replace (k + k) with (2 * k) by lia. lia.
Qed.

Lemma NBITS_spec n :
  is_usize n → NBITS n = if n =? 0 then 0 else Z.log2 n + 1.
Proof.
  intros [Hn0 Hn]. destruct (Z.eqb_spec n 0) as [->|]; [done|].
  unfold NBITS. apply NBITS_step; [lia|lia| |change (2 * 32) with 64; lia].
  intros n1 H1. apply NBITS_step; [lia|lia| |change (2 * 16) with 32; lia].
  intros n2 H2. apply NBITS_step; [lia|lia| |change (2 * 8) with 16; lia].
  intros n3 H3. apply NBITS_step; [lia|lia| |change (2 * 4) with 8; lia].
  intros n4 H4. apply NBITS_step; [lia|lia| |change (2 * 2) with 4; lia].
  intros n5 H5. apply NBITS_step; [lia|lia| |change (2 * 1) with 2; lia].
  intros n6 H6. assert (n6 = 1) as -> by lia. done.
Qed.

(** ** Physmap *)

Lemma physmap_roundtrip pa :
  is_usize pa → is_physmap_phys_addr pa = true →
  is_physmap_addr (paddr_to_physmap pa) = true ∧
  physmap_to_paddr (paddr_to_physmap pa) = Ret pa.
Proof.
  intros Hpa. unfold is_physmap_phys_addr, PHYSMAP_BASE_PHYS.
  rewrite (usub_small pa 0) by (rewrite Z.sub_0_r; done). rewrite Z.sub_0_r.
  rewrite Z.ltb_lt. change PHYSMAP_SIZE with (2 ^ 39). intros Hlt.
  assert (paddr_to_physmap pa = pa + PHYSMAP_BASE) as ->.
  { unfold paddr_to_physmap, PHYSMAP_BASE_PHYS.
    rewrite (usub_small pa 0) by (rewrite Z.sub_0_r; done). rewrite Z.sub_0_r.
    apply uadd_small. unfold is_usize in *. unfold PHYSMAP_BASE, KERNEL_ASPACE_BASE,
      _CONFIG_KERNEL_ASPACE_BASE. lia. }
  assert (is_physmap_addr (pa + PHYSMAP_BASE) = true) as Hin.
  { unfold is_physmap_addr. rewrite usub_small by (unfold is_usize in *; lia).
    apply andb_true_intro; split; [apply Z.leb_le; unfold is_usize in *; lia|].
    apply Z.ltb_lt. change PHYSMAP_SIZE with (2 ^ 39). lia. }
  split; [done|]. unfold physmap_to_paddr. rewrite Hin.
  rewrite usub_small by (unfold is_usize in *; lia).
  unfold PHYSMAP_BASE_PHYS. rewrite uadd_small by (unfold is_usize in *; lia).
  f_equal. lia.
Qed.
