(* ===== verification/LinkedList.v ===== *)
(** * klib/list.rs: intrusive doubly linked lists

    Memory is a finite map from addresses to [ListNode]s; a [List] object at
    address [h] is its embedded node (at [h], since the struct is [repr(C)])
    and its [ref_node] field.  [dll m h l] says that the list object at [h]
    holds exactly the nodes [l], linked both ways in a cycle through [h].
    Each operation of the file is proved to implement the corresponding
    operation on [l] and to leave every other node alone. *)

From S2P Require Import Prelude.

Definition null : Z := 0.

Record ListNode := mkNode { next : Z; prev : Z }.

Record lmem := mkMem {
  nodes : gmap Z ListNode;
  refs : gmap Z Z;            (* the [ref_node] field of the list objects *)
}.

(** The [Linked<T>] trait: where the node sits inside the element. *)
Class Linked := { node_offset : Z }.

Section linked.
Context `{Linked}.
Definition from_node (ptr : Z) : Z := ptr - node_offset.
Definition into_node (elt : Z) : Z := elt + node_offset.

Lemma from_into_node e : from_node (into_node e) = e.
Proof. unfold from_node, into_node. lia. Qed.
Lemma into_from_node p : into_node (from_node p) = p.
Proof. unfold from_node, into_node. lia. Qed.
End linked.

(** ** Memory accesses *)

Definition node_at (p : Z) : M lmem ListNode := deref (λ m, nodes m !! p).

Definition mset_next (p v : Z) (m : lmem) : lmem :=
  mkMem (alter (λ n, mkNode v (prev n)) p (nodes m)) (refs m).
Definition mset_prev (p v : Z) (m : lmem) : lmem :=
  mkMem (alter (λ n, mkNode (next n) v) p (nodes m)) (refs m).

Definition set_next (p v : Z) : M lmem unit :=
  _ ← node_at p; modifyS (mset_next p v).
Definition set_prev (p v : Z) : M lmem unit :=
  _ ← node_at p; modifyS (mset_prev p v).

(** ** ListNode *)

Definition ListNode_new : ListNode := mkNode null null.

Definition ListNode_init (p : Z) : M lmem unit :=
  set_next p null;; set_prev p null.

Definition ListNode_is_in_list (p : Z) : M lmem bool :=
  n ← node_at p; mret (negb (next n =? null)).

Definition ListNode_delete_from_list (p : Z) : M lmem unit :=
  n ← node_at p;
  if (prev n =? null) || (next n =? null) then mret ()
  else
    set_prev (next n) (prev n);;
    n ← node_at p;
    set_next (prev n) (next n);;
    set_next p null;;
    set_prev p null.

Definition ListNode_next (p : Z) : M lmem Z := n ← node_at p; mret (next n).

(** ** List *)

Definition ref_node (h : Z) : M lmem Z := deref (λ m, refs m !! h).

(** [let mut l = List::new()] with [l] placed at address [h]. *)
Definition List_new (h : Z) : M lmem unit :=
  modifyS (λ m, mkMem (<[h := ListNode_new]> (nodes m)) (<[h := null]> (refs m))).

Definition List_init (h : Z) : M lmem unit :=
  modifyS (λ m, mkMem (nodes m) (<[h := h]> (refs m)));;
  r ← ref_node h;
  set_next h r;;
  set_prev h r.

Definition List_is_initialized (h : Z) : M lmem bool :=
  r ← ref_node h; mret (negb (r =? null)).

Definition List_empty (h : Z) : M lmem bool :=
  n ← node_at h; r ← ref_node h; mret (next n =? r).

Definition add_head_node (h node : Z) : M lmem unit :=
  n ← node_at h;
  set_next node (next n);;
  r ← ref_node h;
  set_prev node r;;
  n ← node_at h;
  set_prev (next n) node;;
  set_next h node.

Definition add_tail_node (h node : Z) : M lmem unit :=
  n ← node_at h;
  set_prev node (prev n);;
  r ← ref_node h;
  set_next node r;;
  n ← node_at h;
  set_next (prev n) node;;
  set_prev h node.

Definition assert_initialized (h : Z) : M lmem unit :=
  b ← List_is_initialized h; zx_assert b.

Definition List_splice (h other : Z) : M lmem unit :=
  assert_initialized h;;
  o ← node_at other;
  ro ← ref_node other;
  if prev o =? ro then mret ()
  else
    n ← node_at h;
    set_prev (next o) (prev n);;
    r ← ref_node h;
    o ← node_at other;
    set_next (prev o) r;;
    n ← node_at h;
    o ← node_at other;
    set_next (prev n) (next o);;
    o ← node_at other;
    set_prev h (prev o);;
    List_init other.

(** [_len]: the loop runs once per node; [fuel] bounds it. *)
Fixpoint List_len_loop (fuel : nat) (r nxt ret : Z) : M lmem Z :=
  match fuel with
  | O => spin
  | S fuel =>
      if nxt =? r then mret ret
      else n ← node_at nxt; List_len_loop fuel r (next n) (uadd ret 1)
  end.

Definition List_len (fuel : nat) (h : Z) : M lmem Z :=
  n ← node_at h;
  zx_assert (negb (next n =? null));;
  r ← ref_node h;
  List_len_loop fuel r (next n) 0.

Section elements.
Context `{Linked}.

Definition Linked_is_in_list (elt : Z) : M lmem bool :=
  ListNode_is_in_list (into_node elt).
Definition Linked_delete_from_list (elt : Z) : M lmem unit :=
  ListNode_delete_from_list (into_node elt).
Definition Linked_next (elt : Z) : M lmem Z :=
  n ← node_at (into_node elt); mret (from_node (next n)).

Definition List_node (h : Z) : M lmem Z := r ← ref_node h; mret (from_node r).

Definition List_add_head (h elt : Z) : M lmem unit :=
  assert_initialized h;; add_head_node h (into_node elt).

Definition List_add_tail (h elt : Z) : M lmem unit :=
  assert_initialized h;; add_tail_node h (into_node elt).

Definition List_head (h : Z) : M lmem Z :=
  assert_initialized h;; n ← node_at h; mret (from_node (next n)).

Definition List_tail (h : Z) : M lmem Z :=
  assert_initialized h;; n ← node_at h; mret (from_node (prev n)).

Definition List_pop_head (h : Z) : M lmem Z :=
  assert_initialized h;;
  n ← node_at h;
  r ← ref_node h;
  if next n =? r then mret null
  else
    head ← List_head h;
    Linked_delete_from_list head;;
    mret head.

(** [Iter] and [IterMut] have the same fields and the same [next]. *)
Record Iter := mkIter { cursor : Z; head : Z }.

Definition List_iter (h : Z) : M lmem Iter :=
  n ← node_at h; r ← ref_node h; mret (mkIter (next n) r).

Definition Iter_next (it : Iter) : M lmem (option Z * Iter) :=
  if cursor it =? head it then mret (None, it)
  else
    n ← node_at (cursor it);
    let it' := mkIter (next n) (head it) in
    mret (Some (from_node (cursor it')), it').

(** A [for] loop over the iterator, collecting what it yields. *)
Fixpoint Iter_collect (fuel : nat) (it : Iter) : M lmem (list Z) :=
  match fuel with
  | O => spin
  | S fuel =>
      p ← Iter_next it;
      match p with
      | (None, _) => mret []
      | (Some e, it') => rest ← Iter_collect fuel it'; mret (e :: rest)
      end
  end.
End elements.

(** ** The view of memory as two partial functions *)

Definition nx (m : lmem) (p : Z) : option Z := next <$> nodes m !! p.
Definition pv (m : lmem) (p : Z) : option Z := prev <$> nodes m !! p.

Lemma nx_set_next p v m q :
  nx (mset_next p v m) q = if decide (q = p) then (λ _, v) <$> nx m p else nx m q.
Proof.
  unfold nx, mset_next; simpl. rewrite lookup_alter.
  repeat case_decide; simplify_eq; try done; by destruct (nodes m !! _).
Qed.
Lemma nx_set_prev p v m q : nx (mset_prev p v m) q = nx m q.
Proof.
  unfold nx, mset_prev; simpl. rewrite lookup_alter.
  case_decide; subst; [|done]; by destruct (nodes m !! _).
Qed.
Lemma pv_set_next p v m q : pv (mset_next p v m) q = pv m q.
Proof.
  unfold pv, mset_next; simpl. rewrite lookup_alter.
  case_decide; subst; [|done]; by destruct (nodes m !! _).
Qed.
Lemma pv_set_prev p v m q :
  pv (mset_prev p v m) q = if decide (q = p) then (λ _, v) <$> pv m p else pv m q.
Proof.
  unfold pv, mset_prev; simpl. rewrite lookup_alter.
  repeat case_decide; simplify_eq; try done; by destruct (nodes m !! _).
Qed.

#[export] Hint Rewrite nx_set_next nx_set_prev pv_set_next pv_set_prev : lmem.

Lemma nodes_nx_pv m p a b :
  nx m p = Some a → pv m p = Some b → nodes m !! p = Some (mkNode a b).
Proof.
  unfold nx, pv. destruct (nodes m !! p) as [[]|]; simpl; [|done]. congruence.
Qed.

Lemma nodes_view m m' p : nx m' p = nx m p → pv m' p = pv m p → nodes m' !! p = nodes m !! p.
Proof.
  unfold nx, pv. destruct (nodes m !! p) as [[]|], (nodes m' !! p) as [[]|];
    simpl; congruence.
Qed.

Lemma set_next_run p v m :
  is_Some (nx m p) → set_next p v m = Ret ((), mset_next p v m).
Proof.
  intros [x Hx]. unfold nx in Hx. unfold set_next.
  apply fmap_Some in Hx as (n & Hn & _).
  erewrite M_bind_run; [|by eapply deref_run]. done.
Qed.
Lemma set_prev_run p v m :
  is_Some (nx m p) → set_prev p v m = Ret ((), mset_prev p v m).
Proof.
  intros [x Hx]. unfold nx in Hx. unfold set_prev.
  apply fmap_Some in Hx as (n & Hn & _).
  erewrite M_bind_run; [|by eapply deref_run]. done.
Qed.

Lemma node_at_run m p a b :
  nx m p = Some a → pv m p = Some b → node_at p m = Ret (mkNode a b, m).
Proof. intros. apply deref_run. by apply nodes_nx_pv. Qed.

(** Solve [nx]/[pv] of an updated memory. *)
Ltac mem_simpl :=
  autorewrite with lmem;
  repeat first [rewrite decide_True by congruence | rewrite decide_False by congruence];
  repeat match goal with
    | H : nx ?m ?p = Some _ |- context [nx ?m ?p] => rewrite H
    | H : pv ?m ?p = Some _ |- context [pv ?m ?p] => rewrite H
    end;
  simpl; try first [eassumption | reflexivity].

(** ** Linked paths *)

Definition link (m : lmem) (a b : Z) : Prop := nx m a = Some b ∧ pv m b = Some a.

Fixpoint path (m : lmem) (ps : list Z) : Prop :=
  match ps with
  | a :: ((b :: _) as t) => link m a b ∧ path m t
  | _ => True
  end.

(** The list object at [h] holds the nodes [l]. *)
Definition dll (m : lmem) (h : Z) (l : list Z) : Prop :=
  refs m !! h = Some h ∧ null ∉ h :: l ∧ NoDup (h :: l) ∧ path m (h :: l ++ [h]).

Lemma path_cons2 m a b ps : path m (a :: b :: ps) ↔ link m a b ∧ path m (b :: ps).
Proof. done. Qed.

Lemma path_app m ps a b qs :
  path m ((ps ++ [a]) ++ b :: qs) ↔ path m (ps ++ [a]) ∧ link m a b ∧ path m (b :: qs).
Proof.
  induction ps as [|c ps IH]; [naive_solver|].
  destruct ps as [|d ps]; [simpl in *; tauto|].
  change (path m (c :: d :: (ps ++ [a]) ++ b :: qs) ↔
          path m (c :: d :: ps ++ [a]) ∧ link m a b ∧ path m (b :: qs)).
  rewrite !path_cons2. change (d :: (ps ++ [a]) ++ b :: qs) with (((d :: ps) ++ [a]) ++ b :: qs).
  rewrite IH. tauto.
Qed.

(** A path depends on [next] of all its nodes but the last and on [prev] of
    all but the first. *)
Lemma path_proper m m' ps a :
  path m (ps ++ [a]) →
  (∀ q, q ∈ ps → nx m' q = nx m q) →
  (∀ q, q ∈ tail (ps ++ [a]) → pv m' q = pv m q) →
  path m' (ps ++ [a]).
Proof.
  induction ps as [|c ps IH]; [done|]. intros Hp Hn Hv.
  destruct ps as [|d ps]; simpl in *.
  - unfold link in *. rewrite Hn, Hv by set_solver. tauto.
  - destruct Hp as [Hl Hp]. split.
    + unfold link in *. rewrite Hn, Hv by set_solver. done.
    + apply IH; [done|set_solver|]. intros q Hq. apply Hv. set_solver.
Qed.

Lemma cons_last (h : Z) l : ∃ ps a, h :: l = ps ++ [a].
Proof.
  destruct (exists_last (l:=h :: l)) as (ps & a & E); [done|]. eauto.
Qed.

Lemma dll_stable m m' h l :
  dll m h l → refs m' !! h = refs m !! h →
  (∀ q, q ∈ h :: l → nodes m' !! q = nodes m !! q) → dll m' h l.
Proof.
  intros (Hr & H0 & Hnd & Hp) Hr' Hn. split_and!; [congruence|done|done|].
  rewrite app_comm_cons in *. apply (path_proper m); [done| |].
  - intros q Hq. unfold nx. by rewrite Hn.
  - intros q Hq. unfold pv. rewrite Hn; [done|]. simpl in Hq. set_solver.
Qed.

Lemma dll_in m h l q : dll m h l → q ∈ h :: l →
  ∃ a b, nx m q = Some a ∧ pv m q = Some b ∧ a ≠ null ∧ b ≠ null.
Proof.
  intros (_ & H0 & Hnd & Hp) Hq.
  assert (∀ r, r ∈ h :: l ++ [h] → r ≠ null) as Hnn by set_solver.
  apply list_elem_of_split in Hq as (l1 & l2 & E).
  (* the successor of [q] *)
  assert (∃ a, nx m q = Some a ∧ a ≠ null) as (a & Ha & Ha0).
  { destruct l2 as [|b l2].
    - exists h. rewrite app_comm_cons, E in Hp.
      apply path_app in Hp as (_ & [? _] & _). split; [done|apply Hnn; set_solver].
    - exists b. rewrite app_comm_cons, E in Hp.
      replace ((l1 ++ q :: b :: l2) ++ [h]) with ((l1 ++ [q]) ++ b :: l2 ++ [h]) in Hp
        by (rewrite <-!app_assoc; done).
      apply path_app in Hp as (_ & [? _] & _). split; [done|].
      apply Hnn. rewrite app_comm_cons, E. set_solver. }
  assert (∃ b, pv m q = Some b ∧ b ≠ null) as (b & Hb & Hb0).
  { destruct l1 as [|x l1] using rev_ind.
    - injection E as Eq El; subst q l2. destruct (cons_last h l) as (ps & b & E').
      exists b. rewrite app_comm_cons, E' in Hp.
      apply path_app in Hp as (_ & [_ ?] & _). split; [done|].
      apply Hnn. rewrite app_comm_cons, E'. set_solver.
    - exists x. rewrite app_comm_cons, E, <-app_assoc in Hp. simpl in Hp.
      apply path_app in Hp as (_ & [_ ?] & _). split; [done|].
      apply Hnn. rewrite app_comm_cons, E. set_solver. }
  eauto 10.
Qed.

(** ** Framing: what an operation leaves alone *)

Definition frame (m m' : lmem) (ps : list Z) : Prop :=
  ∀ q, q ∉ ps → nodes m' !! q = nodes m !! q ∧ refs m' !! q = refs m !! q.

Lemma frame_view m m' ps :
  refs m' = refs m →
  (∀ q, q ∉ ps → nx m' q = nx m q ∧ pv m' q = pv m q) → frame m m' ps.
Proof.
  intros Hr Hv q Hq. destruct (Hv q Hq). split; [by apply nodes_view|congruence].
Qed.

Lemma frame_trans m1 m2 m3 ps qs :
  frame m1 m2 ps → frame m2 m3 qs → frame m1 m3 (ps ++ qs).
Proof.
  intros H1 H2 q Hq. destruct (H1 q) as [??], (H2 q) as [??]; [set_solver..|].
  split; congruence.
Qed.

Lemma frame_weaken m m' ps qs : frame m m' ps → ps ⊆ qs → frame m m' qs.
Proof. intros Hf Hs q Hq. apply Hf. set_solver. Qed.

Lemma dll_frame m m' ps h l :
  dll m h l → frame m m' ps → (∀ q, q ∈ h :: l → q ∉ ps) → dll m' h l.
Proof.
  intros Hd Hf Hdis. apply (dll_stable m); [done| |].
  - apply Hf, Hdis. set_solver.
  - intros q Hq. apply Hf, Hdis. done.
Qed.

(** ** Insertion, removal and splicing of paths *)

Lemma head_or_home (h : Z) l : ∃ b qs, l ++ [h] = b :: qs.
Proof. destruct l; simpl; eauto. Qed.

Lemma path_split m h l1 l2 ps a b qs :
  h :: l1 = ps ++ [a] → l2 ++ [h] = b :: qs →
  path m (h :: (l1 ++ l2) ++ [h]) ↔
  path m (ps ++ [a]) ∧ link m a b ∧ path m (b :: qs).
Proof.
  intros E1 E2. rewrite <-path_app, <-E1, <-E2. simpl. by rewrite <-app_assoc.
Qed.

(** Where the cut points of a path lie, and that a node [x] outside it is
    none of them. *)
Lemma cut_facts (h x : Z) l1 l2 ps a b qs :
  NoDup (h :: l1 ++ l2) → x ∉ h :: l1 ++ l2 →
  h :: l1 = ps ++ [a] → l2 ++ [h] = b :: qs →
  a ≠ x ∧ b ≠ x ∧ a ∈ h :: l1 ∧ b ∈ h :: l2 ∧
  (∀ q, q ∈ ps → q ≠ x ∧ q ≠ a) ∧ (∀ q, q ∈ l1 → q ≠ x ∧ q ≠ b) ∧
  (∀ q, q ∈ l2 → q ≠ x ∧ q ≠ a) ∧ (∀ q, q ∈ qs → q ≠ x ∧ q ≠ b).
Proof.
  intros Hnd Hx E1 E2. rewrite app_comm_cons in Hnd, Hx.
  assert (NoDup ((ps ++ [a]) ++ l2)) as Hnd1 by (by rewrite <-E1).
  assert (NoDup (l1 ++ b :: qs)) as Hnd2.
  { rewrite <-E2, app_assoc. by rewrite <-Permutation_cons_append. }
  assert (x ∉ (ps ++ [a]) ++ l2) as Hx1 by (by rewrite <-E1).
  assert (x ∉ l1 ++ b :: qs) as Hx2.
  { rewrite <-E2. rewrite !elem_of_app, elem_of_cons in *. set_solver. }
  assert (a ∈ h :: l1) as Ha by (rewrite E1; set_solver).
  assert (b ∈ h :: l2).
  { assert (b ∈ l2 ++ [h]) by (rewrite E2; set_solver). set_solver. }
  rewrite !NoDup_app in Hnd1. rewrite NoDup_app, NoDup_cons in Hnd2.
  rewrite !elem_of_app in Hx1. rewrite !elem_of_app, elem_of_cons in Hx2.
  destruct Hnd1 as ((? & Hpsa & ?) & Hpsa2 & ?), Hnd2 as (? & Hl1 & ? & ?).
  split_and!; try done.
  - intros ->. set_solver.
  - intros ->. tauto.
  - intros q Hq. split; intros ->; [tauto|]. apply (Hpsa a); set_solver.
  - intros q Hq. split; intros ->; [tauto|]. apply (Hl1 b); set_solver.
  - intros q Hq. split; intros ->; [tauto|]. apply (Hpsa2 a); set_solver.
  - intros q Hq. split; intros ->; tauto.
Qed.

Lemma path_insert m m' h l1 l2 x ps a b qs :
  h :: l1 = ps ++ [a] → l2 ++ [h] = b :: qs →
  NoDup (h :: l1 ++ l2) → x ∉ h :: l1 ++ l2 →
  path m (h :: (l1 ++ l2) ++ [h]) →
  (∀ q, nx m' q = if decide (q = x) then Some b else if decide (q = a) then Some x else nx m q) →
  (∀ q, pv m' q = if decide (q = x) then Some a else if decide (q = b) then Some x else pv m q) →
  path m' (h :: (l1 ++ x :: l2) ++ [h]).
Proof.
  intros E1 E2 Hnd Hx Hp Hn Hv.
  destruct (cut_facts _ x _ _ _ _ _ _ Hnd Hx E1 E2) as (? & ? & _ & _ & Hps & Hl1 & Hl2 & Hqs).
  rewrite (path_split m h l1 l2 ps a b qs) in Hp by done.
  destruct Hp as (Hp1 & _ & Hp2).
  rewrite (path_split m' h l1 (x :: l2) ps a x (b :: qs)) by (done || by simpl; rewrite E2).
  split_and!.
  - apply (path_proper m); [done| |]; intros q Hq.
    + destruct (Hps q Hq). by rewrite Hn, !decide_False.
    + rewrite <-E1 in Hq. destruct (Hl1 q Hq). by rewrite Hv, !decide_False.
  - split; [by rewrite Hn, decide_False, decide_True|by rewrite Hv, decide_True].
  - apply path_cons2. split.
    + split; [by rewrite Hn, decide_True|by rewrite Hv, decide_False, decide_True].
    + rewrite <-E2 in *. apply (path_proper m); [done| |]; intros q Hq.
      * destruct (Hl2 q Hq). by rewrite Hn, !decide_False.
      * rewrite E2 in Hq. destruct (Hqs q Hq). by rewrite Hv, !decide_False.
Qed.

Lemma path_remove m m' h l1 l2 x ps a b qs :
  h :: l1 = ps ++ [a] → l2 ++ [h] = b :: qs →
  NoDup (h :: l1 ++ x :: l2) →
  path m (h :: (l1 ++ x :: l2) ++ [h]) →
  (∀ q, q ≠ x → nx m' q = if decide (q = a) then Some b else nx m q) →
  (∀ q, q ≠ x → pv m' q = if decide (q = b) then Some a else pv m q) →
  path m' (h :: (l1 ++ l2) ++ [h]).
Proof.
  intros E1 E2 Hnd Hp Hn Hv.
  assert (NoDup (h :: l1 ++ l2) ∧ x ∉ h :: l1 ++ l2) as [Hnd' Hx].
  { rewrite app_comm_cons, <-Permutation_middle, NoDup_cons in Hnd. tauto. }
  destruct (cut_facts _ x _ _ _ _ _ _ Hnd' Hx E1 E2) as (? & ? & _ & _ & Hps & Hl1 & Hl2 & Hqs).
  rewrite (path_split m h l1 (x :: l2) ps a x (b :: qs)) in Hp by (done || by simpl; rewrite E2).
  destruct Hp as (Hp1 & _ & Hp2). apply path_cons2 in Hp2 as [_ Hp2].
  rewrite (path_split m' h l1 l2 ps a b qs) by done. split_and!.
  - apply (path_proper m); [done| |]; intros q Hq.
    + destruct (Hps q Hq). by rewrite Hn, !decide_False.
    + rewrite <-E1 in Hq. destruct (Hl1 q Hq). by rewrite Hv, !decide_False.
  - split; [by rewrite Hn, decide_True|by rewrite Hv, decide_True].
  - rewrite <-E2 in *. apply (path_proper m); [done| |]; intros q Hq.
    + destruct (Hl2 q Hq). by rewrite Hn, !decide_False.
    + rewrite E2 in Hq. destruct (Hqs q Hq). by rewrite Hv, !decide_False.
Qed.

(** ** Running the operations *)

Lemma is_Some_set_next p v m q : is_Some (nx (mset_next p v m) q) ↔ is_Some (nx m q).
Proof.
  rewrite nx_set_next. case_decide; subst; [|done]. by rewrite fmap_is_Some.
Qed.
Lemma is_Some_set_prev p v m q : is_Some (nx (mset_prev p v m) q) ↔ is_Some (nx m q).
Proof. by rewrite nx_set_prev. Qed.

Ltac is_some_nx :=
  repeat first [rewrite is_Some_set_next | rewrite is_Some_set_prev]; eexists; eassumption.

(** One memory access of a list operation. *)
Ltac mstep :=
  match goal with
  | |- context [mbind ?k (node_at ?p) ?m] =>
      erewrite (M_bind_run (node_at p) k m) by (eapply node_at_run; mem_simpl)
  | |- context [mbind ?k (set_next ?p ?v) ?m] =>
      erewrite (M_bind_run (set_next p v) k m) by (apply set_next_run; is_some_nx)
  | |- context [mbind ?k (set_prev ?p ?v) ?m] =>
      erewrite (M_bind_run (set_prev p v) k m) by (apply set_prev_run; is_some_nx)
  | |- context [mbind ?k (ref_node ?h) ?m] =>
      erewrite (M_bind_run (ref_node h) k m) by (eapply deref_run; simpl; eassumption)
  | |- context [set_next ?p ?v ?m] => rewrite (set_next_run p v m) by is_some_nx
  | |- context [set_prev ?p ?v ?m] => rewrite (set_prev_run p v m) by is_some_nx
  end; cbn [next prev].

Lemma dll_home m h l ps a b qs :
  dll m h l → h :: l = ps ++ [a] → l ++ [h] = b :: qs →
  refs m !! h = Some h ∧ nx m h = Some b ∧ pv m h = Some a ∧ h ≠ null.
Proof.
  intros (Hr & H0 & _ & Hp) E1 E2. split_and!; [done|..|set_solver].
  - rewrite E2 in Hp. apply Hp.
  - rewrite app_comm_cons, E1 in Hp. apply path_app in Hp as (_ & [_ ?] & _). done.
Qed.

Lemma assert_initialized_run m h l : dll m h l → assert_initialized h m = Ret ((), m).
Proof.
  intros (Hr & H0 & _ & _). unfold assert_initialized, List_is_initialized.
  assert (h =? null = false) as Hh by (apply Z.eqb_neq; set_solver).
  erewrite M_bind_run; [|by mstep]. by rewrite Hh.
Qed.

Lemma is_some_view m x :
  is_Some (nodes m !! x) → ∃ a b, nx m x = Some a ∧ pv m x = Some b.
Proof. intros [[a b] E]. exists a, b. unfold nx, pv. by rewrite E. Qed.

Lemma add_head_node_spec m h l x :
  dll m h l → x ∉ h :: l → x ≠ null → is_Some (nodes m !! x) →
  ∃ m', add_head_node h x m = Ret ((), m') ∧ dll m' h (x :: l) ∧
        frame m m' (x :: h :: l).
Proof.
  intros Hd Hx Hx0 (a0 & b0 & Hxn & Hxp)%is_some_view.
  destruct (cons_last h l) as (ps & e & E1), (head_or_home h l) as (b & qs & E2).
  destruct (dll_home _ _ _ _ _ _ _ Hd E1 E2) as (Hr & Hnh & Hph & Hh0).
  assert (b ∈ h :: l) as Hb.
  { assert (b ∈ l ++ [h]) by (rewrite E2; set_solver). set_solver. }
  destruct (dll_in _ _ _ b Hd Hb) as (bn & bp & Hbn & Hbp & _).
  assert (x ≠ h ∧ x ≠ b) as [Hxh Hxb] by (split; intros ->; set_solver).
  unfold add_head_node. repeat mstep.
  eexists; split; [reflexivity|].
  match goal with |- dll ?m' _ _ ∧ _ => set (m1 := m') end.
  assert (∀ q, nx m1 q = if decide (q = x) then Some b else if decide (q = h) then Some x else nx m q) as Hn.
  { intros q. subst m1. autorewrite with lmem. rewrite Hxn, (decide_False (P:=h = x)), Hnh by done.
    repeat case_decide; simplify_eq; done. }
  assert (∀ q, pv m1 q = if decide (q = x) then Some h else if decide (q = b) then Some x else pv m q) as Hv.
  { intros q. subst m1. autorewrite with lmem.
    rewrite Hxp, (decide_False (P:=b = x)), Hbp by done.
    repeat case_decide; simplify_eq; done. }
  destruct Hd as (_ & H0 & Hnd & Hp). split.
  - split_and!; [done|set_solver| |].
    + rewrite Permutation_swap. constructor; [set_solver|done].
    + apply (path_insert m m1 h [] l x [] h b qs); done.
  - apply frame_view; [done|]. intros q Hq.
    rewrite Hn, Hv, !decide_False by (intros ->; set_solver). done.
Qed.

Lemma add_tail_node_spec m h l x :
  dll m h l → x ∉ h :: l → x ≠ null → is_Some (nodes m !! x) →
  ∃ m', add_tail_node h x m = Ret ((), m') ∧ dll m' h (l ++ [x]) ∧
        frame m m' (x :: h :: l).
Proof.
  intros Hd Hx Hx0 (a0 & b0 & Hxn & Hxp)%is_some_view.
  destruct (cons_last h l) as (ps & a & E1), (head_or_home h l) as (b & qs & E2).
  destruct (dll_home _ _ _ _ _ _ _ Hd E1 E2) as (Hr & Hnh & Hph & Hh0).
  assert (a ∈ h :: l) as Ha by (rewrite E1; set_solver).
  destruct (dll_in _ _ _ a Hd Ha) as (an & ap & Han & Hap & _).
  assert (x ≠ h ∧ x ≠ a) as [Hxh Hxa] by (split; intros ->; set_solver).
  unfold add_tail_node. repeat mstep.
  eexists; split; [reflexivity|].
  match goal with |- dll ?m' _ _ ∧ _ => set (m1 := m') end.
  assert (∀ q, nx m1 q = if decide (q = x) then Some h else if decide (q = a) then Some x else nx m q) as Hn.
  { intros q. subst m1. autorewrite with lmem.
    rewrite Hxn, (decide_False (P:=a = x)), Han by done.
    repeat case_decide; simplify_eq; done. }
  assert (∀ q, pv m1 q = if decide (q = x) then Some a else if decide (q = h) then Some x else pv m q) as Hv.
  { intros q. subst m1. autorewrite with lmem.
    rewrite Hxp, (decide_False (P:=h = x)), Hph by done.
    repeat case_decide; simplify_eq; done. }
  destruct Hd as (_ & H0 & Hnd & Hp). split.
  - split_and!; [done|set_solver| |].
    + rewrite app_comm_cons, <-Permutation_cons_append. constructor; [set_solver|done].
    + apply (path_insert m m1 h l [] x ps a h []); rewrite ?app_nil_r; done.
  - apply frame_view; [done|]. intros q Hq.
    rewrite Hn, Hv, !decide_False by (intros ->; set_solver). done.
Qed.

Lemma delete_from_list_spec m h l1 l2 x :
  dll m h (l1 ++ x :: l2) →
  ∃ m', ListNode_delete_from_list x m = Ret ((), m') ∧ dll m' h (l1 ++ l2) ∧
        nodes m' !! x = Some ListNode_new ∧
        frame m m' (h :: l1 ++ x :: l2).
Proof.
  intros Hd. pose proof Hd as (Hr & H0 & Hnd & Hp).
  destruct (cons_last h l1) as (ps & a & E1), (head_or_home h l2) as (b & qs & E2).
  assert (NoDup (h :: l1 ++ l2) ∧ x ∉ h :: l1 ++ l2) as [Hnd' Hx].
  { rewrite app_comm_cons, <-Permutation_middle, NoDup_cons in Hnd. tauto. }
  destruct (cut_facts _ x _ _ _ _ _ _ Hnd' Hx E1 E2) as (Hax & Hbx & Ha & Hb & _).
  pose proof Hp as Hp'.
  rewrite (path_split m h l1 (x :: l2) ps a x (b :: qs)) in Hp' by (done || by simpl; rewrite E2).
  destruct Hp' as (_ & [Han Hxp] & [[Hxn Hbp] _]%path_cons2).
  destruct (dll_in _ _ _ b Hd) as (bn & ? & Hbn & _); [set_solver|].
  destruct (dll_in _ _ _ a Hd) as (? & ap & _ & Hap & _); [set_solver|].
  assert (a =? null = false ∧ b =? null = false) as [Ha0 Hb0].
  { rewrite !Z.eqb_neq. split; intros ->; set_solver. }
  unfold ListNode_delete_from_list. mstep. rewrite Ha0, Hb0. cbn [orb].
  mstep.
  assert (nx (mset_prev b a m) x = Some b) by mem_simpl.
  assert (pv (mset_prev b a m) x = Some a) by mem_simpl.
  repeat mstep. eexists; split; [reflexivity|].
  match goal with |- dll ?m' _ _ ∧ _ => set (m1 := m') end.
  assert (∀ q, nx m1 q = if decide (q = x) then Some null else if decide (q = a) then Some b else nx m q) as Hn.
  { intros q. subst m1. autorewrite with lmem.
    rewrite Hxn, (decide_False (P:=x = a)), Han by done.
    repeat case_decide; simplify_eq; done. }
  assert (∀ q, pv m1 q = if decide (q = x) then Some null else if decide (q = b) then Some a else pv m q) as Hv.
  { intros q. subst m1. autorewrite with lmem.
    rewrite Hxp, (decide_False (P:=x = b)), Hbp by done.
    repeat case_decide; simplify_eq; done. }
  split_and!.
  - split_and!; [done|set_solver|done|].
    apply (path_remove m m1 h l1 l2 x ps a b qs); try done;
      intros q Hq; [rewrite Hn|rewrite Hv]; by rewrite decide_False.
  - apply nodes_nx_pv; [by rewrite Hn, decide_True|by rewrite Hv, decide_True].
  - apply frame_view; [done|]. intros q Hq.
    rewrite Hn, Hv, !decide_False by (intros ->; set_solver). done.
Qed.

(** ** The public operations of [List<T>] *)

Lemma List_init_spec m h :
  h ≠ null → is_Some (nodes m !! h) → is_Some (refs m !! h) →
  ∃ m', List_init h m = Ret ((), m') ∧ dll m' h [] ∧ frame m m' [h].
Proof.
  intros Hh0 (a & b & Hn & Hv)%is_some_view _. unfold List_init.
  erewrite M_bind_run by reflexivity.
  set (m0 := mkMem (nodes m) (<[h:=h]> (refs m))).
  assert (refs m0 !! h = Some h) by (simpl; by simplify_map_eq).
  assert (nx m0 h = Some a) by done.
  assert (pv m0 h = Some b) by done.
  repeat mstep. eexists; split; [reflexivity|]. split.
  - split_and!; [done|set_solver|apply NoDup_singleton|].
    simpl. split; [|done]. split; mem_simpl.
  - intros q Hq. assert (q ≠ h) by set_solver. split.
    + apply nodes_view; mem_simpl.
    + simpl. by rewrite lookup_insert_ne.
Qed.

Lemma List_empty_spec m h l :
  dll m h l → List_empty h m = Ret (bool_decide (l = []), m).
Proof.
  intros Hd. destruct (cons_last h l) as (ps & a & E1), (head_or_home h l) as (b & qs & E2).
  destruct (dll_home _ _ _ _ _ _ _ Hd E1 E2) as (Hr & Hnh & Hph & Hh0).
  unfold List_empty. repeat mstep. unfold mret, M_ret. f_equal. f_equal.
  destruct l as [|x l]; simplify_eq/=; [by rewrite Z.eqb_refl|].
  apply Z.eqb_neq. destruct Hd as (_ & _ & Hnd%NoDup_cons & _). set_solver.
Qed.

Lemma path_concat m m' h l ps a x t ps' e :
  h :: l = ps ++ [a] → x :: t = ps' ++ [e] →
  NoDup (h :: l) → NoDup (x :: t) → h :: l ## x :: t →
  path m (h :: l) → path m (x :: t) →
  (∀ q, q ∈ h :: l ∨ q ∈ x :: t →
     nx m' q = if decide (q = a) then Some x else if decide (q = e) then Some h else nx m q) →
  (∀ q, q ∈ h :: l ∨ q ∈ x :: t →
     pv m' q = if decide (q = h) then Some e else if decide (q = x) then Some a else pv m q) →
  path m' (h :: (l ++ x :: t) ++ [h]).
Proof.
  intros E1 E2 Hnd1 Hnd2 Hdis Hp1 Hp2 Hn Hv.
  assert (a ∈ h :: l ∧ e ∈ x :: t) as [Ha He] by (rewrite E1, E2; set_solver).
  assert (∀ q r, q ∈ h :: l → r ∈ x :: t → q ≠ r) as Hne by set_solver.
  assert (∀ q, q ∈ ps → q ∈ h :: l ∧ q ≠ a) as Hps.
  { intros q Hq. split; [rewrite E1; set_solver|]. intros ->.
    rewrite E1, NoDup_app in Hnd1. destruct Hnd1 as (_ & Hc & _). apply (Hc a Hq). set_solver. }
  assert (∀ q, q ∈ ps' → q ∈ x :: t ∧ q ≠ e) as Hps'.
  { intros q Hq. split; [rewrite E2; set_solver|]. intros ->.
    rewrite E2, NoDup_app in Hnd2. destruct Hnd2 as (_ & Hc & _). apply (Hc e Hq). set_solver. }
  rewrite NoDup_cons in Hnd1, Hnd2.
  rewrite (path_split m' h l (x :: t) ps a x (t ++ [h])), app_comm_cons, E2, path_app by done.
  split_and!; simpl; try done.
  - rewrite E1 in Hp1. apply (path_proper m); [done| |]; intros q Hq.
    + destruct (Hps q Hq) as [Hin ?].
      assert (q ≠ e) by (by apply Hne). by rewrite Hn, !decide_False by auto.
    + rewrite <-E1 in Hq. simpl in Hq. assert (q ≠ h) by (intros ->; tauto).
      assert (q ≠ x) by (apply Hne; set_solver).
      by rewrite Hv, !decide_False by (auto || left; set_solver).
  - assert (x ≠ h) by (intros ->; apply (Hne h h); set_solver).
    split; [by rewrite Hn, decide_True by auto|].
    by rewrite Hv, decide_False, decide_True by (auto || right; set_solver).
  - rewrite E2 in Hp2. apply (path_proper m); [done| |]; intros q Hq.
    + destruct (Hps' q Hq) as [Hin ?].
      assert (q ≠ a) by (intros ->; by apply (Hne a a)). by rewrite Hn, !decide_False by auto.
    + rewrite <-E2 in Hq. simpl in Hq. assert (q ≠ x) by (intros ->; tauto).
      assert (q ≠ h) by (intros ->; apply (Hne h h); set_solver).
      by rewrite Hv, !decide_False by (auto || right; set_solver).
  - assert (e ≠ a) by (intros ->; by apply (Hne a a)).
    split; [by rewrite Hn, decide_False, decide_True by auto|].
    by rewrite Hv, decide_True by (auto || left; set_solver).
Qed.

(** The links of two lists whose second was appended to the first: the last
    node [a] of the first is followed by [x], the last node [e] of the second
    by the home node [h]. *)
Definition joined (m m' : lmem) (h a x e o : Z) : Prop :=
  (∀ q, q ≠ o → nx m' q = if decide (q = a) then Some x else if decide (q = e) then Some h else nx m q) ∧
  (∀ q, q ≠ o → pv m' q = if decide (q = h) then Some e else if decide (q = x) then Some a else pv m q).

Lemma joined_dll m m' h l o x t ps a ps' e :
  dll m h l → dll m o (x :: t) → h :: l ## o :: x :: t → h :: l = ps ++ [a] → x :: t = ps' ++ [e] →
  joined m m' h a x e o → refs m' !! h = refs m !! h → dll m' h (l ++ x :: t).
Proof.
  intros Hd Hd' Hdis E1 E1' [Hn Hv] Hr. pose proof Hd as (Hr0 & H0 & Hnd & Hp). pose proof Hd' as (_ & H0' & Hnd' & Hp').
  rewrite NoDup_cons in Hnd'. destruct Hnd' as [Hot Hnd'].
  split_and!; [by rewrite Hr|set_solver + H0 H0'|rewrite app_comm_cons, NoDup_app; split_and!; try done; set_solver + Hdis|].
  apply (path_concat m m' h l ps a x t ps' e); try done.
  - set_solver + Hdis.
  - rewrite app_comm_cons, E1 in Hp. rewrite E1. by apply path_app in Hp as (? & _).
  - rewrite E1' in Hp' |- *. rewrite app_comm_cons in Hp'.
    change (o :: ps' ++ [e]) with ((o :: ps') ++ [e]) in Hp'. apply path_app in Hp' as (Hp' & _).
    rewrite <-E1'. change ((o :: ps') ++ [e]) with (o :: (ps' ++ [e])) in Hp'.
    rewrite <-E1' in Hp'. apply Hp'.
  - intros q Hq. apply Hn. intros ->. set_solver + Hq Hot Hdis.
  - intros q Hq. apply Hv. intros ->. set_solver + Hq Hot Hdis.
Qed.

Lemma joined_frame m m' h l o x t a e :
  joined m m' h a x e o → a ∈ h :: l → e ∈ x :: t → (∀ q, q ≠ o → refs m' !! q = refs m !! q) →
  frame m m' (h :: l ++ o :: x :: t).
Proof.
  intros [Hn Hv] Ha He Hr q Hq. rewrite app_comm_cons, elem_of_app in Hq.
  assert (q ∉ h :: l ∧ q ∉ o :: x :: t) as [Hq1 Hq2] by tauto. clear Hq.
  assert (q ≠ o ∧ q ≠ x ∧ q ≠ e) as (? & ? & ?)
    by (split_and!; intros ->; apply Hq2; rewrite !elem_of_cons in *; tauto).
  assert (q ≠ h ∧ q ≠ a) as (? & ?)
    by (split_and!; intros ->; apply Hq1; rewrite !elem_of_cons in *; tauto).
  split; [apply nodes_view; [rewrite Hn|rewrite Hv]; by rewrite ?decide_False|by apply Hr].
Qed.

Lemma List_splice_spec m h l other l' :
  dll m h l → dll m other l' → h :: l ## other :: l' →
  ∃ m', List_splice h other m = Ret ((), m') ∧ dll m' h (l ++ l') ∧
        dll m' other [] ∧ frame m m' (h :: l ++ other :: l').
Proof.
  intros Hd Hd' Hdis. rename other into o.
  destruct (cons_last h l) as (ps & a & E1), (head_or_home h l) as (b & qs & E2).
  destruct (dll_home _ _ _ _ _ _ _ Hd E1 E2) as (Hr & Hnh & Hph & Hh0).
  unfold List_splice.
  rewrite (M_bind_run _ _ _ _ _ (assert_initialized_run _ _ _ Hd)).
  destruct l' as [|x t].
  { destruct (dll_home m o [] [] o o [] Hd') as (? & ? & ? & ?); [done..|].
    do 2 mstep. rewrite Z.eqb_refl. exists m. rewrite app_nil_r. by split_and!. }
  destruct (cons_last x t) as (ps' & e & E1').
  destruct (dll_home m o (x :: t) (o :: ps') e x (t ++ [o]) Hd') as (Hro & Hno & Hpo & Ho0);
    [by rewrite E1'|done|].
  pose proof Hd' as (_ & _ & Hnd' & _). rewrite NoDup_cons in Hnd'. destruct Hnd' as [Hot _].
  assert (x ∈ x :: t ∧ e ∈ x :: t ∧ a ∈ h :: l) as (Hx & He & Ha).
  { split_and!; [set_solver|rewrite E1'; set_solver|rewrite E1; set_solver]. }
  destruct (dll_in _ _ _ x Hd') as (xn & xp & Hxn & Hxp & _); [set_solver|].
  destruct (dll_in _ _ _ e Hd') as (en & ep & Hen & Hep & _); [set_solver|].
  destruct (dll_in _ _ _ a Hd Ha) as (an & ap & Han & Hap & _).
  assert (∀ q r, q ∈ h :: l → r ∈ o :: x :: t → q ≠ r) as Hne by (set_solver + Hdis).
  assert (o ≠ x ∧ o ≠ e) as (Hox & Hoe) by (split; congruence).
  assert (h ≠ x ∧ h ≠ e ∧ a ≠ x ∧ a ≠ e ∧ a ≠ o ∧ h ≠ o) as (?&?&?&?&?&?)
    by (split_and!; apply Hne; rewrite !elem_of_cons in *; tauto).
  do 2 mstep. rewrite (proj2 (Z.eqb_neq e o)) by done.
  do 10 mstep.
  match goal with |- ∃ m', List_init o ?m2' = _ ∧ _ => set (m2 := m2') end.
  destruct (List_init_spec m2 o) as (m3 & Hrun & Hd3 & Hf3); [done|..].
  { assert (is_Some (nx m2 o)) as Hs by (subst m2; is_some_nx).
    unfold nx in Hs. by apply fmap_is_Some in Hs. }
  { by eexists. }
  exists m3. rewrite Hrun. split; [done|]. assert (joined m m3 h a x e o) as Hj; [split|].
  { intros q Hq. unfold nx at 1. rewrite (proj1 (Hf3 q ltac:(by rewrite list_elem_of_singleton))).
    change (nx m2 q = if decide (q = a) then Some x else if decide (q = e) then Some h else nx m q).
    subst m2. autorewrite with lmem. rewrite (decide_False (P:=a=e)), Han, Hen by done.
    repeat case_decide; simplify_eq; done. }
  { intros q Hq. unfold pv at 1. rewrite (proj1 (Hf3 q ltac:(by rewrite list_elem_of_singleton))).
    change (pv m2 q = if decide (q = h) then Some e else if decide (q = x) then Some a else pv m q).
    subst m2. autorewrite with lmem. rewrite (decide_False (P:=h=x)), Hph, Hxp by done.
    repeat case_decide; simplify_eq; done. }
  assert (∀ q, q ≠ o → refs m3 !! q = refs m !! q) as Href
    by (intros q Hq; by rewrite (proj2 (Hf3 q ltac:(by rewrite list_elem_of_singleton)))).
  split_and!; [by apply (joined_dll m m3 h l o x t ps a ps' e); auto|done|by apply (joined_frame m m3 h l o x t a e)].
Qed.

Lemma List_len_loop_spec m h l1 l2 x fuel ret :
  dll m h (l1 ++ l2) → x :: l2 = l2 ++ [h] ∨ (∃ t, l2 = x :: t) ∨ (l2 = [] ∧ x = h) →
  (length l2 < fuel)%nat → 0 ≤ ret → ret + Z.of_nat (length l2) < 2 ^ 64 →
  List_len_loop fuel h x ret m = Ret (ret + Z.of_nat (length l2), m).
Proof.
  intros Hd Hx Hf Hret Hb. revert l1 l2 x ret Hd Hx Hf Hret Hb.
  induction fuel as [|fuel IH]; intros l1 l2 x ret Hd Hx Hf Hret Hb; [lia|].
  assert ((∃ t, l2 = x :: t) ∨ (l2 = [] ∧ x = h)) as [(t & ->)|[-> ->]].
  { destruct Hx as [Hx|Hx]; [|done]. destruct l2; simplify_eq/=; eauto. }
  - simpl. pose proof Hd as (_ & _ & Hnd & Hp).
    assert (x ≠ h) as Hxh. { rewrite NoDup_cons in Hnd. set_solver. }
    rewrite (proj2 (Z.eqb_neq x h)) by done.
    destruct (cons_last h l1) as (ps & a & E1), (head_or_home h t) as (b & qs & E2).
    rewrite (path_split m h l1 (x :: t) ps a x (b :: qs)) in Hp by (done || by simpl; rewrite E2).
    destruct Hp as (_ & [_ Hxp] & [[Hxn _] _]%path_cons2).
    mstep. rewrite uadd_small by (unfold is_usize; simpl in Hb; lia).
    rewrite (IH (l1 ++ [x]) t b (ret + 1)); simpl in *; try lia.
    + f_equal. f_equal. lia.
    + by rewrite <-app_assoc.
    + destruct t; simplify_eq/=; eauto.
  - simpl. rewrite Z.eqb_refl. unfold mret, M_ret. f_equal. f_equal. lia.
Qed.

(** Any [fuel] above the length is enough. *)
Lemma List_len_spec m h l fuel :
  dll m h l → (length l < fuel)%nat → Z.of_nat (length l) < 2 ^ 64 →
  List_len fuel h m = Ret (Z.of_nat (length l), m).
Proof.
  intros Hd Hf Hb.
  destruct (cons_last h l) as (ps & a & E1), (head_or_home h l) as (b & qs & E2).
  destruct (dll_home _ _ _ _ _ _ _ Hd E1 E2) as (Hr & Hnh & Hph & Hh0).
  assert (b =? null = false) as Hb0.
  { apply Z.eqb_neq. intros ->. destruct Hd as (_ & H0 & _ & _). apply H0.
    assert (null ∈ l ++ [h]) by (rewrite E2; set_solver). set_solver. }
  unfold List_len. mstep. rewrite Hb0. cbn [negb]. step. mstep.
  rewrite (List_len_loop_spec m h [] l b); try done; try lia.
  destruct l; simplify_eq/=; eauto.
Qed.

Section elements_spec.
Context `{Linked}.

Lemma List_pop_head_nil m h :
  dll m h [] → List_pop_head h m = Ret (null, m).
Proof.
  intros Hd. destruct (dll_home m h [] [] h h [] Hd) as (? & ? & ? & ?); [done..|].
  unfold List_pop_head.
  rewrite (M_bind_run _ _ _ _ _ (assert_initialized_run _ _ _ Hd)).
  do 2 mstep. by rewrite Z.eqb_refl.
Qed.

Lemma List_pop_head_cons m h x l :
  dll m h (x :: l) →
  ∃ m', List_pop_head h m = Ret (from_node x, m') ∧ dll m' h l ∧
        nodes m' !! x = Some ListNode_new ∧ frame m m' (h :: x :: l).
Proof.
  intros Hd. destruct (cons_last h (x :: l)) as (ps & a & E1).
  destruct (dll_home m h (x :: l) ps a x (l ++ [h]) Hd E1) as (Hr & Hn & Hp & Hh0); [done|].
  destruct (delete_from_list_spec m h [] l x Hd) as (m' & Hrun & Hd' & Hx & Hf).
  exists m'. split; [|done]. unfold List_pop_head.
  rewrite (M_bind_run _ _ _ _ _ (assert_initialized_run _ _ _ Hd)).
  do 2 mstep. rewrite (proj2 (Z.eqb_neq x h)).
  2:{ destruct Hd as (_ & _ & Hnd%NoDup_cons & _). set_solver. }
  unfold List_head. erewrite M_bind_run.
  2:{ rewrite (M_bind_run _ _ _ _ _ (assert_initialized_run _ _ _ Hd)). mstep. done. }
  unfold Linked_delete_from_list. rewrite into_from_node.
  by rewrite (M_bind_run _ _ _ _ _ Hrun).
Qed.

Lemma List_add_head_spec m h l e :
  dll m h l → into_node e ∉ h :: l → into_node e ≠ null →
  is_Some (nodes m !! into_node e) →
  ∃ m', List_add_head h e m = Ret ((), m') ∧ dll m' h (into_node e :: l) ∧
        frame m m' (into_node e :: h :: l).
Proof.
  intros Hd He H0 Hs. unfold List_add_head.
  rewrite (M_bind_run _ _ _ _ _ (assert_initialized_run _ _ _ Hd)).
  by apply add_head_node_spec.
Qed.

Lemma List_add_tail_spec m h l e :
  dll m h l → into_node e ∉ h :: l → into_node e ≠ null →
  is_Some (nodes m !! into_node e) →
  ∃ m', List_add_tail h e m = Ret ((), m') ∧ dll m' h (l ++ [into_node e]) ∧
        frame m m' (into_node e :: h :: l).
Proof.
  intros Hd He H0 Hs. unfold List_add_tail.
  rewrite (M_bind_run _ _ _ _ _ (assert_initialized_run _ _ _ Hd)).
  by apply add_tail_node_spec.
Qed.

(** One step of the iterator from node [x]: it yields the node after [x]. *)
Lemma Iter_next_spec m h l1 x l2 b qs :
  dll m h (l1 ++ x :: l2) → l2 ++ [h] = b :: qs →
  Iter_next (mkIter x h) m = Ret ((Some (from_node b), mkIter b h), m).
Proof.
  intros Hd E2. pose proof Hd as (_ & _ & Hnd & Hp).
  assert (x ≠ h) as Hxh. { rewrite NoDup_cons in Hnd. set_solver. }
  destruct (cons_last h l1) as (ps & a & E1).
  rewrite (path_split m h l1 (x :: l2) ps a x (b :: qs)) in Hp by (done || by simpl; rewrite E2).
  destruct Hp as (_ & [_ Hxp] & [[Hxn _] _]%path_cons2).
  unfold Iter_next; cbn [cursor head]. rewrite (proj2 (Z.eqb_neq x h)) by done. mstep. reflexivity.
Qed.

Lemma Iter_collect_spec m h l1 x l2 fuel :
  dll m h (l1 ++ x :: l2) → (S (length l2) < fuel)%nat →
  Iter_collect fuel (mkIter x h) m = Ret (from_node <$> (l2 ++ [h]), m).
Proof.
  revert l1 x l2. induction fuel as [|fuel IH]; intros l1 x l2 Hd Hf; [lia|].
  destruct (head_or_home h l2) as (b & qs & E2).
  cbn [Iter_collect]. rewrite (M_bind_run _ _ _ _ _ (Iter_next_spec m h l1 x l2 b qs Hd E2)).
  assert (Iter_collect fuel (mkIter b h) m = Ret (from_node <$> qs, m)) as Hrest.
  { destruct l2 as [|y l2]; simplify_eq/=.
    - destruct fuel; [lia|]. cbn [Iter_collect]. unfold Iter_next; cbn [cursor head].
      by rewrite Z.eqb_refl.
    - apply (IH (l1 ++ [x])); [by rewrite <-app_assoc|lia]. }
  rewrite (M_bind_run _ _ _ _ _ Hrest), E2. done.
Qed.
End elements_spec.

(** ** The abstract list and the refinement *)

Inductive list_op :=
  | OpAddHead (e : Z)
  | OpAddTail (e : Z)
  | OpPopHead
  | OpDelete (e : Z)
  | OpEmpty.

(** What an operation does to the sequence of elements and what it returns;
    [None] where a caller may not use it (adding an element that is already in
    the list, deleting one that is not). *)
Definition abs_step (l : list Z) (op : list_op) : option (Z * list Z) :=
  match op with
  | OpAddHead e => if decide (e ∈ l) then None else Some (0, e :: l)
  | OpAddTail e => if decide (e ∈ l) then None else Some (0, l ++ [e])
  | OpPopHead => match l with [] => Some (null, []) | e :: l => Some (e, l) end
  | OpDelete e => if decide (e ∈ l) then Some (0, filter (λ x, x ≠ e) l) else None
  | OpEmpty => Some (if decide (l = []) then 1 else 0, l)
  end.

Fixpoint abs_run (l : list Z) (ops : list list_op) : option (list Z * list Z) :=
  match ops with
  | [] => Some ([], l)
  | op :: ops =>
      p ← abs_step l op; q ← abs_run (snd p) ops; Some (fst p :: fst q, snd q)
  end.

Section refinement.
Context `{Linked}.

Definition conc_step (h : Z) (op : list_op) : M lmem Z :=
  match op with
  | OpAddHead e => List_add_head h e;; mret 0
  | OpAddTail e => List_add_tail h e;; mret 0
  | OpPopHead => List_pop_head h
  | OpDelete e => Linked_delete_from_list e;; mret 0
  | OpEmpty => b ← List_empty h; mret (if b : bool then 1 else 0)
  end.

Fixpoint conc_run (h : Z) (ops : list list_op) : M lmem (list Z) :=
  match ops with
  | [] => mret []
  | op :: ops => r ← conc_step h op; rs ← conc_run h ops; mret (r :: rs)
  end.

Definition op_elts (op : list_op) : list Z :=
  match op with OpAddHead e | OpAddTail e => [e] | _ => [] end.

(** The elements that are added have a node in memory. *)
Definition elt_ok (m : lmem) (h e : Z) : Prop :=
  into_node e ≠ null ∧ into_node e ≠ h ∧ is_Some (nodes m !! into_node e).

Definition is_list (m : lmem) (h : Z) (l : list Z) : Prop :=
  dll m h (into_node <$> l).

Lemma into_node_in e (l : list Z) : into_node e ∈ into_node <$> l ↔ e ∈ l.
Proof.
  rewrite list_elem_of_fmap. split; [|eauto].
  intros (y & E & Hy). unfold into_node in E. replace e with y by lia. done.
Qed.

Lemma is_list_nodup m h l : is_list m h l → NoDup l.
Proof. intros (_ & _ & Hnd & _). apply NoDup_cons in Hnd as [_ Hnd]. by eapply NoDup_fmap_1. Qed.

Lemma frame_is_some m m' ps h l q :
  frame m m' ps → dll m' h l → (∀ r, r ∈ ps → r ∈ h :: l ∨ is_Some (nodes m' !! r)) →
  is_Some (nodes m !! q) → is_Some (nodes m' !! q).
Proof.
  intros Hf Hd Hps Hq. destruct (decide (q ∈ ps)) as [Hin|Hout].
  - destruct (Hps q Hin) as [Hl|]; [|done].
    destruct (dll_in _ _ _ _ Hd Hl) as (a & b & Ha & _).
    unfold nx in Ha. apply fmap_Some in Ha as (n & -> & _). eauto.
  - by rewrite (proj1 (Hf q Hout)).
Qed.

Lemma conc_step_refines m h l op r l' :
  is_list m h l → (∀ e, e ∈ op_elts op → elt_ok m h e) →
  abs_step l op = Some (r, l') →
  ∃ m', conc_step h op m = Ret (r, m') ∧ is_list m' h l' ∧
        (∀ e, elt_ok m h e → elt_ok m' h e).
Proof.
  intros Hd Hok Ha.
  assert (∀ m' (Hm' : ∀ q, is_Some (nodes m !! q) → is_Some (nodes m' !! q)),
    ∀ e, elt_ok m h e → elt_ok m' h e) as Hkeep.
  { intros m' Hm' e (? & ? & ?). split_and!; auto. }
  destruct op as [e|e| |e|]; simpl in *.
  - case_decide as Hin; simplify_eq. destruct (Hok e ltac:(set_solver)) as (? & ? & ?).
    destruct (List_add_head_spec m h _ e Hd) as (m' & Hrun & Hd' & Hf); try done.
    { rewrite elem_of_cons, into_node_in. tauto. }
    exists m'. rewrite (M_bind_run _ _ _ _ _ Hrun). split_and!; [done..|].
    apply Hkeep. intros q. apply (frame_is_some _ _ _ _ _ _ Hf Hd'). set_solver.
  - case_decide as Hin; simplify_eq. destruct (Hok e ltac:(set_solver)) as (? & ? & ?).
    destruct (List_add_tail_spec m h _ e Hd) as (m' & Hrun & Hd' & Hf); try done.
    { rewrite elem_of_cons, into_node_in. tauto. }
    exists m'. rewrite (M_bind_run _ _ _ _ _ Hrun). split_and!; [done| |].
    + unfold is_list. by rewrite fmap_app.
    + apply Hkeep. intros q. apply (frame_is_some _ _ _ _ _ _ Hf Hd'). set_solver.
  - destruct l as [|e l]; simplify_eq.
    + exists m. rewrite (List_pop_head_nil _ _ Hd). eauto.
    + destruct (List_pop_head_cons _ _ _ _ Hd) as (m' & Hrun & Hd' & Hx & Hf).
      exists m'. rewrite from_into_node in Hrun. split_and!; [done..|]. apply Hkeep.
      intros q. apply (frame_is_some _ _ _ _ _ _ Hf Hd').
      intros p. rewrite !elem_of_cons. intros [?|[->|?]]; eauto.
  - case_decide as Hin; simplify_eq. pose proof (is_list_nodup _ _ _ Hd) as Hnd.
    apply list_elem_of_split in Hin as (l1 & l2 & ->).
    unfold is_list in Hd. rewrite fmap_app, fmap_cons in Hd.
    destruct (delete_from_list_spec _ _ _ _ _ Hd) as (m' & Hrun & Hd' & Hx & Hf).
    exists m'. unfold Linked_delete_from_list. rewrite (M_bind_run _ _ _ _ _ Hrun).
    split_and!; [done| |].
    + rewrite filter_app, filter_cons_False by tauto.
      rewrite NoDup_app, NoDup_cons in Hnd. destruct Hnd as (_ & Hdis & Hnin & _).
      rewrite !list_filter_keep by (intros y Hy ->; set_solver).
      unfold is_list. by rewrite fmap_app.
    + apply Hkeep. intros q. apply (frame_is_some _ _ _ _ _ _ Hf Hd').
      intros r. rewrite !elem_of_cons, !elem_of_app, elem_of_cons.
      intros [?|[?|[->|?]]]; eauto.
  - simplify_eq. exists m. rewrite (M_bind_run _ _ _ _ _ (List_empty_spec _ _ _ Hd)).
    split_and!; try done. unfold mret, M_ret. do 2 f_equal.
    case_decide; subst; [done|]. rewrite bool_decide_false; [done|].
    by intros ?%fmap_nil_inv.
Qed.
End refinement.

(** ** Properties *)

Section properties.
Context `{Linked}.


(** [splice] moves all elements of the other list to the tail of this
    one in order, leaves the other list empty and usable, and changes no
    third list. *)
Theorem List_splice_concat m h l other l' h3 l3 :
  is_list m h l → is_list m other l' → is_list m h3 l3 →
  h :: (into_node <$> l) ## other :: (into_node <$> l') →
  h3 :: (into_node <$> l3) ## h :: (into_node <$> l) ++ other :: (into_node <$> l') →
  ∃ m', List_splice h other m = Ret ((), m') ∧
    is_list m' h (l ++ l') ∧ is_list m' other [] ∧ is_list m' h3 l3.
Proof.
  intros Hd Hd' Hd3 Hdis Hdis3.
  destruct (List_splice_spec _ _ _ _ _ Hd Hd' Hdis) as (m' & Hrun & Hc & Ho & Hf).
  exists m'. split_and!; [done| |done|].
  - unfold is_list. by rewrite fmap_app.
  - apply (dll_frame _ _ _ _ _ Hd3 Hf). set_solver.
Qed.

(** [_len] terminates with the number of elements (any fuel above it is
    enough) and does not change the list. *)
Theorem List_len_correct m h l fuel :
  is_list m h l → (length l < fuel)%nat → Z.of_nat (length l) < 2 ^ 64 →
  List_len fuel h m = Ret (Z.of_nat (length l), m).
Proof.
  intros Hd Hf Hb. rewrite (List_len_spec m h _ fuel Hd); by rewrite length_fmap.
Qed.

(** A [for] loop over [iter()] or [iter_mut()] of a non-empty list does
    not visit the elements: it misses the first one and ends by yielding the
    list head itself as if it were an element. *)
Theorem List_iter_skips_first m h x l fuel :
  is_list m h (x :: l) → (S (length l) < fuel)%nat →
  (it ← List_iter h; Iter_collect fuel it) m = Ret (l ++ [from_node h], m).
Proof.
  intros Hd Hf. unfold is_list in Hd. rewrite fmap_cons in Hd.
  destruct (cons_last h (into_node x :: (into_node <$> l))) as (ps & a & E1).
  destruct (dll_home _ _ _ ps a (into_node x) ((into_node <$> l) ++ [h]) Hd E1)
    as (Hr & Hn & Hp & Hh0); [done|].
  erewrite M_bind_run. 2:{ unfold List_iter. do 2 mstep. reflexivity. }
  rewrite (Iter_collect_spec m h [] (into_node x) (into_node <$> l) fuel Hd)
    by (by rewrite length_fmap).
  rewrite fmap_app. do 3 f_equal. rewrite <-list_fmap_compose.
  rewrite <-(list_fmap_id l) at 2. apply list_fmap_ext. intros ? y _.
  apply from_into_node.
Qed.
End properties.

(** ** Witnesses *)

(** A memory with two list heads (8 and 16) and four nodes. *)
Definition demo_nodes : gmap Z ListNode :=
  list_to_map [(8, mkNode 32 40); (32, mkNode 40 8); (40, mkNode 8 32);
               (16, mkNode 48 48); (48, mkNode 16 16);
               (24, mkNode 24 24); (56, mkNode 0 0)].
Definition demo_mem : lmem :=
  mkMem demo_nodes (list_to_map [(8, 8); (16, 16); (24, 24)]).
Definition demo_linked : Linked := {| node_offset := 0 |}.

Ltac demo_list :=
  split_and!; [reflexivity | by apply (bool_decide_unpack _) | by apply (bool_decide_unpack _) |
               repeat split; reflexivity].


Lemma List_splice_concat_witness :
  ∃ m', List_splice 8 16 demo_mem = Ret ((), m') ∧
    is_list (H:=demo_linked) m' 8 ([32; 40] ++ [48]) ∧
    is_list (H:=demo_linked) m' 16 [] ∧ is_list (H:=demo_linked) m' 24 [].
Proof.
  apply (List_splice_concat (H:=demo_linked)); [demo_list..| |];
    by apply disjoint_Forall, (bool_decide_unpack _).
Defined.

Lemma List_len_correct_witness : List_len 10 8 demo_mem = Ret (2, demo_mem).
Proof.
  apply (List_len_correct (H:=demo_linked) demo_mem 8 [32; 40]); [demo_list|simpl; lia|done].
Defined.

Lemma List_iter_skips_first_witness :
  (it ← List_iter 8; Iter_collect (H:=demo_linked) 10 it) demo_mem = Ret ([40; 8], demo_mem).
Proof.
  apply (List_iter_skips_first (H:=demo_linked) demo_mem 8 32 [40]); [demo_list|simpl; lia].
Defined.
