(* ===== verification/Bitmap.v ===== *)
(** * klib/bitmap.rs: the page bitmap

    The storage a [Bitmap] points to is the list of its words.  The file proves
    the mask functions exact, [set], [clear] and [reverse_scan] correct on
    ranges that stay within the 64 bits a word really has, and what [scan]
    and [find] really do. *)

From S2P Require Import Prelude Defs.

Record Bitmap := mkBitmap {
  bm_size : Z;
  bm_storage_num : Z;
  bm_storage_data : Z;        (* address of the first word *)
  bm_words : list Z;          (* the words at that address *)
}.

Definition Bitmap_new : Bitmap := mkBitmap 0 0 0 [].

(** [words] is what memory holds at [base]. *)
Definition Bitmap_storage_init (base size : Z) (words : list Z) (bm : Bitmap) : Bitmap :=
  mkBitmap (bm_size bm) (size / BYTES_PER_USIZE) base words.

Definition Bitmap_init (size : Z) (bm : Bitmap) : Bitmap :=
  mkBitmap size (bm_storage_num bm) (bm_storage_data bm) (bm_words bm).

Definition BITMAP_UNIT_BITS : Z := 64 * BYTE_BITS.

Definition first_idx (bitoff : Z) : Z := bitoff / BITMAP_UNIT_BITS.
Definition last_idx (bitmax : Z) : Z := usub bitmax 1 / BITMAP_UNIT_BITS.

Definition get_mask (first last : bool) (off max : Z) : Z :=
  let mask := usize_max in
  let mask := if first then Z.land mask (ushl usize_max (off mod BITMAP_UNIT_BITS)) else mask in
  if last
  then Z.land mask
    (ushr usize_max ((BITMAP_UNIT_BITS - max mod BITMAP_UNIT_BITS) mod BITMAP_UNIT_BITS))
  else mask.

Definition mask_bits (data idx bitoff bitmax : Z) (is_set : bool) : Z :=
  let mask := get_mask (idx =? first_idx bitoff) (idx =? last_idx bitmax) bitoff bitmax in
  if is_set then unot (Z.lor (unot mask) data) else Z.land mask data.

Definition storage_unit_ref (idx : Z) : M Bitmap Z :=
  deref (λ bm, bm_words bm !! Z.to_nat idx).

Definition set_words (ws : list Z) (bm : Bitmap) : Bitmap :=
  mkBitmap (bm_size bm) (bm_storage_num bm) (bm_storage_data bm) ws.

(** Read, change and write back the [i]-th storage word. *)
Definition update_unit (i : Z) (f : Z → Z) : M Bitmap unit :=
  w ← storage_unit_ref i;
  modifyS (λ bm, set_words (<[Z.to_nat i := f w]> (bm_words bm)) bm).

(** [for i in first..=last { body i }], [n] iterations left. *)
Fixpoint for_range {S} (n : nat) (i : Z) (body : Z → M S unit) : M S unit :=
  match n with
  | O => mret ()
  | Datatypes.S n => body i;; for_range n (i + 1) body
  end.

Definition Bitmap_set (bitoff bitmax : Z) : M Bitmap (Result unit) :=
  bm ← getS;
  if (bitmax <? bitoff) || (bm_size bm <? bitmax) then mret (Err InvalidArgs)
  else if bitoff =? bitmax then mret (Ok ())
  else
    let fi := first_idx bitoff in
    let li := last_idx bitmax in
    for_range (Z.to_nat (li - fi + 1)) fi (λ i,
      update_unit i (λ w, Z.lor w (get_mask (i =? fi) (i =? li) bitoff bitmax)));;
    mret (Ok ()).

Definition Bitmap_clear (bitoff bitmax : Z) : M Bitmap (Result unit) :=
  bm ← getS;
  if (bitmax <? bitoff) || (bm_size bm <? bitmax) then mret (Err InvalidArgs)
  else if bitoff =? bitmax then mret (Ok ())
  else
    let fi := first_idx bitoff in
    let li := last_idx bitmax in
    for_range (Z.to_nat (li - fi + 1)) fi (λ i,
      update_unit i (λ w, Z.land w (unot (get_mask (i =? fi) (i =? li) bitoff bitmax))));;
    mret (Ok ()).

(** [for i in fi..li] of [scan]; the result carries [*out]. *)
Fixpoint scan_loop (n : nat) (i bitoff bitmax : Z) (is_set : bool) (out : Z) :
    M Bitmap (bool * Z) :=
  match n with
  | O => mret (true, out)
  | S n =>
      data ← storage_unit_ref i;
      let masked := mask_bits data i bitoff bitmax is_set in
      if negb (masked =? 0)
      then mret (false, uadd (umul i BITMAP_UNIT_BITS) (trailing_zeros masked))
      else scan_loop n (i + 1) bitoff bitmax is_set out
  end.

Definition Bitmap_scan (bitoff bitmax : Z) (is_set : bool) (out : Z) : M Bitmap (bool * Z) :=
  bm ← getS;
  let bitmax := Z.min bitmax (bm_size bm) in
  if bitmax <=? bitoff then mret (true, out)
  else
    let fi := first_idx bitoff in
    scan_loop (Z.to_nat (last_idx bitmax - fi)) fi bitoff bitmax is_set out.

(** [loop] of [reverse_scan]: [i] counts down to [first_idx bitoff]. *)
Fixpoint reverse_scan_loop (n : nat) (i bitoff bitmax : Z) (is_set : bool) (out : Z) :
    M Bitmap (bool * Z) :=
  match n with
  | O => spin
  | S n =>
      data ← storage_unit_ref i;
      let masked := mask_bits data i bitoff bitmax is_set in
      if negb (masked =? 0)
      then mret (false, usub (umul (uadd i 1) BITMAP_UNIT_BITS) (uadd (leading_zeros masked) 1))
      else if i =? first_idx bitoff then mret (true, out)
      else reverse_scan_loop n (usub i 1) bitoff bitmax is_set out
  end.

(** At most [last_idx - first_idx + 1] iterations. *)
Definition Bitmap_reverse_scan (bitoff bitmax : Z) (is_set : bool) (out : Z) :
    M Bitmap (bool * Z) :=
  bm ← getS;
  let bitmax := Z.min bitmax (bm_size bm) in
  if bitmax <=? bitoff then mret (true, out)
  else
    let li := last_idx bitmax in
    reverse_scan_loop (Z.to_nat (li - first_idx bitoff + 1)) li bitoff bitmax is_set out.

Fixpoint find_loop (fuel : nat) (is_set : bool) (bitoff bitmax run_len start : Z) :
    M Bitmap (Result Z) :=
  match fuel with
  | O => spin
  | S fuel =>
      p ← Bitmap_scan bitoff bitmax (negb is_set) start;
      if p.1 : bool then mret (Err NoResources)
      else
        let start := p.2 in
        if usub bitmax start <? run_len then mret (Err NoResources)
        else
          q ← Bitmap_scan start (uadd start run_len) is_set bitoff;
          if q.1 : bool then mret (Ok start)
          else find_loop fuel is_set q.2 bitmax run_len start
  end.

Definition Bitmap_find (fuel : nat) (is_set : bool) (bitoff bitmax run_len : Z) :
    M Bitmap (Result Z) :=
  if bitmax <=? bitoff then mret (Err InvalidArgs)
  else find_loop fuel is_set bitoff bitmax run_len bitoff.

(** [BIT_MASK!]. *)
Definition BIT_MASK (bits : Z) : Z :=
  if 64 <=? bits then usize_max else usub (ushl 1 bits) 1.

(** ** Masks *)

Lemma get_mask_usize f l off mx : is_usize (get_mask f l off mx).
Proof.
  assert (is_usize usize_max) by done.
  assert (∀ n, 0 ≤ ushl usize_max n) by (intros; apply usize_wrap_range).
  assert (∀ n, 0 ≤ ushr usize_max n) by (intros; by apply Z.shiftr_nonneg).
  unfold get_mask. destruct f, l; auto with word.
Qed.

Lemma get_mask_testbit f l off mx i :
  0 ≤ i < 64 →
  Z.testbit (get_mask f l off mx) i =
    (negb f || bool_decide (off mod 64 ≤ i)) &&
    (negb l || bool_decide (i ≤ (mx - 1) mod 64)).
Proof.
  intros Hi.
  assert (∀ n, Z.testbit (ushl usize_max n) i = bool_decide (n mod 64 ≤ i)) as Hl.
  { intros n. unfold ushl. rewrite usize_wrap_testbit, bool_decide_true by lia. simpl.
    pose proof (Z.mod_pos_bound n 64 ltac:(lia)).
    rewrite Z.shiftl_spec, usize_max_testbit by lia. apply bool_decide_ext. lia. }
  assert (∀ n, Z.testbit (ushr usize_max n) i = bool_decide (i < 64 - n mod 64)) as Hr.
  { intros n. unfold ushr. pose proof (Z.mod_pos_bound n 64 ltac:(lia)).
    rewrite Z.shiftr_spec, usize_max_testbit by lia. apply bool_decide_ext. lia. }
  assert (off mod BITMAP_UNIT_BITS mod 64 = off mod 64) as Eo.
  { unfold BITMAP_UNIT_BITS, BYTE_BITS. Z.div_mod_to_equations. lia. }
  assert (bool_decide (i < 64 - ((BITMAP_UNIT_BITS - mx mod BITMAP_UNIT_BITS) mod BITMAP_UNIT_BITS) mod 64)
          = bool_decide (i ≤ (mx - 1) mod 64)) as Em.
  { apply bool_decide_ext. unfold BITMAP_UNIT_BITS, BYTE_BITS. Z.div_mod_to_equations. lia. }
  assert (Z.testbit usize_max i = true) as Hmax by (rewrite usize_max_testbit; by apply bool_decide_true).
  unfold get_mask. destruct f, l; rewrite ?Z.land_spec, ?Hl, ?Hr, ?Hmax, ?Eo, ?Em; simpl;
    rewrite ?andb_true_r; done.
Qed.

Lemma mask_bits_usize data idx off mx b : is_usize data → is_usize (mask_bits data idx off mx b).
Proof.
  intros Hd. unfold mask_bits. pose proof (get_mask_usize (idx =? first_idx off) (idx =? last_idx mx) off mx) as Hm.
  destruct b; [auto with word|]. apply land_usize_l; [done|apply Hd].
Qed.

Lemma mask_bits_testbit data idx off mx b i :
  0 ≤ i < 64 →
  Z.testbit (mask_bits data idx off mx b) i =
    Z.testbit (get_mask (idx =? first_idx off) (idx =? last_idx mx) off mx) i &&
    xorb b (Z.testbit data i).
Proof.
  intros Hi. unfold mask_bits. set (g := get_mask _ _ _ _).
  destruct b.
  - rewrite unot_testbit, Z.lor_spec, unot_testbit by done.
    by destruct (Z.testbit g i), (Z.testbit data i).
  - rewrite Z.land_spec. by destruct (Z.testbit g i), (Z.testbit data i).
Qed.

(** ** Logical bits *)

(** Bit [n] of the bitmap is bit [n mod 512] of word [n / 512]: a word has 64
    bits, so only the first 64 offsets of a unit are backed by storage. *)
Definition bit (bm : Bitmap) (n : Z) : bool :=
  match bm_words bm !! Z.to_nat (n / BITMAP_UNIT_BITS) with
  | Some w => Z.testbit w (n mod BITMAP_UNIT_BITS)
  | None => false
  end.

Definition backed (n : Z) : Prop := 0 ≤ n ∧ n mod BITMAP_UNIT_BITS < 64.

(** The storage holds [bm_size] bits and its words are machine words. *)
Definition bm_wf (bm : Bitmap) : Prop :=
  Forall is_usize (bm_words bm) ∧
  0 ≤ bm_size bm ≤ Z.of_nat (length (bm_words bm)) * BITMAP_UNIT_BITS ∧
  bm_size bm < 2 ^ 64.

Lemma bm_wf_word bm i :
  bm_wf bm → 0 ≤ i < Z.of_nat (length (bm_words bm)) →
  ∃ w, bm_words bm !! Z.to_nat i = Some w ∧ is_usize w.
Proof.
  intros (Hw & _) Hi. destruct (lookup_lt_is_Some_2 (bm_words bm) (Z.to_nat i)) as [w Ew]; [lia|].
  exists w. split; [done|]. by eapply Forall_lookup_1.
Qed.

Lemma unit_pos : 0 < BITMAP_UNIT_BITS.
Proof. done. Qed.

Lemma last_idx_eq mx : 0 < mx < 2 ^ 64 → last_idx mx = (mx - 1) / BITMAP_UNIT_BITS.
Proof. intros. unfold last_idx. by rewrite usub_small by (unfold is_usize; lia). Qed.

Lemma for_range_update n i (f : Z → Z → Z) bm :
  0 ≤ i → i + Z.of_nat n ≤ Z.of_nat (length (bm_words bm)) →
  ∃ ws, for_range n i (λ i, update_unit i (f i)) bm = Ret ((), set_words ws bm) ∧
    length ws = length (bm_words bm) ∧
    ∀ j, 0 ≤ j → ws !! Z.to_nat j =
      if decide (i ≤ j < i + Z.of_nat n) then f j <$> bm_words bm !! Z.to_nat j
      else bm_words bm !! Z.to_nat j.
Proof.
  revert i bm. induction n as [|n IH]; intros i bm Hi Hb.
  { exists (bm_words bm). split_and!; [by destruct bm|done|].
    intros j Hj. rewrite decide_False by lia. done. }
  destruct (lookup_lt_is_Some_2 (bm_words bm) (Z.to_nat i)) as [w Ew]; [lia|].
  cbn [for_range]. erewrite M_bind_run.
  2:{ unfold update_unit. erewrite M_bind_run by (eapply deref_run; exact Ew). reflexivity. }
  destruct (IH (i + 1) (set_words (<[Z.to_nat i:=f i w]> (bm_words bm)) bm))
    as (ws & Hrun & Hlen & Hws); simpl in *; [lia|rewrite length_insert; lia|].
  exists ws. rewrite Hrun, length_insert in *. split_and!; [done|done|].
  intros j Hj. rewrite Hws by done. destruct (decide (j = i)) as [->|Hne].
  - rewrite decide_False, decide_True, list_lookup_insert_eq, Ew by lia. done.
  - rewrite list_lookup_insert_ne by lia.
    destruct (decide (i + 1 ≤ j < i + 1 + Z.of_nat n)); case_decide; (done || lia).
Qed.

(** The mask of word [j] restricted to [off, mx), in logical bits. *)
Lemma mask_logical off mx n :
  0 ≤ off < mx → mx < 2 ^ 64 → off mod BITMAP_UNIT_BITS < 64 →
  (n / BITMAP_UNIT_BITS = last_idx mx → (mx - 1) mod BITMAP_UNIT_BITS < 64) →
  backed n → first_idx off ≤ n / BITMAP_UNIT_BITS ≤ last_idx mx →
  Z.testbit (get_mask (n / BITMAP_UNIT_BITS =? first_idx off)
                      (n / BITMAP_UNIT_BITS =? last_idx mx) off mx) (n mod BITMAP_UNIT_BITS)
  = bool_decide (off ≤ n < mx).
Proof.
  intros Ho Hm Ho' Hm' [Hn Hn'] Hidx.
  rewrite last_idx_eq in * by lia.
  rewrite get_mask_testbit by (split; [apply Z.mod_pos_bound, unit_pos|done]).
  unfold first_idx, BITMAP_UNIT_BITS, BYTE_BITS in *.
  replace (off mod 64) with (off mod (64 * 8)) by (Z.div_mod_to_equations; lia).
  destruct (Z.eqb_spec (n / (64 * 8)) ((mx - 1) / (64 * 8))) as [El|];
    [specialize (Hm' El);
     replace ((mx - 1) mod 64) with ((mx - 1) mod (64 * 8)) by (Z.div_mod_to_equations; lia)|clear Hm'];
  set (u := 64 * 8) in *; destruct (Z.eqb_spec (n / u) (off / u)); simpl;
    rewrite ?andb_true_r; repeat case_bool_decide; try done; subst u; exfalso;
    Z.div_mod_to_equations; lia.
Qed.

(** [set] and [clear] share their loop: each word of the range is combined
    with its mask by an operation that acts bit by bit. *)
Section range_update.
Context (op : Z → Z → Z) (g : bool → bool → bool).
Hypothesis op_bit : ∀ w mask i, 0 ≤ i < 64 →
  Z.testbit (op w mask) i = g (Z.testbit w i) (Z.testbit mask i).
Hypothesis op_word : ∀ w mask, is_usize w → is_usize mask → is_usize (op w mask).
Hypothesis g_out : ∀ b, g b false = b.

Definition range_body (off mx : Z) (i : Z) : M Bitmap unit :=
  update_unit i (λ w, op w (get_mask (i =? first_idx off) (i =? last_idx mx) off mx)).

Lemma range_update_spec bm off mx :
  bm_wf bm → 0 ≤ off < mx → mx ≤ bm_size bm →
  off mod BITMAP_UNIT_BITS < 64 → (mx - 1) mod BITMAP_UNIT_BITS < 64 →
  ∃ ws, for_range (Z.to_nat (last_idx mx - first_idx off + 1)) (first_idx off)
          (range_body off mx) bm = Ret ((), set_words ws bm) ∧
    bm_wf (set_words ws bm) ∧
    ∀ n, backed n → bit (set_words ws bm) n = g (bit bm n) (bool_decide (off ≤ n < mx)).
Proof.
  intros Hwf Ho Hmx Ho' Hm'. pose proof Hwf as (Hwords & Hsz & Hsz').
  pose proof unit_pos.
  assert (0 ≤ first_idx off) by (apply Z.div_pos; lia).
  assert (first_idx off ≤ last_idx mx).
  { rewrite last_idx_eq by lia. apply Z.div_le_mono; lia. }
  assert (last_idx mx < Z.of_nat (length (bm_words bm))).
  { rewrite last_idx_eq by lia. apply Z.div_lt_upper_bound; lia. }
  destruct (for_range_update (Z.to_nat (last_idx mx - first_idx off + 1)) (first_idx off)
    (λ i w, op w (get_mask (i =? first_idx off) (i =? last_idx mx) off mx)) bm)
    as (ws & Hrun & Hlen & Hws); [lia|lia|].
  exists ws. split; [done|]. split.
  - split; [|simpl; by rewrite Hlen]. apply Forall_lookup. intros j w Hw. simpl in Hw.
    replace j with (Z.to_nat (Z.of_nat j)) in Hw by lia. rewrite Hws in Hw by lia.
    rewrite Nat2Z.id in Hw. case_decide.
    + apply fmap_Some in Hw as (w0 & Ew & ->). apply op_word; [|apply get_mask_usize].
      by eapply Forall_lookup_1.
    + by eapply Forall_lookup_1.
  - intros n Hn. pose proof Hn as [Hn0 Hn64].
    assert (0 ≤ n / BITMAP_UNIT_BITS) by (apply Z.div_pos; lia).
    unfold bit; simpl. rewrite Hws by done. case_decide as Hin.
    + destruct (bm_wf_word bm (n / BITMAP_UNIT_BITS)) as (w & Ew & Hw); [done|lia|].
      rewrite Ew; simpl. rewrite op_bit by (split; [apply Z.mod_pos_bound, unit_pos|done]).
      by rewrite mask_logical by (done || lia).
    + rewrite bool_decide_false, g_out; [done|]. intros Hr. apply Hin.
      rewrite last_idx_eq by lia. split; [apply Z.div_le_mono; lia|].
      assert (n / BITMAP_UNIT_BITS ≤ (mx - 1) / BITMAP_UNIT_BITS) by (apply Z.div_le_mono; lia).
      rewrite last_idx_eq in * by lia. lia.
Qed.
End range_update.

Lemma Bitmap_set_spec bm off mx :
  bm_wf bm → 0 ≤ off < mx → mx ≤ bm_size bm →
  off mod BITMAP_UNIT_BITS < 64 → (mx - 1) mod BITMAP_UNIT_BITS < 64 →
  ∃ ws, Bitmap_set off mx bm = Ret (Ok (), set_words ws bm) ∧ bm_wf (set_words ws bm) ∧
    ∀ n, backed n → bit (set_words ws bm) n = bit bm n || bool_decide (off ≤ n < mx).
Proof.
  intros Hwf Ho Hm H1 H2.
  destruct (range_update_spec Z.lor orb) with (bm:=bm) (off:=off) (mx:=mx)
    as (ws & Hrun & Hwf' & Hbit); try done.
  { intros. apply Z.lor_spec. } { apply lor_usize. } { apply orb_false_r. }
  exists ws. split; [|done]. unfold Bitmap_set. erewrite M_bind_run by reflexivity.
  rewrite (proj2 (Z.ltb_ge mx off)), (proj2 (Z.ltb_ge (bm_size bm) mx)) by lia. cbn [orb].
  rewrite (proj2 (Z.eqb_neq off mx)) by lia. by rewrite (M_bind_run _ _ _ _ _ Hrun).
Qed.

Lemma Bitmap_clear_spec bm off mx :
  bm_wf bm → 0 ≤ off < mx → mx ≤ bm_size bm →
  off mod BITMAP_UNIT_BITS < 64 → (mx - 1) mod BITMAP_UNIT_BITS < 64 →
  ∃ ws, Bitmap_clear off mx bm = Ret (Ok (), set_words ws bm) ∧ bm_wf (set_words ws bm) ∧
    ∀ n, backed n → bit (set_words ws bm) n = bit bm n && negb (bool_decide (off ≤ n < mx)).
Proof.
  intros Hwf Ho Hm H1 H2.
  destruct (range_update_spec (λ w m, Z.land w (unot m)) (λ a b, a && negb b))
    with (bm:=bm) (off:=off) (mx:=mx) as (ws & Hrun & Hwf' & Hbit); try done.
  { intros. by rewrite Z.land_spec, unot_testbit. }
  { intros w m Hw Hmk. apply land_usize_l; [done|by apply unot_usize]. }
  { apply andb_true_r. }
  exists ws. split; [|done]. unfold Bitmap_clear. erewrite M_bind_run by reflexivity.
  rewrite (proj2 (Z.ltb_ge mx off)), (proj2 (Z.ltb_ge (bm_size bm) mx)) by lia. cbn [orb].
  rewrite (proj2 (Z.eqb_neq off mx)) by lia. by rewrite (M_bind_run _ _ _ _ _ Hrun).
Qed.

(** ** Scanning *)

(** The masked word of a scan has a set bit exactly where a logical bit of the
    range differs from [is_set]. *)
Lemma mask_bits_logical bm w off mx b n :
  bm_words bm !! Z.to_nat (n / BITMAP_UNIT_BITS) = Some w →
  0 ≤ off < mx → mx < 2 ^ 64 → off mod BITMAP_UNIT_BITS < 64 →
  (n / BITMAP_UNIT_BITS = last_idx mx → (mx - 1) mod BITMAP_UNIT_BITS < 64) →
  backed n → first_idx off ≤ n / BITMAP_UNIT_BITS ≤ last_idx mx →
  Z.testbit (mask_bits w (n / BITMAP_UNIT_BITS) off mx b) (n mod BITMAP_UNIT_BITS)
  = bool_decide (off ≤ n < mx) && xorb b (bit bm n).
Proof.
  intros Ew Ho Hm H1 H2 Hn Hidx.
  rewrite mask_bits_testbit, mask_logical; try done.
  - unfold bit. by rewrite Ew.
  - split; [apply Z.mod_pos_bound, unit_pos|apply Hn].
Qed.

Lemma unit_split i k : 0 ≤ k < 64 →
  (i * BITMAP_UNIT_BITS + k) / BITMAP_UNIT_BITS = i ∧
  (i * BITMAP_UNIT_BITS + k) mod BITMAP_UNIT_BITS = k.
Proof.
  intros Hk. assert (0 ≤ k < BITMAP_UNIT_BITS) by (change BITMAP_UNIT_BITS with 512; lia).
  split.
  - rewrite Z.div_add_l, Z.div_small by lia. lia.
  - rewrite Z.add_comm, Z.mod_add, Z.mod_small by lia. lia.
Qed.

(** What the reverse scan reports about [lo, hi): all bits equal [b], or the
    highest bit [o] that does not, whose word position [63 - lz] is turned into
    an offset as if the word had 512 bits, so that [out] is [o + 448]. *)
Definition rscan_result (bm : Bitmap) (lo hi : Z) (b : bool) (out : Z) (r : bool * Z) : Prop :=
  (r = (true, out) ∧ ∀ n, backed n → lo ≤ n < hi → bit bm n = b) ∨
  (∃ o, r = (false, o + 448) ∧ backed o ∧ lo ≤ o < hi ∧ bit bm o = negb b ∧
     ∀ n, backed n → o < n < hi → bit bm n = b).

(** What the forward scan reports: the units below the last one of the range
    match, or [o] is the lowest bit of the range that does not. *)
Definition scan_result (bm : Bitmap) (lo hi : Z) (b : bool) (out : Z) (r : bool * Z) : Prop :=
  (r = (true, out) ∧ ∀ n, backed n → lo ≤ n < hi →
     n / BITMAP_UNIT_BITS < last_idx hi → bit bm n = b) ∨
  (∃ o, r = (false, o) ∧ backed o ∧ lo ≤ o < hi ∧ bit bm o = negb b ∧
     ∀ n, backed n → lo ≤ n < o → bit bm n = b).

Section scanning.
Context (bm : Bitmap) (off mx : Z) (b : bool).
Hypothesis Hwf : bm_wf bm.
Hypothesis Hoff : 0 ≤ off < mx.
Hypothesis Hmx : mx ≤ bm_size bm.
Hypothesis Hoff64 : off mod BITMAP_UNIT_BITS < 64.

Lemma scan_idx_bounds :
  0 ≤ first_idx off ≤ last_idx mx ∧ last_idx mx < Z.of_nat (length (bm_words bm)) ∧
  last_idx mx * BITMAP_UNIT_BITS < mx < 2 ^ 64.
Proof.
  pose proof Hwf as (_ & Hsz & Hsz'). pose proof unit_pos.
  rewrite last_idx_eq by lia. unfold first_idx.
  pose proof (Z.mul_div_le (mx - 1) BITMAP_UNIT_BITS unit_pos).
  split_and!; try lia.
  - apply Z.div_pos; lia.
  - apply Z.div_le_mono; lia.
  - apply Z.div_lt_upper_bound; lia.
Qed.

(** The masked word of unit [i], bit by bit. *)
Lemma masked_word i w :
  bm_words bm !! Z.to_nat i = Some w → first_idx off ≤ i ≤ last_idx mx →
  (i = last_idx mx → (mx - 1) mod BITMAP_UNIT_BITS < 64) →
  ∀ j, 0 ≤ j < 64 → Z.testbit (mask_bits w i off mx b) j =
    bool_decide (off ≤ i * BITMAP_UNIT_BITS + j < mx) &&
    xorb b (bit bm (i * BITMAP_UNIT_BITS + j)).
Proof.
  intros Ew Hi Hl j Hj. destruct (unit_split i j Hj) as [E1 E2].
  destruct scan_idx_bounds as (? & ? & ?). pose proof unit_pos.
  rewrite <-(mask_bits_logical bm w off mx b); rewrite ?E1, ?E2; try done; try lia.
  split; [nia|]. rewrite E2. lia.
Qed.

(** A masked word that is zero: the range's bits of the unit all match. *)
Lemma masked_word_zero i w :
  bm_words bm !! Z.to_nat i = Some w → first_idx off ≤ i ≤ last_idx mx →
  (i = last_idx mx → (mx - 1) mod BITMAP_UNIT_BITS < 64) →
  mask_bits w i off mx b = 0 →
  ∀ n, backed n → off ≤ n < mx → n / BITMAP_UNIT_BITS = i → bit bm n = b.
Proof.
  intros Ew Hi Hl E0 n [Hn0 Hn64] Hr Hni.
  pose proof (Z.mod_pos_bound n BITMAP_UNIT_BITS unit_pos).
  pose proof (masked_word i w Ew Hi Hl (n mod BITMAP_UNIT_BITS) ltac:(lia)) as Hb.
  rewrite E0, Z.bits_0 in Hb.
  replace (i * BITMAP_UNIT_BITS + n mod BITMAP_UNIT_BITS) with n in Hb.
  2:{ pose proof (Z.div_mod n BITMAP_UNIT_BITS ltac:(lia)). rewrite Hni in *. lia. }
  rewrite bool_decide_true in Hb by lia. by destruct b, (bit bm n).
Qed.

Lemma reverse_scan_loop_spec out k i :
  first_idx off ≤ i ≤ last_idx mx → (Z.to_nat (i - first_idx off) < k)%nat →
  mx + 512 < 2 ^ 64 → (mx - 1) mod BITMAP_UNIT_BITS < 64 →
  (∀ n, backed n → i < n / BITMAP_UNIT_BITS → off ≤ n < mx → bit bm n = b) →
  ∃ r, reverse_scan_loop k i off mx b out bm = Ret (r, bm) ∧ rscan_result bm off mx b out r.
Proof.
  revert i. destruct scan_idx_bounds as (Hb1 & Hb2 & Hb3).
  assert (BITMAP_UNIT_BITS = 512) as EU by done.
  induction k as [|k IH]; intros i Hi Hk Hbig Hmx64 Habove; [lia|].
  destruct (bm_wf_word bm i) as (w & Ew & Hw); [done|lia|].
  cbn [reverse_scan_loop]. erewrite M_bind_run by (eapply deref_run; exact Ew).
  destruct (Z.eqb_spec (mask_bits w i off mx b) 0) as [E0|Hne]; cbn [negb].
  - pose proof (masked_word_zero i w Ew Hi (λ _, Hmx64) E0) as Hi0.
    destruct (Z.eqb_spec i (first_idx off)) as [Hif|Hnf].
    + eexists; split; [reflexivity|]. left. split; [done|]. intros n Hn Hr.
      destruct (decide (n / BITMAP_UNIT_BITS = i)); [by apply Hi0|apply Habove; try done].
      assert (off / BITMAP_UNIT_BITS ≤ n / BITMAP_UNIT_BITS) by (apply Z.div_le_mono; lia).
      unfold first_idx in *. lia.
    + rewrite usub_small by (unfold is_usize; lia). apply IH; [lia|lia|done|done|].
      intros n Hn Hlt Hr. destruct (decide (n / BITMAP_UNIT_BITS = i)); [by apply Hi0|].
      apply Habove; try done. lia.
  - pose proof (mask_bits_usize w i off mx b Hw) as Hmk.
    destruct (leading_zeros_spec _ Hmk Hne) as (Hlz & Htop & Hup).
    set (lz := leading_zeros _) in *.
    destruct (unit_split i (63 - lz) ltac:(lia)) as [E1 E2].
    rewrite (masked_word i w) in Htop by (done || lia).
    apply andb_prop in Htop as [Hin Hx]. apply bool_decide_eq_true in Hin.
    eexists; split; [reflexivity|]. right. exists (i * BITMAP_UNIT_BITS + (63 - lz)).
    split_and!.
    + f_equal. rewrite EU in *. rewrite (uadd_small i), (uadd_small lz), umul_small, usub_small
        by (unfold is_usize; lia). lia.
    + split; [lia|]. rewrite E2. lia.
    + lia.
    + lia.
    + by destruct b, (bit bm (i * BITMAP_UNIT_BITS + (63 - lz))).
    + intros n Hn Hr. assert (i ≤ n / BITMAP_UNIT_BITS).
      { rewrite <-E1 at 1. apply Z.div_le_mono; lia. }
      destruct (decide (n / BITMAP_UNIT_BITS = i)) as [Eni|]; [|apply Habove; [done|lia|lia]].
      destruct Hn as [Hn0 Hn64]. pose proof (Z.mod_pos_bound n BITMAP_UNIT_BITS unit_pos).
      pose proof (Z.div_mod n BITMAP_UNIT_BITS ltac:(lia)) as Hdm. rewrite Eni in Hdm.
      pose proof (masked_word i w Ew Hi (λ _, Hmx64) (n mod BITMAP_UNIT_BITS) ltac:(lia)) as Hb.
      rewrite Hup in Hb by lia.
      replace (i * BITMAP_UNIT_BITS + n mod BITMAP_UNIT_BITS) with n in Hb by lia.
      rewrite bool_decide_true in Hb by lia. by destruct b, (bit bm n).
Qed.

(** [scan] looks at the units below the last one only: [(true, out)] says that
    their bits in the range match, [(false, o)] that [o] is the lowest bit
    that does not. *)
Lemma scan_loop_spec out k i :
  first_idx off ≤ i → i + Z.of_nat k = last_idx mx →
  (∀ n, backed n → n / BITMAP_UNIT_BITS < i → off ≤ n < mx → bit bm n = b) →
  ∃ r, scan_loop k i off mx b out bm = Ret (r, bm) ∧ scan_result bm off mx b out r.
Proof.
  revert i. destruct scan_idx_bounds as (Hb1 & Hb2 & Hb3).
  assert (BITMAP_UNIT_BITS = 512) as EU by done.
  induction k as [|k IH]; intros i Hi Hk Hbelow.
  { eexists; split; [reflexivity|]. left. split; [done|]. intros n Hn Hr Hu.
    apply Hbelow; [done|lia|lia]. }
  destruct (bm_wf_word bm i) as (w & Ew & Hw); [done|lia|].
  assert (i = last_idx mx → (mx - 1) mod BITMAP_UNIT_BITS < 64) as Hl by lia.
  assert (first_idx off ≤ i ≤ last_idx mx) as Hi' by lia.
  cbn [scan_loop]. erewrite M_bind_run by (eapply deref_run; exact Ew).
  destruct (Z.eqb_spec (mask_bits w i off mx b) 0) as [E0|Hne]; cbn [negb].
  - apply IH; [lia|lia|]. intros n Hn Hu Hr.
    destruct (decide (n / BITMAP_UNIT_BITS = i)) as [Eni|];
      [by apply (masked_word_zero i w)|apply Hbelow; [done|lia|lia]].
  - pose proof (mask_bits_usize w i off mx b Hw) as Hmk.
    destruct (trailing_zeros_spec _ Hmk Hne) as (Htz & Hbot & Hlow).
    set (tz := trailing_zeros _) in *.
    destruct (unit_split i tz ltac:(lia)) as [E1 E2].
    rewrite (masked_word i w) in Hbot by (done || lia).
    apply andb_prop in Hbot as [Hin Hx]. apply bool_decide_eq_true in Hin.
    eexists; split; [reflexivity|]. right. exists (i * BITMAP_UNIT_BITS + tz).
    rewrite umul_small, uadd_small by (unfold is_usize; lia).
    split_and!; [done|split; [lia|rewrite E2; lia]|lia|lia| |].
    + by destruct b, (bit bm (i * BITMAP_UNIT_BITS + tz)).
    + intros n Hn Hr.
      assert (n / BITMAP_UNIT_BITS ≤ i) by (rewrite <-E1; apply Z.div_le_mono; lia).
      destruct (decide (n / BITMAP_UNIT_BITS = i)) as [Eni|]; [|apply Hbelow; [done|lia|lia]].
      destruct Hn as [Hn0 Hn64]. pose proof (Z.mod_pos_bound n BITMAP_UNIT_BITS unit_pos).
      pose proof (Z.div_mod n BITMAP_UNIT_BITS ltac:(lia)) as Hdm. rewrite Eni in Hdm.
      pose proof (masked_word i w Ew Hi' Hl (n mod BITMAP_UNIT_BITS) ltac:(lia)) as Hb.
      rewrite Hlow in Hb by lia.
      replace (i * BITMAP_UNIT_BITS + n mod BITMAP_UNIT_BITS) with n in Hb by lia.
      rewrite bool_decide_true in Hb by lia. by destruct b, (bit bm n).
Qed.
End scanning.

Lemma Bitmap_reverse_scan_spec bm off mx b out :
  bm_wf bm → 0 ≤ off < mx → mx ≤ bm_size bm → mx + 512 < 2 ^ 64 →
  off mod BITMAP_UNIT_BITS < 64 → (mx - 1) mod BITMAP_UNIT_BITS < 64 →
  ∃ r, Bitmap_reverse_scan off mx b out bm = Ret (r, bm) ∧ rscan_result bm off mx b out r.
Proof.
  intros Hwf Ho Hm Hbig H1 H2. destruct (scan_idx_bounds bm off mx) as (? & ? & ?); [done..|].
  unfold Bitmap_reverse_scan. erewrite M_bind_run by reflexivity. cbv beta zeta.
  rewrite Z.min_l, (proj2 (Z.leb_gt mx off)) by lia.
  apply reverse_scan_loop_spec; try done; try lia.
  intros n Hn Hi Hr. exfalso. pose proof unit_pos. rewrite last_idx_eq in * by lia.
  assert (n / BITMAP_UNIT_BITS ≤ (mx - 1) / BITMAP_UNIT_BITS) by (apply Z.div_le_mono; lia). lia.
Qed.

(** [scan] with its clamp of [bitmax] to the bitmap's size. *)
Lemma Bitmap_scan_spec bm off mx b out :
  bm_wf bm → 0 ≤ off → off mod BITMAP_UNIT_BITS < 64 →
  ∃ r, Bitmap_scan off mx b out bm = Ret (r, bm) ∧
    scan_result bm off (Z.min mx (bm_size bm)) b out r.
Proof.
  intros Hwf Ho H1. unfold Bitmap_scan. erewrite M_bind_run by reflexivity. cbv beta zeta.
  set (mx' := Z.min mx (bm_size bm)). destruct (Z.leb_spec mx' off) as [Hle|Hlt].
  { eexists; split; [reflexivity|]. left. split; [done|lia]. }
  destruct (scan_idx_bounds bm off mx') as (? & ? & ?); [done|lia|lia|].
  apply scan_loop_spec; try done; try lia.
  intros n Hn Hi Hr. exfalso. pose proof unit_pos.
  assert (off / BITMAP_UNIT_BITS ≤ n / BITMAP_UNIT_BITS) by (apply Z.div_le_mono; lia).
  unfold first_idx in *. lia.
Qed.

(** ** find *)

(** A run [find] accepts: it starts at a matching bit, and every bit of it that
    [scan] looks at matches. *)
Definition find_result (bm : Bitmap) (is_set : bool) (off mx run : Z) (r : Result Z) : Prop :=
  r = Err NoResources ∨
  ∃ s, r = Ok s ∧ off ≤ s ∧ s + run ≤ mx ∧ s < bm_size bm ∧ backed s ∧ bit bm s = is_set ∧
    ∀ n, backed n → s ≤ n < Z.min (s + run) (bm_size bm) →
      n / BITMAP_UNIT_BITS < last_idx (Z.min (s + run) (bm_size bm)) → bit bm n = is_set.

Lemma find_loop_spec bm is_set mx run fuel : ∀ off start,
  bm_wf bm → backed off → mx < 2 ^ 64 → 0 ≤ run → (Z.to_nat (mx - off) < fuel)%nat →
  ∃ r, find_loop fuel is_set off mx run start bm = Ret (r, bm) ∧
    find_result bm is_set off mx run r.
Proof.
  induction fuel as [|fuel IH]; intros off start Hwf [Ho Ho64] Hm Hrun Hf; [lia|].
  cbn [find_loop].
  destruct (Bitmap_scan_spec bm off mx (negb is_set) start) as (r & Hr & Hsc); [done..|].
  rewrite (M_bind_run _ _ _ _ _ Hr).
  destruct Hsc as [[-> _]|(s & -> & Hs & Hrange & Hbit & _)]; cbn [fst snd].
  { eexists; split; [reflexivity|by left]. }
  rewrite negb_involutive in Hbit.
  rewrite usub_small by (unfold is_usize; lia).
  destruct (Z.ltb_spec (mx - s) run) as [|Hfit]; [eexists; split; [reflexivity|by left]|].
  rewrite uadd_small by (unfold is_usize; lia).
  destruct (Bitmap_scan_spec bm s (s + run) is_set off) as (r & Hr2 & Hsc2); [done|lia|apply Hs|].
  rewrite (M_bind_run _ _ _ _ _ Hr2).
  destruct Hsc2 as [[-> Hall]|(o & -> & Hob & Hor & Hobit & _)]; cbn [fst snd].
  { eexists; split; [reflexivity|]. right. exists s. split_and!; try done; lia. }
  assert (s < o). { destruct (decide (s = o)) as [->|]; [by destruct is_set, (bit bm o)|lia]. }
  destruct (IH o s) as (r & Hr3 & Hres); [done..|lia|].
  exists r. split; [done|]. destruct Hres as [|(s' & ? & ? & Hrest)]; [by left|].
  right. exists s'. split; [done|]. split; [lia|done].
Qed.

(** ** Claims *)

(** [get_mask] of bitmap.rs keeps exactly the bits its comment promises:
    bit [i] of the 64-bit mask is set unless the word is the first one and
    [i] is below the offset, or it is the last one and [i] is not below the
    limit (both taken modulo the 64 bits of a word). *)
Theorem get_mask_exact first last off max i :
  0 ≤ i < 64 →
  Z.testbit (get_mask first last off max) i =
    (negb first || bool_decide (off mod 64 ≤ i)) &&
    (negb last || bool_decide (i ≤ (max - 1) mod 64)).
Proof. apply get_mask_testbit. Qed.

(** The four examples of the comment above [get_mask]. *)
Example get_mask_doc :
  get_mask false false 16 48 = 0xffffffffffffffff ∧
  get_mask true false 16 48 = 0xffffffffffff0000 ∧
  get_mask false true 16 48 = 0x0000ffffffffffff ∧
  get_mask true true 16 48 = 0x0000ffffffff0000.
Proof. done. Qed.

Lemma get_mask_exact_witness : Z.testbit (get_mask true true 16 48) 20 = true.
Proof. rewrite get_mask_exact; [reflexivity|lia]. Defined.

Definition demo_bm : Bitmap := mkBitmap 1536 3 0x1000 [0x0f; 0; 0xff00].

Lemma demo_bm_wf : bm_wf demo_bm.
Proof. repeat constructor; vm_compute; (done || intros [=]). Qed.

(** On a range whose ends fall on backed bits, [set] and [clear] of a
    well-formed bitmap succeed and preserve well-formedness, and afterwards
    a backed bit is true, or false, exactly if it lies in the range, and
    otherwise what it was. *)
Theorem Bitmap_set_clear_exact bm off mx :
  bm_wf bm → 0 ≤ off < mx → mx ≤ bm_size bm →
  off mod BITMAP_UNIT_BITS < 64 → (mx - 1) mod BITMAP_UNIT_BITS < 64 →
  (∃ ws, Bitmap_set off mx bm = Ret (Ok (), set_words ws bm) ∧ bm_wf (set_words ws bm) ∧
    ∀ n, backed n → bit (set_words ws bm) n = bit bm n || bool_decide (off ≤ n < mx)) ∧
  (∃ ws, Bitmap_clear off mx bm = Ret (Ok (), set_words ws bm) ∧ bm_wf (set_words ws bm) ∧
    ∀ n, backed n → bit (set_words ws bm) n = bit bm n && negb (bool_decide (off ≤ n < mx))).
Proof. intros. split; [by apply Bitmap_set_spec|by apply Bitmap_clear_spec]. Qed.

Lemma Bitmap_set_clear_exact_witness :
  ∃ ws, Bitmap_set 4 520 demo_bm = Ret (Ok (), set_words ws demo_bm) ∧
        bit (set_words ws demo_bm) 519 = true ∧ bit (set_words ws demo_bm) 520 = false.
Proof.
  destruct (Bitmap_set_clear_exact demo_bm 4 520) as [(ws & Hrun & _ & Hbit) _];
    [apply demo_bm_wf|lia|vm_compute; done|vm_compute; done|vm_compute; done|].
  exists ws. split; [exact Hrun|].
  split; (rewrite Hbit; [reflexivity|vm_compute; split; [intros [=]|reflexivity]]).
Defined.

(** [reverse_scan] over a range with backed ends terminates without
    changing the bitmap and answers [true], leaving [out] alone, exactly when
    every backed bit of the range equals [is_set]; otherwise it answers
    [false] and [out] is 448 more than the highest bit that differs: the
    offset formula takes a word to have 512 bits. *)
Theorem Bitmap_reverse_scan_result bm off mx b out :
  bm_wf bm → 0 ≤ off < mx → mx ≤ bm_size bm → mx + 512 < 2 ^ 64 →
  off mod BITMAP_UNIT_BITS < 64 → (mx - 1) mod BITMAP_UNIT_BITS < 64 →
  ∃ r, Bitmap_reverse_scan off mx b out bm = Ret (r, bm) ∧
    ((r = (true, out) ∧ ∀ n, backed n → off ≤ n < mx → bit bm n = b) ∨
     (∃ o, r = (false, o + 448) ∧ backed o ∧ off ≤ o < mx ∧ bit bm o = negb b ∧
        ∀ n, backed n → o < n < mx → bit bm n = b)).
Proof. apply Bitmap_reverse_scan_spec. Qed.

Lemma Bitmap_reverse_scan_result_witness :
  Bitmap_reverse_scan 0 1040 false 0 demo_bm = Ret ((false, 1039 + 448), demo_bm) ∧
  ∃ r, Bitmap_reverse_scan 4 520 false 77 demo_bm = Ret (r, demo_bm) ∧ r = (true, 77).
Proof.
  split; [reflexivity|].
  destruct (Bitmap_reverse_scan_result demo_bm 4 520 false 77) as (r & Hr & Hcase);
    [apply demo_bm_wf|lia|vm_compute; done|lia|vm_compute; done|vm_compute; done|].
  exists r. split; [exact Hr|]. assert (Some (r, demo_bm) = Some ((true, 77), demo_bm)) as [= ->].
  { assert (Ret (r, demo_bm) = Ret ((true, 77), demo_bm)) as [= ->] by (rewrite <- Hr; reflexivity).
    reflexivity. }
  reflexivity.
Defined.

(** [find] from a backed offset terminates: with fuel above the length of
    the range it returns [NoResources] or a start [s] in the range whose bit
    matches, with [s + run_len] inside the range, such that every backed
    bit of the run matches, but for the last storage unit of the run, which
    [scan]'s exclusive loop bound never reads. *)
Theorem Bitmap_find_terminates bm is_set off mx run fuel :
  bm_wf bm → backed off → off < mx < 2 ^ 64 → 0 ≤ run → (Z.to_nat (mx - off) < fuel)%nat →
  ∃ r, Bitmap_find fuel is_set off mx run bm = Ret (r, bm) ∧
    (r = Err NoResources ∨
     ∃ s, r = Ok s ∧ off ≤ s ∧ s + run ≤ mx ∧ s < bm_size bm ∧ backed s ∧ bit bm s = is_set ∧
       ∀ n, backed n → s ≤ n < Z.min (s + run) (bm_size bm) →
         n / BITMAP_UNIT_BITS < last_idx (Z.min (s + run) (bm_size bm)) → bit bm n = is_set).
Proof.
  intros Hwf Ho Hm Hrun Hf. unfold Bitmap_find. rewrite (proj2 (Z.leb_gt mx off)) by lia.
  apply find_loop_spec; done || lia.
Qed.

Lemma Bitmap_find_terminates_witness :
  Bitmap_find 2000 false 0 1536 8 demo_bm = Ret (Ok 4, demo_bm) ∧
  ∃ r, Bitmap_find 2000 true 0 1536 8 demo_bm = Ret (r, demo_bm).
Proof.
  split; [reflexivity|].
  destruct (Bitmap_find_terminates demo_bm true 0 1536 8 2000) as (r & Hr & _);
    [apply demo_bm_wf|vm_compute; split; [intros [=]|reflexivity]|lia|lia|lia|].
  exists r. exact Hr.
Defined.
