(* ===== verification/Page.v ===== *)
(** * page.rs and vm_page_state.rs: page structures

    A [vm_page] lives at an address of page-array memory; its list node, the
    first field of the [repr(C)] struct, is kept in the list memory of
    LinkedList, the other fields in a map of their own.  [vm_page_object]
    packs the pin count and three flags into one byte. *)

From S2P Require Import Prelude Defs LinkedList.

(** ** vm_page_state.rs *)

Definition FREE : Z := 0.
Definition ALLOC : Z := 1.
Definition OBJECT : Z := 2.
Definition WIRED : Z := 3.
Definition HEAP : Z := 4.
Definition MMU : Z := 5.
Definition IOMMU : Z := 6.
Definition IPC : Z := 7.
Definition CACHE : Z := 8.
Definition SLAB : Z := 9.
Definition COUNT_ : Z := 10.

(** ** vm_page_object *)

Record vm_page_object := mkObj {
  object_or_stack_owner : Z;
  page_offset_priv : Z;
  page_queue : Z;
  pin_byte : Z;               (* the [pin_count] field *)
  dirty_state : Z;
}.

Definition VM_PAGE_OBJECT_MAX_PIN_COUNT : Z := 31.
Definition VM_PAGE_OBJECT_COW_LEFT_SPLIT : Z := Z.shiftl 1 5.
Definition VM_PAGE_OBJECT_COW_RIGHT_SPLIT : Z := Z.shiftl 1 6.
Definition VM_PAGE_OBJECT_ALWAYS_NEED : Z := Z.shiftl 1 7.
Definition DIRTY_STATE_UNTRACKED : Z := 0.
Definition DIRTY_STATE_NUM_STATES : Z := 4.
Definition IS_STACK_OWNER_FLAG : Z := 1.

Definition vm_page_object_new : vm_page_object := mkObj 0 0 0 0 DIRTY_STATE_UNTRACKED.

Definition with_owner (x : Z) (o : vm_page_object) : vm_page_object :=
  mkObj x (page_offset_priv o) (page_queue o) (pin_byte o) (dirty_state o).
Definition with_pin (x : Z) (o : vm_page_object) : vm_page_object :=
  mkObj (object_or_stack_owner o) (page_offset_priv o) (page_queue o) x (dirty_state o).
Definition with_queue (x : Z) (o : vm_page_object) : vm_page_object :=
  mkObj (object_or_stack_owner o) (page_offset_priv o) x (pin_byte o) (dirty_state o).

Definition is_stack_owned (o : vm_page_object) : bool :=
  negb (Z.land (object_or_stack_owner o) IS_STACK_OWNER_FLAG =? 0).

Definition get_object (o : vm_page_object) : Z :=
  if negb (Z.land (object_or_stack_owner o) IS_STACK_OWNER_FLAG =? 0) then 0
  else object_or_stack_owner o.

(** The compare-exchange loop ends by storing [obj] over a value that has the
    stack-owner flag. *)
Definition clear_stack_owner_internal (obj : Z) (o : vm_page_object) : outcome vm_page_object :=
  if is_stack_owned o then Ret (with_owner obj o) else Panic.

Definition clear_stack_owner (o : vm_page_object) : outcome vm_page_object :=
  clear_stack_owner_internal 0 o.

Definition set_object (obj : Z) (o : vm_page_object) : outcome vm_page_object :=
  if negb (obj =? 0) then
    if is_stack_owned o then clear_stack_owner_internal obj o
    else Ret (with_owner obj o)
  else Panic.

Definition get_page_offset (o : vm_page_object) : Z := page_offset_priv o.
Definition set_page_offset (x : Z) (o : vm_page_object) : vm_page_object :=
  mkObj (object_or_stack_owner o) x (page_queue o) (pin_byte o) (dirty_state o).

Definition pin_count (o : vm_page_object) : Z := pin_byte o.
Definition set_pin_count (x : Z) (o : vm_page_object) : outcome vm_page_object :=
  if VM_PAGE_OBJECT_MAX_PIN_COUNT <? x then Panic else Ret (with_pin x o).

(** [!x] on [u8]. *)
Definition u8_not (x : Z) : Z := Z.lxor x (Z.ones 8).

Definition get_flag (flag : Z) (o : vm_page_object) : bool := negb (Z.land (pin_byte o) flag =? 0).
Definition set_flag (flag : Z) (b : bool) (o : vm_page_object) : vm_page_object :=
  if b then with_pin (Z.lor (pin_byte o) flag) o
  else with_pin (Z.land (pin_byte o) (u8_not flag)) o.

Definition cow_left_split : vm_page_object → bool := get_flag VM_PAGE_OBJECT_COW_LEFT_SPLIT.
Definition set_cow_left_split : bool → vm_page_object → vm_page_object :=
  set_flag VM_PAGE_OBJECT_COW_LEFT_SPLIT.
Definition cow_right_split : vm_page_object → bool := get_flag VM_PAGE_OBJECT_COW_RIGHT_SPLIT.
Definition set_cow_right_split : bool → vm_page_object → vm_page_object :=
  set_flag VM_PAGE_OBJECT_COW_RIGHT_SPLIT.
Definition always_need : vm_page_object → bool := get_flag VM_PAGE_OBJECT_ALWAYS_NEED.
Definition set_always_need : bool → vm_page_object → vm_page_object :=
  set_flag VM_PAGE_OBJECT_ALWAYS_NEED.

Definition set_dirty_state (x : Z) (o : vm_page_object) : outcome vm_page_object :=
  if DIRTY_STATE_NUM_STATES <=? x then Panic
  else Ret (mkObj (object_or_stack_owner o) (page_offset_priv o) (page_queue o) (pin_byte o) x).

(** ** vm_page *)

Record vm_page := mkPage {
  paddr : Z;
  object : vm_page_object;
  state : Z;
  loaned_state : Z;
}.

(** [queue_node] is the first field. *)
#[export] Instance vm_page_linked : Linked := {| node_offset := 0 |}.

(** [size_of::<vm_page_t>()]: a list node (16), [paddr] (8), the object (two
    words and three bytes, padded to 24) and two bytes, rounded up to 8. *)
Definition VM_PAGE_T_SIZE : Z := 56.

Record pmem := mkPmem {
  lists : lmem;
  vpages : gmap Z vm_page;
}.

Definition on_lists {A} (m : M lmem A) : M pmem A := zoom lists (λ l s, mkPmem l (vpages s)) m.

Definition page_at (p : Z) : M pmem vm_page := deref (λ s, vpages s !! p).
Definition update_page (f : vm_page → vm_page) (p : Z) : M pmem unit :=
  _ ← page_at p; modifyS (λ s, mkPmem (lists s) (alter f p (vpages s))).

Definition kLoanedStateIsLoaned : Z := 1.

(** [init] leaves [object] as the memory has it. *)
Definition vm_page_init (p pa : Z) : M pmem unit :=
  on_lists (ListNode_init p);;
  update_page (λ pg, mkPage pa (object pg) FREE 0) p.

Definition set_state (p st : Z) : M pmem unit :=
  update_page (λ pg, mkPage (paddr pg) (object pg) st (loaned_state pg)) p.

Definition is_free (pg : vm_page) : bool := state pg =? FREE.
Definition is_loaned (pg : vm_page) : bool :=
  Z.land (loaned_state pg) kLoanedStateIsLoaned =? kLoanedStateIsLoaned.

Definition set_obj (o : vm_page_object) (pg : vm_page) : vm_page :=
  mkPage (paddr pg) o (state pg) (loaned_state pg).

(** ** Running page accesses *)

Lemma page_at_run s p pg : vpages s !! p = Some pg → page_at p s = Ret (pg, s).
Proof. apply (deref_run (λ s, vpages s !! p)). Qed.

Lemma update_page_run f s p pg :
  vpages s !! p = Some pg → update_page f p s = Ret ((), mkPmem (lists s) (alter f p (vpages s))).
Proof. intros Hp. unfold update_page. by erewrite M_bind_run by (by apply page_at_run). Qed.

Lemma on_lists_run {A} (m : M lmem A) s a l :
  m (lists s) = Ret (a, l) → on_lists m s = Ret (a, mkPmem l (vpages s)).
Proof. intros Hm. unfold on_lists, zoom. by rewrite Hm. Qed.

Lemma vm_page_into_node p : into_node p = p.
Proof. unfold into_node; simpl. lia. Qed.
Lemma vm_page_from_node p : from_node p = p.
Proof. unfold from_node; simpl. lia. Qed.

(** ** Flag bits *)

Lemma flag_testbit k x i :
  0 ≤ k → 0 ≤ i → Z.testbit (Z.lor x (Z.shiftl 1 k)) i = Z.testbit x i || (i =? k).
Proof.
  intros. rewrite Z.lor_spec. f_equal. rewrite Z.shiftl_1_l, Z.pow2_bits_eqb by lia. apply Z.eqb_sym.
Qed.

Lemma clear_testbit k x i :
  0 ≤ k < 8 → 0 ≤ i < 8 → Z.testbit (Z.land x (u8_not (Z.shiftl 1 k))) i = Z.testbit x i && negb (i =? k).
Proof.
  intros. unfold u8_not. rewrite Z.land_spec, Z.lxor_spec, Z.ones_spec_low by lia.
  rewrite Z.shiftl_1_l, Z.pow2_bits_eqb, xorb_true_r by lia. by rewrite (Z.eqb_sym k).
Qed.

Lemma get_flag_testbit k o : 0 ≤ k → get_flag (Z.shiftl 1 k) o = Z.testbit (pin_byte o) k.
Proof.
  intros Hk. unfold get_flag. rewrite Z.shiftl_1_l.
  destruct (Z.testbit (pin_byte o) k) eqn:E.
  - destruct (Z.eqb_spec (Z.land (pin_byte o) (2 ^ k)) 0) as [E0|]; [|done].
    assert (Z.testbit (Z.land (pin_byte o) (2 ^ k)) k = true) as Hb
      by (rewrite Z.land_spec, E, Z.pow2_bits_true by lia; done).
    rewrite E0, Z.bits_0 in Hb. done.
  - assert (Z.land (pin_byte o) (2 ^ k) = 0) as ->; [|done].
    apply Z.bits_inj'. intros i Hi. rewrite Z.land_spec, Z.bits_0, Z.pow2_bits_eqb by lia.
    destruct (Z.eqb_spec k i) as [->|]; [by rewrite E|by rewrite andb_false_r].
Qed.

(** The setters of the three page flags are exact and independent: after
    setting one of the flags at bits 5, 6, 7 of the byte it shares with the
    pin count to [b], that flag reads [b], and the other flags, the pin bits
    and every other field are as before. *)
Theorem page_flags_independent o k b :
  5 ≤ k ≤ 7 →
  get_flag (Z.shiftl 1 k) (set_flag (Z.shiftl 1 k) b o) = b ∧
  (∀ j, 0 ≤ j < 8 → j ≠ k →
     Z.testbit (pin_byte (set_flag (Z.shiftl 1 k) b o)) j = Z.testbit (pin_byte o) j) ∧
  set_flag (Z.shiftl 1 k) b o = with_pin (pin_byte (set_flag (Z.shiftl 1 k) b o)) o.
Proof.
  intros Hk. split_and!.
  - rewrite get_flag_testbit by lia. destruct b; simpl.
    + rewrite flag_testbit, Z.eqb_refl by lia. apply orb_true_r.
    + rewrite clear_testbit, Z.eqb_refl by lia. apply andb_false_r.
  - intros j Hj Hjk. destruct b; simpl.
    + rewrite flag_testbit, (proj2 (Z.eqb_neq j k)) by lia. apply orb_false_r.
    + rewrite clear_testbit, (proj2 (Z.eqb_neq j k)) by lia. apply andb_true_r.
  - by destruct b, o.
Qed.

Lemma page_flags_independent_witness :
  always_need (set_always_need true vm_page_object_new) = true ∧
  get_flag (Z.shiftl 1 7) (set_flag (Z.shiftl 1 7) true vm_page_object_new) = true.
Proof.
  split; [reflexivity|]. apply (page_flags_independent vm_page_object_new 7 true). lia.
Defined.

(** [set_pin_count] overwrites the whole byte, so pinning a page drops its
    flags, and [pin_count] of a flagged page includes them. *)
Example pin_count_aliases_flags :
  pin_count (set_always_need true vm_page_object_new) = 128 ∧
  match set_pin_count 1 (set_always_need true vm_page_object_new) with
  | Ret o => always_need o = false
  | _ => False
  end.
Proof. split; reflexivity. Qed.

(** ** Widths *)

(** Every field within its width; the dirty state is one of the four. *)
Definition obj_typed (o : vm_page_object) : Prop :=
  is_usize (object_or_stack_owner o) ∧ is_usize (page_offset_priv o) ∧
  0 ≤ page_queue o < 256 ∧ 0 ≤ pin_byte o < 256 ∧ 0 ≤ dirty_state o < DIRTY_STATE_NUM_STATES.

(** A call of one of the setters, with its argument. *)
Inductive obj_op :=
  | OpSetObject (obj : Z)
  | OpClearStackOwner
  | OpSetPageOffset (off : Z)
  | OpSetPinCount (n : Z)
  | OpSetCowLeftSplit (b : bool)
  | OpSetCowRightSplit (b : bool)
  | OpSetAlwaysNeed (b : bool)
  | OpSetDirtyState (d : Z).

(** The argument fits its type. *)
Definition op_typed (op : obj_op) : Prop :=
  match op with
  | OpSetObject x | OpSetPageOffset x => is_usize x
  | OpSetPinCount x | OpSetDirtyState x => 0 ≤ x < 256
  | _ => True
  end.

Definition run_op (op : obj_op) (o : vm_page_object) : outcome vm_page_object :=
  match op with
  | OpSetObject x => set_object x o
  | OpClearStackOwner => clear_stack_owner o
  | OpSetPageOffset x => Ret (set_page_offset x o)
  | OpSetPinCount x => set_pin_count x o
  | OpSetCowLeftSplit b => Ret (set_cow_left_split b o)
  | OpSetCowRightSplit b => Ret (set_cow_right_split b o)
  | OpSetAlwaysNeed b => Ret (set_always_need b o)
  | OpSetDirtyState x => set_dirty_state x o
  end.

Fixpoint run_ops (ops : list obj_op) (o : vm_page_object) : outcome vm_page_object :=
  match ops with
  | [] => Ret o
  | op :: ops => match run_op op o with Ret o' => run_ops ops o' | _ => Panic end
  end.

Lemma set_flag_typed k b o :
  5 ≤ k ≤ 7 → obj_typed o → obj_typed (set_flag (Z.shiftl 1 k) b o).
Proof.
  intros Hk (H1 & H2 & H3 & H4 & H5). unfold set_flag, u8_not.
  assert (0 ≤ Z.shiftl 1 k < 2 ^ 8) as Hf.
  { rewrite Z.shiftl_1_l. split; [lia|]. apply Z.pow_lt_mono_r; lia. }
  assert (0 ≤ Z.lor (pin_byte o) (Z.shiftl 1 k) < 256) as Hor
    by (apply (u_lor_bound 8); [lia|done|done]).
  assert (0 ≤ Z.land (pin_byte o) (Z.lxor (Z.shiftl 1 k) (Z.ones 8)) < 256) as Hand
    by (apply (u_land_bound 8); [lia|done]).
  by destruct b.
Qed.

Lemma run_op_typed op o o' : op_typed op → obj_typed o → run_op op o = Ret o' → obj_typed o'.
Proof.
  intros Hop Ho. pose proof Ho as (H1 & H2 & H3 & H4 & H5).
  destruct op; cbn [run_op op_typed] in *.
  - unfold set_object, clear_stack_owner_internal. repeat case_match; intros [= <-]; done.
  - unfold clear_stack_owner, clear_stack_owner_internal. case_match; intros [= <-].
    done.
  - intros [= <-]. done.
  - unfold set_pin_count. case_match; intros [= <-]. done.
  - intros [= <-]. by apply set_flag_typed.
  - intros [= <-]. by apply set_flag_typed.
  - intros [= <-]. by apply set_flag_typed.
  - unfold set_dirty_state. destruct (Z.leb_spec DIRTY_STATE_NUM_STATES d); intros [= <-].
    repeat (split; [done|]). cbn. lia.
Qed.


