(* ===== verification/PageQueues.v ===== *)
(** * vm/page_queues.rs: the page queues

    Fourteen lists of pages with a count each.  A page belongs to the queue
    its [page_queue] field names.  The invariant relates the lists, the counts
    and the fields; placing a page in the anonymous queue and moving a page to
    the wired queue preserve it. *)

From S2P Require Import Prelude Defs LinkedList Page.

Definition K_NUM_RECLAIM : Z := 8.
Definition PAGE_QUEUE_NONE : Z := 0.
Definition PAGE_QUEUE_ANONYMOUS : Z := 1.
Definition PAGE_QUEUE_WIRED : Z := 2.
Definition PAGE_QUEUE_ANONYMOUS_ZERO_FORK : Z := 3.
Definition PAGE_QUEUE_PAGER_BACKED_DIRTY : Z := 4.
Definition PAGE_QUEUE_RECLAIM_DONT_NEED : Z := 5.
Definition PAGE_QUEUE_RECLAIM_BASE : Z := 6.
Definition PAGE_QUEUE_RECLAIM_LAST : Z := PAGE_QUEUE_RECLAIM_BASE + K_NUM_RECLAIM - 1.
Definition PAGE_QUEUE_NUM_QUEUES : Z := PAGE_QUEUE_RECLAIM_LAST + 1.

(** The page memory the queues link, and [page_queue_counts]. *)
Record PageQueues := mkPQ { pq_mem : pmem; page_queue_counts : list Z }.

Section queues.
(** The addresses of the list objects of [page_queues]. *)
Context (page_queues : Z → Z).

Definition on_mem {A} (m : M pmem A) : M PageQueues A :=
  zoom pq_mem (λ l s, mkPQ l (page_queue_counts s)) m.

(** [page_queues[queue]]: an index out of range panics. *)
Definition queue_at (queue : Z) : M PageQueues Z :=
  if (0 <=? queue) && (queue <? PAGE_QUEUE_NUM_QUEUES) then mret (page_queues queue) else panic.

(** [page_queue_counts[q].fetch_add / fetch_sub]. *)
Definition count_update (q : Z) (f : Z → Z) : M PageQueues unit :=
  s ← getS;
  match page_queue_counts s !! Z.to_nat q with
  | Some c => putS (mkPQ (pq_mem s) (<[Z.to_nat q := f c]> (page_queue_counts s)))
  | None => panic
  end.

Definition PageQueues_new (mem : pmem) : PageQueues :=
  mkPQ mem (replicate (Z.to_nat PAGE_QUEUE_NUM_QUEUES) 0).

Fixpoint init_loop (n : nat) (q : Z) : M PageQueues unit :=
  match n with
  | O => mret ()
  | S n => on_mem (on_lists (List_init (page_queues q)));; init_loop n (q + 1)
  end.
Definition PageQueues_init : M PageQueues unit := init_loop (Z.to_nat PAGE_QUEUE_NUM_QUEUES) 0.

Definition set_queue_backlink_locked (page obj page_offset queue : Z) : M PageQueues unit :=
  pg ← on_mem (page_at page);
  zx_assert (state pg =? OBJECT);;
  zx_assert (negb (is_free pg));;
  b ← on_mem (on_lists (Linked_is_in_list page));
  zx_assert (negb b);;
  zx_assert (get_object (object pg) =? 0);;
  zx_assert (get_page_offset (object pg) =? 0);;
  match set_object obj (object pg) with
  | Ret o =>
      let o := set_page_offset page_offset o in
      on_mem (update_page (set_obj o) page);;
      zx_assert (page_queue o =? PAGE_QUEUE_NONE);;
      on_mem (update_page (set_obj (with_queue (queue mod 256) o)) page);;
      h ← queue_at queue;
      on_mem (on_lists (List_add_head h page));;
      count_update queue (λ c, uadd c 1)
  | _ => panic
  end.

Definition set_anonymous (page obj page_offset : Z) : M PageQueues unit :=
  set_queue_backlink_locked page obj page_offset PAGE_QUEUE_ANONYMOUS.

Definition move_to_queue_locked (ptr queue : Z) : M PageQueues unit :=
  page ← on_mem (page_at ptr);
  zx_assert (state page =? OBJECT);;
  zx_assert (negb (is_free page));;
  b ← on_mem (on_lists (Linked_is_in_list ptr));
  zx_assert b;;
  zx_assert (negb (get_object (object page) =? 0));;
  let old_queue := page_queue (object page) in
  on_mem (update_page (set_obj (with_queue (queue mod 256) (object page))) ptr);;
  zx_assert (negb (old_queue =? PAGE_QUEUE_NONE));;
  on_mem (on_lists (Linked_delete_from_list ptr));;
  q ← queue_at queue;
  on_mem (on_lists (List_add_head q ptr));;
  count_update old_queue (λ c, usub c 1);;
  count_update queue (λ c, uadd c 1).

Definition move_to_wired (page : Z) : M PageQueues unit :=
  move_to_queue_locked page PAGE_QUEUE_WIRED.

(** ** The invariant *)

Definition is_queue (q : Z) : Prop := 0 ≤ q < PAGE_QUEUE_NUM_QUEUES.

Definition queued (mem : pmem) (q p : Z) : Prop :=
  ∃ pg, vpages mem !! p = Some pg ∧ page_queue (object pg) = q ∧ state pg = OBJECT ∧
        get_object (object pg) ≠ 0.

(** [ql q] is what queue [q] holds. *)
Definition queues_inv (s : PageQueues) (ql : Z → list Z) : Prop :=
  length (page_queue_counts s) = 14%nat ∧ ql PAGE_QUEUE_NONE = [] ∧
  (∀ q, is_queue q →
     dll (lists (pq_mem s)) (page_queues q) (ql q) ∧
     page_queue_counts s !! Z.to_nat q = Some (usize_wrap (Z.of_nat (length (ql q)))) ∧
     ∀ p, p ∈ ql q → queued (pq_mem s) q p) ∧
  (∀ q q', is_queue q → is_queue q' → q ≠ q' → page_queues q :: ql q ## page_queues q' :: ql q').

Definition upd_q (q : Z) (l : list Z) (ql : Z → list Z) : Z → list Z :=
  λ x, if decide (x = q) then l else ql x.

(** ** Running *)

Lemma on_mem_run {A} (m : M pmem A) s a l :
  m (pq_mem s) = Ret (a, l) → on_mem m s = Ret (a, mkPQ l (page_queue_counts s)).
Proof. intros Hm. unfold on_mem, zoom. by rewrite Hm. Qed.

Lemma queue_at_run q s : is_queue q → queue_at q s = Ret (page_queues q, s).
Proof.
  intros [H1 H2]. unfold queue_at. rewrite (proj2 (Z.leb_le 0 q)), (proj2 (Z.ltb_lt _ _)) by lia. done.
Qed.

Lemma count_update_run q f s c :
  page_queue_counts s !! Z.to_nat q = Some c →
  count_update q f s = Ret ((), mkPQ (pq_mem s) (<[Z.to_nat q := f c]> (page_queue_counts s))).
Proof. intros Hc. unfold count_update. erewrite M_bind_run by reflexivity. by rewrite Hc. Qed.

Lemma is_in_list_run m p n : nodes m !! p = Some n →
  Linked_is_in_list p m = Ret (negb (next n =? null), m).
Proof.
  intros Hn. unfold Linked_is_in_list, ListNode_is_in_list. rewrite vm_page_into_node.
  by erewrite M_bind_run by (by apply (deref_run (λ m, nodes m !! p))).
Qed.

(** *** Initialisation *)

(** The list objects of the queues: distinct, not null, in memory. *)
Definition queue_objects (m : lmem) : Prop :=
  (∀ q, is_queue q → page_queues q ≠ null ∧ is_Some (nodes m !! page_queues q) ∧ is_Some (refs m !! page_queues q)) ∧
  (∀ q q', is_queue q → is_queue q' → page_queues q = page_queues q' → q = q').

Lemma init_loop_spec n q s :
  0 ≤ q → q + Z.of_nat n = 14 → queue_objects (lists (pq_mem s)) →
  ∃ m, init_loop n q s = Ret ((), mkPQ (mkPmem m (vpages (pq_mem s))) (page_queue_counts s)) ∧
    (∀ j, q ≤ j < 14 → dll m (page_queues j) []) ∧
    (∀ x, (∀ j, q ≤ j < 14 → x ≠ page_queues j) →
       nodes m !! x = nodes (lists (pq_mem s)) !! x ∧ refs m !! x = refs (lists (pq_mem s)) !! x).
Proof.
  revert q s. induction n as [|n IH]; intros q s Hq Hn [Hobj Hinj].
  { exists (lists (pq_mem s)). split; [by destruct s as [[]]|]. split; [lia|done]. }
  assert (is_queue q) as Hiq by (unfold is_queue; change PAGE_QUEUE_NUM_QUEUES with 14; lia).
  destruct (Hobj q Hiq) as (H0 & Hno & Hre).
  destruct (List_init_spec (lists (pq_mem s)) (page_queues q) H0 Hno Hre) as (m1 & Hrun & Hd & Hf).
  set (s1 := mkPQ (mkPmem m1 (vpages (pq_mem s))) (page_queue_counts s)).
  assert (on_mem (on_lists (List_init (page_queues q))) s = Ret ((), s1)) as Hrun1
    by (by apply on_mem_run, on_lists_run).
  destruct (IH (q + 1) s1) as (m & Hrun2 & Hds & Hfs); [lia|lia| |].
  { split; [|done]. intros j Hj. destruct (Hobj j Hj) as (Hj0 & Hjn & Hjr). split; [done|].
    destruct (decide (j = q)) as [->|Hne].
    - destruct Hd as (Hrf & _ & _ & Hp). split; [|by eexists]. cbn in Hp.
      destruct Hp as [[Hx _] _]. unfold nx in Hx. cbn.
      destruct (nodes m1 !! page_queues q); [by eexists|done].
    - destruct (Hf (page_queues j)) as [E1 E2].
      { rewrite list_elem_of_singleton. intros E. by apply Hne, Hinj. }
      cbn. by rewrite E1, E2. }
  exists m. split; [cbn [init_loop]; by rewrite (M_bind_run _ _ _ _ _ Hrun1)|]. split.
  - intros j Hj. destruct (decide (j = q)) as [->|]; [|apply Hds; lia].
    apply (dll_stable m1); [done| |].
    + apply Hfs. intros j Hj' E. apply Hinj in E; [lia|done|].
      unfold is_queue. change PAGE_QUEUE_NUM_QUEUES with 14. lia.
    + intros x ->%list_elem_of_singleton. apply Hfs. intros j Hj' E. apply Hinj in E; [lia|done|].
      unfold is_queue. change PAGE_QUEUE_NUM_QUEUES with 14. lia.
  - intros x Hx. destruct (Hfs x) as [E1 E2]; [intros j Hj; apply Hx; lia|]. rewrite E1, E2.
    apply Hf. rewrite list_elem_of_singleton. apply Hx. lia.
Qed.

(** [init] of new queues establishes the invariant, with all queues empty. *)
Lemma PageQueues_init_spec mem :
  queue_objects (lists mem) →
  ∃ m, let s' := mkPQ (mkPmem m (vpages mem)) (page_queue_counts (PageQueues_new mem)) in
    PageQueues_init (PageQueues_new mem) = Ret ((), s') ∧ queues_inv s' (λ _, []) ∧
    (∀ x, (∀ j, 0 ≤ j < 14 → x ≠ page_queues j) →
       nodes m !! x = nodes (lists mem) !! x ∧ refs m !! x = refs (lists mem) !! x).
Proof.
  intros Hobj. destruct (init_loop_spec 14 0 (PageQueues_new mem)) as (m & Hrun & Hd & Hf); [lia|done|done|].
  exists m. cbv zeta. split; [exact Hrun|]. split; [|exact Hf].
  split; [done|]. split; [done|]. split.
  - intros q Hq. split; [by apply Hd|]. split; [|by intros p ?%not_elem_of_nil].
    unfold PageQueues_new. cbn [page_queue_counts length]. rewrite lookup_replicate_2; [done|].
    unfold is_queue in Hq. lia.
  - intros q q' Hq Hq' Hne x ->%list_elem_of_singleton E%list_elem_of_singleton.
    apply Hne. by apply (proj2 Hobj).
Qed.

Lemma queue_frame s ql q m' ps :
  queues_inv s ql → is_queue q → frame (lists (pq_mem s)) m' ps →
  (∀ x, x ∈ ps → x ∉ page_queues q :: ql q) → dll m' (page_queues q) (ql q).
Proof.
  intros (_ & _ & Hq & _) Hiq Hf Hd. destruct (Hq q Hiq) as [Hdll _].
  apply (dll_frame _ _ _ _ _ Hdll Hf). intros x Hx Hps. by apply (Hd x).
Qed.

(** A page with a null [next] is in no queue. *)
Lemma not_queued s ql q p n :
  queues_inv s ql → is_queue q → nodes (lists (pq_mem s)) !! p = Some n → next n = null →
  p ∉ page_queues q :: ql q.
Proof.
  intros (_ & _ & Hq & _) Hiq Hn Hnull Hin. destruct (Hq q Hiq) as [Hdll _].
  destruct (dll_in _ _ _ _ Hdll Hin) as (a & b & Ha & _ & Ha0 & _).
  unfold nx in Ha. rewrite Hn in Ha. simpl in Ha. congruence.
Qed.

Lemma wrap_succ n : uadd (usize_wrap (Z.of_nat n)) 1 = usize_wrap (Z.of_nat (S n)).
Proof. unfold uadd, usize_wrap. rewrite Z.add_mod_idemp_l by lia. f_equal. lia. Qed.
Lemma wrap_pred n : usub (usize_wrap (Z.of_nat (S n))) 1 = usize_wrap (Z.of_nat n).
Proof. unfold usub, usize_wrap. rewrite Zminus_mod_idemp_l. f_equal. lia. Qed.

(** A page that satisfies the assertions of [set_queue_backlink_locked]. *)
Definition unqueued (mem : pmem) (p : Z) : Prop :=
  ∃ pg n, vpages mem !! p = Some pg ∧ nodes (lists mem) !! p = Some n ∧ next n = null ∧
    state pg = OBJECT ∧ get_object (object pg) = 0 ∧ get_page_offset (object pg) = 0 ∧
    page_queue (object pg) = PAGE_QUEUE_NONE.

(** What placing a page at the head of a queue does to the invariant. *)
Lemma enqueue_inv s ql m' vp' counts' queue p :
  queues_inv s ql → is_queue queue → queue ≠ PAGE_QUEUE_NONE →
  (∀ q, is_queue q → p ∉ page_queues q :: ql q) →
  dll m' (page_queues queue) (p :: ql queue) →
  frame (lists (pq_mem s)) m' (p :: page_queues queue :: ql queue) →
  (∀ x, x ≠ p → vp' !! x = vpages (pq_mem s) !! x) → queued (mkPmem m' vp') queue p →
  counts' = <[Z.to_nat queue := uadd (usize_wrap (Z.of_nat (length (ql queue)))) 1]> (page_queue_counts s) →
  queues_inv (mkPQ (mkPmem m' vp') counts') (upd_q queue (p :: ql queue) ql).
Proof.
  intros Hinv Hiq Hnone Hp Hdll Hf Hvp Hqd ->. pose proof Hinv as (Hlen & H0 & Hq & Hdis).
  assert (∀ q, is_queue q → Z.to_nat q = Z.to_nat queue → q = queue) as Hinj
    by (unfold is_queue in *; intros; lia).
  assert (page_queue_counts s !! Z.to_nat queue = Some (usize_wrap (Z.of_nat (length (ql queue)))) ) as Hcq
    by apply (Hq queue Hiq).
  pose proof (lookup_lt_Some _ _ _ Hcq) as Hltq.
  unfold upd_q. split_and!; simpl.
  - by rewrite length_insert.
  - by rewrite decide_False.
  - intros q Hqr. destruct (Hq q Hqr) as (Hd & Hc & Hpg). case_decide as E.
    + subst q. split_and!; [done| |].
      * rewrite list_lookup_insert_eq by done. f_equal. apply wrap_succ.
      * intros x [->|Hx]%elem_of_cons; [done|].
        assert (x ≠ p) by (intros ->; apply (Hp queue Hiq); set_solver + Hx).
        destruct (Hpg x Hx) as (pg & E & ?). exists pg. simpl. by rewrite Hvp.
    + split_and!.
      * apply (queue_frame s ql q m' _ Hinv Hqr Hf). intros x [->|Hx]%elem_of_cons; [by apply Hp|].
        intros Hx'. by apply (Hdis queue q Hiq Hqr ltac:(done) x).
      * rewrite list_lookup_insert_ne; [done|]. intros E'. apply E. by apply Hinj.
      * intros x Hx. assert (x ≠ p) by (intros ->; apply (Hp q Hqr); set_solver + Hx).
        destruct (Hpg x Hx) as (pg & E1 & ?). exists pg. simpl. by rewrite Hvp.
  - intros q q' Hq1 Hq2 Hne. repeat case_decide; subst; try done.
    + intros x Hx Hx'. rewrite !elem_of_cons in Hx. destruct Hx as [->|[->|Hx]].
      * apply (Hdis queue q' Hq1 Hq2 Hne (page_queues queue)); [set_solver +|done].
      * by apply (Hp q' Hq2).
      * apply (Hdis queue q' Hq1 Hq2 Hne x); [set_solver + Hx|done].
    + intros x Hx' Hx. rewrite !elem_of_cons in Hx. destruct Hx as [->|[->|Hx]].
      * apply (Hdis q queue Hq1 Hq2 Hne (page_queues queue)); [done|set_solver +].
      * by apply (Hp q Hq1).
      * apply (Hdis q queue Hq1 Hq2 Hne x); [done|set_solver + Hx].
    + by apply Hdis.
Qed.

Lemma set_object_even obj o :
  obj ≠ 0 → obj mod 2 = 0 → get_object o = 0 →
  set_object obj o = Ret (with_owner obj o) ∧ get_object (with_owner obj o) = obj.
Proof.
  intros H0 Hev Hg. unfold set_object. rewrite (proj2 (Z.eqb_neq obj 0)) by done. cbn [negb]. split.
  - unfold clear_stack_owner_internal. by destruct (is_stack_owned o).
  - unfold get_object; simpl. unfold IS_STACK_OWNER_FLAG. change 1 with (Z.ones 1).
    rewrite Z.land_ones by lia. change (2 ^ 1) with 2. by rewrite Hev.
Qed.

Lemma with_owner_queue x o : page_queue (with_owner x o) = page_queue o.
Proof. by destruct o. Qed.

(** The run of [set_queue_backlink_locked] on a page that is in no queue. *)
Lemma backlink_run s p pg n obj off queue o' m' cnt :
  vpages (pq_mem s) !! p = Some pg → nodes (lists (pq_mem s)) !! p = Some n → next n = null → state pg = OBJECT →
  get_object (object pg) = 0 → get_page_offset (object pg) = 0 → page_queue (object pg) = PAGE_QUEUE_NONE →
  set_object obj (object pg) = Ret o' → page_queue o' = PAGE_QUEUE_NONE → is_queue queue →
  List_add_head (page_queues queue) p (lists (pq_mem s)) = Ret ((), m') → page_queue_counts s !! Z.to_nat queue = Some cnt →
  let o := set_page_offset off o' in
  set_queue_backlink_locked p obj off queue s = Ret ((), mkPQ (mkPmem m'
    (alter (set_obj (with_queue (queue mod 256) o)) p (alter (set_obj o) p (vpages (pq_mem s)))))
    (<[Z.to_nat queue := uadd cnt 1]> (page_queue_counts s))).
Proof.
  intros Hpg Hn Hnull Hst Hobj Hoff Hpq Hset Hpqo Hiq Hadd Hc o.
  set (vp1 := alter (set_obj o) p (vpages (pq_mem s))).
  assert (vp1 !! p = Some (set_obj o pg)) as E1 by (subst vp1; by rewrite lookup_alter_eq, Hpg).
  set (vp2 := alter _ p vp1). unfold set_queue_backlink_locked.
  rewrite (M_bind_run _ _ _ _ _ (on_mem_run _ _ _ _ (page_at_run _ _ _ Hpg))).
  assert (mkPQ (pq_mem s) (page_queue_counts s) = s) as Es by (by destruct s). rewrite Es.
  rewrite Hst. cbn [Z.eqb OBJECT Pos.eqb]. rewrite (M_bind_run _ _ _ _ _ eq_refl).
  unfold is_free. rewrite Hst. rewrite (M_bind_run _ _ _ _ _ eq_refl).
  rewrite (M_bind_run _ _ _ _ _ (on_mem_run _ _ _ _ (on_lists_run _ _ _ _ (is_in_list_run _ _ _ Hn)))).
  rewrite Hnull. cbn [null Z.eqb negb].
  replace (mkPmem (lists (pq_mem s)) (vpages (pq_mem s))) with (pq_mem s) by (by destruct (pq_mem s)).
  rewrite Es, (M_bind_run _ _ _ _ _ eq_refl), Hobj, (M_bind_run _ _ _ _ _ eq_refl),
    Hoff, (M_bind_run _ _ _ _ _ eq_refl), Hset. cbv zeta. fold o.
  rewrite (M_bind_run _ _ _ _ _ (on_mem_run _ _ _ _ (update_page_run _ _ _ _ Hpg))). fold vp1.
  assert (page_queue o = PAGE_QUEUE_NONE) as -> by (subst o; simpl; exact Hpqo). rewrite (M_bind_run _ _ _ _ _ eq_refl).
  rewrite (M_bind_run _ _ _ _ _ (on_mem_run _ (mkPQ (mkPmem (lists (pq_mem s)) vp1) (page_queue_counts s)) _ _
    (update_page_run (set_obj (with_queue (queue mod 256) o)) (mkPmem (lists (pq_mem s)) vp1) p _ E1))).
  cbn [vpages lists page_queue_counts]. fold vp2.
  rewrite (M_bind_run _ _ _ _ _ (queue_at_run queue _ Hiq)).
  rewrite (M_bind_run _ _ _ _ _ (on_mem_run _ (mkPQ (mkPmem (lists (pq_mem s)) vp2) (page_queue_counts s)) _ _
    (on_lists_run _ (mkPmem (lists (pq_mem s)) vp2) _ _ Hadd))).
  cbn [vpages lists page_queue_counts].
  by rewrite (count_update_run queue _ (mkPQ (mkPmem m' vp2) (page_queue_counts s)) _ Hc).
Qed.

Lemma enqueue_spec s ql p obj off queue :
  queues_inv s ql → is_queue queue → queue ≠ PAGE_QUEUE_NONE → unqueued (pq_mem s) p → p ≠ null →
  obj ≠ 0 → obj mod 2 = 0 →
  ∃ s', set_queue_backlink_locked p obj off queue s = Ret ((), s') ∧
    queues_inv s' (upd_q queue (p :: ql queue) ql) ∧
    (∃ pg, vpages (pq_mem s') !! p = Some pg ∧ get_object (object pg) = obj ∧
           get_page_offset (object pg) = off ∧ page_queue (object pg) = queue).
Proof.
  intros Hinv Hiq Hnone (pg & n & Hpg & Hn & Hnull & Hst & Hobj & Hoff & Hpq) Hp0 Ho0 Hoe.
  pose proof Hinv as (Hlen & H0 & Hq & Hdis). destruct (Hq queue Hiq) as (Hd & Hc & _).
  assert (∀ q, is_queue q → p ∉ page_queues q :: ql q) as Hp by (intros; by eapply not_queued).
  destruct (List_add_head_spec (lists (pq_mem s)) (page_queues queue) (ql queue) p)
    as (m' & Hadd & Hd' & Hf).
  { done. } { rewrite vm_page_into_node. by apply Hp. }
  { by rewrite vm_page_into_node. } { rewrite vm_page_into_node. by exists n. }
  rewrite vm_page_into_node in Hd', Hf.
  destruct (set_object_even obj (object pg) Ho0 Hoe Hobj) as [Hset Hget].
  set (o := set_page_offset off (with_owner obj (object pg))).
  assert (queue mod 256 = queue) as Hmod by (unfold is_queue in Hiq; apply Z.mod_small; split; [lia|]; 
    destruct Hiq as [_ Hiq]; change PAGE_QUEUE_NUM_QUEUES with 14 in Hiq; lia).
  set (vp1 := alter (set_obj o) p (vpages (pq_mem s))).
  set (vp2 := alter (set_obj (with_queue (queue mod 256) o)) p vp1).
  assert (vp1 !! p = Some (set_obj o pg)) as E1 by (subst vp1; by rewrite lookup_alter_eq, Hpg).
  assert (vp2 !! p = Some (set_obj (with_queue (queue mod 256) o) pg)) as E2
    by (subst vp2; by rewrite lookup_alter_eq, E1).
  exists (mkPQ (mkPmem m' vp2) (<[Z.to_nat queue := uadd (usize_wrap (Z.of_nat (length (ql queue)))) 1]>
    (page_queue_counts s))).
  split_and!.
  - by apply (backlink_run s p pg n obj off queue (with_owner obj (object pg)) m').
  - apply (enqueue_inv s ql m' vp2 _ queue p); try done.
    + intros x Hx. subst vp2 vp1. by rewrite !lookup_alter_ne by done.
    + exists (set_obj (with_queue (queue mod 256) o) pg). split_and!; try done.
      change (get_object (with_owner obj (object pg)) ≠ 0). by rewrite Hget.
  - exists (set_obj (with_queue (queue mod 256) o) pg). split_and!; try done.
Qed.

(** Taking a page out of a queue. *)
Lemma dequeue_inv s ql m' vp' old l1 p l2 :
  queues_inv s ql → is_queue old → ql old = l1 ++ p :: l2 →
  dll m' (page_queues old) (l1 ++ l2) →
  frame (lists (pq_mem s)) m' (page_queues old :: l1 ++ p :: l2) →
  (∀ x, x ≠ p → vp' !! x = vpages (pq_mem s) !! x) →
  let counts' := <[Z.to_nat old := usub (usize_wrap (Z.of_nat (length (ql old)))) 1]> (page_queue_counts s) in
  queues_inv (mkPQ (mkPmem m' vp') counts') (upd_q old (l1 ++ l2) ql) ∧
  (∀ q, is_queue q → p ∉ page_queues q :: upd_q old (l1 ++ l2) ql q).
Proof.
  intros Hinv Hio Hl Hdll Hf Hvp counts'. pose proof Hinv as (Hlen & H0 & Hq & Hdis).
  destruct (Hq old Hio) as ((_ & _ & Hnd & _) & Hcq & _).
  assert (old ≠ PAGE_QUEUE_NONE) as Hnone by (intros ->; rewrite H0 in Hl; by destruct l1).
  assert (p ∉ page_queues old :: l1 ++ l2) as Hpold.
  { rewrite Hl in Hnd. rewrite app_comm_cons in Hnd. rewrite <-Permutation_middle, NoDup_cons in Hnd. apply Hnd. }
  assert (∀ q, is_queue q → q ≠ old → p ∉ page_queues q :: ql q) as Hpother.
  { intros q Hqr Hne Hin. apply (Hdis q old Hqr Hio Hne p); [done|]. rewrite Hl. set_solver +. }
  pose proof (lookup_lt_Some _ _ _ Hcq) as Hltq. split.
  2:{ intros q Hqr. unfold upd_q. case_decide; subst; auto. }
  unfold upd_q. split_and!; simpl.
  - unfold counts'. by rewrite length_insert.
  - by rewrite decide_False.
  - intros q Hqr. destruct (Hq q Hqr) as (Hd & Hc & Hpg). case_decide as E.
    + subst q. split_and!; [done| |].
      * unfold counts'. rewrite list_lookup_insert_eq by done. f_equal. rewrite Hl, !length_app. simpl.
        rewrite Nat.add_succ_r. apply wrap_pred.
      * intros x Hx. assert (x ≠ p) by (intros ->; apply Hpold; set_solver + Hx).
        destruct (Hpg x) as (pg & E & ?); [rewrite Hl; set_solver + Hx|]. exists pg. simpl. by rewrite Hvp.
    + split_and!.
      * apply (queue_frame s ql q m' _ Hinv Hqr Hf). intros x Hx Hx'.
        apply (Hdis q old Hqr Hio E x); [done|]. by rewrite Hl.
      * unfold counts'. rewrite list_lookup_insert_ne; [done|]. unfold is_queue in *. lia.
      * intros x Hx. assert (x ≠ p) by (intros ->; apply (Hpother q Hqr E); set_solver + Hx).
        destruct (Hpg x Hx) as (pg & E1 & ?). exists pg. simpl. by rewrite Hvp.
  - intros q q' Hq1 Hq2 Hne. repeat case_decide; subst; try done.
    + intros x Hx. apply (Hdis old q' Hq1 Hq2 Hne x). rewrite Hl. set_solver + Hx.
    + intros x Hx' Hx. apply (Hdis q old Hq1 Hq2 Hne x); [done|]. rewrite Hl. set_solver + Hx.
    + by apply Hdis.
Qed.

(** The run of [move_to_queue_locked] on a page of the queue [old]. *)
Lemma move_run s p pg n old queue m1 m2 cnt cnt' :
  let vp1 := alter (set_obj (with_queue (queue mod 256) (object pg))) p (vpages (pq_mem s)) in
  vpages (pq_mem s) !! p = Some pg → nodes (lists (pq_mem s)) !! p = Some n → next n ≠ null → state pg = OBJECT →
  get_object (object pg) ≠ 0 → page_queue (object pg) = old → old ≠ PAGE_QUEUE_NONE → is_queue queue →
  ListNode_delete_from_list p (lists (pq_mem s)) = Ret ((), m1) →
  List_add_head (page_queues queue) p m1 = Ret ((), m2) → page_queue_counts s !! Z.to_nat old = Some cnt →
  <[Z.to_nat old := usub cnt 1]> (page_queue_counts s) !! Z.to_nat queue = Some cnt' →
  move_to_queue_locked p queue s = Ret ((), mkPQ (mkPmem m2 vp1)
    (<[Z.to_nat queue := uadd cnt' 1]> (<[Z.to_nat old := usub cnt 1]> (page_queue_counts s)))).
Proof.
  intros vp1 Hpg Hn Ha0 Hst Hobj Hpq Hon Hiq Hdel Hadd Hc Hcq. unfold move_to_queue_locked.
  rewrite (M_bind_run _ _ _ _ _ (on_mem_run _ _ _ _ (page_at_run _ _ _ Hpg))).
  assert (mkPQ (pq_mem s) (page_queue_counts s) = s) as Es by (by destruct s). rewrite Es.
  rewrite Hst, (M_bind_run _ _ _ _ _ eq_refl). unfold is_free. rewrite Hst, (M_bind_run _ _ _ _ _ eq_refl).
  rewrite (M_bind_run _ _ _ _ _ (on_mem_run _ _ _ _ (on_lists_run _ _ _ _ (is_in_list_run _ _ _ Hn)))).
  replace (mkPmem (lists (pq_mem s)) (vpages (pq_mem s))) with (pq_mem s) by (by destruct (pq_mem s)).
  rewrite Es, (proj2 (Z.eqb_neq (next n) null)), (M_bind_run _ _ _ _ _ eq_refl) by done.
  rewrite (proj2 (Z.eqb_neq (get_object _) 0)), (M_bind_run _ _ _ _ _ eq_refl) by done. cbv zeta.
  rewrite (M_bind_run _ _ _ _ _ (on_mem_run _ _ _ _ (update_page_run _ _ _ _ Hpg))). fold vp1.
  rewrite Hpq, (proj2 (Z.eqb_neq old PAGE_QUEUE_NONE)), (M_bind_run _ _ _ _ _ eq_refl) by done.
  assert (Linked_delete_from_list p (lists (pq_mem s)) = Ret ((), m1)) as Hdel'
    by (unfold Linked_delete_from_list; by rewrite vm_page_into_node).
  rewrite (M_bind_run _ _ _ _ _ (on_mem_run _ (mkPQ (mkPmem (lists (pq_mem s)) vp1) (page_queue_counts s)) _ _
    (on_lists_run _ (mkPmem (lists (pq_mem s)) vp1) _ _ Hdel'))). cbn [vpages lists page_queue_counts].
  rewrite (M_bind_run _ _ _ _ _ (queue_at_run queue _ Hiq)).
  rewrite (M_bind_run _ _ _ _ _ (on_mem_run _ (mkPQ (mkPmem m1 vp1) (page_queue_counts s)) _ _
    (on_lists_run _ (mkPmem m1 vp1) _ _ Hadd))). cbn [vpages lists page_queue_counts].
  rewrite (M_bind_run _ _ _ _ _ (count_update_run old _ (mkPQ (mkPmem m2 vp1) (page_queue_counts s)) _ Hc)).
  cbn [pq_mem page_queue_counts]. by erewrite (count_update_run queue) by exact Hcq.
Qed.

Lemma move_to_queue_spec s ql p old queue l1 l2 :
  queues_inv s ql → is_queue old → is_queue queue → queue ≠ PAGE_QUEUE_NONE → ql old = l1 ++ p :: l2 →
  ∃ s' pg, move_to_queue_locked p queue s = Ret ((), s') ∧
    vpages (pq_mem s) !! p = Some pg ∧
    vpages (pq_mem s') = alter (set_obj (with_queue queue (object pg))) p (vpages (pq_mem s)) ∧
    let ql1 := upd_q old (l1 ++ l2) ql in
    queues_inv s' (upd_q queue (p :: ql1 queue) ql1).
Proof.
  intros Hinv Hio Hiq Hnone Hl. pose proof Hinv as (Hlen & H0 & Hq & Hdis).
  destruct (Hq old Hio) as (Hd & Hc & Hpages).
  destruct (Hpages p) as (pg & Hpg & Hpq & Hst & Hobj); [rewrite Hl; set_solver +|].
  assert (old ≠ PAGE_QUEUE_NONE) as Hon by (intros ->; rewrite H0 in Hl; by destruct l1).
  destruct (dll_in _ _ _ p Hd) as (a & b & Ha & Hb & Ha0 & Hb0); [rewrite Hl; set_solver +|].
  assert (p ≠ null) as Hp0.
  { destruct Hd as (_ & Hnn & _). intros ->. apply Hnn. rewrite Hl. set_solver +. }
  rewrite Hl in Hd.
  destruct (delete_from_list_spec _ _ _ _ _ Hd) as (m1 & Hdel & Hd1 & Hpn & Hf1).
  assert (queue mod 256 = queue) as Hmod.
  { destruct Hiq as [? Hiq]. change PAGE_QUEUE_NUM_QUEUES with 14 in Hiq. apply Z.mod_small. lia. }
  set (vp1 := alter (set_obj (with_queue (queue mod 256) (object pg))) p (vpages (pq_mem s))).
  assert (∀ x, x ≠ p → vp1 !! x = vpages (pq_mem s) !! x) as Hvp
    by (intros; subst vp1; by rewrite lookup_alter_ne).
  destruct (dequeue_inv s ql m1 vp1 old l1 p l2) as [Hinv1 Hp1]; try done.
  set (s1 := mkPQ (mkPmem m1 vp1) _) in Hinv1. set (ql1 := upd_q old (l1 ++ l2) ql) in *.
  pose proof Hinv1 as (_ & _ & Hq1 & _). destruct (Hq1 queue Hiq) as (Hdq & Hcq & _).
  destruct (List_add_head_spec m1 (page_queues queue) (ql1 queue) p) as (m2 & Hadd & Hd2 & Hf2).
  { done. } { rewrite vm_page_into_node. by apply Hp1. }
  { by rewrite vm_page_into_node. } { rewrite vm_page_into_node. by eexists. }
  rewrite vm_page_into_node in Hd2, Hf2.
  exists (mkPQ (mkPmem m2 vp1) (<[Z.to_nat queue := uadd (usize_wrap (Z.of_nat (length (ql1 queue)))) 1]>
    (page_queue_counts s1))), pg. split; [|split; [done|split; [subst vp1; by rewrite Hmod|]]].
  - assert (nodes (lists (pq_mem s)) !! p = Some (mkNode a b)) as Hn by (by apply nodes_nx_pv).
    exact (move_run s p pg (mkNode a b) old queue m1 m2 _ _ Hpg Hn Ha0 Hst Hobj Hpq Hon Hiq Hdel Hadd Hc Hcq).
  - cbv zeta. apply (enqueue_inv s1 ql1 m2 vp1 _ queue p); try done.
    exists (set_obj (with_queue (queue mod 256) (object pg)) pg). split_and!; try done.
    simpl. subst vp1. by rewrite lookup_alter_eq, Hpg.
Qed.

(** ** Claims *)

(** [set_anonymous] of a page that is in no list and has no object, with a
    non-null even object pointer, terminates without panic, records the object
    and offset in the page, puts it at the head of the anonymous queue and
    preserves the queue invariant: lists, per-page queue fields and counts
    agree for all fourteen queues. *)
Theorem set_anonymous_inv s ql p obj off :
  queues_inv s ql → unqueued (pq_mem s) p → p ≠ null → obj ≠ 0 → obj mod 2 = 0 →
  ∃ s', set_anonymous p obj off s = Ret ((), s') ∧
    queues_inv s' (upd_q PAGE_QUEUE_ANONYMOUS (p :: ql PAGE_QUEUE_ANONYMOUS) ql) ∧
    (∃ pg, vpages (pq_mem s') !! p = Some pg ∧ get_object (object pg) = obj ∧
           get_page_offset (object pg) = off ∧ page_queue (object pg) = PAGE_QUEUE_ANONYMOUS).
Proof. intros. by apply enqueue_spec. Qed.

(** C32: [move_to_wired] of a page that is in some queue removes it from that
    queue, puts it at the head of the wired queue, and preserves the queue
    invariant, counts included. *)
Theorem move_to_wired_inv s ql p old l1 l2 :
  queues_inv s ql → is_queue old → ql old = l1 ++ p :: l2 →
  ∃ s', move_to_wired p s = Ret ((), s') ∧
    let ql1 := upd_q old (l1 ++ l2) ql in
    queues_inv s' (upd_q PAGE_QUEUE_WIRED (p :: ql1 PAGE_QUEUE_WIRED) ql1).
Proof.
  intros. destruct (move_to_queue_spec s ql p old PAGE_QUEUE_WIRED l1 l2)
    as (s' & _ & Hr & _ & _ & Hq); try done. by exists s'.
Qed.
End queues.

(** ** Witnesses *)

(** Fourteen empty queues at addresses 1000, 1032, ..., and two pages, the
    second already in the anonymous queue. *)
Definition demo_queue_addr (q : Z) : Z := 1000 + 32 * q.
Definition demo_queue_heads : list (Z * ListNode) :=
  map (λ n, let h := demo_queue_addr (Z.of_nat n) in
            (h, if decide (n = 1%nat) then mkNode 64 64 else mkNode h h)) (seq 0 14).
Definition demo_pq : PageQueues :=
  mkPQ (mkPmem (mkMem (list_to_map ((8, mkNode 0 0) :: (64, mkNode 1032 1032) :: demo_queue_heads))
                      (list_to_map (map (λ e, (e.1, e.1)) demo_queue_heads)))
               (list_to_map [(8, mkPage 0x1000 vm_page_object_new OBJECT 0);
                             (64, mkPage 0x2000 (mkObj 0x900 0x3000 1 0 0) OBJECT 0)]))
       [0; 1; 0; 0; 0; 0; 0; 0; 0; 0; 0; 0; 0; 0].
Definition demo_ql (q : Z) : list Z := if decide (q = 1) then [64] else [].

Lemma is_queue_cases (P : Z → Prop) : Forall P (Z.of_nat <$> seq 0 14) → ∀ q, is_queue q → P q.
Proof.
  rewrite Forall_forall. intros HP q [H1 H2]. apply HP, list_elem_of_fmap. exists (Z.to_nat q).
  change PAGE_QUEUE_NUM_QUEUES with 14 in H2. split; [lia|]. apply elem_of_seq. lia.
Qed.

Lemma demo_pq_inv : queues_inv demo_queue_addr demo_pq demo_ql.
Proof.
  split; [reflexivity|]. split; [reflexivity|]. split.
  - apply is_queue_cases. repeat constructor; try (intros [=]); try by apply (bool_decide_unpack _).
    all: intros p Hp; try (by apply not_elem_of_nil in Hp).
    apply list_elem_of_singleton in Hp as ->. eexists. split_and!; [reflexivity..|intros [=]].
  - intros q q' Hq Hq' Hne. unfold is_queue in *. change PAGE_QUEUE_NUM_QUEUES with 14 in *.
    intros x. unfold demo_queue_addr, demo_ql.
    repeat case_decide; rewrite ?elem_of_cons; intros [->|Hx] [?|Hx']; set_solver by lia.
Qed.

Lemma set_anonymous_inv_witness :
  ∃ s', set_anonymous demo_queue_addr 8 0x900 0x4000 demo_pq = Ret ((), s') ∧
    queues_inv demo_queue_addr s' (upd_q PAGE_QUEUE_ANONYMOUS [8; 64] demo_ql).
Proof.
  destruct (set_anonymous_inv demo_queue_addr demo_pq demo_ql 8 0x900 0x4000) as (s' & Hrun & Hinv & _);
    [apply demo_pq_inv| |discriminate|discriminate|reflexivity|exists s'; split; [exact Hrun|exact Hinv]].
  eexists _, _. split_and!; reflexivity.
Defined.

Lemma move_to_wired_inv_witness :
  ∃ s', move_to_wired demo_queue_addr 64 demo_pq = Ret ((), s') ∧
    queues_inv demo_queue_addr s' (upd_q PAGE_QUEUE_WIRED [64] (upd_q 1 [] demo_ql)).
Proof.
  destruct (move_to_wired_inv demo_queue_addr demo_pq demo_ql 64 1 [] []) as (s' & Hrun & Hinv);
    [apply demo_pq_inv|split; [lia|reflexivity]|reflexivity|].
  exists s'. split; [exact Hrun|exact Hinv].
Defined.
