(* ===== verification/BootReserve.v ===== *)
(** * platform/riscv/boot_reserve.rs: physical ranges reserved at boot

    The state is the vector [BOOT_CONTEXT.reserve_ranges()].  Adding a range
    keeps it sorted and disjoint, and the search for a chunk near the top of a
    region terminates with the highest chunk that avoids all of them. *)

From Stdlib Require Import Sorted.
From S2P Require Import Prelude Defs.

Definition MAX_RESERVES : Z := 64.

Record BootReserveRange := mkRange { r_pa : Z; r_len : Z }.

(** [while i < res.len()]: the position at which to insert. *)
Fixpoint add_range_pos {S} (rest : list BootReserveRange) (i : nat) (pa len end_ : Z) : M S nat :=
  match rest with
  | [] => mret i
  | r :: rest =>
      if intersects (r_pa r) (r_len r) pa len then panic
      else if end_ <? r_pa r then mret i
      else add_range_pos rest (Datatypes.S i) pa len end_
  end.

(** [Vec::insert]. *)
Definition vec_insert {A} (i : nat) (x : A) (l : list A) : list A := take i l ++ x :: drop i l.

Definition boot_reserve_add_range (pa len : Z) : M (list BootReserveRange) (Result unit) :=
  res ← getS;
  if Z.of_nat (length res) =? MAX_RESERVES - 1 then panic
  else
    let end_ := usub (uadd pa len) 1 in
    zx_assert (pa <? end_);;
    i ← add_range_pos res 0 pa len end_;
    putS (vec_insert i (mkRange pa len) res);;
    mret (Ok ()).

Definition boot_reserve_init (pa len : Z) : M (list BootReserveRange) (Result unit) :=
  boot_reserve_add_range pa len.

Definition upper_align (r_pa r_len alloc_len : Z) : Z := usub (uadd r_pa r_len) alloc_len.

(** [for r in res.iter()]: the first reserved range in the way. *)
Definition first_hit (res : list BootReserveRange) (alloc_pa alloc_len : Z) : option BootReserveRange :=
  head (filter (λ r, intersects (r_pa r) (r_len r) alloc_pa alloc_len = true) res).

Fixpoint range_search_loop (fuel : nat) (res : list BootReserveRange) (range_pa alloc_pa alloc_len : Z) :
    outcome (Result Z) :=
  match fuel with
  | O => Spin
  | S fuel =>
      match first_hit res alloc_pa alloc_len with
      | Some r =>
          let alloc_pa := usub (r_pa r) alloc_len in
          if alloc_pa <? range_pa then Ret (Err NoMem)
          else range_search_loop fuel res range_pa alloc_pa alloc_len
      | None => Ret (Ok alloc_pa)
      end
  end.

(** The caller's [alloc_range] is returned. *)
Definition boot_reserve_range_search (fuel : nat) (res : list BootReserveRange)
    (range_pa range_len alloc_len : Z) : outcome (Result BootReserveRange) :=
  r ← range_search_loop fuel res range_pa (upper_align range_pa range_len alloc_len) alloc_len;
  match r with
  | Ok pa => Ret (Ok (mkRange pa alloc_len))
  | Err e => Ret (Err e)
  end.

(** ** Well-formed reservation lists *)

Definition range_wf (r : BootReserveRange) : Prop :=
  0 ≤ r_pa r ∧ 2 ≤ r_len r ∧ r_pa r + r_len r < 2 ^ 64.

Definition before (r s : BootReserveRange) : Prop := r_pa r + r_len r ≤ r_pa s.

(** Sorted by address and pairwise disjoint. *)
Definition reserves_wf (res : list BootReserveRange) : Prop :=
  Forall range_wf res ∧ StronglySorted before res.

Definition overlaps (r : BootReserveRange) (pa len : Z) : Prop :=
  r_pa r < pa + len ∧ pa < r_pa r + r_len r.

Lemma intersects_overlaps r pa len :
  range_wf r → 0 ≤ pa → 0 < len → pa + len < 2 ^ 64 →
  intersects (r_pa r) (r_len r) pa len = true ↔ overlaps r pa len.
Proof.
  intros (? & ? & ?) ???. rewrite intersects_spec by lia. unfold overlaps. split.
  - intros (x & ? & ?). lia.
  - intros. exists (Z.max (r_pa r) pa). lia.
Qed.

Lemma vec_insert_perm {A} i (x : A) l : vec_insert i x l ≡ₚ x :: l.
Proof. unfold vec_insert. rewrite <-Permutation_middle, take_drop. done. Qed.

(** The loop stops at a position between the ranges below and those above. *)
Lemma add_range_pos_spec {S} (s : S) rest i pa len :
  reserves_wf rest → 0 ≤ pa → 2 ≤ len → pa + len < 2 ^ 64 →
  (∀ r, r ∈ rest → ¬ overlaps r pa len) →
  ∃ k, (k ≤ length rest)%nat ∧ add_range_pos rest i pa len (pa + len - 1) s = Ret ((i + k)%nat, s) ∧
    Forall (λ r, before r (mkRange pa len)) (take k rest) ∧
    Forall (λ r, before (mkRange pa len) r) (drop k rest).
Proof.
  intros Hwf Hp Hl Hb Hno. revert i Hwf Hno.
  induction rest as [|r rest IH]; intros i [Hf Hs] Hno.
  { exists 0%nat. rewrite Nat.add_0_r. split_and!; [simpl; lia|done|constructor|constructor]. }
  apply Forall_cons in Hf as [Hr Hf]. apply StronglySorted_inv in Hs as [Hs Hrs].
  cbn [add_range_pos].
  assert (intersects (r_pa r) (r_len r) pa len = false) as ->.
  { apply not_true_iff_false. rewrite intersects_overlaps by (done || lia). apply Hno. set_solver. }
  assert (¬ overlaps r pa len) as Hnr by (apply Hno; set_solver).
  destruct Hr as (? & ? & ?). unfold overlaps in Hnr.
  destruct (Z.ltb_spec (pa + len - 1) (r_pa r)) as [Hlt|Hge].
  - exists 0%nat. rewrite Nat.add_0_r. split_and!; [simpl; lia|done|constructor|].
    simpl. constructor; [unfold before; simpl; lia|].
    rewrite Forall_forall in *. intros s' Hs'. specialize (Hrs s' Hs'). specialize (Hf s' Hs').
    unfold before in *; simpl. lia.
  - destruct (IH (Datatypes.S i)) as (k & Hk & Hrun & Hlo & Hhi); [done|set_solver|].
    exists (Datatypes.S k). split_and!; [simpl; lia| |simpl; constructor; [unfold before; simpl; lia|done]|done].
    rewrite Hrun. do 2 f_equal. lia.
Qed.

Lemma sorted_insert k res x :
  StronglySorted before res → Forall (λ r, before r x) (take k res) →
  Forall (before x) (drop k res) → StronglySorted before (vec_insert k x res).
Proof.
  intros Hs Hlo Hhi. unfold vec_insert. revert k Hlo Hhi.
  induction res as [|r res IH]; intros k Hlo Hhi.
  { rewrite take_nil, drop_nil. repeat constructor. }
  destruct k as [|k]; simpl in *; [by constructor|].
  apply StronglySorted_inv in Hs as [Hs Hr]. apply Forall_cons in Hlo as [Hx Hlo].
  constructor; [by apply IH|].
  rewrite Forall_app, Forall_cons. rewrite <-(take_drop k res), Forall_app in Hr. tauto.
Qed.

Lemma add_range_pos_overlap {S} (s : S) rest i pa len r :
  reserves_wf rest → 0 ≤ pa → 2 ≤ len → pa + len < 2 ^ 64 →
  r ∈ rest → overlaps r pa len →
  add_range_pos rest i pa len (pa + len - 1) s = Panic.
Proof.
  intros Hwf Hp Hl Hb. revert i Hwf. induction rest as [|r' rest IH]; intros i [Hf Hs] Hin Hov.
  { by apply not_elem_of_nil in Hin. }
  apply Forall_cons in Hf as [Hr Hf]. apply StronglySorted_inv in Hs as [Hs Hrs].
  cbn [add_range_pos].
  destruct (intersects (r_pa r') (r_len r') pa len) eqn:E; [done|].
  apply not_true_iff_false in E. rewrite intersects_overlaps in E by (done || lia).
  apply elem_of_cons in Hin as [->|Hin]; [done|].
  rewrite Forall_forall in Hrs. specialize (Hrs r Hin).
  destruct Hr as (? & ? & ?). unfold before, overlaps in *.
  rewrite (proj2 (Z.ltb_ge _ _)) by lia. by apply IH.
Qed.

(** ** The search *)

Lemma first_hit_Some res pa len r :
  first_hit res pa len = Some r → r ∈ res ∧ intersects (r_pa r) (r_len r) pa len = true.
Proof. unfold first_hit. intros [Hr Hi]%head_Some_elem_of%list_elem_of_filter. done. Qed.

Lemma first_hit_None res pa len :
  first_hit res pa len = None → ∀ r, r ∈ res → intersects (r_pa r) (r_len r) pa len = false.
Proof.
  unfold first_hit. intros Hn%head_None r Hr. apply not_true_iff_false. intros Ht.
  assert (r ∈ filter (λ r, intersects (r_pa r) (r_len r) pa len = true) res) as Hin
    by (by apply list_elem_of_filter).
  rewrite Hn in Hin. by apply not_elem_of_nil in Hin.
Qed.

(** A chunk at [q] fits: inside the region and clear of every reservation. *)
Definition fits (res : list BootReserveRange) (range_pa range_len alloc_len q : Z) : Prop :=
  range_pa ≤ q ∧ q + alloc_len ≤ range_pa + range_len ∧
  ∀ r, r ∈ res → ¬ overlaps r q alloc_len.

(** How many reservations begin below an address: what a retry decreases. *)
Definition below (res : list BootReserveRange) (x : Z) : nat :=
  length (filter (λ r, r_pa r < x) res).

Lemma below_lt res x y : y ≤ x → (∃ r, r ∈ res ∧ y ≤ r_pa r < x) → (below res y < below res x)%nat.
Proof.
  intros Hle (r & Hin & Hr). revert Hin.
  assert (∀ l, (below l y ≤ below l x)%nat) as Hmono.
  { induction l as [|s l IH]; [done|]. unfold below in *.
    rewrite !filter_cons. repeat case_decide; simpl; lia. }
  induction res as [|s l IH]; intros Hin; [by apply not_elem_of_nil in Hin|].
  specialize (Hmono l). unfold below in *. rewrite !filter_cons.
  apply elem_of_cons in Hin as [->|Hin].
  - rewrite decide_False, decide_True by lia. simpl. lia.
  - specialize (IH Hin). repeat case_decide; simpl; lia.
Qed.

Section search.
Context (res : list BootReserveRange) (range_pa range_len alloc_len : Z).
Hypothesis Hwf : Forall range_wf res.
Hypothesis Hbase : 0 ≤ range_pa.
Hypothesis Hlen : 0 < alloc_len ≤ range_len.
Hypothesis Hend : range_pa + range_len < 2 ^ 64.
Hypothesis Hnowrap : ∀ r, r ∈ res → alloc_len ≤ r_pa r.

Lemma range_search_loop_spec fuel p :
  range_pa ≤ p → p + alloc_len ≤ range_pa + range_len →
  (∀ q, fits res range_pa range_len alloc_len q → q ≤ p) →
  (below res (p + alloc_len) < fuel)%nat →
  (∃ q, range_search_loop fuel res range_pa p alloc_len = Ret (Ok q) ∧
        fits res range_pa range_len alloc_len q ∧
        ∀ q', fits res range_pa range_len alloc_len q' → q' ≤ q) ∨
  (range_search_loop fuel res range_pa p alloc_len = Ret (Err NoMem) ∧
   ∀ q, ¬ fits res range_pa range_len alloc_len q).
Proof.
  revert p. induction fuel as [|fuel IH]; intros p Hp Hpe Hbest Hf; [lia|].
  cbn [range_search_loop]. destruct (first_hit res p alloc_len) as [r|] eqn:E.
  - apply first_hit_Some in E as [Hin Hi].
    assert (range_wf r) as Hr by (rewrite Forall_forall in Hwf; by apply Hwf).
    rewrite intersects_overlaps in Hi by (done || lia).
    pose proof (Hnowrap r Hin). destruct Hr as (? & ? & ?). unfold overlaps in Hi.
    rewrite usub_small by (unfold is_usize; lia).
    assert (∀ q, fits res range_pa range_len alloc_len q → q ≤ r_pa r - alloc_len) as Hbest'.
    { intros q Hq. specialize (Hbest q Hq). destruct Hq as (? & ? & Hq).
      specialize (Hq r Hin). unfold overlaps in Hq. lia. }
    destruct (Z.ltb_spec (r_pa r - alloc_len) range_pa) as [Hlt|Hge].
    + right. split; [done|]. intros q Hq. specialize (Hbest' q Hq). destruct Hq. lia.
    + apply IH; [done|lia|done|].
      assert (below res (r_pa r - alloc_len + alloc_len) < below res (p + alloc_len))%nat; [|lia].
      apply below_lt; [lia|]. exists r. split; [done|lia].
  - left. exists p. split_and!; [done|split_and!; [done|done|]|done].
    intros r Hin. pose proof (first_hit_None _ _ _ E r Hin) as Hn.
    assert (range_wf r) as Hr by (rewrite Forall_forall in Hwf; by apply Hwf).
    apply not_true_iff_false in Hn. rewrite intersects_overlaps in Hn by (done || lia). done.
Qed.
End search.

(** ** Claims *)

(** On a sorted, disjoint reservation list with room left,
    [boot_reserve_add_range] of a range of at least two bytes that overlaps
    no reservation succeeds and yields the old ranges plus the new one, still
    sorted and disjoint; a range that overlaps one panics. *)
Theorem boot_reserve_add_range_sorted res pa len :
  reserves_wf res → length res ≠ 63%nat → 0 ≤ pa → 2 ≤ len → pa + len < 2 ^ 64 →
  ((∀ r, r ∈ res → ¬ overlaps r pa len) →
     ∃ res', boot_reserve_add_range pa len res = Ret (Ok (), res') ∧
             reserves_wf res' ∧ res' ≡ₚ mkRange pa len :: res) ∧
  ((∃ r, r ∈ res ∧ overlaps r pa len) → boot_reserve_add_range pa len res = Panic).
Proof.
  intros Hwf Hroom Hp Hl Hb. unfold boot_reserve_add_range.
  assert (Z.of_nat (length res) =? MAX_RESERVES - 1 = false) as Hr
    by (apply Z.eqb_neq; unfold MAX_RESERVES; lia).
  assert (usub (uadd pa len) 1 = pa + len - 1) as He by (unwrap; lia).
  split.
  - intros Hno. destruct (add_range_pos_spec res res 0 pa len) as (k & Hk & Hrun & Hlo & Hhi); try done.
    exists (vec_insert k (mkRange pa len) res).
    rewrite (M_bind_run _ _ _ _ _ eq_refl), Hr, He. cbv zeta.
    erewrite M_bind_run by (apply zx_assert_true, Z.ltb_lt; lia).
    rewrite (M_bind_run _ _ _ _ _ Hrun). split_and!; [done| |apply vec_insert_perm].
    destruct Hwf as [Hf Hs]. split; [|by apply sorted_insert].
    rewrite vec_insert_perm. constructor; [|done]. unfold range_wf; simpl; lia.
  - intros (r & Hin & Hov).
    rewrite (M_bind_run _ _ _ _ _ eq_refl), Hr, He. cbv zeta.
    erewrite M_bind_run by (apply zx_assert_true, Z.ltb_lt; lia).
    unfold mbind, M_bind. by rewrite (add_range_pos_overlap res res 0 pa len r).
Qed.

Definition demo_reserves : list BootReserveRange := [mkRange 0x1000 0x1000; mkRange 0x4000 0x800].

Lemma demo_reserves_wf : reserves_wf demo_reserves.
Proof. split; repeat constructor; vm_compute; (done || intros [=]). Qed.

Lemma boot_reserve_add_range_sorted_witness :
  boot_reserve_add_range 0x4400 0x100 demo_reserves = Panic ∧
  ∃ res', boot_reserve_add_range 0x2000 0x400 demo_reserves = Ret (Ok (), res') ∧ reserves_wf res'.
Proof.
  split.
  - apply (boot_reserve_add_range_sorted demo_reserves 0x4400 0x100);
      [apply demo_reserves_wf|simpl; lia|lia|lia|lia|].
    exists (mkRange 0x4000 0x800). split; [set_solver|vm_compute; done].
  - destruct (boot_reserve_add_range_sorted demo_reserves 0x2000 0x400) as [Hok _];
      [apply demo_reserves_wf|simpl; lia|lia|lia|lia|].
    destruct Hok as (res' & Hrun & Hwf & _).
    { intros r Hr. unfold demo_reserves in Hr. rewrite !elem_of_cons in Hr.
      destruct Hr as [->|[->|[]%not_elem_of_nil]]; unfold overlaps; simpl; lia. }
    exists res'. split; [exact Hrun|exact Hwf].
Defined.

(** C34: when no reservation begins below [alloc_len], the search for a chunk
    of [alloc_len] bytes in a region terminates ([length res + 1] rounds are
    enough: no reservation is hit twice) with the highest chunk of the region
    that is clear of every reservation, or with [NoMem] exactly when there is
    none. *)
Theorem boot_reserve_range_search_highest res range_pa range_len alloc_len fuel :
  Forall range_wf res → 0 ≤ range_pa → 0 < alloc_len ≤ range_len →
  range_pa + range_len < 2 ^ 64 → (∀ r, r ∈ res → alloc_len ≤ r_pa r) →
  (length res < fuel)%nat →
  (∃ q, boot_reserve_range_search fuel res range_pa range_len alloc_len
          = Ret (Ok (mkRange q alloc_len)) ∧
        fits res range_pa range_len alloc_len q ∧
        ∀ q', fits res range_pa range_len alloc_len q' → q' ≤ q) ∨
  (boot_reserve_range_search fuel res range_pa range_len alloc_len = Ret (Err NoMem) ∧
   ∀ q, ¬ fits res range_pa range_len alloc_len q).
Proof.
  intros Hwf Hb Hl He Hn Hf.
  destruct (range_search_loop_spec res range_pa range_len alloc_len Hwf Hb Hl He Hn fuel
    (range_pa + range_len - alloc_len)) as [(q & Hrun & Hq)|[Hrun Hq]]; try lia.
  - unfold fits. lia.
  - unfold below. pose proof (length_filter (λ r, r_pa r < range_pa + range_len - alloc_len + alloc_len) res). lia.
  - left. exists q. split; [|done]. unfold boot_reserve_range_search, upper_align.
    unwrap. by rewrite Hrun.
  - right. split; [|done]. unfold boot_reserve_range_search, upper_align.
    unwrap. by rewrite Hrun.
Qed.

Lemma boot_reserve_range_search_highest_witness :
  boot_reserve_range_search 3 demo_reserves 0x1800 0x3000 0x900 = Ret (Ok (mkRange 0x3700 0x900)) ∧
  ((∃ q, boot_reserve_range_search 3 demo_reserves 0x1800 0x3000 0x900
          = Ret (Ok (mkRange q 0x900)) ∧ fits demo_reserves 0x1800 0x3000 0x900 q ∧
        ∀ q', fits demo_reserves 0x1800 0x3000 0x900 q' → q' ≤ q) ∨
   (boot_reserve_range_search 3 demo_reserves 0x1800 0x3000 0x900 = Ret (Err NoMem) ∧
    ∀ q, ¬ fits demo_reserves 0x1800 0x3000 0x900 q)).
Proof.
  split; [reflexivity|].
  apply (boot_reserve_range_search_highest demo_reserves 0x1800 0x3000 0x900 3);
    [apply demo_reserves_wf|lia|lia|lia| |simpl; lia].
  intros r Hr. unfold demo_reserves in Hr. rewrite !elem_of_cons in Hr. destruct Hr as [->|[->|[]%not_elem_of_nil]]; simpl; lia.
Defined.

(** Without that hypothesis the subtraction [r.pa - alloc_len] wraps and the
    search hands out a chunk far outside the region. *)
Example range_search_wraps :
  boot_reserve_range_search 3 [mkRange 0x100 0x1000] 0x0 0x1000 0x400
    = Ret (Ok (mkRange (2 ^ 64 - 0x300) 0x400)).
Proof. reflexivity. Qed.
