(* ===== verification/Pmm.v ===== *)
(** * pmm.rs: the physical memory manager

    A [PmmNode] owns the arenas, each with an array of [vm_page]s, and the
    list of free pages.  The file models arena set-up, the allocation of one,
    several and given pages, and the translation from physical addresses to
    pages, on the page memory of Page.v. *)

From Stdlib Require Import String Sorted.
From S2P Require Import Prelude Defs LinkedList Page BootReserve.

#[local] Open Scope Z_scope.

Definition PMM_ALLOC_FLAG_ANY : Z := Z.shiftl 0 0.
Definition PMM_ALLOC_FLAG_LO_MEM : Z := Z.shiftl 1 0.
Definition PMM_ALLOC_FLAG_CAN_WAIT : Z := Z.shiftl 1 1.
Definition PMM_ALLOC_FLAG_CAN_BORROW : Z := Z.shiftl 1 2.
Definition PMM_ALLOC_FLAG_MUST_BORROW : Z := Z.shiftl 1 3.
Definition MAX_ARENAS : Z := 16.

Record ArenaInfo := mkInfo { name : string; flags : Z; base : Z; size : Z }.

Record PageArray := mkArray { start : Z; len : Z; obj_size : Z }.

Record PmmArena := mkArena { info : ArenaInfo; page_array : PageArray }.

(** [arenas], [arena_cumulative_size], the count of [free_list], and the page
    memory its list links. *)
Record PmmNode := mkPmm {
  mem : pmem;
  arenas : list PmmArena;
  arena_cumulative_size : Z;
  free_count : Z;
}.

Definition on_pages {A} (m : M pmem A) : M PmmNode A :=
  zoom mem (λ l s, mkPmm l (arenas s) (arena_cumulative_size s) (free_count s)) m.
Definition on_plist {A} (m : M lmem A) : M PmmNode A := on_pages (on_lists m).
Definition add_count (f : Z → Z) : M PmmNode unit :=
  modifyS (λ s, mkPmm (mem s) (arenas s) (arena_cumulative_size s) (f (free_count s))).

(** ** PageArray *)

Definition PageArray_new : PageArray := mkArray 0 0 VM_PAGE_T_SIZE.
Definition PageArray_init (st ln : Z) (a : PageArray) : PageArray := mkArray st ln (obj_size a).

Definition get_page (self : PageArray) (index : Z) : Z :=
  let ptr := uadd (umul index (obj_size self)) (start self) in
  if uadd (start self) (len self) <=? ptr then null else ptr.

Definition init_page (self : PageArray) (index pa : Z) : M PmmNode (Result unit) :=
  let page := get_page self index in
  if page =? null then mret (Err NoMem)
  else on_pages (vm_page_init page pa);; mret (Ok ()).

Definition set_page_state (self : PageArray) (index st : Z) : M PmmNode (Result unit) :=
  let page := get_page self index in
  if page =? null then mret (Err NoMem)
  else on_pages (set_state page st);; mret (Ok ()).

(** ** PmmArena *)

Definition PmmArena_new (i : ArenaInfo) : PmmArena := mkArena i PageArray_new.

Definition arena_base (a : PmmArena) : Z := base (info a).
Definition arena_size (a : PmmArena) : Z := size (info a).

Definition address_in_arena (self : PmmArena) (pa : Z) : bool :=
  (arena_base self <=? pa) && (pa <=? usub (uadd (arena_base self) (arena_size self)) 1).

Definition find_specific (self : PmmArena) (pa : Z) : outcome Z :=
  if negb (address_in_arena self pa) then Ret null
  else
    let index := usub pa (arena_base self) / PAGE_SIZE in
    if index <? arena_size self / PAGE_SIZE then Ret (get_page (page_array self) index)
    else Panic.

Section node.
(** Where the list object of [PMM_NODE.free_list] is. *)
Context (free_list : Z).

Definition add_free_pages (list : Z) (count : Z) : M PmmNode unit :=
  add_count (λ c, uadd c count);;
  on_plist (List_splice free_list list).

(** [while i < page_count]: [k] iterations left; [list] is the local list. *)
Fixpoint arena_init_loop (arr : PageArray) (abase list a0 a1 : Z) (k : nat) (i : Z) :
    M PmmNode (Result unit) :=
  match k with
  | O => mret (Ok ())
  | S k =>
      _ ←? init_page arr i (uadd abase (umul i PAGE_SIZE));
      _ ←? (if (a0 <=? i) && (i <? a1) then set_page_state arr i WIRED
            else
              let page := get_page arr i in
              if page =? null then mret (Err NoMem)
              else on_plist (List_add_tail list page);; mret (Ok ()));
      arena_init_loop arr abase list a0 a1 k (i + 1)
  end.

(** [res]: the boot reservations; [list]: the address of the local list.
    The result is the arena with its page array set up. *)
Definition PmmArena_init (res : list BootReserveRange) (list : Z) (self : PmmArena) :
    M PmmNode (Result PmmArena) :=
  let page_count := arena_size self / PAGE_SIZE in
  let page_array_size := ROUNDUP_PAGE_SIZE (umul page_count VM_PAGE_T_SIZE) in
  if arena_size self <=? page_array_size then mret (Err LackBuf)
  else
    match boot_reserve_range_search (S (length res)) res (arena_base self) (arena_size self) page_array_size with
    | Ret (Ok range) =>
        if (r_pa range <? arena_base self) || (page_array_size <? r_len range) then mret (Err OutOfRange)
        else
          let page_array_va := paddr_to_physmap (r_pa range) in
          let arr := PageArray_init page_array_va page_array_size (page_array self) in
          let array_start_index := usub (PAGE_ALIGN (r_pa range)) (arena_base self) / PAGE_SIZE in
          let array_end_index := uadd array_start_index (page_array_size / PAGE_SIZE) in
          if (page_count <=? array_start_index) || (page_count <? array_end_index) then mret (Err BadRange)
          else
            on_plist (List_new list);;
            on_plist (List_init list);;
            _ ←? arena_init_loop arr (arena_base self) list array_start_index array_end_index
                   (Z.to_nat page_count) 0;
            add_free_pages list page_count;;
            mret (Ok (mkArena (info self) arr))
    | Ret (Err e) => mret (Err e)
    | Panic => panic | Fault => fault | Spin => spin
    end.

(** Position of the first arena with a larger base. *)
Fixpoint arena_insert (arena : PmmArena) (l : list PmmArena) : list PmmArena :=
  match l with
  | [] => [arena]
  | a :: l' => if arena_base arena <? arena_base a then arena :: l else a :: arena_insert arena l'
  end.

Definition add_arena (res : list BootReserveRange) (list : Z) (i : ArenaInfo) : M PmmNode (Result unit) :=
  if negb (IS_PAGE_ALIGNED (base i)) || negb (IS_PAGE_ALIGNED (size i)) || (size i =? 0)
  then mret (Err BadAlign)
  else
    r ← PmmArena_init res list (PmmArena_new i);
    match r with
    | Err _ => mret (Ok ())
    | Ok arena =>
        modifyS (λ s, mkPmm (mem s) (arena_insert arena (arenas s))
                        (uadd (arena_cumulative_size s) (arena_size arena)) (free_count s));;
        mret (Ok ())
    end.

Definition alloc_page_helper_locked (page : Z) : M PmmNode unit :=
  pg ← on_pages (page_at page);
  zx_assert (is_free pg);;
  if is_loaned pg then panic
  else on_pages (set_state page ALLOC).

(** [todo!]. *)
Definition free_list_locked (list : Z) : M PmmNode unit := panic.

(** [while allocated < count && area.address_in_arena(address)]: [k] is
    [count - allocated]; returns the new [k] and [address]. *)
Fixpoint alloc_range_area (area : PmmArena) (list : Z) (k : nat) (address : Z) : M PmmNode (nat * Z) :=
  match k with
  | O => mret (O, address)
  | S k' =>
      if address_in_arena area address then
        match find_specific area address with
        | Ret page =>
            pg ← on_pages (page_at page);
            if negb (is_free pg) then mret (k, address)
            else if is_loaned pg then mret (k, address)
            else
              on_plist (Linked_delete_from_list page);;
              alloc_page_helper_locked page;;
              on_plist (List_add_tail list page);;
              alloc_range_area area list k' (uadd address PAGE_SIZE)
        | _ => panic
        end
      else mret (k, address)
  end.

Fixpoint alloc_range_areas (areas : list PmmArena) (list : Z) (k : nat) (address : Z) : M PmmNode nat :=
  match areas with
  | [] => mret k
  | area :: areas =>
      p ← alloc_range_area area list k address;
      if decide (fst p = O) then mret O else alloc_range_areas areas list (fst p) (snd p)
  end.

Definition alloc_range (address count : Z) (list : Z) : M PmmNode (Result unit) :=
  e ← on_plist (List_empty list);
  zx_assert e;;
  if count =? 0 then mret (Ok ())
  else
    s ← getS;
    k ← alloc_range_areas (arenas s) list (Z.to_nat count) (ROUNDDOWN address PAGE_SIZE);
    let allocated := count - Z.of_nat k in
    add_count (λ c, usub c allocated);;
    if negb (allocated =? count) then free_list_locked list;; mret (Err NotFound)
    else mret (Ok ()).

Definition alloc_page (_flags : Z) : M PmmNode Z :=
  page ← on_plist (List_pop_head free_list);
  pg ← on_pages (page_at page);
  zx_assert (negb (is_loaned pg));;
  alloc_page_helper_locked page;;
  add_count (λ c, usub c 1);;
  mret page.

(** [while count > 0]. *)
Fixpoint alloc_pages_loop (count : nat) (list : Z) : M PmmNode (Result unit) :=
  match count with
  | O => mret (Ok ())
  | S count =>
      page ← on_plist (List_pop_head free_list);
      if page =? null then mret (Err NoMem)
      else
        alloc_page_helper_locked page;;
        on_plist (List_add_tail list page);;
        add_count (λ c, usub c 1);;
        alloc_pages_loop count list
  end.

Definition alloc_pages (count alloc_flags : Z) (list : Z) : M PmmNode (Result unit) :=
  b ← on_plist (List_is_initialized list);
  zx_assert b;;
  if count =? 0 then mret (Ok ())
  else if count =? 1 then
    page ← alloc_page alloc_flags;
    if page =? null then mret (Err NoMem)
    else on_plist (List_add_tail list page);; mret (Ok ())
  else alloc_pages_loop (Z.to_nat count) list.

Fixpoint paddr_to_page_in (l : list PmmArena) (pa : Z) : Z :=
  match l with
  | [] => null
  | arena :: l =>
      if negb (address_in_arena arena pa) then paddr_to_page_in l pa
      else get_page (page_array arena) (usub pa (arena_base arena) / PAGE_SIZE)
  end.
Definition paddr_to_page (pa : Z) : M PmmNode Z := s ← getS; mret (paddr_to_page_in (arenas s) pa).

Definition pmm_alloc_range := alloc_range.
Definition pmm_alloc_page := alloc_page.
Definition pmm_alloc_pages := alloc_pages.
Definition pmm_add_arena := add_arena.
Definition paddr_to_vm_page := paddr_to_page.

Definition pmm_alloc_contiguous (count alloc_flags alignment_log2 : Z) (list : Z) : M PmmNode (Result unit) :=
  if (count =? 1) && (alignment_log2 <=? PAGE_SHIFT) then
    page ← alloc_page alloc_flags;
    if page =? null then mret (Err NoMem)
    else on_plist (List_add_tail list page);; mret (Ok ())
  else panic.

(** [todo!]. *)
Definition pmm_free (list : Z) : M PmmNode unit := panic.
End node.


(** ** Invariant *)

Section invariant.
Context (free_list : Z).

(** The array slot of page [i] of an arena. *)
Definition arena_slot (a : PmmArena) (i : Z) : Z := start (page_array a) + i * VM_PAGE_T_SIZE.
Definition arena_pages (a : PmmArena) : Z := arena_size a / PAGE_SIZE.

Definition arena_wf (a : PmmArena) : Prop :=
  0 ≤ arena_base a ∧ (PAGE_SIZE | arena_base a) ∧ (PAGE_SIZE | arena_size a) ∧ 0 < arena_size a ∧
  arena_base a + arena_size a < 2 ^ 64 ∧
  obj_size (page_array a) = VM_PAGE_T_SIZE ∧ 0 < start (page_array a) ∧
  start (page_array a) + len (page_array a) < 2 ^ 64 ∧
  arena_pages a * VM_PAGE_T_SIZE ≤ len (page_array a).

Definition arena_below (a b : PmmArena) : Prop := arena_base a + arena_size a ≤ arena_base b.

Definition pages_inv (s : PmmNode) (fl : list Z) : Prop :=
  dll (lists (mem s)) free_list fl ∧
  (∀ p, p ∈ fl → ∃ pg, vpages (mem s) !! p = Some pg ∧ is_free pg = true ∧ is_loaned pg = false) ∧
  Forall arena_wf (arenas s) ∧ StronglySorted arena_below (arenas s) ∧
  (∀ a i, a ∈ arenas s → 0 ≤ i < arena_pages a →
     ∃ pg, vpages (mem s) !! arena_slot a i = Some pg ∧ paddr pg = arena_base a + i * PAGE_SIZE ∧
       is_Some (nodes (lists (mem s)) !! arena_slot a i) ∧
       (is_free pg = true → arena_slot a i ∈ fl)).

(** [extra]: what [free_list.count] counts beyond the length of the list. *)
Definition pmm_inv (extra : Z) (s : PmmNode) (fl : list Z) : Prop :=
  pages_inv s fl ∧ free_count s = usize_wrap (Z.of_nat (length fl) + extra).

(** A caller's list beside the free list. *)
Definition owned (dst : Z) (s : PmmNode) (fl lst : list Z) : Prop :=
  pages_inv s fl ∧ dll (lists (mem s)) dst lst ∧ dst :: lst ## free_list :: fl.

Definition to_alloc (pg : vm_page) : vm_page :=
  mkPage (paddr pg) (object pg) ALLOC (loaned_state pg).

Definition with_mem (l : pmem) (s : PmmNode) : PmmNode :=
  mkPmm l (arenas s) (arena_cumulative_size s) (free_count s).

Lemma with_mem_id s : with_mem (mkPmem (lists (mem s)) (vpages (mem s))) s = s.
Proof. by destruct s as [[]]. Qed.

Lemma on_plist_run {A} (m : M lmem A) s a l :
  m (lists (mem s)) = Ret (a, l) → on_plist m s = Ret (a, with_mem (mkPmem l (vpages (mem s))) s).
Proof. intros Hm. unfold on_plist, on_pages, zoom. by rewrite (on_lists_run _ _ _ _ Hm). Qed.

Lemma on_pages_at s p pg :
  vpages (mem s) !! p = Some pg → on_pages (page_at p) s = Ret (pg, s).
Proof. intros Hp. unfold on_pages, zoom. rewrite (page_at_run _ _ _ Hp). by destruct s. Qed.

Lemma helper_run s p pg :
  vpages (mem s) !! p = Some pg → is_free pg = true → is_loaned pg = false →
  alloc_page_helper_locked p s =
    Ret ((), with_mem (mkPmem (lists (mem s)) (alter to_alloc p (vpages (mem s)))) s).
Proof.
  intros Hp Hf Hl. unfold alloc_page_helper_locked.
  rewrite (M_bind_run _ _ _ _ _ (on_pages_at _ _ _ Hp)), Hf, Hl.
  erewrite M_bind_run by reflexivity.
  unfold on_pages, zoom, set_state. by rewrite (update_page_run _ _ _ _ Hp).
Qed.

(** Changing list memory outside the free list. *)
Lemma pages_inv_lists s fl m' ps :
  pages_inv s fl → frame (lists (mem s)) m' ps → (∀ q, q ∈ ps → q ∉ free_list :: fl) →
  (∀ q, is_Some (nodes (lists (mem s)) !! q) → is_Some (nodes m' !! q)) →
  pages_inv (with_mem (mkPmem m' (vpages (mem s))) s) fl.
Proof.
  intros (Hd & Hfl & Hwf & Hs & Har) Hf Hps Hkeep. split_and!; try done; simpl.
  - apply (dll_frame _ _ _ _ _ Hd Hf). intros q Hq Hin. by apply (Hps q).
  - intros a i Ha Hi. destruct (Har a i Ha Hi) as (pg & ? & ? & ? & ?). eauto 10.
Qed.

(** Taking page [p] out of the free list and marking it allocated. *)
Lemma pages_inv_take s fl1 p fl2 m' :
  pages_inv s (fl1 ++ p :: fl2) → dll m' free_list (fl1 ++ fl2) →
  nodes m' !! p = Some ListNode_new →
  frame (lists (mem s)) m' (free_list :: fl1 ++ p :: fl2) →
  pages_inv (with_mem (mkPmem m' (alter to_alloc p (vpages (mem s)))) s) (fl1 ++ fl2).
Proof.
  intros (Hd & Hfl & Hwf & Hs & Har) Hd' Hp Hf.
  assert (p ∉ fl1 ++ fl2) as Hnin.
  { destruct Hd as (_ & _ & Hnd%NoDup_cons & _). destruct Hnd as [_ Hnd].
    rewrite <-Permutation_middle in Hnd. by apply NoDup_cons in Hnd as [? _]. }
  assert (∀ q, is_Some (nodes (lists (mem s)) !! q) → is_Some (nodes m' !! q)) as Hkeep.
  { intros q. apply (frame_is_some _ _ _ _ _ _ Hf Hd').
    intros r. rewrite !elem_of_cons, !elem_of_app, elem_of_cons. intros [?|[?|[->|?]]]; eauto. }
  split_and!; try done; simpl.
  - intros q Hq. rewrite lookup_alter_ne by (intros ->; done). apply Hfl. set_solver.
  - intros a i Ha Hi. destruct (Har a i Ha Hi) as (pg & Hpg & Hpa & Hn & Hin).
    destruct (decide (p = arena_slot a i)) as [Heq|Hne].
    + exists (to_alloc pg). rewrite <-Heq in *. rewrite lookup_alter_eq, Hpg.
      split_and!; [done|done|auto|done].
    + exists pg. rewrite lookup_alter_ne by done. split_and!; auto.
      intros Hfree. specialize (Hin Hfree). set_solver.
Qed.

(** ... and handing it to the caller's list. *)
Lemma transfer dst s fl1 p fl2 lst m1 :
  owned dst s (fl1 ++ p :: fl2) lst → dll m1 free_list (fl1 ++ fl2) →
  nodes m1 !! p = Some ListNode_new →
  frame (lists (mem s)) m1 (free_list :: fl1 ++ p :: fl2) →
  let s1 := with_mem (mkPmem m1 (vpages (mem s))) s in
  ∃ s2 m', alloc_page_helper_locked p s1 = Ret ((), s2) ∧
    let s' := with_mem (mkPmem m' (alter to_alloc p (vpages (mem s)))) s in
    on_plist (List_add_tail dst p) s2 = Ret ((), s') ∧ owned dst s' (fl1 ++ fl2) (lst ++ [p]) ∧
    frame (lists (mem s)) m' ((free_list :: fl1 ++ p :: fl2) ++ p :: dst :: lst).
Proof.
  intros (Hinv & Hdl & Hdis) Hd1 Hp1 Hf1 s1.
  destruct Hinv as (Hd & Hfl & Hrest). destruct (Hfl p) as (pg & Hpg & Hfree & Hnl); [set_solver|].
  assert (pages_inv (with_mem (mkPmem m1 (alter to_alloc p (vpages (mem s)))) s) (fl1 ++ fl2)) as Hinv1.
  { by apply pages_inv_take; [split_and!; [done|done|apply Hrest..]| | |]. }
  set (s2 := with_mem (mkPmem m1 (alter to_alloc p (vpages (mem s)))) s) in *.
  assert (dll m1 dst lst) as Hdl1.
  { apply (dll_frame _ _ _ _ _ Hdl Hf1). intros q Hq Hin. by apply (Hdis q). }
  assert (p ≠ null ∧ p ∉ free_list :: fl1 ++ fl2) as [Hp0 Hpn].
  { destruct Hd as (_ & H0 & Hnd & _). split; [set_solver|].
    rewrite <-Permutation_middle, NoDup_cons in Hnd. rewrite NoDup_cons in Hnd. set_solver. }
  destruct (List_add_tail_spec m1 dst lst p) as (m' & Hrun & Hd' & Hf').
  { done. }
  { rewrite vm_page_into_node. intros Hin. apply (Hdis p); [done|set_solver]. }
  { by rewrite vm_page_into_node. }
  { rewrite vm_page_into_node. eauto. }
  rewrite vm_page_into_node in Hd', Hf'.
  exists s2, m'. split; [by apply (helper_run s1 p pg)|]. intros s'.
  split; [|split; [split_and!|by eapply frame_trans]].
  - by rewrite (on_plist_run _ s2 _ _ Hrun).
  - apply (pages_inv_lists s2 _ _ _ Hinv1 Hf').
    + intros q [->|Hq]%elem_of_cons; [done|]. intros Hin. apply (Hdis q); [done|set_solver].
    + intros q. apply (frame_is_some _ _ _ _ _ _ Hf' Hd'). set_solver.
  - done.
  - intros q Hq Hin. rewrite app_comm_cons, elem_of_app in Hq. destruct Hq as [Hq|Hq].
    + apply (Hdis q); [done|set_solver].
    + apply list_elem_of_singleton in Hq as ->. done.
Qed.

Lemma wrap_count n : usub (usize_wrap n) 1 = usize_wrap (n - 1).
Proof. unfold usub, usize_wrap. apply Zminus_mod_idemp_l. Qed.

Definition counted (s : PmmNode) (d : Z) : PmmNode :=
  mkPmm (mem s) (arenas s) (arena_cumulative_size s) (usub (free_count s) d).

Lemma alloc_page_spec fs flags p fl :
  pages_inv fs (p :: fl) →
  ∃ m', let s' := counted (with_mem (mkPmem m' (alter to_alloc p (vpages (mem fs)))) fs) 1 in
    alloc_page free_list flags fs = Ret (p, s') ∧ pages_inv s' fl ∧
    nodes m' !! p = Some ListNode_new ∧ frame (lists (mem fs)) m' (free_list :: p :: fl).
Proof.
  intros Hinv. pose proof Hinv as (Hd & Hfl & _).
  destruct (Hfl p) as (pg & Hpg & Hfree & Hnl); [set_solver|].
  destruct (List_pop_head_cons _ _ _ _ Hd) as (m1 & Hrun & Hd1 & Hn1 & Hf1).
  rewrite vm_page_from_node in Hrun.
  exists m1. split_and!; [|apply (pages_inv_take fs [] p fl m1 Hinv Hd1 Hn1 Hf1)|done|done].
  unfold alloc_page. rewrite (M_bind_run _ _ _ _ _ (on_plist_run _ fs _ _ Hrun)).
  set (s1 := with_mem _ fs).
  rewrite (M_bind_run _ _ _ _ _ (on_pages_at s1 p pg Hpg)), Hnl.
  erewrite M_bind_run by reflexivity.
  by rewrite (M_bind_run _ _ _ _ _ (helper_run s1 p pg Hpg Hfree Hnl)).
Qed.

(** The loop of [alloc_pages] moves pages until the count or the free list is
    used up. *)
Lemma alloc_pages_loop_spec dst count s fl lst :
  owned dst s fl lst →
  ∃ s', alloc_pages_loop free_list count dst s =
          Ret (if decide (count ≤ length fl)%nat then Ok () else Err NoMem, s') ∧
    owned dst s' (drop count fl) (lst ++ take count fl) ∧ arenas s' = arenas s ∧
    (∀ e, free_count s = usize_wrap (Z.of_nat (length fl) + e) →
          free_count s' = usize_wrap (Z.of_nat (length (drop count fl)) + e)) ∧
    (∀ q, q ∉ take count fl → vpages (mem s') !! q = vpages (mem s) !! q) ∧
    (∀ q, q ∈ take count fl → ∃ pg, vpages (mem s) !! q = Some pg ∧ vpages (mem s') !! q = Some (to_alloc pg)) ∧
    frame (lists (mem s)) (lists (mem s')) (free_list :: dst :: fl ++ lst).
Proof.
  revert s fl lst. induction count as [|count IH]; intros s fl lst Ho; cbn [alloc_pages_loop].
  { exists s. rewrite app_nil_r, decide_True by lia. split_and!; auto; [set_solver|]. by intros q _. }
  pose proof Ho as (Hinv & Hdl & Hdis). pose proof Hinv as (Hd & Hfl & _).
  destruct fl as [|p fl].
  { rewrite (M_bind_run _ _ _ _ _ (on_plist_run _ s _ _ (List_pop_head_nil _ _ Hd))).
    exists s. rewrite take_nil, drop_nil, app_nil_r, decide_False by (simpl; lia).
    destruct s as [[] ? ? ?]. split_and!; try done; set_solver. }
  destruct (List_pop_head_cons _ _ _ _ Hd) as (m1 & Hrun & Hd1 & Hn1 & Hf1).
  rewrite vm_page_from_node in Hrun.
  rewrite (M_bind_run _ _ _ _ _ (on_plist_run _ s _ _ Hrun)).
  rewrite (proj2 (Z.eqb_neq p null)) by (destruct Hd as (_ & H0 & _); set_solver).
  destruct (transfer dst s [] p fl lst m1 Ho Hd1 Hn1 Hf1) as (s2 & m' & Hr1 & Hr2 & Ho' & Hfr').
  rewrite (M_bind_run _ _ _ _ _ Hr1), (M_bind_run _ _ _ _ _ Hr2).
  erewrite M_bind_run by reflexivity.
  set (s3 := mkPmm _ _ _ _).
  assert (p ∉ fl) as Hp by (destruct Hd as (_ & _ & Hnd & _); rewrite !NoDup_cons in Hnd; tauto).
  destruct (IH s3 fl (lst ++ [p]) Ho') as (s' & Hrun' & Ho3 & Har & Hc & Hrest & Hal & Hfr).
  exists s'. split_and!.
  - rewrite Hrun'. do 3 f_equal. repeat case_decide; simpl in *; done || lia.
  - simpl. by rewrite <-app_assoc in Ho3.
  - done.
  - intros e He. apply Hc. simpl. rewrite He, wrap_count. f_equal. simpl. lia.
  - simpl. intros q Hq. rewrite Hrest by set_solver. simpl. apply lookup_alter_ne. set_solver.
  - simpl. intros q [->|Hq]%elem_of_cons.
    + destruct (Hfl p) as (pg & Hpg & _); [set_solver|]. exists pg. split; [done|].
      rewrite Hrest by (intros Hin%elem_of_take; destruct Hin as (? & ?%list_elem_of_lookup_2 & _); done).
      simpl. by rewrite lookup_alter_eq, Hpg.
    + destruct (Hal q Hq) as (pg & Hpg & Hpg'). exists pg. split; [|done].
      simpl in Hpg. rewrite lookup_alter_ne in Hpg; [done|].
      intros ->. apply Hp. apply elem_of_take in Hq as (? & ?%list_elem_of_lookup_2 & _). done.
  - simpl in Hfr. eapply frame_weaken; [exact (frame_trans _ _ _ _ _ Hfr' Hfr)|]. set_solver.
Qed.

Lemma initialized_run dst s lst : dll (lists (mem s)) dst lst →
  on_plist (List_is_initialized dst) s = Ret (true, s).
Proof.
  intros (Hr & H0 & _). erewrite on_plist_run.
  2:{ unfold List_is_initialized. erewrite M_bind_run by (by apply (deref_run (λ m, refs m !! dst))). reflexivity. }
  rewrite (proj2 (Z.eqb_neq dst null)) by set_solver. by rewrite with_mem_id.
Qed.

(** [alloc_pages] when there are enough pages, one page included. *)
Lemma alloc_pages_spec dst count flags s fl lst :
  owned dst s fl lst → 1 ≤ count ≤ Z.of_nat (length fl) →
  let taken := take (Z.to_nat count) fl in
  ∃ s', alloc_pages free_list count flags dst s = Ret (Ok (), s') ∧
    owned dst s' (drop (Z.to_nat count) fl) (lst ++ taken) ∧ arenas s' = arenas s ∧
    (∀ q, q ∉ taken → vpages (mem s') !! q = vpages (mem s) !! q) ∧
    (∀ q, q ∈ taken → ∃ pg, vpages (mem s) !! q = Some pg ∧ vpages (mem s') !! q = Some (to_alloc pg)) ∧
    frame (lists (mem s)) (lists (mem s')) (free_list :: dst :: fl ++ lst).
Proof.
  intros Ho Hc taken. pose proof Ho as (Hinv & Hdl & Hdis). unfold alloc_pages.
  rewrite (M_bind_run _ _ _ _ _ (initialized_run _ _ _ Hdl)). erewrite M_bind_run by reflexivity.
  rewrite (proj2 (Z.eqb_neq count 0)) by lia. destruct (count =? 1) eqn:E; [apply Z.eqb_eq in E as ->|].
  - destruct fl as [|p fl]; [simpl in Hc; lia|]. pose proof Hinv as (Hd & Hfl & _).
    destruct (List_pop_head_cons _ _ _ _ Hd) as (m1 & Hrun & Hd1 & Hn1 & Hf1). rewrite vm_page_from_node in Hrun.
    destruct (transfer dst s [] p fl lst m1 Ho Hd1 Hn1 Hf1) as (s2 & m' & Hr1 & Hr2 & Ho' & Hfr').
    destruct (Hfl p) as (pg & Hpg & Hfree & Hnl); [set_solver|].
    set (s1 := with_mem (mkPmem m1 (vpages (mem s))) s) in *.
    eexists (counted _ 1). split_and!.
    + erewrite (M_bind_run (alloc_page free_list flags) _ s p (counted s2 1)).
      2:{ unfold alloc_page. rewrite (M_bind_run _ _ _ _ _ (on_plist_run _ s _ _ Hrun)).
          rewrite (M_bind_run _ _ _ _ _ (on_pages_at s1 p pg Hpg)), Hnl. erewrite M_bind_run by reflexivity.
          rewrite (M_bind_run _ _ _ _ _ Hr1). reflexivity. }
      rewrite (proj2 (Z.eqb_neq p null)) by (destruct Hd as (_ & H0 & _); set_solver).
      rewrite (M_bind_run _ _ (counted s2 1) () (counted (with_mem (mkPmem m' (alter to_alloc p (vpages (mem s)))) s) 1)); [reflexivity|].
      unfold on_plist, on_pages, zoom in Hr2 |- *. cbn [counted mem]. destruct (on_lists _ (mem s2)) as [[[] t]| | |]; [|done..].
      injection Hr2 as -> Ea Eb Ec. unfold counted. cbn [arenas arena_cumulative_size free_count mem with_mem]. by rewrite Ea, Eb, Ec.
    + exact Ho'.
    + done.
    + simpl. intros q Hq. apply lookup_alter_ne. set_solver.
    + simpl. intros q ->%list_elem_of_singleton. exists pg. split; [done|]. by rewrite lookup_alter_eq, Hpg.
    + simpl. eapply frame_weaken; [exact Hfr'|]. set_solver.
  - apply Z.eqb_neq in E. destruct (alloc_pages_loop_spec dst (Z.to_nat count) s fl lst Ho) as (s' & Hrun & Ho' & Har & _ & H1 & H2 & H3).
    exists s'. rewrite decide_True in Hrun by lia. split_and!; done.
Qed.

(** ** From physical addresses to pages *)

Lemma PAGE_SIZE_val : PAGE_SIZE = 4096.
Proof. done. Qed.
Lemma VM_PAGE_T_SIZE_val : VM_PAGE_T_SIZE = 56.
Proof. done. Qed.

Lemma address_in_arena_spec a pa :
  arena_wf a → address_in_arena a pa = true ↔ arena_base a ≤ pa < arena_base a + arena_size a.
Proof.
  intros (? & ? & ? & ? & ? & _). unfold address_in_arena. unwrap.
  rewrite andb_true_iff, !Z.leb_le. lia.
Qed.

Lemma get_page_slot a i :
  arena_wf a → 0 ≤ i < arena_pages a →
  get_page (page_array a) i = arena_slot a i ∧ arena_slot a i ≠ null.
Proof.
  intros (? & ? & ? & ? & ? & Ho & ? & ? & ?) Hi. unfold get_page, arena_slot. rewrite Ho.
  rewrite VM_PAGE_T_SIZE_val in *. unwrap.
  destruct (Z.leb_spec (start (page_array a) + len (page_array a)) (i * 56 + start (page_array a)));
    [lia|]. unfold null. lia.
Qed.

Lemma arena_index a pa :
  arena_wf a → arena_base a ≤ pa < arena_base a + arena_size a →
  usub pa (arena_base a) = pa - arena_base a ∧
  0 ≤ (pa - arena_base a) / PAGE_SIZE < arena_pages a ∧
  arena_base a + (pa - arena_base a) / PAGE_SIZE * PAGE_SIZE = pa - pa mod PAGE_SIZE.
Proof.
  intros (? & [kb Hb] & [ks Hs] & ? & ? & _) Hpa. unfold arena_pages. rewrite PAGE_SIZE_val in *.
  split_and!.
  - apply usub_small. unfold is_usize. lia.
  - apply Z.div_pos; lia.
  - rewrite Hs, Z.div_mul by lia. apply Z.div_lt_upper_bound; lia.
  - rewrite Hb. replace (pa - kb * 4096) with (pa + (- kb) * 4096) by lia.
    rewrite Z.div_add by lia. pose proof (Z.div_mod pa 4096 ltac:(lia)). lia.
Qed.

Lemma sorted_disjoint ar a b pa :
  StronglySorted arena_below ar → Forall arena_wf ar → a ∈ ar → b ∈ ar →
  arena_base a ≤ pa < arena_base a + arena_size a →
  arena_base b ≤ pa < arena_base b + arena_size b → a = b.
Proof.
  intros Hs Hwf. induction Hs as [|x l Hs IH Hx]; intros Ha Hb Hpa Hpb.
  { by apply not_elem_of_nil in Ha. }
  apply Forall_cons in Hwf as [Hwx Hwf]. rewrite Forall_forall in Hx. unfold arena_below in Hx.
  apply elem_of_cons in Ha as [->|Ha], Hb as [->|Hb]; [done| | |by apply IH].
  - specialize (Hx b Hb). lia.
  - specialize (Hx a Ha). lia.
Qed.

(** The translation finds the one arena with [pa] in it. *)
Lemma paddr_to_page_in_arena ar a pa :
  StronglySorted arena_below ar → Forall arena_wf ar → a ∈ ar →
  arena_base a ≤ pa < arena_base a + arena_size a →
  paddr_to_page_in ar pa = arena_slot a ((pa - arena_base a) / PAGE_SIZE).
Proof.
  intros Hs Hwf Ha Hpa.
  assert (∀ l, l ⊆ ar → a ∈ l →
    paddr_to_page_in l pa = arena_slot a ((pa - arena_base a) / PAGE_SIZE)) as Hall; [|by apply Hall].
  rewrite Forall_forall in Hwf.
  induction l as [|x l IH]; intros Hsub Hin; [by apply not_elem_of_nil in Hin|]. simpl.
  assert (arena_wf x) as Hx by (apply Hwf; set_solver).
  destruct (address_in_arena x pa) eqn:E; simpl.
  - apply address_in_arena_spec in E; [|done].
    assert (x = a) as -> by (apply (sorted_disjoint ar x a pa); [done|by apply Forall_forall|set_solver..|done|done]).
    destruct (arena_index a pa Hx Hpa) as (-> & Hi & _). by apply get_page_slot.
  - apply IH; [set_solver|]. apply elem_of_cons in Hin as [<-|]; [|done].
    rewrite (proj2 (address_in_arena_spec a pa Hx)) in E by done. done.
Qed.

Lemma paddr_to_page_in_none ar pa :
  Forall arena_wf ar → (∀ a, a ∈ ar → ¬ arena_base a ≤ pa < arena_base a + arena_size a) →
  paddr_to_page_in ar pa = null.
Proof.
  induction ar as [|x l IH]; intros Hwf Hno; [done|]. apply Forall_cons in Hwf as [Hx Hwf]. simpl.
  destruct (address_in_arena x pa) eqn:E; simpl.
  - apply address_in_arena_spec in E; [|done]. destruct (Hno x); [set_solver|done].
  - apply IH; [done|set_solver].
Qed.

(** What the translation gives: no page outside the arenas, and the page of
    the frame with [pa] inside them. *)
Lemma paddr_to_page_in_cases s fl pa :
  pages_inv s fl →
  (paddr_to_page_in (arenas s) pa = null ∧
   ∀ a, a ∈ arenas s → ¬ arena_base a ≤ pa < arena_base a + arena_size a) ∨
  (∃ a pg, a ∈ arenas s ∧ arena_base a ≤ pa < arena_base a + arena_size a ∧
     let p := paddr_to_page_in (arenas s) pa in
     find_specific a pa = Ret p ∧ p ≠ null ∧ vpages (mem s) !! p = Some pg ∧
     paddr pg = pa - pa mod PAGE_SIZE ∧ (is_free pg = true → p ∈ fl)).
Proof.
  intros (_ & _ & Hwf & Hs & Har).
  destruct (decide (Exists (λ a, arena_base a ≤ pa < arena_base a + arena_size a) (arenas s)))
    as [(a & Ha & Hpa)%Exists_exists|Hno].
  - right. assert (arena_wf a) as Hwa by (by rewrite Forall_forall in Hwf; apply Hwf).
    rewrite (paddr_to_page_in_arena _ a) by done.
    destruct (arena_index a pa Hwa Hpa) as (Hsub & Hi & Hround).
    destruct (get_page_slot a _ Hwa Hi) as [Hget Hnn].
    destruct (Har a _ Ha Hi) as (pg & Hpg & Hpad & _ & Hin).
    exists a, pg. cbv zeta. split_and!; try done; try lia.
    unfold find_specific. rewrite (proj2 (address_in_arena_spec a pa Hwa)), Hsub by done. cbn [negb].
    unfold arena_pages in Hi. by rewrite (proj2 (Z.ltb_lt _ _)), Hget by lia.
  - left. assert (∀ a, a ∈ arenas s → ¬ arena_base a ≤ pa < arena_base a + arena_size a) as Hn.
    { intros a Ha Hpa. apply Hno, Exists_exists. eauto. }
    split; [|done]. by apply paddr_to_page_in_none.
Qed.

Lemma paddr_to_page_in_inj s fl pa pa' :
  pages_inv s fl → (PAGE_SIZE | pa) → (PAGE_SIZE | pa') →
  paddr_to_page_in (arenas s) pa = paddr_to_page_in (arenas s) pa' →
  paddr_to_page_in (arenas s) pa ≠ null → pa = pa'.
Proof.
  intros Hinv Hp Hp' E Hnn.
  destruct (paddr_to_page_in_cases s fl pa Hinv) as [[? _]|(a & pg & _ & _ & _ & _ & Hpg & Hpa & _)]; [done|].
  destruct (paddr_to_page_in_cases s fl pa' Hinv) as [[? _]|(a' & pg' & _ & _ & _ & _ & Hpg' & Hpa' & _)];
    [congruence|].
  rewrite E in Hpg. simplify_eq.
  rewrite (proj2 (Z.mod_divide pa PAGE_SIZE ltac:(done)) Hp) in Hpa.
  rewrite (proj2 (Z.mod_divide pa' PAGE_SIZE ltac:(done)) Hp') in Hpa'. lia.
Qed.

(** ** Given pages *)

Fixpoint pages_of (ar : list PmmArena) (addr : Z) (n : nat) : list Z :=
  match n with
  | O => []
  | S n => paddr_to_page_in ar addr :: pages_of ar (addr + PAGE_SIZE) n
  end.

Lemma pages_of_app ar addr i j :
  pages_of ar addr (i + j) = pages_of ar addr i ++ pages_of ar (addr + Z.of_nat i * PAGE_SIZE) j.
Proof.
  revert addr. induction i as [|i IH]; intros addr; cbn [pages_of Nat.add app].
  { f_equal. lia. }
  rewrite IH. do 3 f_equal. lia.
Qed.

Lemma pages_of_elem ar addr n p :
  p ∈ pages_of ar addr n → ∃ k, (k < n)%nat ∧ p = paddr_to_page_in ar (addr + Z.of_nat k * PAGE_SIZE).
Proof.
  revert addr. induction n as [|n IH]; intros addr; cbn [pages_of]; [by intros ?%not_elem_of_nil|].
  intros [->|Hp]%elem_of_cons.
  - exists 0%nat. split; [lia|]. f_equal. lia.
  - destruct (IH _ Hp) as (k & Hk & ->). exists (S k). split; [lia|]. f_equal. lia.
Qed.

(** The pages of different frames are different. *)
Lemma pages_of_fresh s fl addr n :
  pages_inv s fl → (PAGE_SIZE | addr) → paddr_to_page_in (arenas s) addr ≠ null →
  paddr_to_page_in (arenas s) addr ∉ pages_of (arenas s) (addr + PAGE_SIZE) n.
Proof.
  intros Hinv Ha Hnn (k & _ & Hk)%pages_of_elem.
  apply (paddr_to_page_in_inj s fl) in Hk; [| done|done| |done].
  - rewrite PAGE_SIZE_val in *. lia.
  - rewrite PAGE_SIZE_val in *. destruct Ha as [c ->]. exists (c + 1 + Z.of_nat k). lia.
Qed.

Lemma pages_inv_nonnull s fl p : pages_inv s fl → p ∈ fl → p ≠ null.
Proof. intros ((_ & H0 & _) & _) Hp ->. set_solver. Qed.

Lemma next_frame a addr :
  arena_wf a → (PAGE_SIZE | addr) → arena_base a ≤ addr < arena_base a + arena_size a →
  uadd addr PAGE_SIZE = addr + PAGE_SIZE.
Proof.
  intros (? & [kb Hb] & [ks Hs] & ? & ? & _) [ka ->] Hin. apply uadd_small. unfold is_usize.
  rewrite PAGE_SIZE_val in *. lia.
Qed.

(** One round of the inner loop on an address of the arena: the page is not
    available, or it moves to the caller's list. *)
Lemma area_round dst area addr s fl lst :
  owned dst s fl lst → area ∈ arenas s → arena_base area ≤ addr < arena_base area + arena_size area →
  let p := paddr_to_page_in (arenas s) addr in
  find_specific area addr = Ret p ∧ p ≠ null ∧
  ∃ pg, vpages (mem s) !! p = Some pg ∧
    (((is_free pg = false ∨ is_loaned pg = true) ∧ p ∉ fl) ∨
     (is_free pg = true ∧ is_loaned pg = false ∧
      ∃ fl1 fl2 s1 s2 m', fl = fl1 ++ p :: fl2 ∧
        on_plist (Linked_delete_from_list p) s = Ret ((), s1) ∧
        alloc_page_helper_locked p s1 = Ret ((), s2) ∧
        let s3 := with_mem m' s in
        on_plist (List_add_tail dst p) s2 = Ret ((), s3) ∧ owned dst s3 (fl1 ++ fl2) (lst ++ [p]) ∧
        frame (lists (mem s)) (lists m') ((free_list :: fl) ++ dst :: lst))).
Proof.
  intros Ho Harea Hpa p. pose proof Ho as (Hinv & Hdl & Hdis). pose proof Hinv as (Hd & Hfl & Hw & Hs & _).
  destruct (paddr_to_page_in_cases s fl addr Hinv) as [[_ Hno]|(a & pg & Ha & Hpa' & Hcase)].
  { destruct (Hno area); done. }
  assert (a = area) as -> by (by apply (sorted_disjoint (arenas s) a area addr)).
  cbv zeta in Hcase. fold p in Hcase. destruct Hcase as (Hfind & Hnn & Hpg & _ & Hin).
  split_and!; [done..|]. exists pg. split; [done|].
  assert (p ∈ fl → is_free pg = true ∧ is_loaned pg = false) as Hst.
  { intros Hp. destruct (Hfl p Hp) as (pg' & ? & ? & ?). by simplify_eq. }
  destruct (is_free pg) eqn:Efree; [|left; naive_solver].
  destruct (is_loaned pg) eqn:Eln; [left; naive_solver|]. right. split_and!; [done..|].
  specialize (Hin eq_refl). apply list_elem_of_split in Hin as (fl1 & fl2 & ->).
  destruct (delete_from_list_spec _ _ _ _ _ Hd) as (m1 & Hrun & Hd1 & Hn1 & Hf1).
  assert (Linked_delete_from_list p (lists (mem s)) = Ret ((), m1)) as Hrun'.
  { unfold Linked_delete_from_list. by rewrite vm_page_into_node. }
  destruct (transfer dst s fl1 p fl2 lst m1 Ho Hd1 Hn1 Hf1) as (s2 & m' & Hr1 & Hr2 & Ho' & Hf').
  eexists fl1, fl2, _, s2, _. split; [done|]. split; [|split; [exact Hr1|split; [exact Hr2|split; [exact Ho'|]]]].
  2:{ apply (frame_weaken _ _ _ _ Hf'). set_solver. }
  apply (on_plist_run _ s _ _ Hrun').
Qed.

(** What [n] rounds from [addr] on lead to: [j] pages moved, and a reason to
    stop. *)
Definition range_result (dst : Z) (stop : Z → Prop) (n : nat) (addr : Z) (s : PmmNode) (fl lst : list Z)
    (j : nat) (s' : PmmNode) : Prop :=
  (j ≤ n)%nat ∧ arenas s' = arenas s ∧ free_count s' = free_count s ∧
  frame (lists (mem s)) (lists (mem s')) ((free_list :: fl) ++ dst :: lst) ∧
  (∃ fl', owned dst s' fl' (lst ++ pages_of (arenas s) addr j) ∧ fl ≡ₚ pages_of (arenas s) addr j ++ fl') ∧
  ((j < n)%nat → stop (addr + Z.of_nat j * PAGE_SIZE) →
     paddr_to_page_in (arenas s) (addr + Z.of_nat j * PAGE_SIZE) ∉ fl).

Lemma range_result_0 dst stop n addr s fl lst :
  owned dst s fl lst → (stop addr → paddr_to_page_in (arenas s) addr ∉ fl) ∨ n = 0%nat →
  range_result dst stop n addr s fl lst 0 s.
Proof.
  intros Ho Hstop. unfold range_result. rewrite Z.add_0_r, app_nil_r. split_and!; [lia|done|done|by intros q _|by exists fl|].
  intros ?. destruct Hstop; [done|lia].
Qed.

(** Composition of runs. *)
Lemma range_result_app dst stop stop' n i j addr s fl lst s1 fl1 s' :
  pages_inv s fl → (PAGE_SIZE | addr) → (i ≤ n)%nat → arenas s1 = arenas s → free_count s1 = free_count s →
  fl ≡ₚ pages_of (arenas s) addr i ++ fl1 →
  frame (lists (mem s)) (lists (mem s1)) ((free_list :: fl) ++ dst :: lst) →
  (paddr_to_page_in (arenas s) (addr + Z.of_nat i * PAGE_SIZE) ∈ fl → ∀ a, stop' a → stop a) →
  range_result dst stop (n - i) (addr + Z.of_nat i * PAGE_SIZE) s1 fl1
    (lst ++ pages_of (arenas s) addr i) j s' →
  range_result dst stop' n addr s fl lst (i + j) s'.
Proof.
  intros Hinv Hal Hi Ha1 Hc1 Hfl Hf1 Hst (Hj & Ha' & Hc' & Hf2 & (fl' & Ho & Hfl1) & Hlast).
  rewrite Ha1 in *. unfold range_result. rewrite pages_of_app, app_assoc.
  replace (addr + Z.of_nat (i + j) * PAGE_SIZE) with (addr + Z.of_nat i * PAGE_SIZE + Z.of_nat j * PAGE_SIZE) by lia.
  split_and!; [lia|done|congruence| | |].
  - apply (frame_weaken _ _ _ _ (frame_trans _ _ _ _ _ Hf1 Hf2)). intros q. rewrite Hfl. set_solver.
  - exists fl'. split; [done|]. rewrite Hfl, Hfl1. by rewrite app_assoc.
  - intros Hjn Hs Hin.
    assert (paddr_to_page_in (arenas s) (addr + Z.of_nat i * PAGE_SIZE) ∈ fl) as Hfirst.
    { destruct j as [|j]; [by rewrite Z.add_0_r in Hin|]. rewrite Hfl, Hfl1. simpl. set_solver. }
    specialize (Hlast ltac:(lia) (Hst Hfirst _ Hs)). rewrite Hfl, elem_of_app in Hin.
    destruct Hin as [(k & Hk & E)%pages_of_elem|]; [|done].
    apply (paddr_to_page_in_inj s fl) in E; [rewrite PAGE_SIZE_val in *; lia|done| | |].
    + rewrite PAGE_SIZE_val in *. destruct Hal as [c ->]. exists (c + Z.of_nat i + Z.of_nat j). lia.
    + rewrite PAGE_SIZE_val in *. destruct Hal as [c ->]. exists (c + Z.of_nat k). lia.
    + apply (pages_inv_nonnull s fl); [done|]. rewrite Hfl, elem_of_app. left. rewrite E.
      replace i with (k + S (i - S k))%nat by lia. rewrite pages_of_app, elem_of_app. right. simpl. set_solver.
Qed.

(** The inner loop takes the pages from [address] on while they are in the
    arena and free. *)
Lemma alloc_range_area_spec dst area n addr s fl lst :
  owned dst s fl lst → area ∈ arenas s → (PAGE_SIZE | addr) →
  ∃ j s', alloc_range_area area dst n addr s = Ret ((n - j)%nat, addr + Z.of_nat j * PAGE_SIZE, s') ∧
    range_result dst (λ a, address_in_arena area a = true) n addr s fl lst j s'.
Proof.
  revert addr s fl lst. induction n as [|n IH]; intros addr s fl lst Ho Harea Hal.
  { exists 0%nat, s. rewrite Z.add_0_r. split; [done|]. apply range_result_0; [done|by right]. }
  pose proof Ho as (Hinv & _). cbn [alloc_range_area].
  destruct (address_in_arena area addr) eqn:Ein.
  2:{ exists 0%nat, s. rewrite Z.add_0_r. split; [done|]. apply range_result_0; [done|]. rewrite Ein. by left. }
  assert (arena_wf area) as Hwf by (destruct Hinv as (_ & _ & Hw & _); rewrite Forall_forall in Hw; auto).
  pose proof (proj1 (address_in_arena_spec area addr Hwf) Ein) as Hin.
  destruct (area_round dst area addr s fl lst Ho Harea Hin) as (Hfind & Hnn & pg & Hpg & Hcase).
  set (p := paddr_to_page_in (arenas s) addr) in *. rewrite Hfind.
  rewrite (M_bind_run _ _ _ _ _ (on_pages_at s p pg Hpg)).
  destruct Hcase as [[Hst Hno]|(Hfr & Hln & fl1 & fl2 & s1 & s2 & m' & Efl & Hr0 & Hr1 & Hr2 & Ho' & Hf')].
  { exists 0%nat, s. rewrite Z.add_0_r. split; [|by apply range_result_0; [done|left]].
    destruct (is_free pg); [|done]. destruct (is_loaned pg); [done|]. by destruct Hst. }
  rewrite Hfr, Hln. cbn [negb].
  rewrite (M_bind_run _ _ _ _ _ Hr0), (M_bind_run _ _ _ _ _ Hr1), (M_bind_run _ _ _ _ _ Hr2).
  rewrite (next_frame area) by done.
  destruct (IH (addr + PAGE_SIZE) (with_mem m' s) (fl1 ++ fl2) (lst ++ [p])) as (j & s' & Hr & Hres); [done|done| |].
  { destruct Hal as [k ->]. exists (k + 1). lia. }
  exists (1 + j)%nat, s'. split; [rewrite Hr; do 3 f_equal; lia|].
  apply (range_result_app dst (λ a, address_in_arena area a = true) _ (S n) 1 j addr s fl lst
           (with_mem m' s) (fl1 ++ fl2)); try done; [lia| |].
  - rewrite Efl. simpl. by rewrite Permutation_middle.
  - simpl Nat.sub. rewrite Nat.sub_0_r, Z.mul_1_l. done.
Qed.

Definition arena_end (a : PmmArena) : Z := arena_base a + arena_size a.

(** A free frame after the arenas seen so far that is not in this one is
    after this one, too. *)
Lemma frame_after s fl pre area suf addr addr' :
  pages_inv s fl → arenas s = pre ++ area :: suf → addr ≤ addr' →
  (∀ a, a ∈ pre → arena_end a ≤ addr) → paddr_to_page_in (arenas s) addr' ∈ fl →
  address_in_arena area addr' = false → ∀ a, a ∈ pre ++ [area] → arena_end a ≤ addr'.
Proof.
  intros Hinv Har Hle Hpre Hin Hout a [Ha|Ha]%elem_of_app; [specialize (Hpre a Ha); lia|].
  apply list_elem_of_singleton in Ha as ->. pose proof Hinv as (_ & _ & Hw & Hs & _).
  assert (arena_wf area) as Hwa by (rewrite Forall_forall in Hw; apply Hw; rewrite Har; set_solver).
  destruct (paddr_to_page_in_cases s fl addr' Hinv) as [[Hnull _]|(b & _ & Hb & Hpb & _)].
  { by destruct (pages_inv_nonnull s fl _ Hinv Hin). }
  assert (b ≠ area) as Hne.
  { intros ->. rewrite (proj2 (address_in_arena_spec area addr' Hwa)) in Hout by done. done. }
  rewrite Har in Hb, Hs. apply elem_of_app in Hb as [Hb|[->|Hb]%elem_of_cons]; [|done|].
  - specialize (Hpre b Hb). unfold arena_end in Hpre. lia.
  - clear -Hs Hb Hpb. induction pre as [|x pre IH]; apply StronglySorted_inv in Hs as [Hs Hf]; [|by apply IH].
    rewrite Forall_forall in Hf. specialize (Hf b Hb). unfold arena_below, arena_end in *. lia.
Qed.

Lemma alloc_range_areas_spec dst suf pre n addr s fl lst :
  arenas s = pre ++ suf → owned dst s fl lst → (PAGE_SIZE | addr) →
  ∃ j s', alloc_range_areas suf dst n addr s = Ret ((n - j)%nat, s') ∧
    range_result dst (λ _, ∀ a, a ∈ pre → arena_end a ≤ addr) n addr s fl lst j s'.
Proof.
  revert pre n addr s fl lst.
  induction suf as [|area suf IH]; intros pre n addr s fl lst Har Ho Hal; cbn [alloc_range_areas].
  { exists 0%nat, s. rewrite Nat.sub_0_r. split; [done|]. apply range_result_0; [done|left].
    intros Hpre Hin. pose proof Ho as (Hinv & _).
    destruct (paddr_to_page_in_cases s fl addr Hinv) as [[Hnull _]|(b & _ & Hb & Hpb & _)].
    { by destruct (pages_inv_nonnull s fl _ Hinv Hin). }
    rewrite Har, app_nil_r in Hb. specialize (Hpre b Hb). unfold arena_end in Hpre. lia. }
  destruct (alloc_range_area_spec dst area n addr s fl lst Ho) as (j & s1 & Hr & Hres); [|done|].
  { rewrite Har. set_solver. }
  rewrite (M_bind_run _ _ _ _ _ Hr). cbn [fst snd].
  destruct Hres as (Hj & Ha1 & Hc1 & Hf1 & (fl1 & Ho1 & Hfl) & Hlast).
  case_decide as Hnj.
  { exists j, s1. split; [by rewrite Hnj|].
    unfold range_result. split_and!; [lia|done|done|done|by exists fl1|intros ?; lia]. }
  destruct (IH (pre ++ [area]) (n - j)%nat (addr + Z.of_nat j * PAGE_SIZE) s1 fl1 _
              ltac:(by rewrite Ha1, Har, <-app_assoc) Ho1) as (j2 & s' & Hr2 & Hres2).
  { destruct Hal as [k ->]. exists (k + Z.of_nat j). lia. }
  exists (j + j2)%nat, s'. split; [rewrite Hr2; do 2 f_equal; lia|].
  eapply range_result_app; [apply Ho|done|done|done|done|done|done| |exact Hres2].
  intros Hin x Hpre. cbv beta in *. apply (frame_after s fl pre area suf addr); [apply Ho|done| |done|done|].
  - rewrite PAGE_SIZE_val. lia.
  - apply not_true_iff_false. intros Hia. by apply Hlast; [lia|..].
Qed.
End invariant.

(** ** Arena set-up *)

Lemma ListNode_init_spec m p :
  is_Some (nodes m !! p) →
  ∃ m', ListNode_init p m = Ret ((), m') ∧ nodes m' !! p = Some ListNode_new ∧ frame m m' [p].
Proof.
  intros [n Hn]. assert (is_Some (nx m p)) as Hp by (unfold nx; rewrite Hn; by eexists).
  unfold ListNode_init.
  rewrite (M_bind_run _ _ _ _ _ (set_next_run p null m Hp)).
  rewrite set_prev_run by (by apply is_Some_set_next).
  eexists. split_and!; [done| |].
  - simpl. by rewrite !lookup_alter_eq, Hn.
  - intros q Hq. simpl. rewrite !lookup_alter_ne by set_solver. done.
Qed.

Section arena_init.
Context (dst : Z) (arr : PageArray) (abase a0 a1 pc : Z).
Hypothesis Hstart : 0 < start arr.
Hypothesis Hend : start arr + len arr < 2 ^ 64.
Hypothesis Hobj : obj_size arr = VM_PAGE_T_SIZE.
Hypothesis Hlen : pc * VM_PAGE_T_SIZE ≤ len arr.
Hypothesis Hbase : 0 ≤ abase ∧ abase + pc * PAGE_SIZE < 2 ^ 64.

Definition slot (i : Z) : Z := start arr + i * VM_PAGE_T_SIZE.
Definition in_array (i : Z) : Prop := a0 ≤ i < a1.
Definition init_pg (i : Z) (pg : vm_page) : Prop :=
  paddr pg = abase + i * PAGE_SIZE ∧ loaned_state pg = 0 ∧
  state pg = if decide (in_array i) then WIRED else FREE.

Lemma get_page_in i : 0 ≤ i < pc → get_page arr i = slot i ∧ (slot i =? null) = false.
Proof.
  intros Hi. unfold get_page, slot. rewrite Hobj. rewrite VM_PAGE_T_SIZE_val in *. unwrap.
  destruct (Z.leb_spec (start arr + len arr) (i * 56 + start arr)); [lia|].
  split; [lia|]. apply Z.eqb_neq. unfold null. lia.
Qed.

Lemma slot_inj : Inj (=) (=) slot.
Proof. intros i j. unfold slot. rewrite VM_PAGE_T_SIZE_val. lia. Qed.

(** What one or more rounds on the pages [idx] do. *)
Definition init_result (idx : list Z) (s : PmmNode) (lst : list Z) (s' : PmmNode) : Prop :=
  arenas s' = arenas s ∧ free_count s' = free_count s ∧
  arena_cumulative_size s' = arena_cumulative_size s ∧
  dll (lists (mem s')) dst (lst ++ (slot <$> filter (λ i, ¬ in_array i) idx)) ∧
  frame (lists (mem s)) (lists (mem s')) (dst :: lst ++ (slot <$> idx)) ∧
  (∀ q, is_Some (nodes (lists (mem s)) !! q) → is_Some (nodes (lists (mem s')) !! q)) ∧
  (∀ q, q ∉ slot <$> idx → vpages (mem s') !! q = vpages (mem s) !! q) ∧
  (∀ i, i ∈ idx → ∃ pg, vpages (mem s') !! slot i = Some pg ∧ init_pg i pg).

Definition slot_ready (s : PmmNode) (lst : list Z) (i : Z) : Prop :=
  is_Some (vpages (mem s) !! slot i) ∧ is_Some (nodes (lists (mem s)) !! slot i) ∧ slot i ∉ dst :: lst.

Lemma init_page_spec i s lst :
  0 ≤ i < pc → dll (lists (mem s)) dst lst → slot_ready s lst i →
  ∃ m' pg, paddr pg = abase + i * PAGE_SIZE ∧ state pg = FREE ∧ loaned_state pg = 0 ∧
    init_page arr i (uadd abase (umul i PAGE_SIZE)) s =
      Ret (Ok (), with_mem (mkPmem m' (<[slot i := pg]> (vpages (mem s)))) s) ∧
    dll m' dst lst ∧ is_Some (nodes m' !! slot i) ∧ frame (lists (mem s)) m' [slot i].
Proof.
  intros Hi Hd ((pg & Hpg) & Hn & Hnin). destruct (get_page_in i Hi) as [Hget Hnn].
  assert (uadd abase (umul i PAGE_SIZE) = abase + i * PAGE_SIZE) as ->.
  { rewrite PAGE_SIZE_val in *. by unwrap. }
  destruct (ListNode_init_spec _ _ Hn) as (m' & Hrun & Hn' & Hf).
  exists m', (mkPage (abase + i * PAGE_SIZE) (object pg) FREE 0). split_and!; try done.
  - unfold init_page. rewrite Hget, Hnn.
    assert (on_pages (vm_page_init (slot i) (abase + i * PAGE_SIZE)) s =
      Ret ((), with_mem (mkPmem m' (<[slot i := mkPage (abase + i * PAGE_SIZE) (object pg) FREE 0]>
                                      (vpages (mem s)))) s)) as Hv.
    { unfold on_pages, zoom, vm_page_init.
      rewrite (M_bind_run _ _ _ _ _ (on_lists_run _ _ _ _ Hrun)).
      rewrite (update_page_run _ (mkPmem m' (vpages (mem s))) _ pg Hpg). unfold with_mem. simpl. do 4 f_equal.
      apply map_eq. intros q. destruct (decide (q = slot i)) as [->|].
      - by rewrite lookup_alter_eq, lookup_insert_eq, Hpg.
      - by rewrite lookup_alter_ne, lookup_insert_ne by done. }
    by rewrite (M_bind_run _ _ _ _ _ Hv).
  - apply (dll_frame _ _ _ _ _ Hd Hf). set_solver.
Qed.

Lemma init_result_nil s lst : dll (lists (mem s)) dst lst → init_result [] s lst s.
Proof. intros Hd. unfold init_result. simpl. rewrite app_nil_r. split_and!; try done. set_solver. Qed.

Lemma init_result_cons i idx s lst s1 s' :
  i ∉ idx → init_result [i] s lst s1 →
  init_result idx s1 (lst ++ (slot <$> filter (λ i, ¬ in_array i) [i])) s' →
  init_result (i :: idx) s lst s'.
Proof.
  intros Hi (Ha1 & Hc1 & Hs1 & Hd1 & Hf1 & Hn1 & Hv1 & Hp1) (Ha & Hc & Hs & Hd & Hf & Hn & Hv & Hp).
  unfold init_result. split_and!; try congruence.
  - rewrite <-app_assoc, <-fmap_app, <-filter_app in Hd. done.
  - eapply frame_weaken; [apply (frame_trans _ _ _ _ _ Hf1 Hf)|].
    rewrite filter_cons. intros q. case_decide; simpl; set_solver.
  - auto.
  - intros q Hq. rewrite Hv, Hv1; set_solver.
  - intros j [->|Hj]%elem_of_cons; [|by apply Hp].
    rewrite Hv; [apply Hp1; set_solver|]. intros (j & E & Hj)%list_elem_of_fmap.
    apply slot_inj in E as ->. done.
Qed.

(** One round of the loop. *)
Definition init_round (i : Z) : M PmmNode (Result unit) :=
  _ ←? init_page arr i (uadd abase (umul i PAGE_SIZE));
  (if (a0 <=? i) && (i <? a1) then set_page_state arr i WIRED
   else
     let page := get_page arr i in
     if page =? null then mret (Err NoMem)
     else on_plist (List_add_tail dst page);; mret (Ok ())).

Lemma init_round_spec i s lst :
  0 ≤ i < pc → dll (lists (mem s)) dst lst → slot_ready s lst i →
  ∃ s', init_round i s = Ret (Ok (), s') ∧ init_result [i] s lst s'.
Proof.
  intros Hi Hd Hready. destruct (get_page_in i Hi) as [Hget Hnn].
  destruct (init_page_spec i s lst Hi Hd Hready) as (m1 & pg & Hpa & Hst & Hln & Hrun & Hd1 & Hn1 & Hf1).
  unfold init_round. rewrite (bindR_run _ _ _ _ _ Hrun). set (s1 := with_mem _ s).
  assert (vpages (mem s1) !! slot i = Some pg) as Hpg by apply lookup_insert_eq.
  assert (∀ q, is_Some (nodes (lists (mem s)) !! q) → is_Some (nodes m1 !! q)) as Hk1.
  { intros q Hq. destruct (decide (q = slot i)) as [->|]; [done|]. rewrite (proj1 (Hf1 q ltac:(set_solver))). done. }
  assert (Hin : (a0 <=? i) && (i <? a1) = bool_decide (in_array i)).
  { unfold in_array. case_bool_decide; [apply andb_true_intro; rewrite Z.leb_le, Z.ltb_lt; lia|].
    apply andb_false_iff. rewrite Z.leb_gt, Z.ltb_ge. lia. }
  rewrite Hin. unfold init_result. rewrite filter_cons. case_bool_decide as Hia; cbn [filter list_filter fmap list_fmap].
  - unfold set_page_state. rewrite Hget, Hnn. rewrite decide_False by tauto.
    assert (on_pages (set_state (slot i) WIRED) s1 = Ret ((), with_mem (mkPmem m1
      (alter (λ pg, mkPage (paddr pg) (object pg) WIRED (loaned_state pg)) (slot i) (vpages (mem s1)))) s)) as Hs1.
    { unfold on_pages, zoom, set_state. by rewrite (update_page_run _ (mem s1) _ pg Hpg). }
    rewrite (M_bind_run _ _ _ _ _ Hs1).
    eexists. split; [done|]. simpl. rewrite app_nil_r. split_and!; try done.
    + eapply frame_weaken; [done|set_solver].
    + intros q Hq. rewrite lookup_alter_ne, lookup_insert_ne by set_solver. done.
    + intros j ->%list_elem_of_singleton. rewrite lookup_alter_eq, lookup_insert_eq. eexists; split; [done|].
      unfold init_pg. simpl. by rewrite decide_True.
  - rewrite Hget, Hnn. cbv zeta. rewrite decide_True by done. destruct Hready as (_ & _ & Hnin).
    destruct (List_add_tail_spec m1 dst lst (slot i)) as (m2 & Hrun2 & Hd2 & Hf2);
      rewrite ?vm_page_into_node in *; [done|done|by apply Z.eqb_neq|done|].
    rewrite (M_bind_run _ _ _ _ _ (on_plist_run _ s1 _ _ Hrun2)).
    eexists. split; [done|]. split_and!; try done; simpl.
    + eapply frame_weaken; [apply (frame_trans _ _ _ _ _ Hf1 Hf2)|]. set_solver.
    + intros q Hq. apply (frame_is_some _ _ _ _ _ _ Hf2 Hd2); [set_solver|auto].
    + intros q Hq. rewrite lookup_insert_ne by set_solver. done.
    + intros j ->%list_elem_of_singleton. exists pg. split; [done|].
      unfold init_pg. by rewrite decide_False.
Qed.

Lemma arena_init_loop_spec k i s lst :
  0 ≤ i → i + Z.of_nat k ≤ pc → dll (lists (mem s)) dst lst →
  (∀ j, i ≤ j < i + Z.of_nat k → slot_ready s lst j) →
  ∃ s', arena_init_loop arr abase dst a0 a1 k i s = Ret (Ok (), s') ∧
    init_result (seqZ i (Z.of_nat k)) s lst s'.
Proof.
  revert i s lst. induction k as [|k IH]; intros i s lst Hi Hk Hd Hready.
  { exists s. split; [done|]. by apply init_result_nil. }
  destruct (init_round_spec i s lst) as (s1 & Hrun & Hres); [lia|done|apply Hready; lia|].
  pose proof Hres as (Ha1 & Hc1 & Hs1 & Hd1 & Hf1 & Hn1 & Hv1 & Hp1).
  destruct (IH (i + 1) s1 _ ltac:(lia) ltac:(lia) Hd1) as (s' & Hrun' & Hres').
  { intros j Hj. destruct (Hready j ltac:(lia)) as (? & ? & ?).
    assert (slot j ≠ slot i) as Hne by (intros ?%slot_inj; lia).
    split_and!; [rewrite Hv1 by set_solver; done|auto|].
    rewrite filter_cons. case_decide; simpl; set_solver. }
  exists s'. split.
  - cbn [arena_init_loop]. unfold init_round, bindR in Hrun |- *.
    apply M_bind_inv in Hrun as (r & s0 & Hr0 & Hrun). rewrite (M_bind_run _ _ _ _ _ Hr0).
    destruct r; [|done]. rewrite (M_bind_run _ _ _ _ _ Hrun). exact Hrun'.
  - rewrite Nat2Z.inj_succ, seqZ_cons by lia.
    replace (Z.pred (Z.succ (Z.of_nat k))) with (Z.of_nat k) by lia.
    apply (init_result_cons i _ s lst s1); [|done|done].
    rewrite elem_of_seqZ. lia.
Qed.
End arena_init.

Lemma arena_insert_elem a x l : a ∈ arena_insert x l ↔ a = x ∨ a ∈ l.
Proof.
  induction l as [|b l IH]; simpl; [set_solver|].
  destruct (arena_base x <? arena_base b); rewrite ?elem_of_cons, ?IH; tauto.
Qed.

Lemma arena_insert_wf x l :
  Forall arena_wf l → StronglySorted arena_below l → arena_wf x →
  (∀ a, a ∈ l → arena_below a x ∨ arena_below x a) →
  Forall arena_wf (arena_insert x l) ∧ StronglySorted arena_below (arena_insert x l).
Proof.
  intros Hwf Hs Hx Hdis. split.
  { rewrite Forall_forall in *. intros a [->|]%arena_insert_elem; auto. }
  assert (0 < arena_size x) as Hsx by apply Hx.
  induction Hs as [|b l Hs IH Hb]; simpl; [by repeat constructor|].
  apply Forall_cons in Hwf as [Hwb Hwf]. assert (0 < arena_size b) as Hsb by apply Hwb.
  destruct (Hdis b ltac:(set_solver)) as [Hd|Hd]; unfold arena_below in Hd.
  - rewrite (proj2 (Z.ltb_ge _ _)) by lia. constructor; [apply IH; [done|set_solver]|].
    rewrite Forall_forall in *. intros a [->|]%arena_insert_elem; [done|auto].
  - rewrite (proj2 (Z.ltb_lt _ _)) by lia. constructor; [by constructor|].
    constructor; [done|]. rewrite Forall_forall in *. intros a Ha. specialize (Hb a Ha).
    specialize (Hwf a Ha). unfold arena_below in *. lia.
Qed.

(** A description of a RAM region in the physmap. *)
Definition info_ok (i : ArenaInfo) : Prop :=
  0 ≤ base i ∧ (PAGE_SIZE | base i) ∧ (PAGE_SIZE | size i) ∧ PAGE_SIZE < size i ∧
  base i + size i ≤ PHYSMAP_SIZE.

Definition array_size (i : ArenaInfo) : Z := ROUNDUP_PAGE_SIZE (umul (size i / PAGE_SIZE) VM_PAGE_T_SIZE).

Lemma array_size_spec i : info_ok i →
  let pc := size i / PAGE_SIZE in
  size i = pc * PAGE_SIZE ∧ 2 ≤ pc ∧ (PAGE_SIZE | array_size i) ∧
  pc * VM_PAGE_T_SIZE ≤ array_size i < size i.
Proof.
  intros (? & ? & [k Hk] & ? & ?) pc. change PHYSMAP_SIZE with (2 ^ 39) in *.
  subst pc. unfold array_size, ROUNDUP_PAGE_SIZE. rewrite Hk, Z.div_mul by done.
  rewrite PAGE_SIZE_val, VM_PAGE_T_SIZE_val in *. unwrap.
  destruct (ROUNDUP_bounds (k * 56) 12) as [Hd Hb]; [lia..|]. change (2 ^ 12) with 4096 in *.
  split_and!; try done; lia.
Qed.

(** The arena that [init] builds around a page array at [pa]. *)
Definition arena_at (i : ArenaInfo) (pa : Z) : PmmArena :=
  mkArena i (mkArray (paddr_to_physmap pa) (array_size i) VM_PAGE_T_SIZE).

Lemma arena_at_wf i pa :
  info_ok i → base i ≤ pa → pa + array_size i ≤ base i + size i → arena_wf (arena_at i pa).
Proof.
  intros Hi Hlo Hhi. destruct (array_size_spec i Hi) as (Hs & Hpc & _ & Hb).
  destruct Hi as (? & ? & ? & ? & Hmap). change PHYSMAP_SIZE with (2 ^ 39) in Hmap.
  rewrite VM_PAGE_T_SIZE_val in *.
  assert (paddr_to_physmap pa = pa + PHYSMAP_BASE) as Hp.
  { unfold paddr_to_physmap, PHYSMAP_BASE_PHYS, PHYSMAP_BASE, KERNEL_ASPACE_BASE, _CONFIG_KERNEL_ASPACE_BASE.
    rewrite (usub_small pa 0), Z.sub_0_r by (unfold is_usize; lia). apply uadd_small. unfold is_usize. lia. }
  unfold arena_wf, arena_pages, arena_at, arena_base, arena_size. simpl. rewrite Hp.
  unfold PHYSMAP_BASE, KERNEL_ASPACE_BASE, _CONFIG_KERNEL_ASPACE_BASE.
  rewrite VM_PAGE_T_SIZE_val, PAGE_SIZE_val in *. split_and!; try done; lia.
Qed.

Section add_arena.
Context (free_list dst : Z).

(** The free pages of a new arena: those outside its page array. *)
Definition new_free (i : ArenaInfo) (pa : Z) : list Z :=
  let first := (pa - base i) / PAGE_SIZE in
  arena_slot (arena_at i pa) <$>
    filter (λ j, ¬ in_array first (first + array_size i / PAGE_SIZE) j) (seqZ 0 (size i / PAGE_SIZE)).

(** The memory a new page array is built in: none of its slots is in use. *)
Definition array_ready (s : PmmNode) (fl : list Z) (i : ArenaInfo) (pa : Z) : Prop :=
  ∀ j, 0 ≤ j < size i / PAGE_SIZE →
    let p := arena_slot (arena_at i pa) j in
    is_Some (vpages (mem s) !! p) ∧ is_Some (nodes (lists (mem s)) !! p) ∧
    p ∉ dst :: free_list :: fl ∧
    (∀ a k, a ∈ arenas s → 0 ≤ k < arena_pages a → p ≠ arena_slot a k).

Lemma local_list_spec s fl :
  pages_inv free_list s fl → dst ≠ null → dst ∉ free_list :: fl →
  ∃ m, let s1 := with_mem (mkPmem m (vpages (mem s))) s in
    (on_plist (List_new dst);; on_plist (List_init dst)) s = Ret ((), s1) ∧
    pages_inv free_list s1 fl ∧ dll m dst [] ∧
    (∀ q, is_Some (nodes (lists (mem s)) !! q) → is_Some (nodes m !! q)) ∧ frame (lists (mem s)) m [dst].
Proof.
  intros Hinv H0 Hnin.
  set (m0 := mkMem (<[dst := ListNode_new]> (nodes (lists (mem s)))) (<[dst := null]> (refs (lists (mem s))))).
  assert (is_Some (nodes m0 !! dst)) as Hn0 by (simpl; rewrite lookup_insert_eq; by eexists).
  assert (is_Some (refs m0 !! dst)) as Hr0 by (simpl; rewrite lookup_insert_eq; by eexists).
  destruct (List_init_spec m0 dst H0 Hn0 Hr0) as (m & Hrun & Hd & Hf).
  assert (frame (lists (mem s)) m0 [dst]) as Hf0.
  { intros q Hq. simpl. rewrite !lookup_insert_ne by set_solver. done. }
  assert (∀ q, is_Some (nodes (lists (mem s)) !! q) → is_Some (nodes m !! q)) as Hk.
  { intros q Hq. apply (frame_is_some _ _ _ _ _ _ (frame_trans _ _ _ _ _ Hf0 Hf) Hd); [set_solver|done]. }
  exists m. split_and!; [|apply (pages_inv_lists _ s fl m _ Hinv (frame_trans _ _ _ _ _ Hf0 Hf)); [set_solver|done]|done|done|].
  2:{ apply (frame_weaken _ _ _ _ (frame_trans _ _ _ _ _ Hf0 Hf)). set_solver. }
  erewrite (M_bind_run _ _ s) by (by apply (on_plist_run (List_new dst) s () m0)).
  by rewrite (on_plist_run _ (with_mem (mkPmem m0 (vpages (mem s))) s) _ _ Hrun).
Qed.

(** The pages and lists after [init] and the insertion of the arena. *)
Lemma new_arena_inv s fl i pa s1 m2 s3 :
  pages_inv free_list s fl → info_ok i → base i ≤ pa → pa + array_size i ≤ base i + size i →
  array_ready s fl i pa → arenas s1 = arenas s →
  (∀ a, a ∈ arenas s → arena_below a (arena_at i pa) ∨ arena_below (arena_at i pa) a) →
  (∀ q, is_Some (nodes (lists (mem s)) !! q) → is_Some (nodes m2 !! q)) →
  (∀ q, q ∉ arena_slot (arena_at i pa) <$> seqZ 0 (size i / PAGE_SIZE) →
     vpages (mem s1) !! q = vpages (mem s) !! q) →
  (∀ j, j ∈ seqZ 0 (size i / PAGE_SIZE) → ∃ pg, vpages (mem s1) !! arena_slot (arena_at i pa) j = Some pg ∧
     init_pg (base i) ((pa - base i) / PAGE_SIZE)
       ((pa - base i) / PAGE_SIZE + array_size i / PAGE_SIZE) j pg) →
  dll m2 free_list (fl ++ new_free i pa) →
  mem s3 = mkPmem m2 (vpages (mem s1)) → arenas s3 = arena_insert (arena_at i pa) (arenas s1) →
  pages_inv free_list s3 (fl ++ new_free i pa).
Proof.
  intros Hinv Hi Hlo Hhi Hready Ha1 Hdis Hk Hv Hp Hd Hm3 Ha3.
  pose proof Hinv as (_ & Hfl & Hwf & Hs & Har). unfold pages_inv. rewrite Hm3, Ha3, Ha1. simpl.
  destruct (arena_insert_wf (arena_at i pa) (arenas s)) as [Hwf' Hs']; [done|done|by apply arena_at_wf|done|].
  assert (∀ q, (∀ j, 0 ≤ j < size i / PAGE_SIZE → q ≠ arena_slot (arena_at i pa) j) →
    vpages (mem s1) !! q = vpages (mem s) !! q) as Hv'.
  { intros q Hq. apply Hv. intros (j & -> & Hj)%list_elem_of_fmap. apply elem_of_seqZ in Hj. by apply (Hq j); [lia|]. }
  split_and!; [done| |done|done|].
  - intros q [Hq|Hq]%elem_of_app.
    + rewrite Hv'; [by apply Hfl|]. intros j Hj ->. destruct (Hready j Hj) as (_ & _ & Hn & _). set_solver.
    + apply list_elem_of_fmap in Hq as (j & -> & Hj). apply list_elem_of_filter in Hj as [Hna Hj].
      destruct (Hp j Hj) as (pg & Hpg & _ & Hln & Hst). exists pg. rewrite decide_False in Hst by done.
      unfold is_free, is_loaned. rewrite Hst, Hln. done.
  - intros a j [->|Ha]%arena_insert_elem Hj.
    + destruct (Hp j) as (pg & Hpg & Hpa & Hln & Hst); [apply elem_of_seqZ; unfold arena_pages, arena_size in Hj; simpl in Hj; lia|].
      destruct (Hready j Hj) as (_ & Hn & _). exists pg. split_and!; auto.
      unfold is_free. rewrite Hst. intros Hf. apply elem_of_app. right.
      apply list_elem_of_fmap. exists j. split; [done|]. apply list_elem_of_filter.
      split; [|apply elem_of_seqZ; unfold arena_pages, arena_size in Hj; simpl in Hj; lia].
      intros Hin. rewrite decide_True in Hf by done. done.
    + destruct (Har a j Ha Hj) as (pg & Hpg & Hpa & Hn & Hin). exists pg.
      rewrite Hv'; [split_and!; auto; set_solver|].
      intros k Hk' E. destruct (Hready k Hk') as (_ & _ & _ & Hne). by apply (Hne a j).
Qed.

Lemma filter_out_interval a0 a1 n :
  0 ≤ a0 ≤ a1 → a1 ≤ n → length (filter (λ j, ¬ in_array a0 a1 j) (seqZ 0 n)) = Z.to_nat (n - (a1 - a0)).
Proof.
  intros Ha Hn. replace n with (a0 + ((a1 - a0) + (n - a1))) at 1 by lia.
  rewrite !seqZ_app by lia. rewrite !filter_app, !length_app.
  rewrite (list_filter_keep _ (seqZ 0 a0)) by (intros x; rewrite elem_of_seqZ; unfold in_array; lia).
  rewrite (list_filter_keep _ (seqZ (0 + a0 + (a1 - a0)) _))
    by (intros x; rewrite elem_of_seqZ; unfold in_array; lia).
  assert (filter (λ j, ¬ in_array a0 a1 j) (seqZ (0 + a0) (a1 - a0)) = []) as ->.
  { destruct (filter _ (seqZ (0 + a0) _)) as [|x l] eqn:E; [done|].
    assert (x ∈ x :: l) as [Hx Hi%elem_of_seqZ]%(eq_ind_r (λ k, x ∈ k → _) (λ H, proj1 (list_elem_of_filter _ _ _) H) (eq_sym E)) by set_solver.
    unfold in_array in Hx. lia. }
  rewrite !length_seqZ. simpl. lia.
Qed.

(** Where the page array lies in the arena. *)
Lemma array_index i pa :
  info_ok i → (PAGE_SIZE | pa) → base i ≤ pa → pa + array_size i ≤ base i + size i →
  let a0 := (pa - base i) / PAGE_SIZE in
  let a1 := a0 + array_size i / PAGE_SIZE in
  usub (PAGE_ALIGN pa) (base i) / PAGE_SIZE = a0 ∧ uadd a0 (array_size i / PAGE_SIZE) = a1 ∧
  0 ≤ a0 < a1 ∧ a1 ≤ size i / PAGE_SIZE.
Proof.
  intros Hi [kp Hp] Hlo Hhi a0 a1. destruct (array_size_spec i Hi) as (Hs & Hpc & [ka Hka] & Hb).
  destruct Hi as (? & [kb Hkb] & _ & _ & Hmap). change PHYSMAP_SIZE with (2 ^ 39) in Hmap.
  rewrite VM_PAGE_T_SIZE_val in *.
  assert (PAGE_ALIGN pa = pa) as ->.
  { unfold PAGE_ALIGN, ALIGN. rewrite ROUNDUP_page, Hp, PAGE_SIZE_val in * by lia.
    rewrite Z.div_add_l by lia. change (4095 / 4096) with 0. lia. }
  assert (a0 = kp - kb) as E0.
  { unfold a0. rewrite Hp, Hkb. replace (kp * PAGE_SIZE - kb * PAGE_SIZE) with ((kp - kb) * PAGE_SIZE) by lia.
    by rewrite Z.div_mul. }
  unfold a1. rewrite Hka, Z.div_mul by done. rewrite usub_small by (unfold is_usize; lia). fold a0.
  rewrite E0, PAGE_SIZE_val in *. rewrite uadd_small by (unfold is_usize; lia). lia.
Qed.

(** The loop and [add_free_pages] on memory that is ready for the array. *)
Lemma build_pages s fl i pa :
  pages_inv free_list s fl → info_ok i → base i ≤ pa → pa + array_size i ≤ base i + size i →
  dll (lists (mem s)) dst [] → dst ∉ free_list :: fl → array_ready s fl i pa →
  let pc := size i / PAGE_SIZE in
  let a0 := (pa - base i) / PAGE_SIZE in
  let a1 := a0 + array_size i / PAGE_SIZE in
  ∃ s2 m3, arena_init_loop (page_array (arena_at i pa)) (base i) dst a0 a1 (Z.to_nat pc) 0 s = Ret (Ok (), s2) ∧
    let s3 := mkPmm (mkPmem m3 (vpages (mem s2))) (arenas s) (arena_cumulative_size s)
                (uadd (free_count s) pc) in
    add_free_pages free_list dst pc s2 = Ret ((), s3) ∧
    init_result dst (page_array (arena_at i pa)) (base i) a0 a1 (seqZ 0 pc) s [] s2 ∧
    dll m3 free_list (fl ++ new_free i pa) ∧
    (∀ q, is_Some (nodes (lists (mem s)) !! q) → is_Some (nodes m3 !! q)).
Proof.
  intros Hinv Hi Hlo Hhi Hd1 Hnin Hready pc a0 a1.
  destruct (array_size_spec i Hi) as (Hsz & Hpc & _). fold pc in Hsz, Hpc.
  pose proof (arena_at_wf i pa Hi Hlo Hhi) as (Hb0 & _ & _ & _ & Hbnd & Hobj & Hst & Hend & Hlen).
  unfold arena_pages, arena_size, arena_base in *. simpl in Hb0, Hbnd.
  destruct (arena_init_loop_spec dst (page_array (arena_at i pa)) (base i) a0 a1 pc
              Hst Hend Hobj Hlen ltac:(lia) (Z.to_nat pc) 0 s []) as (s2 & Hrun2 & Hres);
    [lia|lia|done| |].
  { intros j Hj. destruct (Hready j ltac:(lia)) as (? & ? & ? & _). split_and!; [done|done|set_solver]. }
  rewrite Z2Nat.id in Hres by lia.
  pose proof Hres as (Ha2 & Hc2 & Hs2 & Hdn & Hfn & Hk & _). pose proof Hinv as (Hdf & _).
  assert (∀ q j, q ∈ free_list :: fl → j ∈ seqZ 0 pc → q ≠ arena_slot (arena_at i pa) j) as Hsep.
  { intros q j Hq Hj%elem_of_seqZ ->. destruct (Hready j ltac:(lia)) as (_ & _ & Hn & _). set_solver. }
  destruct (List_splice_spec (lists (mem s2)) free_list fl dst (new_free i pa)) as (m3 & Hrun3 & Hd3 & Hd3' & Hf3).
  { apply (dll_frame _ _ _ _ _ Hdf Hfn). intros q Hq [->|Hs]%elem_of_cons; [done|].
    apply list_elem_of_fmap in Hs as (j & -> & Hj). by apply (Hsep _ j Hq Hj). }
  { exact Hdn. }
  { intros q Hq [->|Hs]%elem_of_cons; [done|].
    apply list_elem_of_fmap in Hs as (j & -> & [_ Hj]%list_elem_of_filter). by apply (Hsep _ j Hq Hj). }
  exists s2, m3. split_and!; [done| |done|done|].
  - unfold add_free_pages. erewrite M_bind_run by reflexivity.
    set (s2' := mkPmm _ _ _ _). rewrite (on_plist_run _ s2' _ _ Hrun3).
    unfold with_mem, s2'. simpl. by rewrite Ha2, Hc2, Hs2.
  - intros q Hq%Hk. apply (frame_is_some _ _ _ _ _ _ Hf3 Hd3); [|done].
    intros r Hr. destruct (decide (r = dst)) as [->|]; [right|left; set_solver].
    destruct (dll_in _ _ _ dst Hd3') as (? & ? & Hn & _); [set_solver|].
    unfold nx in Hn. apply fmap_Some in Hn as (? & -> & _). by eexists.
Qed.

(** The same memory holds page descriptors, and what holds a list node
    still does. *)
Definition backed (s s' : PmmNode) : Prop :=
  (∀ q, is_Some (vpages (mem s) !! q) ↔ is_Some (vpages (mem s') !! q)) ∧
  (∀ q, is_Some (nodes (lists (mem s)) !! q) → is_Some (nodes (lists (mem s')) !! q)).

Lemma PmmArena_init_spec res s fl i pa :
  pages_inv free_list s fl → info_ok i →
  boot_reserve_range_search (S (length res)) res (base i) (size i) (array_size i)
    = Ret (Ok (mkRange pa (array_size i))) →
  (PAGE_SIZE | pa) → base i ≤ pa → pa + array_size i ≤ base i + size i →
  dst ≠ null → dst ∉ free_list :: fl → array_ready s fl i pa →
  (∀ a, a ∈ arenas s → arena_below a (arena_at i pa) ∨ arena_below (arena_at i pa) a) →
  ∃ s3, PmmArena_init free_list res dst (PmmArena_new i) s = Ret (Ok (arena_at i pa), s3) ∧
    arenas s3 = arenas s ∧ free_count s3 = uadd (free_count s) (size i / PAGE_SIZE) ∧ backed s s3 ∧
    ∀ s4, mem s4 = mem s3 → arenas s4 = arena_insert (arena_at i pa) (arenas s3) →
      pages_inv free_list s4 (fl ++ new_free i pa).
Proof.
  intros Hinv Hi Hsearch Hal Hlo Hhi H0 Hnin Hready Hdis.
  destruct (array_size_spec i Hi) as (Hsz & Hpc & _ & Hab).
  destruct (array_index i pa Hi Hal Hlo Hhi) as (E0 & E1 & Ha0 & Ha1).
  destruct (local_list_spec s fl Hinv H0 Hnin) as (m1 & Hrun1 & Hinv1 & Hd1 & Hk1 & _).
  apply M_bind_inv in Hrun1 as ([] & s0 & Hnew & Hinit). set (s1 := with_mem _ s) in *.
  assert (array_ready s1 fl i pa) as Hready1.
  { intros j Hj. destruct (Hready j Hj) as (? & ? & ? & ?). split_and!; [done|by apply Hk1|done|done]. }
  destruct (build_pages s1 fl i pa Hinv1 Hi Hlo Hhi Hd1 Hnin Hready1) as (s2 & m3 & Hloop & Hadd & Hres & Hd3 & Hk3).
  eexists. split_and!.
  - unfold PmmArena_init, arena_size, arena_base. cbn [info PmmArena_new page_array].
    fold (array_size i). rewrite (proj2 (Z.leb_gt _ _)) by lia. rewrite Hsearch. cbn [r_pa r_len].
    rewrite Z.ltb_irrefl, orb_false_r. rewrite (proj2 (Z.ltb_ge pa _)) by lia.
    rewrite E0, E1. rewrite (proj2 (Z.leb_gt _ _)), (proj2 (Z.ltb_ge _ _)) by lia. cbn [orb].
    rewrite (M_bind_run _ _ _ _ _ Hnew), (M_bind_run _ _ _ _ _ Hinit).
    rewrite (bindR_run _ _ _ _ _ Hloop), (M_bind_run _ _ _ _ _ Hadd). done.
  - done.
  - done.
  - destruct Hres as (_ & _ & _ & _ & _ & _ & Hv & Hp). split; simpl; [|by intros q Hq%Hk1%Hk3].
    intros q. destruct (decide (q ∈ arena_slot (arena_at i pa) <$> seqZ 0 (size i / PAGE_SIZE))) as [Hin|Hn];
      [|by rewrite Hv]. apply list_elem_of_fmap in Hin as (j & -> & Hj). destruct (Hp j Hj) as (pg & Hpg & _).
    apply elem_of_seqZ in Hj. destruct (Hready j ltac:(lia)) as (? & _). split; [by exists pg|done].
  - intros s4 Hm4 Ha4. destruct Hres as (Ha2 & _ & _ & _ & _ & _ & Hv & Hp).
    apply (new_arena_inv s fl i pa s2 m3 s4); try done; [auto|by rewrite Ha4, Ha2].
Qed.

(** A new arena, its free pages, and what the memory still backs. *)
Lemma add_arena_spec extra res s fl i pa :
  pmm_inv free_list extra s fl → info_ok i →
  boot_reserve_range_search (S (length res)) res (base i) (size i) (array_size i)
    = Ret (Ok (mkRange pa (array_size i))) →
  (PAGE_SIZE | pa) → base i ≤ pa → pa + array_size i ≤ base i + size i →
  dst ≠ null → dst ∉ free_list :: fl → array_ready s fl i pa →
  (∀ a, a ∈ arenas s → arena_below a (arena_at i pa) ∨ arena_below (arena_at i pa) a) →
  ∃ s', add_arena free_list res dst i s = Ret (Ok (), s') ∧
    arenas s' = arena_insert (arena_at i pa) (arenas s) ∧
    pmm_inv free_list (extra + array_size i / PAGE_SIZE) s' (fl ++ new_free i pa) ∧
    Z.of_nat (length (new_free i pa)) = size i / PAGE_SIZE - array_size i / PAGE_SIZE ∧ backed s s'.
Proof.
  intros [Hinv Hc] Hi Hsearch Hal Hlo Hhi H0 Hnin Hready Hdis.
  destruct (PmmArena_init_spec res s fl i pa) as (s3 & Hrun & Ha3 & Hc3 & Hbk & Hinv4); try done.
  destruct (array_index i pa Hi Hal Hlo Hhi) as (_ & _ & Ha0 & Ha1).
  assert (Z.of_nat (length (new_free i pa)) = size i / PAGE_SIZE - array_size i / PAGE_SIZE) as Hlen.
  { unfold new_free. rewrite length_fmap, filter_out_interval by lia. lia. }
  eexists. split_and!; [| |split|done|].
  - unfold add_arena. destruct Hi as (? & Hb & Hs & ? & ?).
    rewrite (proj2 (IS_PAGE_ALIGNED_spec (base i))) by (by apply Z.mod_divide).
    rewrite (proj2 (IS_PAGE_ALIGNED_spec (size i))) by (by apply Z.mod_divide).
    rewrite (proj2 (Z.eqb_neq (size i) 0)) by (rewrite PAGE_SIZE_val in *; lia). cbn [negb orb].
    rewrite (M_bind_run _ _ _ _ _ Hrun). by erewrite M_bind_run by reflexivity.
  - simpl. by rewrite Ha3.
  - by apply Hinv4.
  - simpl. rewrite Hc3, Hc, length_app. unfold uadd, usize_wrap. rewrite Z.add_mod_idemp_l by lia.
    f_equal. lia.
  - exact Hbk.
Qed.
End add_arena.

(** ** Properties *)

Section properties.
Context (free_list : Z).


(** While the free list is not empty, [alloc_page] returns its head page,
    now ALLOC and on no list, leaves every other page alone and keeps the
    invariant; on an empty list it reads through the null pointer that
    [pop_head] returns. *)
Theorem alloc_page_takes_head extra s fl flags :
  pmm_inv free_list extra s fl → vpages (mem s) !! null = None →
  match fl with
  | p :: fl' =>
      ∃ s' pg, alloc_page free_list flags s = Ret (p, s') ∧ pmm_inv free_list extra s' fl' ∧
        vpages (mem s') !! p = Some pg ∧ state pg = ALLOC ∧
        nodes (lists (mem s')) !! p = Some ListNode_new ∧
        (∀ q, q ≠ p → vpages (mem s') !! q = vpages (mem s) !! q)
  | [] => alloc_page free_list flags s = Fault
  end.
Proof.
  intros [Hinv Hc] Hnull. destruct fl as [|p fl].
  - destruct Hinv as (Hd & _). unfold alloc_page.
    rewrite (M_bind_run _ _ _ _ _ (on_plist_run _ s _ _ (List_pop_head_nil _ _ Hd))).
    unfold on_pages, zoom, page_at, mbind, M_bind, deref. simpl. by rewrite Hnull.
  - destruct (alloc_page_spec free_list s flags p fl Hinv) as (m' & Hrun & Hinv' & Hn & _).
    pose proof Hinv as (_ & Hfl & _). destruct (Hfl p) as (pg & Hpg & _); [set_solver|].
    eexists _, (to_alloc pg). split_and!; [done|split; [done|]|..]; simpl; try done.
    + rewrite Hc, wrap_count. f_equal. simpl. lia.
    + by rewrite lookup_alter_eq, Hpg.
    + intros q Hq. by apply lookup_alter_ne.
Qed.

(** C19: [alloc_pages] of two or more pages moves the first [count] pages of the
    free list, in order and marked ALLOC, to the end of the caller's list and
    keeps the invariant of the rest; when there are fewer it returns [NoMem],
    but only after moving all of them to the caller's list. *)
Theorem alloc_pages_exact dst extra s fl lst count flags :
  pmm_inv free_list extra s fl → dll (lists (mem s)) dst lst → dst :: lst ## free_list :: fl →
  2 ≤ count →
  ∃ s', alloc_pages free_list count flags dst s =
          Ret (if decide (count ≤ Z.of_nat (length fl)) then Ok () else Err NoMem, s') ∧
    let taken := take (Z.to_nat count) fl in
    pmm_inv free_list extra s' (drop (Z.to_nat count) fl) ∧
    dll (lists (mem s')) dst (lst ++ taken) ∧
    (∀ q, q ∉ taken → vpages (mem s') !! q = vpages (mem s) !! q) ∧
    (∀ q, q ∈ taken → ∃ pg, vpages (mem s') !! q = Some pg ∧ state pg = ALLOC).
Proof.
  intros [Hinv Hc] Hd Hdis Hcount.
  destruct (alloc_pages_loop_spec free_list dst (Z.to_nat count) s fl lst) as (s' & Hrun & (Hi' & Hd' & _) & _ & Hc' & Hv & Hal & _).
  { by split_and!. }
  exists s'. cbv zeta. split; [|split; [split; [done|by apply Hc']|split_and!; [done|done|]]].
  - unfold alloc_pages. pose proof Hd as (Hr & H0 & _).
    erewrite (M_bind_run _ _ s).
    2:{ apply on_plist_run. unfold List_is_initialized.
        erewrite M_bind_run by (by apply (deref_run (λ m, refs m !! dst))). reflexivity. }
    rewrite (proj2 (Z.eqb_neq dst null)) by set_solver. erewrite M_bind_run by reflexivity.
    rewrite (proj2 (Z.eqb_neq count 0)), (proj2 (Z.eqb_neq count 1)) by lia.
    rewrite with_mem_id, Hrun. do 2 f_equal. repeat case_decide; done || lia.
  - intros q Hq. destruct (Hal q Hq) as (pg & _ & Hpg). by exists (to_alloc pg).
Qed.

Lemma alloc_range_spec dst extra s fl address count :
  pmm_inv free_list extra s fl → dll (lists (mem s)) dst [] → dst ∉ free_list :: fl →
  is_usize address → 0 < count →
  let ps := pages_of (arenas s) (ROUNDDOWN address PAGE_SIZE) (Z.to_nat count) in
  (ps ⊆ fl →
     ∃ s' fl', alloc_range address count dst s = Ret (Ok (), s') ∧
       pmm_inv free_list extra s' fl' ∧ dll (lists (mem s')) dst ps ∧ fl ≡ₚ ps ++ fl' ∧ arenas s' = arenas s ∧
       frame (lists (mem s)) (lists (mem s')) (free_list :: fl ++ [dst])) ∧
  (¬ ps ⊆ fl → alloc_range address count dst s = Panic).
Proof.
  intros [Hinv Hc] Hd Hnin Hu Hcount ps.
  assert (PAGE_SIZE | ROUNDDOWN address PAGE_SIZE) as Hal.
  { rewrite PAGE_SIZE_eq, ROUNDDOWN_spec by (done || lia). exists (address / 2 ^ 12).
    pose proof (Z.div_mod address (2 ^ 12) ltac:(lia)). lia. }
  destruct (alloc_range_areas_spec free_list dst (arenas s) [] (Z.to_nat count)
    (ROUNDDOWN address PAGE_SIZE) s fl []) as (j & s' & Hrun & Hj & Har & Hcs & Hf & (fl' & (Hi' & Hd' & _) & Hfl) & Hlast);
    [done|split_and!; [done|done|set_solver]|done|].
  assert (∀ r, (let allocated := count - Z.of_nat (Z.to_nat count - j) in
     add_count (λ c, usub c allocated);;
     if negb (allocated =? count) then free_list_locked dst;; mret (Err NotFound) else mret (Ok ())) s' = r →
     alloc_range address count dst s = r) as Hstart.
  { intros r Hr. unfold alloc_range.
    rewrite (M_bind_run _ _ _ _ _ (on_plist_run _ s _ _ (List_empty_spec _ _ _ Hd))).
    rewrite bool_decide_true by done. erewrite M_bind_run by reflexivity.
    rewrite (proj2 (Z.eqb_neq count 0)), with_mem_id by lia. erewrite M_bind_run by reflexivity.
    by rewrite (M_bind_run _ _ _ _ _ Hrun). }
  split.
  - intros Hsub. assert (j = Z.to_nat count) as ->.
    { destruct (decide (j < Z.to_nat count)%nat) as [Hlt|]; [|lia]. exfalso.
      apply (Hlast Hlt); [set_solver|]. apply Hsub. unfold ps.
      replace (Z.to_nat count) with (j + S (Z.to_nat count - S j))%nat by lia.
      rewrite pages_of_app, elem_of_app. right. simpl. set_solver. }
    rewrite Nat.sub_diag in Hstart. simpl in Hstart. rewrite Z.sub_0_r, Z.eqb_refl in Hstart.
    eexists _, fl'. split_and!; [by apply Hstart|split|done|done|exact Har|exact Hf]; simpl.
    + exact Hi'.
    + rewrite Hcs, Hc. unfold usub, usize_wrap. rewrite Zminus_mod_idemp_l. f_equal.
      rewrite Hfl, length_app. assert (∀ a n, length (pages_of (arenas s) a n) = n) as ->; [|lia].
      intros a n. revert a. induction n; intros; simpl; auto.
  - intros Hno. apply Hstart. assert (j ≠ Z.to_nat count) as Hne.
    { intros ->. apply Hno. unfold ps. intros q Hq. rewrite Hfl. set_solver. }
    cbv zeta. rewrite (proj2 (Z.eqb_neq _ _)) by lia. done.
Qed.

(** C20: [alloc_range] of [count] frames from [address] on succeeds exactly when
    the page of each of these frames is on the free list; it then moves these
    pages, in order, to the caller's list, keeps the invariant and leaves
    every list that shares no element with these two as it is; otherwise it
    reaches the [todo!] of [free_list_locked]. *)
Theorem alloc_range_exact dst extra s fl address count :
  pmm_inv free_list extra s fl → dll (lists (mem s)) dst [] → dst ∉ free_list :: fl →
  is_usize address → 0 < count →
  let ps := pages_of (arenas s) (ROUNDDOWN address PAGE_SIZE) (Z.to_nat count) in
  (ps ⊆ fl →
     ∃ s' fl', alloc_range address count dst s = Ret (Ok (), s') ∧
       pmm_inv free_list extra s' fl' ∧ dll (lists (mem s')) dst ps ∧ fl ≡ₚ ps ++ fl' ∧
       ∀ h l, dll (lists (mem s)) h l → h :: l ## dst :: free_list :: fl → dll (lists (mem s')) h l) ∧
  (¬ ps ⊆ fl → alloc_range address count dst s = Panic).
Proof.
  intros Hinv Hd Hnin Hu Hc ps. destruct (alloc_range_spec dst extra s fl address count) as [H1 H2]; try done.
  split; [|done]. intros Hsub. destruct (H1 Hsub) as (s' & fl' & ? & ? & ? & ? & _ & Hf). exists s', fl'.
  split_and!; try done. intros h l Hl Hdis. apply (dll_frame _ _ _ _ _ Hl Hf). set_solver.
Qed.

(** C33: [paddr_to_page] gives null exactly for the addresses outside all
    arenas, and inside them the page whose recorded physical address is the
    frame of [pa]; so it inverts the [paddr] of every page of an arena. *)
Theorem paddr_to_page_correct s fl pa :
  pages_inv free_list s fl →
  ∃ p, paddr_to_page pa s = Ret (p, s) ∧
    (p = null ↔ ∀ a, a ∈ arenas s → ¬ arena_base a ≤ pa < arena_base a + arena_size a) ∧
    (p ≠ null → ∃ pg, vpages (mem s) !! p = Some pg ∧ paddr pg = pa - pa mod PAGE_SIZE) ∧
    (∀ a i pg, a ∈ arenas s → 0 ≤ i < arena_pages a → vpages (mem s) !! arena_slot a i = Some pg →
       paddr pg = pa → p = arena_slot a i).
Proof.
  intros Hinv. eexists. split; [reflexivity|].
  pose proof Hinv as (_ & _ & Hwf & Hs & Har).
  assert (∀ a i pg, a ∈ arenas s → 0 ≤ i < arena_pages a → vpages (mem s) !! arena_slot a i = Some pg →
       paddr pg = pa → paddr_to_page_in (arenas s) pa = arena_slot a i) as Hround.
  { intros a i pg Ha Hi Hpg Hpa. destruct (Har a i Ha Hi) as (pg' & Hpg' & Hpa' & _). simplify_eq.
    assert (arena_wf a) as (_ & _ & [k Hk] & _) by (by rewrite Forall_forall in Hwf; apply Hwf).
    assert (i < k) by (unfold arena_pages in Hi; rewrite Hk, Z.div_mul in Hi by done; lia).
    rewrite (paddr_to_page_in_arena _ a) by (done || (rewrite Hpa', Hk, PAGE_SIZE_val; lia)).
    rewrite Hpa'. f_equal. replace (arena_base a + i * PAGE_SIZE - arena_base a) with (i * PAGE_SIZE) by lia.
    by apply Z.div_mul. }
  destruct (paddr_to_page_in_cases free_list s fl pa Hinv) as [[Hn Hno]|(a & pg & Ha & Hpa & _ & Hnn & Hpg & Hpad & _)].
  - split_and!; [done|by rewrite Hn|done].
  - split_and!; [|by eauto|done]. split; [done|]. intros Hno. by destruct (Hno a Ha).
Qed.
End properties.

(** ** Witnesses *)

(** A region of four pages at 2 GiB; its page array is the last one. *)
Definition demo_info : ArenaInfo := mkInfo EmptyString 0 0x80000000 0x4000.
Definition demo_array_pa : Z := 0x80003000.
Definition demo_slot : Z → Z := arena_slot (arena_at demo_info demo_array_pa).

Definition demo_pages (st : list Z) : gmap Z vm_page :=
  list_to_map (zip_with (λ i st, (demo_slot i, mkPage (0x80000000 + i * 0x1000) vm_page_object_new st 0))
                 (seqZ 0 4) st).
(** The free list is at 8, a caller's list at 16. *)
Definition demo_boot : PmmNode :=
  mkPmm (mkPmem (mkMem (list_to_map ([(8, mkNode 8 8)] ++ ((λ i, (demo_slot i, mkNode 5 7)) <$> seqZ 0 4)))
                       (list_to_map [(8, 8)]))
                (demo_pages [9; 9; 9; 9])) [] 0 0.
Definition demo_node : PmmNode :=
  mkPmm (mkPmem (mkMem (list_to_map
                   [(8, mkNode (demo_slot 0) (demo_slot 2)); (16, mkNode 16 16);
                    (demo_slot 0, mkNode (demo_slot 1) 8); (demo_slot 1, mkNode (demo_slot 2) (demo_slot 0));
                    (demo_slot 2, mkNode 8 (demo_slot 1)); (demo_slot 3, mkNode 0 0)])
                   (list_to_map [(8, 8); (16, 16)]))
                (demo_pages [FREE; FREE; FREE; WIRED])) [arena_at demo_info demo_array_pa] 0x4000 4.
Definition demo_free : list Z := demo_slot <$> [0; 1; 2].

Lemma demo_info_ok : info_ok demo_info.
Proof. split_and!; try done; [by exists 0x80000|by exists 4]. Qed.

Lemma index4 j : 0 ≤ j < 4 → j = 0 ∨ j = 1 ∨ j = 2 ∨ j = 3.
Proof. lia. Qed.

Lemma demo_node_inv : pmm_inv 8 1 demo_node demo_free.
Proof.
  split; [|reflexivity]. split_and!.
  - split_and!; [reflexivity|by_compute|by_compute|].
    repeat split; reflexivity.
  - intros p Hp. repeat apply elem_of_cons in Hp as [->|Hp]; [..|by apply not_elem_of_nil in Hp];
      (eexists; split_and!; reflexivity).
  - constructor; [|constructor]. apply arena_at_wf; [apply demo_info_ok|done|done].
  - repeat constructor.
  - intros a i ->%list_elem_of_singleton Hi.
    destruct (index4 i Hi) as [->|[->|[->| ->]]];
      (eexists; split_and!; [reflexivity|reflexivity|by eexists|]);
      intros Hf; try (vm_compute in Hf; discriminate Hf); by_compute.
Qed.


Lemma alloc_page_takes_head_witness :
  ∃ s' pg, alloc_page 8 0 demo_node = Ret (demo_slot 0, s') ∧ pmm_inv 8 1 s' (demo_slot <$> [1; 2]) ∧
    vpages (mem s') !! demo_slot 0 = Some pg ∧ state pg = ALLOC ∧
    nodes (lists (mem s')) !! demo_slot 0 = Some ListNode_new ∧
    (∀ q, q ≠ demo_slot 0 → vpages (mem s') !! q = vpages (mem demo_node) !! q).
Proof. apply (alloc_page_takes_head 8 1 demo_node demo_free 0); [apply demo_node_inv|reflexivity]. Defined.

Lemma demo_caller : dll (lists (mem demo_node)) 16 [].
Proof.
  split_and!; [reflexivity|by_compute|by_compute|].
  repeat split; reflexivity.
Qed.

Lemma alloc_pages_exact_witness :
  ∃ s', alloc_pages 8 2 0 16 demo_node = Ret (Ok (), s') ∧ pmm_inv 8 1 s' [demo_slot 2] ∧
    dll (lists (mem s')) 16 [demo_slot 0; demo_slot 1] ∧
    (∀ q, q ∉ demo_slot <$> [0; 1] → vpages (mem s') !! q = vpages (mem demo_node) !! q) ∧
    (∀ q, q ∈ demo_slot <$> [0; 1] → ∃ pg, vpages (mem s') !! q = Some pg ∧ state pg = ALLOC).
Proof.
  apply (alloc_pages_exact 8 16 1 demo_node demo_free [] 2 0);
    [apply demo_node_inv|apply demo_caller|apply disjoint_Forall; by_compute|lia].
Defined.

Lemma alloc_range_exact_witness :
  ∃ s' fl', alloc_range 0x80001234 2 16 demo_node = Ret (Ok (), s') ∧
    pmm_inv 8 1 s' fl' ∧ dll (lists (mem s')) 16 [demo_slot 1; demo_slot 2] ∧
    demo_free ≡ₚ [demo_slot 1; demo_slot 2] ++ fl'.
Proof.
  destruct (alloc_range_exact 8 16 1 demo_node demo_free 0x80001234 2) as [Hok _];
    [apply demo_node_inv|apply demo_caller|by_compute|unfold is_usize; lia|lia|].
  destruct Hok as (s' & fl' & Hrun & Hinv & Hd & Hp & _); [|exists s', fl'; split; [exact Hrun|split; [exact Hinv|split; [exact Hd|exact Hp]]]].
  intros q Hq. assert (q ∈ demo_slot <$> [1; 2]) as Hq' by exact Hq. unfold demo_free. set_solver + Hq'.
Defined.

Lemma paddr_to_page_correct_witness :
  ∃ p, paddr_to_page 0x80001234 demo_node = Ret (p, demo_node) ∧
    (p = null ↔ ∀ a, a ∈ arenas demo_node →
       ¬ arena_base a ≤ 0x80001234 < arena_base a + arena_size a) ∧
    (p ≠ null → ∃ pg, vpages (mem demo_node) !! p = Some pg ∧ paddr pg = 0x80001234 - 0x80001234 mod PAGE_SIZE).
Proof.
  destruct (paddr_to_page_correct 8 demo_node demo_free 0x80001234 (proj1 demo_node_inv))
    as (p & ? & ? & ? & _). by exists p.
Defined.
