(* ===== verification/Cmpctmalloc.v ===== *)
(** * klib/cmpctmalloc.rs: the kernel heap

    The heap keeps areas obtained from the page allocator.  An area is a left
    sentinel header, blocks that follow each other in memory, each with a
    header that holds its size and the address of its left neighbour, and a
    right sentinel.  Free blocks are linked into 128 lists by size class; a
    bitmap tells which lists are not empty.

    Memory is a map of headers by address and the list memory of
    LinkedList for the nodes inside free blocks.  Both are objects of 16
    bytes; writing one destroys what it overlaps, and it can be written only
    where the page allocator has mapped memory.  The page allocator
    (allocator.rs, [VirtualAlloc]) is the interface [PageAllocator]; what the
    heap relies on is [PageAllocatorLaws]. *)

From S2P Require Import Prelude Defs LinkedList.

(** ** Constants *)

Definition SIZE_OF_HEADER_T : Z := 16.
Definition SIZE_OF_FREE_T : Z := 32.
Definition HEAP_GROW_SIZE : Z := 256 * 1024.
Definition HEAP_ALLOC_VIRTUAL_BITS : Z := 21.
Definition HEAP_GROW_OVER_HEAD : Z := SIZE_OF_HEADER_T * 2.
Definition HEAP_LARGE_ALLOC_BYTES : Z := Z.shiftl 1 HEAP_ALLOC_VIRTUAL_BITS - HEAP_GROW_OVER_HEAD.
Definition NUMBER_OF_BUCKETS : Z := 1 + 15 + (HEAP_ALLOC_VIRTUAL_BITS - 7) * 8.
Definition BUCKET_WORDS : Z := Z.shiftr (NUMBER_OF_BUCKETS + 31) 5.
Definition FREE_BIT : Z := Z.shiftl 1 0.
Definition HEAP_MAX_ALLOC_SIZE : Z := Z.shiftl 1 20 - SIZE_OF_HEADER_T.
Definition HEAP_USABLE_GROW_SIZE : Z := HEAP_GROW_SIZE - HEAP_GROW_OVER_HEAD.

(** ** Size classes *)

(** [adjust] is an [isize] added to a [usize]. *)
Definition size_to_index_helper (size adjust increment : Z) : outcome (Z * Z) :=
  if size <=? 128 then Ret (usub (ushr size 3) 1, size)
  else
    let size := uadd size adjust in
    let row := usub (usub (umul BYTES_PER_USIZE 8) 4) (leading_zeros size) in
    let column := Z.land (ushr size row) 7 in
    let row_column := uadd (Z.lor (ushl row 3) column) increment in
    let size := ushl (uadd 8 (Z.land row_column 7)) (ushr row_column 3) in
    let answer := usub (uadd row_column 15) 32 in
    if answer <? NUMBER_OF_BUCKETS then Ret (answer, size) else Panic.

Definition size_to_index_allocating (size : Z) : outcome (Z * Z) :=
  size_to_index_helper (ROUNDUP size 8) (-8) 1.

Definition size_to_index_freeing (size : Z) : outcome Z :=
  p ← size_to_index_helper size 0 0; Ret (fst p).

(** [u32::leading_zeros]. *)
Definition u32_leading_zeros (z : Z) : Z := if z =? 0 then 32 else 31 - Z.log2 z.
(** [1u32 << n]. *)
Definition u32_bit (n : Z) : Z := u32_wrap (Z.shiftl 1 (n mod 32)).
Definition u32_not (a : Z) : Z := Z.lxor a u32_max.

(** ** State *)

Record header_t := mkHdr { left : Z; hsize : Z; flag : Z }.

Record Heap := mkHeap {
  size : Z;
  remaining : Z;
  cached_os_alloc : Z;
  free_list_bits : list Z;
}.

Definition Heap_new : Heap := mkHeap 0 0 null (replicate (Z.to_nat BUCKET_WORDS) 0).

(** [VirtualAlloc] as the heap sees it: [mapped] lists the ranges (address,
    bytes) it has handed out. *)
Class PageAllocator (S : Type) := {
  va_alloc_pages : Z → M S (Result Z);
  va_free_pages : Z → Z → M S (Result unit);
  mapped : S → list (Z * Z);
}.

(** The memory of the heap: the objects the allocator has in it (headers and
    list nodes) by their address, and the bytes of its clients.  A write to
    either destroys what it overlaps. *)
Record HeapState (S : Type) := mkHS {
  heap : Heap;
  headers : gmap Z header_t;
  flists : lmem;
  mem_bytes : gmap Z Z;
  os : S;
}.
Arguments mkHS {S} _ _ _ _ _.
Arguments heap {S} _.
Arguments headers {S} _.
Arguments flists {S} _.
Arguments mem_bytes {S} _.
Arguments os {S} _.

(** [queue_node] follows the header. *)
#[local] Instance free_t_linked : Linked := {| node_offset := SIZE_OF_HEADER_T |}.

Section heap_ops.
Context {S : Type} {PA : PageAllocator S}.
(** Where [heap.free_lists[i]] is. *)
Context (free_lists : Z → Z).
Notation HS := (HeapState S).

Definition on_heap (f : Heap → Heap) : M HS unit :=
  modifyS (λ s, mkHS (f (heap s)) (headers s) (flists s) (mem_bytes s) (os s)).
Definition on_flists {A} (m : M lmem A) : M HS A :=
  zoom flists (λ l s, mkHS (heap s) (headers s) l (mem_bytes s) (os s)) m.
Definition on_os {A} (m : M S A) : M HS A :=
  zoom os (λ o s, mkHS (heap s) (headers s) (flists s) (mem_bytes s) o) m.

(** The bytes [p, p + n) lie in one mapped range. *)
Definition is_mapped (s : S) (p n : Z) : bool :=
  existsb (λ r, (r.1 <=? p) && (p + n <=? r.1 + r.2)) (mapped s).
Definition check_mapped (p n : Z) : M HS unit :=
  s ← getS; if is_mapped (os s) p n then mret () else fault.

(** What is left of a map of 16-byte objects, and of the bytes, after a write
    to [p, p + n). *)
Definition keep_n {A} (p n : Z) (m : gmap Z A) : gmap Z A :=
  filter (λ kv, kv.1 + 16 ≤ p ∨ p + n ≤ kv.1) m.
Definition keep {A} (p : Z) (m : gmap Z A) : gmap Z A := keep_n p 16 m.
Definition wipe (p n : Z) (d : gmap Z Z) : gmap Z Z :=
  filter (λ kv, kv.1 < p ∨ p + n ≤ kv.1) d.
Definition keep_nodes (p : Z) (m : lmem) : lmem := mkMem (keep p (nodes m)) (refs m).

Definition header_at (p : Z) : M HS header_t := deref (λ s, headers s !! p).
Definition write_header (p : Z) (h : header_t) : M HS unit :=
  check_mapped p SIZE_OF_HEADER_T;;
  modifyS (λ s, mkHS (heap s) (<[p := h]> (keep p (headers s))) (keep_nodes p (flists s))
                  (wipe p 16 (mem_bytes s)) (os s)).
(** [queue_node.init()] on fresh memory. *)
Definition write_node (p : Z) : M HS unit :=
  check_mapped p 16;;
  modifyS (λ s, mkHS (heap s) (keep p (headers s))
                  (mkMem (<[p := ListNode_new]> (keep p (nodes (flists s)))) (refs (flists s)))
                  (wipe p 16 (mem_bytes s)) (os s)).
Definition set_left (p x : Z) : M HS unit := h ← header_at p; write_header p (mkHdr x (hsize h) (flag h)).
Definition set_size (p x : Z) : M HS unit := h ← header_at p; write_header p (mkHdr (left h) x (flag h)).
Definition set_flag (p x : Z) : M HS unit := h ← header_at p; write_header p (mkHdr (left h) (hsize h) x).

(** [free_list_bits[i]]. *)
Definition bits_word (i : Z) : M HS Z :=
  s ← getS;
  match free_list_bits (heap s) !! Z.to_nat i with Some w => mret w | None => panic end.
Definition set_bits_word (i w : Z) : M HS unit :=
  on_heap (λ h, mkHeap (size h) (remaining h) (cached_os_alloc h) (<[Z.to_nat i := w]> (free_list_bits h))).

Definition set_free_list_bit (index : Z) : M HS unit :=
  w ← bits_word (ushr index 5);
  set_bits_word (ushr index 5) (Z.lor w (u32_bit (31 - Z.land index 0x1f))).
Definition clear_free_list_bit (index : Z) : M HS unit :=
  w ← bits_word (ushr index 5);
  set_bits_word (ushr index 5) (Z.land w (u32_not (u32_bit (31 - Z.land index 0x1f)))).

(** [heap.free_lists[i]], with the bounds check. *)
Definition free_list (i : Z) : M HS Z := if i <? NUMBER_OF_BUCKETS then mret (free_lists i) else panic.

Definition lift_o {A} (o : outcome A) : M HS A :=
  match o with Ret a => mret a | Panic => panic | Fault => fault | Spin => spin end.

Definition set_remaining (f : Z → Z) : M HS unit :=
  on_heap (λ h, mkHeap (size h) (f (remaining h)) (cached_os_alloc h) (free_list_bits h)).
Definition set_heap_size (f : Z → Z) : M HS unit :=
  on_heap (λ h, mkHeap (f (size h)) (remaining h) (cached_os_alloc h) (free_list_bits h)).
Definition set_cached (p : Z) : M HS unit :=
  on_heap (λ h, mkHeap (size h) (remaining h) p (free_list_bits h)).

Definition create_allocation_header (va offset sz lft : Z) : M HS Z :=
  write_header (uadd va offset) (mkHdr lft (u32_wrap sz) 0);;
  mret (uadd (uadd va offset) SIZE_OF_HEADER_T).

Definition create_free_area (area lft sz : Z) : M HS unit :=
  write_node (into_node area);;
  write_header area (mkHdr lft (u32_wrap sz) FREE_BIT);;
  bucket ← lift_o (size_to_index_freeing (usub sz SIZE_OF_HEADER_T));
  set_free_list_bit bucket;;
  fl ← free_list bucket;
  on_flists (List_add_head fl area);;
  set_remaining (λ r, uadd r sz).

Definition add_to_heap (area sz : Z) : M HS (Result unit) :=
  free_area ← create_allocation_header area 0 SIZE_OF_HEADER_T null;
  let free_size := usub sz (2 * SIZE_OF_HEADER_T) in
  create_free_area free_area area free_size;;
  let right := usub (uadd area sz) SIZE_OF_HEADER_T in
  _ ← create_allocation_header right 0 0 free_area;
  mret (Ok ()).

(** Nothing is known of the bytes of pages that were just mapped. *)
Definition heap_page_alloc (pages : Z) : M HS (Result Z) :=
  zx_assert (0 <? pages);;
  va ←? on_os (va_alloc_pages pages);
  modifyS (λ s, mkHS (heap s) (headers s) (flists s) (wipe va (pages * PAGE_SIZE) (mem_bytes s)) (os s));;
  mret (Ok va).

Definition heap_page_free (va pages : Z) : M HS (Result unit) :=
  zx_assert (IS_PAGE_ALIGNED va);; zx_assert (0 <? pages);; on_os (va_free_pages va pages).

Definition free_to_os (va sz : Z) : M HS (Result unit) :=
  zx_assert (IS_PAGE_ALIGNED va);;
  zx_assert (IS_PAGE_ALIGNED sz);;
  _ ←? heap_page_free va (ushr sz PAGE_SHIFT);
  set_heap_size (λ x, usub x sz);;
  mret (Ok ()).

Definition heap_grow (sz0 : Z) : M HS (Result unit) :=
  zx_assert (sz0 <=? HEAP_LARGE_ALLOC_BYTES);;
  let sz := ROUNDUP (uadd sz0 HEAP_GROW_OVER_HEAD) PAGE_SIZE in
  s ← getS;
  let os_alloc := cached_os_alloc (heap s) in
  p ←? (if os_alloc =? null then mret (Ok (0, sz))
        else
          h ← header_at os_alloc;
          if sz <=? hsize h then
            zx_assert (IS_PAGE_ALIGNED os_alloc);;
            zx_assert (IS_PAGE_ALIGNED (hsize h));;
            set_cached null;;
            mret (Ok (os_alloc, hsize h))
          else
            _ ←? free_to_os os_alloc (hsize h);
            set_cached null;;
            mret (Ok (0, sz)));
  area ←? (if fst p =? 0 then
             a ←? heap_page_alloc (ushr (snd p) PAGE_SHIFT);
             set_heap_size (λ x, uadd x (snd p));;
             mret (Ok a)
           else mret (Ok (fst p)));
  add_to_heap area (snd p).

(** [for i in 0..NUMBER_OF_BUCKETS]. *)
Fixpoint init_lists (n : nat) (i : Z) : M HS unit :=
  match n with
  | O => mret ()
  | Datatypes.S n => on_flists (List_init (free_lists i));; init_lists n (i + 1)
  end.

(** [Some(Heap::new())] also places the 128 list objects. *)
Fixpoint new_lists (n : nat) (i : Z) : M HS unit :=
  match n with
  | O => mret ()
  | Datatypes.S n => on_flists (List_new (free_lists i));; new_lists n (i + 1)
  end.

Definition cmpct_init : M HS (Result unit) :=
  new_lists (Z.to_nat NUMBER_OF_BUCKETS) 0;;
  on_heap (λ _, Heap_new);;
  init_lists (Z.to_nat NUMBER_OF_BUCKETS) 0;;
  heap_grow HEAP_USABLE_GROW_SIZE.

(** [for i in start..end]. *)
Fixpoint find_word (n : nat) (i : Z) : M HS (Result Z) :=
  match n with
  | O => mret (Err NotFound)
  | Datatypes.S n =>
      mask ← bits_word i;
      if mask =? 0 then find_word n (i + 1)
      else mret (Ok (uadd (ushl i 5) (u32_leading_zeros mask)))
  end.

Definition find_nonempty_bucket (index : Z) : M HS (Result Z) :=
  let mask := u32_wrap (u32_bit (31 - Z.land index 0x1f) - 1) in
  let mask := u32_wrap (u32_wrap (mask * 2) + 1) in
  w ← bits_word (ushr index 5);
  let mask := Z.land mask w in
  if negb (mask =? 0) then mret (Ok (uadd (Z.land index (unot 0x1f)) (u32_leading_zeros mask)))
  else
    let start := ushr (ROUNDUP (uadd index 1) 32) 5 in
    let end_ := ushr NUMBER_OF_BUCKETS 5 in
    find_word (Z.to_nat (end_ - start)) start.

Definition right_header (p : Z) : M HS Z := h ← header_at p; mret (uadd p (hsize h)).

Definition unlink_free (free_area bucket : Z) : M HS unit :=
  h ← header_at free_area;
  s ← getS;
  zx_assert (hsize h <=? remaining (heap s));;
  set_remaining (λ r, usub r (hsize h));;
  on_flists (Linked_delete_from_list free_area);;
  set_flag free_area 0;;
  fl ← free_list bucket;
  e ← on_flists (List_empty fl);
  if (e : bool) then clear_free_list_bit bucket else mret ().

Definition unlink_free_unknown_bucket (free_area : Z) : M HS unit :=
  h ← header_at free_area;
  bucket ← lift_o (size_to_index_freeing (usub (hsize h) SIZE_OF_HEADER_T));
  unlink_free free_area bucket.

Definition is_tagged_as_free (p : Z) : M HS bool :=
  if p =? null then mret false
  else h ← header_at p; mret (negb (Z.land (flag h) FREE_BIT =? 0)).

(** [while let Err(_) = heap_grow(growby)]; the result says whether it grew. *)
Fixpoint grow_loop (fuel : nat) (growby rounded_up : Z) : M HS bool :=
  match fuel with
  | O => spin
  | Datatypes.S fuel =>
      r ← heap_grow growby;
      match r with
      | Ok _ => mret true
      | Err _ =>
          if growby <=? rounded_up then mret false
          else grow_loop fuel (Z.max (ushr growby 1) rounded_up) rounded_up
      end
  end.

(** The bucket to allocate from, [None] when the heap cannot grow. *)
Definition alloc_bucket (fuel : nat) (start_bucket rounded_up : Z) : M HS (option Z) :=
  r ← find_nonempty_bucket start_bucket;
  match r with
  | Ok b => mret (Some b)
  | Err _ =>
      s ← getS;
      let growby := Z.min HEAP_LARGE_ALLOC_BYTES
                      (Z.max (ushr (size (heap s)) 3) (Z.max HEAP_USABLE_GROW_SIZE rounded_up)) in
      zx_assert (rounded_up <=? growby);;
      g ← grow_loop fuel growby rounded_up;
      if negb g then mret None
      else
        r ← find_nonempty_bucket start_bucket;
        match r with Ok b => mret (Some b) | Err _ => panic end
  end.

(** Take [rounded_up] bytes off the first block of a bucket. *)
Definition alloc_from (sz rounded_up bucket : Z) : M HS Z :=
  fl ← free_list bucket;
  e ← on_flists (List_empty fl);
  zx_assert (negb e);;
  head ← on_flists (List_head fl);
  if head =? null then panic
  else
    h ← header_at head;
    let left_over := usub (hsize h) rounded_up in
    (if (SIZE_OF_FREE_T <=? left_over) && (ushr sz 6 <? left_over) then
       right ← right_header head;
       unlink_free head bucket;;
       let free := uadd head rounded_up in
       create_free_area free head left_over;;
       set_left right free;;
       h ← header_at head;
       set_size head (u32_wrap (hsize h - u32_wrap left_over))
     else unlink_free head bucket);;
    h ← header_at head;
    create_allocation_header head 0 (hsize h) (left h).

Definition cmpct_alloc (fuel : nat) (sz : Z) : M HS Z :=
  if sz =? 0 then mret null
  else if HEAP_MAX_ALLOC_SIZE <? sz then mret null
  else
    p ← lift_o (size_to_index_allocating sz);
    let rounded_up := uadd (snd p) SIZE_OF_HEADER_T in
    b ← alloc_bucket fuel (fst p) rounded_up;
    match b with
    | None => mret null
    | Some bucket => alloc_from sz rounded_up bucket
    end.

Definition is_start_of_os_allocation (p : Z) : M HS bool := h ← header_at p; mret (left h =? null).
Definition is_end_of_os_allocation (p : Z) : M HS bool := h ← header_at p; mret (hsize h =? 0).

Definition possibly_free_to_os (left_sentinel total_size : Z) : M HS (Result unit) :=
  s ← getS;
  if cached_os_alloc (heap s) =? null then
    set_cached left_sentinel;;
    write_header left_sentinel (mkHdr null (u32_wrap total_size) 0);;
    mret (Ok ())
  else free_to_os left_sentinel total_size.

(** [a && b && c] with its short circuit. *)
Definition whole_area (va lft sz : Z) : M HS bool :=
  if negb (IS_PAGE_ALIGNED lft) then mret false
  else
    b ← is_start_of_os_allocation lft;
    if negb b then mret false else is_end_of_os_allocation (uadd va sz).

Definition free_memory (va lft sz : Z) : M HS (Result unit) :=
  b ← whole_area va lft sz;
  if (b : bool) then
    h ← header_at lft;
    zx_assert (hsize h =? SIZE_OF_HEADER_T);;
    possibly_free_to_os lft (uadd sz (2 * SIZE_OF_HEADER_T))
  else create_free_area va lft sz;; mret (Ok ()).

Definition cmpct_free_internal (header : Z) : M HS (Result unit) :=
  f ← is_tagged_as_free header;
  zx_assert (negb f);;
  h ← header_at header;
  zx_assert (SIZE_OF_HEADER_T <? hsize h);;
  let sz := hsize h in
  let lft := left h in
  _ ← header_at lft;
  lf ← is_tagged_as_free lft;
  if negb (lft =? null) && lf then
    unlink_free_unknown_bucket lft;;
    lh ← header_at lft;
    right ← right_header header;
    rf ← is_tagged_as_free right;
    if (rf : bool) then
      unlink_free_unknown_bucket right;;
      right_right ← right_header right;
      set_left right_right lft;;
      lh' ← header_at lft;
      rh ← header_at right;
      free_memory lft (left lh) (uadd (uadd (hsize lh') sz) (hsize rh))
    else
      set_left right lft;;
      lh' ← header_at lft;
      free_memory lft (left lh) (uadd (hsize lh') sz)
  else
    right ← right_header header;
    rf ← is_tagged_as_free right;
    if (rf : bool) then
      right_right ← right_header right;
      unlink_free_unknown_bucket right;;
      set_left right_right header;;
      rh ← header_at right;
      free_memory header lft (uadd sz (hsize rh))
    else free_memory header lft sz.

Definition cmpct_free (payload : Z) : M HS unit :=
  if payload =? null then mret ()
  else
    r ← cmpct_free_internal (usub payload SIZE_OF_HEADER_T);
    match r with Ok _ => mret () | Err _ => panic end.

Definition cmpct_memalign (fuel : nat) (align sz : Z) : M HS Z :=
  if sz =? 0 then mret null
  else if align <? 8 then cmpct_alloc fuel sz
  else
    let padded_size := uadd (uadd sz align) SIZE_OF_FREE_T in
    unaligned ← cmpct_alloc fuel padded_size;
    if unaligned =? null then mret null
    else
      let mask := usub align 1 in
      let payload := Z.land (uadd (uadd unaligned SIZE_OF_FREE_T) mask) (unot mask) in
      (if negb (unaligned =? payload) then
         let unaligned_header := usub unaligned SIZE_OF_HEADER_T in
         let header := usub payload SIZE_OF_HEADER_T in
         let left_over := usub payload unaligned in
         h ← header_at unaligned_header;
         _ ← create_allocation_header header 0 (usub (hsize h) left_over) unaligned_header;
         right ← right_header unaligned_header;
         set_size unaligned_header (u32_wrap left_over);;
         set_left right header;;
         cmpct_free unaligned
       else mret ());;
      mret payload.
End heap_ops.

(** ** The size classes *)

(** The lower bound of the usable sizes in row/column [rc], and in bucket
    [b]. *)
Definition bsize (rc : Z) : Z := (8 + rc mod 8) * 2 ^ (rc / 8).
Definition class_size (b : Z) : Z := if b <=? 15 then 8 * (b + 1) else bsize (b + 17).

Lemma rc_succ rc : 0 ≤ rc →
  (rc mod 8 = 7 ∧ (rc + 1) mod 8 = 0 ∧ (rc + 1) / 8 = rc / 8 + 1) ∨
  (0 ≤ rc mod 8 < 7 ∧ (rc + 1) mod 8 = rc mod 8 + 1 ∧ (rc + 1) / 8 = rc / 8).
Proof.
  intros Hrc. pose proof (Z.mod_pos_bound rc 8 ltac:(lia)). pose proof (Z.div_mod rc 8 ltac:(lia)) as Hd.
  destruct (decide (rc mod 8 = 7)) as [E|E]; [left|right]; (split_and!; [lia..| |]).
  - symmetry. apply (Z.mod_unique _ _ (rc / 8 + 1)); lia.
  - symmetry. apply (Z.div_unique _ _ _ 0); lia.
  - symmetry. apply (Z.mod_unique _ _ (rc / 8)); lia.
  - symmetry. apply (Z.div_unique _ _ _ (rc mod 8 + 1)); lia.
Qed.

(** Class sizes grow, by at most an eighth. *)
Lemma bsize_step rc : 0 ≤ rc → 0 < bsize rc < bsize (rc + 1) ∧ 8 * bsize (rc + 1) ≤ 9 * bsize rc.
Proof.
  intros Hrc. unfold bsize. assert (0 ≤ rc / 8) by (apply Z.div_pos; lia).
  assert (0 < 2 ^ (rc / 8)) by (apply Z.pow_pos_nonneg; lia).
  destruct (rc_succ rc Hrc) as [(E & -> & ->)|(E & -> & ->)]; [|nia].
  rewrite Z.pow_add_r by lia. change (2 ^ 1) with 2. rewrite E. nia.
Qed.

Lemma class_size_step b : 0 ≤ b → 0 < class_size b < class_size (b + 1).
Proof.
  intros Hb. unfold class_size.
  destruct (Z.leb_spec b 15), (Z.leb_spec (b + 1) 15); try lia.
  - assert (b = 15) as -> by lia. vm_compute. done.
  - replace (b + 1 + 17) with (b + 17 + 1) by lia. apply bsize_step. lia.
Qed.

Lemma class_size_mono b c : 0 ≤ b ≤ c → class_size b ≤ class_size c.
Proof.
  intros Hb. replace c with (b + Z.of_nat (Z.to_nat (c - b))) by lia.
  induction (Z.to_nat (c - b)) as [|n IH]; [by rewrite Z.add_0_r|].
  pose proof (class_size_step (b + Z.of_nat n) ltac:(lia)).
  replace (b + Z.of_nat (Datatypes.S n)) with (b + Z.of_nat n + 1) by lia. lia.
Qed.

(** The row and column of a size from 128 on. *)
Definition rc_of (sz : Z) : Z := 8 * (Z.log2 sz - 3) + (sz / 2 ^ (Z.log2 sz - 3) - 8).

Lemma rc_of_bounds sz :
  128 ≤ sz → 32 ≤ rc_of sz ∧ bsize (rc_of sz) ≤ sz < bsize (rc_of sz + 1).
Proof.
  intros Hs. unfold rc_of. set (k := Z.log2 sz).
  destruct (Z.log2_spec sz ltac:(lia)) as [Hlo Hhi]. fold k in Hlo, Hhi.
  assert (7 ≤ k) by (apply Z.log2_le_pow2; lia).
  assert (2 ^ k = 8 * 2 ^ (k - 3)) as E1 by (change 8 with (2 ^ 3); rewrite <-Z.pow_add_r by lia; f_equal; lia).
  assert (2 ^ Z.succ k = 16 * 2 ^ (k - 3)) as E2 by (change 16 with (2 ^ 4); rewrite <-Z.pow_add_r by lia; f_equal; lia).
  set (P := 2 ^ (k - 3)) in *. assert (0 < P) by (apply Z.pow_pos_nonneg; lia).
  set (c := sz / P). pose proof (Z.div_mod sz P ltac:(lia)) as Hd. fold c in Hd.
  pose proof (Z.mod_pos_bound sz P ltac:(lia)).
  assert (8 ≤ c < 16) by (split; [apply Z.div_le_lower_bound; lia|apply Z.div_lt_upper_bound; lia]).
  assert ((8 * (k - 3) + (c - 8)) / 8 = k - 3 ∧ (8 * (k - 3) + (c - 8)) mod 8 = c - 8) as [Eq Em].
  { split; [symmetry; apply (Z.div_unique _ _ _ (c - 8)); lia|symmetry; apply (Z.mod_unique _ _ (k - 3)); lia]. }
  split; [lia|]. unfold bsize at 1. rewrite Eq, Em. fold P. split; [nia|].
  unfold bsize. destruct (decide (c = 15)) as [->|].
  - assert ((8 * (k - 3) + (15 - 8) + 1) / 8 = k - 3 + 1 ∧ (8 * (k - 3) + (15 - 8) + 1) mod 8 = 0) as [-> ->].
    { split; [symmetry; apply (Z.div_unique _ _ _ 0); lia|symmetry; apply (Z.mod_unique _ _ (k - 3 + 1)); lia]. }
    rewrite Z.pow_add_r by lia. fold P. change (2 ^ 1) with 2. lia.
  - assert ((8 * (k - 3) + (c - 8) + 1) / 8 = k - 3 ∧ (8 * (k - 3) + (c - 8) + 1) mod 8 = c - 8 + 1) as [-> ->].
    { split; [symmetry; apply (Z.div_unique _ _ _ (c - 8 + 1)); lia|symmetry; apply (Z.mod_unique _ _ (k - 3)); lia]. }
    fold P. nia.
Qed.

Lemma rc_of_max sz : 128 ≤ sz < 2 ^ 21 → rc_of sz ≤ 143.
Proof.
  intros Hs. unfold rc_of.
  assert (7 ≤ Z.log2 sz) by (apply Z.log2_le_pow2; lia).
  assert (Z.log2 sz < 21) by (apply Z.log2_lt_pow2; lia).
  destruct (Z.log2_spec sz ltac:(lia)) as [_ Hhi].
  assert (sz / 2 ^ (Z.log2 sz - 3) < 16); [|lia].
  apply Z.div_lt_upper_bound; [lia|].
  replace (2 ^ (Z.log2 sz - 3) * 16) with (2 ^ Z.succ (Z.log2 sz)); [lia|].
  change 16 with (2 ^ 4). rewrite <-Z.pow_add_r by lia. f_equal. lia.
Qed.

(** The helper on the sizes after the linear part. *)
Lemma size_to_index_helper_spec sz adjust inc :
  128 < sz → 128 ≤ sz + adjust < 2 ^ 21 → 0 ≤ inc ≤ 1 →
  let rc := rc_of (sz + adjust) + inc in
  size_to_index_helper sz adjust inc = Ret (rc - 17, bsize rc).
Proof.
  intros Hs Ha Hinc rc. unfold size_to_index_helper.
  rewrite (proj2 (Z.leb_gt sz 128)) by lia.
  rewrite (uadd_small sz adjust) by (unfold is_usize; lia).
  set (x := sz + adjust) in *.
  assert (7 ≤ Z.log2 x) by (apply Z.log2_le_pow2; lia).
  assert (Z.log2 x < 21) by (apply Z.log2_lt_pow2; lia).
  assert (leading_zeros x = 63 - Z.log2 x) as ->.
  { unfold leading_zeros. by rewrite (proj2 (Z.eqb_neq x 0)) by lia. }
  change (usub (umul BYTES_PER_USIZE 8) 4) with 60.
  rewrite (usub_small 60 (63 - Z.log2 x)) by (unfold is_usize; lia).
  replace (60 - (63 - Z.log2 x)) with (Z.log2 x - 3) by lia.
  assert (8 ≤ x / 2 ^ (Z.log2 x - 3) < 16) as Hc.
  { destruct (rc_of_bounds x ltac:(lia)) as [H32 _]. destruct (Z.log2_spec x ltac:(lia)) as [Hlo Hhi].
    assert (0 < 2 ^ (Z.log2 x - 3)) by (apply Z.pow_pos_nonneg; lia).
    split; [apply Z.div_le_lower_bound; [lia|]|apply Z.div_lt_upper_bound; [lia|]].
    - change 8 with (2 ^ 3). rewrite <-Z.pow_add_r by lia. by replace (Z.log2 x - 3 + 3) with (Z.log2 x) by lia.
    - change 16 with (2 ^ 4). rewrite <-Z.pow_add_r by lia.
      by replace (Z.log2 x - 3 + 4) with (Z.succ (Z.log2 x)) by lia. }
  assert (Z.land (ushr x (Z.log2 x - 3)) 7 = x / 2 ^ (Z.log2 x - 3) - 8) as ->.
  { unfold ushr. rewrite (Z.mod_small _ 64), Z.shiftr_div_pow2 by lia. change 7 with (Z.ones 3).
    rewrite Z.land_ones by lia. symmetry. apply (Z.mod_unique _ _ 1); lia. }
  assert (Z.lor (ushl (Z.log2 x - 3) 3) (x / 2 ^ (Z.log2 x - 3) - 8) = rc_of x) as ->.
  { unfold ushl. change (3 mod 64) with 3. rewrite Z.shiftl_mul_pow2 by lia.
    rewrite usize_wrap_small by (unfold is_usize; lia). rewrite lor_add by lia. unfold rc_of. lia. }
  destruct (rc_of_bounds x ltac:(lia)) as [H32 _]. pose proof (rc_of_max x Ha).
  rewrite (uadd_small (rc_of x) inc) by (unfold is_usize; lia). fold rc.
  assert (32 ≤ rc ≤ 144) as Hrc by lia.
  rewrite (uadd_small rc 15), (usub_small (rc + 15) 32) by (unfold is_usize; lia).
  rewrite (proj2 (Z.ltb_lt (rc + 15 - 32) NUMBER_OF_BUCKETS)) by (change NUMBER_OF_BUCKETS with 128; lia).
  assert (0 ≤ rc / 8 ≤ 18) by (split; [apply Z.div_pos; lia|apply Z.div_le_upper_bound; lia]).
  pose proof (Z.mod_pos_bound rc 8 ltac:(lia)). do 2 f_equal; [lia|].
  unfold ushl, ushr, bsize. change (3 mod 64) with 3. rewrite Z.shiftr_div_pow2 by lia. change (2 ^ 3) with 8.
  change 7 with (Z.ones 3). rewrite Z.land_ones by lia. change (2 ^ 3) with 8.
  rewrite (uadd_small 8) by (unfold is_usize; lia). rewrite (Z.mod_small _ 64), Z.shiftl_mul_pow2 by lia.
  apply usize_wrap_small. split; [nia|].
  assert (2 ^ (rc / 8) ≤ 2 ^ 18) by (apply Z.pow_le_mono_r; lia). nia.
Qed.

(** A free block of usable size [u] goes to the bucket whose class it is in. *)
Lemma size_to_index_freeing_spec u :
  8 ≤ u < 2 ^ 21 →
  ∃ b, size_to_index_freeing u = Ret b ∧ 0 ≤ b < NUMBER_OF_BUCKETS ∧ class_size b ≤ u < class_size (b + 1).
Proof.
  intros Hu. unfold size_to_index_freeing. change NUMBER_OF_BUCKETS with 128.
  destruct (decide (u ≤ 128)) as [Hle|Hgt].
  - unfold size_to_index_helper. rewrite (proj2 (Z.leb_le u 128)) by lia. simpl.
    unfold ushr. change (3 mod 64) with 3. rewrite Z.shiftr_div_pow2 by lia. change (2 ^ 3) with 8.
    pose proof (Z.div_mod u 8 ltac:(lia)). pose proof (Z.mod_pos_bound u 8 ltac:(lia)).
    rewrite usub_small by (unfold is_usize; lia). eexists. split; [done|]. split; [lia|].
    unfold class_size. rewrite (proj2 (Z.leb_le (u / 8 - 1) 15)) by lia.
    destruct (Z.leb_spec (u / 8 - 1 + 1) 15); [lia|].
    replace (u / 8 - 1 + 1 + 17) with 33 by lia. change (bsize 33) with 144. lia.
  - rewrite size_to_index_helper_spec by lia. rewrite !Z.add_0_r. simpl.
    destruct (rc_of_bounds u ltac:(lia)) as (? & ? & ?). pose proof (rc_of_max u ltac:(lia)).
    eexists. split; [done|]. split; [lia|]. unfold class_size.
    rewrite (proj2 (Z.leb_gt (rc_of u - 17 + 1) 15)) by lia.
    replace (rc_of u - 17 + 1 + 17) with (rc_of u + 1) by lia.
    destruct (Z.leb_spec (rc_of u - 17) 15); [|by replace (rc_of u - 17 + 17) with (rc_of u) by lia].
    replace (rc_of u) with 32 in * by lia. change (bsize 32) with 128 in *. lia.
Qed.

(** A request of [sz] bytes starts at the bucket whose class size, the
    rounded-up request, is the least one not below [sz]. *)
Lemma size_to_index_allocating_spec sz :
  1 ≤ sz ≤ HEAP_MAX_ALLOC_SIZE →
  ∃ b r, size_to_index_allocating sz = Ret (b, r) ∧ 0 ≤ b < NUMBER_OF_BUCKETS ∧
    r = class_size b ∧ (8 | r) ∧ sz ≤ r ∧ 8 * r ≤ 9 * sz + 72 ∧ (b = 0 ∨ class_size (b - 1) < sz).
Proof.
  intros Hsz. change HEAP_MAX_ALLOC_SIZE with (2 ^ 20 - 16) in Hsz. unfold size_to_index_allocating.
  change NUMBER_OF_BUCKETS with 128.
  destruct (ROUNDUP_bounds sz 3) as [[q Hq] [Hlo Hhi]]; [lia|lia|lia|]. change (2 ^ 3) with 8 in *.
  set (s := ROUNDUP sz 8) in *.
  destruct (decide (s ≤ 128)) as [Hle|Hgt].
  - unfold size_to_index_helper. rewrite (proj2 (Z.leb_le s 128)) by lia.
    unfold ushr. change (3 mod 64) with 3. rewrite Z.shiftr_div_pow2 by lia. change (2 ^ 3) with 8.
    rewrite Hq, Z.div_mul by lia. rewrite usub_small by (unfold is_usize; lia).
    assert (class_size (q - 1) = q * 8) as Hcls.
    { unfold class_size. rewrite (proj2 (Z.leb_le (q - 1) 15)); lia. }
    eexists _, _. split_and!; [reflexivity|lia|lia|lia|by exists q|lia|lia|].
    destruct (decide (q = 1)); [left; lia|right]. unfold class_size.
    rewrite (proj2 (Z.leb_le (q - 1 - 1) 15)); lia.
  - rewrite size_to_index_helper_spec by lia. replace (s + -8) with (s - 8) by lia.
    destruct (rc_of_bounds (s - 8) ltac:(lia)) as (H32 & Hb1 & Hb2).
    pose proof (rc_of_max (s - 8) ltac:(lia)) as Hmax.
    set (rc := rc_of (s - 8)) in *.
    assert (class_size (rc + 1 - 17) = bsize (rc + 1)) as Hcls.
    { unfold class_size. rewrite (proj2 (Z.leb_gt (rc + 1 - 17) 15)) by lia. f_equal. lia. }
    assert (8 | bsize (rc + 1)) as [q' Hq'].
    { unfold bsize. apply Z.divide_mul_r. exists (2 ^ ((rc + 1) / 8 - 3)). assert (4 ≤ (rc + 1) / 8) by (apply Z.div_le_lower_bound; lia).
      rewrite <-(Z.pow_add_r 2 _ 3) by lia. f_equal. lia. }
    assert (8 * bsize (rc + 1) ≤ 9 * bsize rc) as Hratio.
    { apply bsize_step. lia. }
    eexists _, _. split_and!; [reflexivity|lia|lia|done|by exists q'|lia|lia|].
    right. destruct (decide (rc = 32)) as [E|E].
    + rewrite E in *. change (class_size (32 + 1 - 17 - 1)) with 128. lia.
    + unfold class_size. rewrite (proj2 (Z.leb_gt (rc + 1 - 17 - 1) 15)) by lia.
      replace (rc + 1 - 17 - 1 + 17) with rc by lia. lia.
Qed.

(** ** The bitmap of non-empty lists *)

Definition bits_wf (bits : list Z) : Prop := length bits = 4%nat ∧ Forall is_u32 bits.

(** Bucket [i] is bit [31 - i mod 32] of word [i / 32]. *)
Definition bucket_bit (bits : list Z) (i : Z) : bool :=
  Z.testbit (default 0 (bits !! Z.to_nat (i / 32))) (31 - i mod 32).

Definition is_bucket (i : Z) : Prop := 0 ≤ i < NUMBER_OF_BUCKETS.

Lemma is_bucket_word i : is_bucket i → 0 ≤ i / 32 < 4 ∧ 0 ≤ i mod 32 < 32 ∧ i = 32 * (i / 32) + i mod 32.
Proof.
  unfold is_bucket. change NUMBER_OF_BUCKETS with 128. intros Hi.
  pose proof (Z.mod_pos_bound i 32 ltac:(lia)). pose proof (Z.div_mod i 32 ltac:(lia)). lia.
Qed.

Lemma bits_lookup bits w : bits_wf bits → 0 ≤ w < 4 → ∃ x, bits !! Z.to_nat w = Some x ∧ is_u32 x.
Proof.
  intros [Hl Hf] Hw. destruct (lookup_lt_is_Some_2 bits (Z.to_nat w)) as [x Hx]; [lia|].
  exists x. split; [done|]. by eapply Forall_lookup_1.
Qed.

Lemma index_word i : is_bucket i → ushr i 5 = i / 32 ∧ Z.land i 0x1f = i mod 32.
Proof.
  intros Hi. unfold ushr. change (5 mod 64) with 5. rewrite Z.shiftr_div_pow2 by lia. split; [done|].
  change 0x1f with (Z.ones 5). by rewrite Z.land_ones.
Qed.

Lemma u32_bit_pow n : 0 ≤ n < 32 → u32_bit n = 2 ^ n.
Proof.
  intros Hn. unfold u32_bit, u32_wrap. rewrite (Z.mod_small n 32), Z.shiftl_1_l by done.
  apply Z.mod_small. split; [lia|]. apply Z.pow_lt_mono_r; lia.
Qed.

Lemma u32_testbit_high x i : is_u32 x → 32 ≤ i → Z.testbit x i = false.
Proof.
  intros Hx Hi. rewrite <-(Z.mod_small x (2 ^ 32)) by done. by apply Z.mod_pow2_bits_high.
Qed.

Lemma is_u32_bits z : 0 ≤ z → (∀ i, 32 ≤ i → Z.testbit z i = false) → is_u32 z.
Proof.
  intros Hz Hb. split; [done|]. destruct (decide (z = 0)) as [->|]; [done|].
  apply Z.log2_lt_pow2; [lia|]. destruct (decide (Z.log2 z < 32)) as [|Hge]; [done|].
  specialize (Hb (Z.log2 z) ltac:(lia)). rewrite Z.bit_log2 in Hb by lia. done.
Qed.

Lemma bucket_bit_insert bits i j x y :
  bits_wf bits → is_bucket i → is_bucket j → bits !! Z.to_nat (i / 32) = Some x →
  (∀ n, 0 ≤ n < 32 → n ≠ 31 - i mod 32 → Z.testbit y n = Z.testbit x n) →
  bucket_bit (<[Z.to_nat (i / 32) := y]> bits) j =
    if decide (j = i) then Z.testbit y (31 - i mod 32) else bucket_bit bits j.
Proof.
  intros [Hl _] Hi Hj Hx Hy. destruct (is_bucket_word i Hi) as (? & ? & ?), (is_bucket_word j Hj) as (? & ? & ?).
  unfold bucket_bit. destruct (decide (i / 32 = j / 32)) as [E|E].
  - rewrite <-E, list_lookup_insert_eq by lia. simpl. case_decide as Hji; [by subst|].
    rewrite Hx. simpl. apply Hy; lia.
  - rewrite list_lookup_insert_ne by lia. rewrite decide_False; [done|]. intros ->. done.
Qed.

Section bitmap.
Context {S : Type} {PA : PageAllocator S}.

Definition with_bits (b : list Z) (s : HeapState S) : HeapState S :=
  mkHS (mkHeap (size (heap s)) (remaining (heap s)) (cached_os_alloc (heap s)) b) (headers s) (flists s) (mem_bytes s) (os s).

Lemma bits_word_run (s : HeapState S) i x :
  free_list_bits (heap s) !! Z.to_nat i = Some x → bits_word i s = Ret (x, s).
Proof. intros Hx. unfold bits_word. erewrite M_bind_run by reflexivity. by rewrite Hx. Qed.

(** Setting or clearing one bit of the bitmap. *)
Definition bit_updated (i : Z) (b : bool) (bits bits' : list Z) : Prop :=
  bits_wf bits' ∧ ∀ j, is_bucket j → bucket_bit bits' j = if decide (j = i) then b else bucket_bit bits j.

Lemma set_free_list_bit_spec (s : HeapState S) i :
  bits_wf (free_list_bits (heap s)) → is_bucket i →
  ∃ b, set_free_list_bit i s = Ret ((), with_bits b s) ∧ bit_updated i true (free_list_bits (heap s)) b.
Proof.
  intros Hwf Hi. destruct (is_bucket_word i Hi) as (Hw & Hr & Hd), (index_word i Hi) as [Ew Er].
  destruct (bits_lookup _ _ Hwf Hw) as (x & Hx & Hu). unfold set_free_list_bit. rewrite Ew, Er.
  rewrite (M_bind_run _ _ _ _ _ (bits_word_run _ _ _ Hx)). eexists. split; [reflexivity|].
  rewrite u32_bit_pow by lia. split.
  - destruct Hwf as [Hl Hf]. split; [by rewrite length_insert|]. apply Forall_insert; [done|].
    apply is_u32_bits; [apply Z.lor_nonneg; split; [apply Hu|lia]|]. intros n Hn.
    rewrite Z.lor_spec, (u32_testbit_high x n), Z.pow2_bits_false by (done || lia). done.
  - intros j Hj. rewrite (bucket_bit_insert _ _ _ x) by
      (done || (intros n ? ?; rewrite Z.lor_spec, Z.pow2_bits_false, orb_false_r by lia; done)).
    case_decide; [|done]. by rewrite Z.lor_spec, Z.pow2_bits_true, orb_true_r by lia.
Qed.

Lemma clear_free_list_bit_spec (s : HeapState S) i :
  bits_wf (free_list_bits (heap s)) → is_bucket i →
  ∃ b, clear_free_list_bit i s = Ret ((), with_bits b s) ∧ bit_updated i false (free_list_bits (heap s)) b.
Proof.
  intros Hwf Hi. destruct (is_bucket_word i Hi) as (Hw & Hr & Hd), (index_word i Hi) as [Ew Er].
  destruct (bits_lookup _ _ Hwf Hw) as (x & Hx & Hu). unfold clear_free_list_bit. rewrite Ew, Er.
  rewrite (M_bind_run _ _ _ _ _ (bits_word_run _ _ _ Hx)). eexists. split; [reflexivity|].
  rewrite u32_bit_pow by lia. unfold u32_not, u32_max. split.
  - destruct Hwf as [Hl Hf]. split; [by rewrite length_insert|]. apply Forall_insert; [done|].
    apply is_u32_bits; [apply Z.land_nonneg; left; apply Hu|]. intros n Hn.
    by rewrite Z.land_spec, (u32_testbit_high x n).
  - intros j Hj. rewrite (bucket_bit_insert _ _ _ x) by
      (done || (intros n ? ?; rewrite Z.land_spec, Z.lxor_spec, Z.pow2_bits_false, Z.ones_spec_low, andb_true_r by lia; done)).
    case_decide; [|done]. by rewrite Z.land_spec, Z.lxor_spec, Z.pow2_bits_true, Z.ones_spec_low, andb_false_r by lia.
Qed.

(** The first bucket from [i] on whose bit is set. *)
Definition first_set (bits : list Z) (i : Z) (r : Result Z) : Prop :=
  match r with
  | Ok b => i ≤ b ∧ is_bucket b ∧ bucket_bit bits b = true ∧ ∀ j, i ≤ j < b → bucket_bit bits j = false
  | Err e => e = NotFound ∧ ∀ j, i ≤ j → is_bucket j → bucket_bit bits j = false
  end.

(** The highest set bit of a word tells the first bucket in it. *)
Lemma word_first x w lo y :
  is_u32 y → y ≠ 0 → 0 ≤ lo < 32 → 0 ≤ w < 4 →
  (∀ n, 0 ≤ n → Z.testbit y n = Z.testbit x n && bool_decide (n ≤ 31 - lo)) →
  ∀ bits, bits !! Z.to_nat w = Some x →
  let b := w * 32 + u32_leading_zeros y in
  w * 32 + lo ≤ b < w * 32 + 32 ∧ bucket_bit bits b = true ∧
  ∀ j, w * 32 + lo ≤ j < b → bucket_bit bits j = false.
Proof.
  intros Hu Hne Hlo Hw Hy bits Hx. unfold is_u32 in Hu. unfold u32_leading_zeros.
  rewrite (proj2 (Z.eqb_neq y 0)) by done. set (b := w * 32 + (31 - Z.log2 y)).
  pose proof (Z.log2_nonneg y). assert (Z.log2 y < 32) by (apply Z.log2_lt_pow2; lia).
  assert (Z.testbit y (Z.log2 y) = true) as Ht by (apply Z.bit_log2; lia).
  rewrite Hy in Ht by done. apply andb_prop in Ht as [Ht Hle%bool_decide_eq_true].
  assert (∀ k, 0 ≤ k < 32 → (w * 32 + k) / 32 = w ∧ (w * 32 + k) mod 32 = k) as Hdm.
  { intros k Hk. split; [symmetry; apply (Z.div_unique _ _ _ k); lia|symmetry; apply (Z.mod_unique _ _ w); lia]. }
  split; [lia|]. unfold bucket_bit. split.
  - destruct (Hdm (31 - Z.log2 y) ltac:(lia)) as [E1 E2]. unfold b. rewrite E1, E2, Hx. simpl.
    by replace (31 - (31 - Z.log2 y)) with (Z.log2 y) by lia.
  - intros j Hj. replace j with (w * 32 + (j - w * 32)) by lia.
    destruct (Hdm (j - w * 32) ltac:(lia)) as [-> ->]. rewrite Hx. simpl.
    assert (Z.testbit y (31 - (j - w * 32)) = false) as Hf by (apply Z.bits_above_log2; lia).
    rewrite Hy in Hf by lia. rewrite bool_decide_true, andb_true_r in Hf by lia. done.
Qed.

Lemma find_word_spec (s : HeapState S) n i :
  bits_wf (free_list_bits (heap s)) → 0 ≤ i → i + Z.of_nat n = 4 →
  ∃ r, find_word n i s = Ret (r, s) ∧ first_set (free_list_bits (heap s)) (i * 32) r.
Proof.
  intros Hwf. revert i. induction n as [|n IH]; intros i Hi Hn; cbn [find_word].
  { eexists. split; [reflexivity|]. split; [done|]. intros j Hj (? & ?). change NUMBER_OF_BUCKETS with 128 in *. lia. }
  destruct (bits_lookup _ i Hwf ltac:(lia)) as (x & Hx & Hu).
  rewrite (M_bind_run _ _ _ _ _ (bits_word_run _ _ _ Hx)).
  destruct (Z.eqb_spec x 0) as [->|Hne].
  - destruct (IH (i + 1) ltac:(lia) ltac:(lia)) as (r & Hr & Hf). exists r. split; [done|].
    assert (∀ j, i * 32 ≤ j < (i + 1) * 32 → bucket_bit (free_list_bits (heap s)) j = false) as H0.
    { intros j Hj. unfold bucket_bit.
      replace (j / 32) with i by (apply (Z.div_unique _ _ _ (j - i * 32)); lia). rewrite Hx. apply Z.testbit_0_l. }
    unfold first_set in *. destruct r as [b|e].
    + destruct Hf as (? & ? & ? & Hf). split_and!; [lia|done|done|]. intros j Hj.
      destruct (decide (j < (i + 1) * 32)); [apply H0; lia|apply Hf; lia].
    + destruct Hf as [-> Hf]. split; [done|]. intros j Hj Hb.
      destruct (decide (j < (i + 1) * 32)); [apply H0; lia|apply Hf; [lia|done]].
  - destruct (word_first x i 0 x Hu Hne ltac:(lia) ltac:(lia)) with (bits := free_list_bits (heap s)) as (Hr & Hb & Hall); [|done|].
    { intros k Hk. case_bool_decide; [by rewrite andb_true_r|]. rewrite andb_false_r. apply u32_testbit_high; [done|lia]. }
    assert (uadd (ushl i 5) (u32_leading_zeros x) = i * 32 + u32_leading_zeros x) as ->.
    { unfold ushl. change (5 mod 64) with 5. rewrite Z.shiftl_mul_pow2 by lia. change (2 ^ 5) with 32.
      rewrite usize_wrap_small by (unfold is_usize; lia). apply uadd_small. unfold is_usize. lia. }
    eexists. split; [reflexivity|]. rewrite Z.add_0_r in *. split_and!; [lia| |done|done].
    unfold is_bucket. change NUMBER_OF_BUCKETS with 128. lia.
Qed.

Lemma find_nonempty_bucket_spec (s : HeapState S) i :
  bits_wf (free_list_bits (heap s)) → is_bucket i →
  ∃ r, find_nonempty_bucket i s = Ret (r, s) ∧ first_set (free_list_bits (heap s)) i r.
Proof.
  intros Hwf Hi. destruct (is_bucket_word i Hi) as (Hw & Hr & Hd), (index_word i Hi) as [Ew Er].
  destruct (bits_lookup _ _ Hwf Hw) as (x & Hx & Hu). unfold find_nonempty_bucket. rewrite Ew, Er.
  rewrite u32_bit_pow by lia. set (lo := i mod 32) in *. set (w := i / 32) in *.
  rewrite (M_bind_run _ _ _ _ _ (bits_word_run _ _ _ Hx)).
  assert (u32_wrap (u32_wrap (u32_wrap (2 ^ (31 - lo) - 1) * 2) + 1) = Z.ones (32 - lo)) as ->.
  { assert (0 < 2 ^ (31 - lo) ≤ 2 ^ 31) by (split; [lia|apply Z.pow_le_mono_r; lia]).
    unfold u32_wrap. rewrite (Z.mod_small (2 ^ (31 - lo) - 1)) by lia.
    rewrite (Z.mod_small ((2 ^ (31 - lo) - 1) * 2)), Z.mod_small by lia. rewrite Z.ones_equiv.
    replace (32 - lo) with (Z.succ (31 - lo)) by lia. rewrite Z.pow_succ_r by lia. lia. }
  set (y := Z.land (Z.ones (32 - lo)) x).
  assert (∀ n, 0 ≤ n → Z.testbit y n = Z.testbit x n && bool_decide (n ≤ 31 - lo)) as Hy.
  { intros n Hn. unfold y. rewrite Z.land_spec, andb_comm. f_equal. case_bool_decide.
    - apply Z.ones_spec_low. lia.
    - apply Z.ones_spec_high. lia. }
  assert (is_u32 y) as Huy.
  { apply is_u32_bits; [apply Z.land_nonneg; right; apply Hu|]. intros n Hn. rewrite Hy by lia.
    by rewrite (u32_testbit_high x n). }
  destruct (Z.eqb_spec y 0) as [E0|Hne]; cbn [negb].
  - assert (ushr (ROUNDUP (uadd i 1) 32) 5 = w + 1) as ->.
    { rewrite uadd_small by (unfold is_usize; lia).
      destruct (ROUNDUP_bounds (i + 1) 5) as [[q Hq] Hb]; [lia|lia|lia|]. change (2 ^ 5) with 32 in *.
      rewrite Hq. unfold ushr. change (5 mod 64) with 5. rewrite Z.shiftr_div_pow2 by lia. change (2 ^ 5) with 32.
      rewrite Z.div_mul by lia. lia. }
    change (ushr NUMBER_OF_BUCKETS 5) with 4.
    destruct (find_word_spec s (Z.to_nat (4 - (w + 1))) (w + 1) Hwf) as (r & Hrun & Hf); [lia|lia|].
    exists r. split; [done|].
    assert (∀ j, i ≤ j < (w + 1) * 32 → bucket_bit (free_list_bits (heap s)) j = false) as H0.
    { intros j Hj. unfold bucket_bit.
      replace (j / 32) with w by (apply (Z.div_unique _ _ _ (j - w * 32)); lia). rewrite Hx. simpl.
      replace (j mod 32) with (j - w * 32) by (apply (Z.mod_unique _ _ w); lia).
      assert (Z.testbit y (31 - (j - w * 32)) = false) as Hb by (by rewrite E0, Z.testbit_0_l).
      rewrite Hy, bool_decide_true, andb_true_r in Hb by lia. done. }
    unfold first_set in *. destruct r as [b|e].
    + destruct Hf as (? & ? & ? & Hf). split_and!; [lia|done|done|]. intros j Hj.
      destruct (decide (j < (w + 1) * 32)); [apply H0; lia|apply Hf; lia].
    + destruct Hf as [-> Hf]. split; [done|]. intros j Hj Hb.
      destruct (decide (j < (w + 1) * 32)); [apply H0; lia|apply Hf; [lia|done]].
  - destruct (word_first x w lo y Huy Hne Hr Hw Hy _ Hx) as (Hrng & Hb & Hall).
    assert (uadd (Z.land i (unot 0x1f)) (u32_leading_zeros y) = w * 32 + u32_leading_zeros y) as ->.
    { change 0x1f with (2 ^ 5 - 1). rewrite land_unot_pow2 by (unfold is_usize; lia). change (2 ^ 5) with 32. fold lo.
      rewrite uadd_small by (unfold is_usize; lia). lia. }
    eexists. split; [reflexivity|]. split_and!; [lia| |done|intros j Hj; apply Hall; lia].
    unfold is_bucket. change NUMBER_OF_BUCKETS with 128. lia.
Qed.
End bitmap.

(** The two size-class functions agree.  A request of [sz] bytes is
    rounded up to [r], a multiple of 8 at least [sz] and at most an eighth
    (and 9 bytes) above it; it starts at a bucket from which on exactly the
    free blocks with [r] usable bytes or more are found, whatever bucket a
    block of [u] usable bytes was put in. *)
Theorem size_class_correct sz u :
  1 ≤ sz ≤ HEAP_MAX_ALLOC_SIZE → 8 ≤ u < 2 ^ 21 →
  ∃ b r c, size_to_index_allocating sz = Ret (b, r) ∧ size_to_index_freeing u = Ret c ∧
    0 ≤ b < NUMBER_OF_BUCKETS ∧ 0 ≤ c < NUMBER_OF_BUCKETS ∧
    sz ≤ r ∧ (8 | r) ∧ 8 * r ≤ 9 * sz + 72 ∧ (b ≤ c ↔ r ≤ u).
Proof.
  intros Hsz Hu. destruct (size_to_index_allocating_spec sz Hsz) as (b & r & Ha & Hb & -> & Hd & Hle & Hw & _).
  destruct (size_to_index_freeing_spec u Hu) as (c & Hf & Hc & Hlo & Hhi).
  exists b, (class_size b), c. split_and!; try done; try lia. split; intros Hbc.
  - pose proof (class_size_mono b c ltac:(lia)). lia.
  - destruct (decide (b ≤ c)); [done|]. pose proof (class_size_mono (c + 1) b ltac:(lia)). lia.
Qed.

Lemma size_class_correct_witness :
  ∃ b r c, size_to_index_allocating 1000 = Ret (b, r) ∧ size_to_index_freeing 5000 = Ret c ∧ (b ≤ c ↔ r ≤ 5000).
Proof.
  destruct (size_class_correct 1000 5000 ltac:(vm_compute; split; discriminate) ltac:(lia))
    as (b & r & c & ? & ? & _ & _ & _ & _ & _ & ?). by exists b, r, c.
Defined.

(** [find_nonempty_bucket] returns the first bucket at or after [i] whose
    bit is set, and NotFound when there is none. *)
Theorem find_nonempty_bucket_first {S} (s : HeapState S) i :
  bits_wf (free_list_bits (heap s)) → is_bucket i →
  ∃ r, find_nonempty_bucket i s = Ret (r, s) ∧
    match r with
    | Ok b => i ≤ b ∧ is_bucket b ∧ bucket_bit (free_list_bits (heap s)) b = true ∧
        ∀ j, i ≤ j < b → bucket_bit (free_list_bits (heap s)) j = false
    | Err e => e = NotFound ∧ ∀ j, i ≤ j → is_bucket j → bucket_bit (free_list_bits (heap s)) j = false
    end.
Proof. apply find_nonempty_bucket_spec. Qed.

Lemma find_nonempty_bucket_first_witness :
  let s := mkHS (mkHeap 0 0 null [1; 0; 2 ^ 31; 0]) ∅ (mkMem ∅ ∅) ∅ () in
  ∃ r, find_nonempty_bucket 32 s = Ret (r, s) ∧ r = Ok 64.
Proof.
  intros s. destruct (find_nonempty_bucket_first s 32) as (r & Hr & _); [|done|].
  - split; [done|]. repeat constructor; vm_compute; discriminate.
  - exists r. split; [done|]. vm_compute in Hr. congruence.
Defined.
