(* ===== verification/HeapPages.v ===== *)
(** * klib/cmpctmalloc.rs: what the heap asks of the page allocator

    [os_run k o o'] says that the page allocator got from [o] to [o'] by
    requests the heap may make, at most [k] of which were granted: requests
    for at most 2 MiB and releases.  An allocation has at most one request
    granted, a release of memory none. *)

From S2P Require Import Prelude Defs LinkedList Cmpctmalloc.

#[local] Existing Instance free_t_linked.

(** The size [heap_grow] asks for. *)
Lemma grow_size sz0 : 0 ≤ sz0 ≤ HEAP_LARGE_ALLOC_BYTES →
  let sz := ROUNDUP (uadd sz0 HEAP_GROW_OVER_HEAD) PAGE_SIZE in
  sz0 + 32 ≤ sz ≤ 2 ^ 21 ∧ (PAGE_SIZE | sz).
Proof.
  change HEAP_LARGE_ALLOC_BYTES with (2 ^ 21 - 32). change HEAP_GROW_OVER_HEAD with 32. intros Hs.
  rewrite uadd_small by (unfold is_usize; lia). rewrite PAGE_SIZE_eq.
  destruct (ROUNDUP_bounds (sz0 + 32) 12) as [[k Hk] Hb]; [lia|lia|lia|].
  cbv zeta. split; [|by exists k]. change (2 ^ 12) with 4096 in *. change (2 ^ 21) with (512 * 4096) in *. lia.
Qed.

Lemma pages_of_bytes n : 0 < n → (PAGE_SIZE | n) → n < 2 ^ 64 → ushr n PAGE_SHIFT * PAGE_SIZE = n ∧ 0 < ushr n PAGE_SHIFT.
Proof.
  intros Hn [k ->] Hu. change PAGE_SIZE with 4096 in *. change PAGE_SHIFT with 12. unfold ushr. change (12 mod 64) with 12.
  rewrite Z.shiftr_div_pow2 by lia. change (2 ^ 12) with 4096. rewrite Z.div_mul by lia. lia.
Qed.

Section pages.
Context {S : Type} {PA : PageAllocator S}.
Context (free_lists : Z → Z).
Notation HS := (HeapState S).

Inductive os_run : nat → S → S → Prop :=
| os_done k o : os_run k o o
| os_grant k o n va o1 o2 :
    0 < n * PAGE_SIZE ≤ 2 ^ 21 → va_alloc_pages n o = Ret (Ok va, o1) → os_run k o1 o2 → os_run (Datatypes.S k) o o2
| os_refuse k o n e o1 o2 :
    0 < n * PAGE_SIZE ≤ 2 ^ 21 → va_alloc_pages n o = Ret (Err e, o1) → os_run k o1 o2 → os_run k o o2
| os_release k o va n r o1 o2 :
    va_free_pages va n o = Ret (r, o1) → os_run k o1 o2 → os_run k o o2.

Lemma os_run_mono i j o o' : (i ≤ j)%nat → os_run i o o' → os_run j o o'.
Proof.
  intros Hle Hr. revert j Hle. induction Hr as [|k o n va o1 o2 Hn Ha _ IH| |]; intros j Hle; [constructor| |..].
  - destruct j as [|j]; [lia|]. eapply os_grant; [exact Hn|exact Ha|apply IH; lia].
  - eapply os_refuse; eauto.
  - eapply os_release; eauto.
Qed.

Lemma os_run_trans i j o1 o2 o3 : os_run i o1 o2 → os_run j o2 o3 → os_run (i + j) o1 o3.
Proof.
  induction 1 as [i o| | |]; intros H3; [apply (os_run_mono j); [lia|done]| |..].
  - eapply os_grant; eauto.
  - eapply os_refuse; eauto.
  - eapply os_release; eauto.
Qed.

(** Code that has at most [k] requests granted. *)
Definition asks {A} (k : nat) (m : M HS A) : Prop := ∀ s a s', m s = Ret (a, s') → os_run k (os s) (os s').

Lemma asks_bind {A B} i j (m : M HS A) (f : A → M HS B) : asks i m → (∀ a, asks j (f a)) → asks (i + j) (m ≫= f).
Proof. intros Hm Hf s b s'' (a & s' & H1 & H2)%M_bind_inv. eapply os_run_trans; [by eapply Hm|by eapply Hf]. Qed.
Lemma asks_bind0 {A B} (m : M HS A) (f : A → M HS B) : asks 0 m → (∀ a, asks 0 (f a)) → asks 0 (m ≫= f).
Proof. apply (asks_bind 0 0). Qed.
Lemma asks_bindR {A B} (m : M HS (Result A)) (f : A → M HS (Result B)) : asks 0 m → (∀ a, asks 0 (f a)) → asks 0 (bindR m f).
Proof. intros Hm Hf. apply asks_bind0; [done|]. intros [a|e]; [apply Hf|]. intros s b s' [= _ <-]. constructor. Qed.

(** Code that does not touch the page allocator. *)
Lemma asks_same {A} (m : M HS A) : (∀ s a s', m s = Ret (a, s') → os s' = os s) → asks 0 m.
Proof. intros Hm s a s' ->%Hm. constructor. Qed.

Lemma asks_ret {A} (a : A) : asks 0 (mret a).
Proof. apply asks_same. by intros s x s' [= _ <-]. Qed.
Lemma asks_fail {A} : asks 0 (panic : M HS A).
Proof. apply asks_same. intros s x s' [=]. Qed.
Lemma asks_get : asks 0 (getS : M HS HS).
Proof. apply asks_same. by intros s x s' [= _ <-]. Qed.
Lemma asks_assert b : asks 0 (zx_assert b : M HS unit).
Proof. destruct b; [apply asks_ret|apply asks_fail]. Qed.
Lemma asks_heap f : asks 0 (on_heap (S:=S) f).
Proof. apply asks_same. by intros s x s' [= _ <-]. Qed.
Lemma asks_flists {A} (m : M lmem A) : asks 0 (on_flists (S:=S) m).
Proof. apply asks_same. intros s a s' Hr. unfold on_flists, zoom in Hr. destruct (m (flists s)) as [[x l]| | |]; try done. by injection Hr as _ <-. Qed.
Lemma asks_header p : asks 0 (header_at (S:=S) p).
Proof. apply asks_same. intros s a s' Hr. unfold header_at, deref in Hr. destruct (headers s !! p); [|done]. by injection Hr as _ <-. Qed.
Lemma asks_check p n : asks 0 (check_mapped (PA:=PA) p n).
Proof. apply asks_same. intros s a s' (s0 & s1 & [= <- <-] & Hr)%M_bind_inv. destruct (is_mapped _ _ _); [|done]. by injection Hr as _ <-. Qed.
Lemma asks_lift {A} (o : outcome A) : asks 0 (lift_o (S:=S) o).
Proof. apply asks_same. intros s a s' Hr. destruct o; try done. by injection Hr as _ <-. Qed.
Lemma asks_write p h : asks 0 (write_header (PA:=PA) p h).
Proof. apply asks_bind0; [apply asks_check|]. intros _. apply asks_same. by intros s x s' [= _ <-]. Qed.
Lemma asks_node p : asks 0 (write_node (PA:=PA) p).
Proof. apply asks_bind0; [apply asks_check|]. intros _. apply asks_same. by intros s x s' [= _ <-]. Qed.

#[local] Hint Resolve asks_ret asks_fail asks_get asks_assert asks_heap asks_flists asks_header asks_check asks_lift
  asks_write asks_node : asks.

Ltac asks :=
  repeat first
    [ progress eauto with asks
    | apply asks_bindR; [|intros ?]
    | apply asks_bind0; [|intros ?]
    | case_match ].

Lemma asks_free_list i : asks 0 (free_list (S:=S) free_lists i).
Proof. unfold free_list. asks. Qed.
Lemma asks_bits i : asks 0 (bits_word (S:=S) i).
Proof. unfold bits_word. asks. Qed.
#[local] Hint Resolve asks_free_list asks_bits : asks.

Lemma asks_create_free a l n : asks 0 (create_free_area free_lists a l n).
Proof. unfold create_free_area, set_free_list_bit, set_bits_word, set_remaining. asks. Qed.
Lemma asks_create_header a o n l : asks 0 (create_allocation_header (PA:=PA) a o n l).
Proof. unfold create_allocation_header. asks. Qed.
Lemma asks_unlink x b : asks 0 (unlink_free free_lists x b).
Proof. unfold unlink_free, set_flag, set_remaining, clear_free_list_bit, set_bits_word. asks. Qed.
#[local] Hint Resolve asks_create_free asks_create_header asks_unlink : asks.

Lemma asks_add_to_heap a n : asks 0 (add_to_heap free_lists a n).
Proof. unfold add_to_heap. asks. Qed.

Lemma asks_find b : asks 0 (find_nonempty_bucket (S:=S) b).
Proof.
  assert (∀ n i, asks 0 (find_word (S:=S) n i)) as Hw.
  { intros n. induction n as [|n IH]; intros i; cbn [find_word]; asks. }
  unfold find_nonempty_bucket. asks.
Qed.

Lemma asks_alloc_from sz r b : asks 0 (alloc_from free_lists sz r b).
Proof. unfold alloc_from, right_header, set_left, set_size. asks. Qed.

(** ** Releases *)

Lemma asks_free_to_os va n : asks 0 (free_to_os va n).
Proof.
  assert (∀ va n, asks 0 (on_os (va_free_pages va n))) as Hf.
  { intros v k s a s' Hr. unfold on_os, zoom in Hr. destruct (va_free_pages v k (os s)) as [[r o]| | |] eqn:E; try done.
    injection Hr as <- <-. eapply os_release; [exact E|constructor]. }
  unfold free_to_os, heap_page_free, set_heap_size. asks.
Qed.
#[local] Hint Resolve asks_free_to_os : asks.

Lemma asks_free_memory va l n : asks 0 (free_memory free_lists va l n).
Proof.
  unfold free_memory, whole_area, is_start_of_os_allocation, is_end_of_os_allocation, possibly_free_to_os, set_cached. asks.
Qed.
#[local] Hint Resolve asks_free_memory : asks.

Lemma asks_cmpct_free p : asks 0 (cmpct_free free_lists p).
Proof.
  assert (∀ p, asks 0 (is_tagged_as_free (S:=S) p)) as Ht by (intros q; unfold is_tagged_as_free; asks).
  assert (∀ p, asks 0 (right_header (S:=S) p)) as Hr by (intros q; unfold right_header; asks).
  assert (∀ p, asks 0 (unlink_free_unknown_bucket free_lists p)) as Hu by (intros q; unfold unlink_free_unknown_bucket; asks).
  unfold cmpct_free, cmpct_free_internal, set_left. asks; auto.
Qed.

(** ** Requests *)

(** One request, granted or not. *)
Lemma page_alloc_asks n s r s' :
  heap_page_alloc n s = Ret (r, s') → n * PAGE_SIZE ≤ 2 ^ 21 →
  os_run (match r with Ok _ => 1 | Err _ => 0 end) (os s) (os s').
Proof.
  unfold heap_page_alloc. intros ([] & s1 & H1 & H2)%M_bind_inv Hn. unfold zx_assert in H1.
  destruct (Z.ltb_spec 0 n) as [Hp|]; [|done]. injection H1 as <-. unfold bindR in H2.
  apply M_bind_inv in H2 as (x & s2 & H1 & H2). unfold on_os, zoom in H1.
  destruct (va_alloc_pages n (os s)) as [[y o]| | |] eqn:E; try done. injection H1 as -> <-.
  assert (0 < n * PAGE_SIZE ≤ 2 ^ 21) as Hb by (change PAGE_SIZE with 4096 in *; lia).
  destruct x; injection H2 as <- <-; cbn [os]; [eapply os_grant|eapply os_refuse]; [exact Hb|exact E|apply os_done|exact Hb|exact E|apply os_done].
Qed.

(** The cached area is used, given back, or absent. *)
Definition cached_or (sz os_alloc : Z) : M HS (Result (Z * Z)) :=
  if os_alloc =? null then mret (Ok (0, sz))
  else
    h ← header_at os_alloc;
    if sz <=? hsize h then
      zx_assert (IS_PAGE_ALIGNED os_alloc);;
      zx_assert (IS_PAGE_ALIGNED (hsize h));;
      set_cached null;;
      mret (Ok (os_alloc, hsize h))
    else
      _ ←? free_to_os os_alloc (hsize h);
      set_cached null;;
      mret (Ok (0, sz)).

Lemma cached_or_asks sz a : asks 0 (cached_or sz a).
Proof. unfold cached_or, set_cached. asks. Qed.

Lemma cached_or_size sz a s p s' : cached_or sz a s = Ret (Ok p, s') → fst p = 0 → snd p = sz.
Proof.
  unfold cached_or. destruct (Z.eqb_spec a null) as [|Hne]; [by intros [= <- _]|].
  intros (h & s1 & _ & H)%M_bind_inv. destruct (sz <=? hsize h).
  - apply M_bind_inv in H as ([] & s2 & _ & H). apply M_bind_inv in H as ([] & s3 & _ & H).
    apply M_bind_inv in H as ([] & s4 & _ & H). by injection H as <- _.
  - unfold bindR in H. apply M_bind_inv in H as ([[]|e] & s2 & _ & H); [|done].
    apply M_bind_inv in H as ([] & s3 & _ & H). by injection H as <- _.
Qed.

(** [heap_grow] has at most one request granted, and none when it fails. *)
Lemma heap_grow_asks sz0 s r s' :
  heap_grow free_lists sz0 s = Ret (r, s') → 0 ≤ sz0 →
  os_run (match r with Ok _ => 1 | Err _ => 0 end) (os s) (os s').
Proof.
  unfold heap_grow. intros ([] & s1 & H1 & H2)%M_bind_inv Hs. unfold zx_assert in H1.
  destruct (Z.leb_spec sz0 HEAP_LARGE_ALLOC_BYTES) as [Hle|]; [|done]. injection H1 as <-.
  destruct (grow_size sz0 ltac:(done)) as [Hn Hd]. cbv zeta in H2. set (sz := ROUNDUP _ _) in *.
  apply M_bind_inv in H2 as (s0 & s1 & [= <- <-] & H2). unfold bindR at 1 in H2. apply M_bind_inv in H2 as (p & s1 & H1 & H2).
  fold (cached_or sz (cached_os_alloc (heap s))) in H1. pose proof (cached_or_asks _ _ _ _ _ H1) as Hr1.
  destruct p as [p|e]; [|by injection H2 as <- <-]. pose proof (cached_or_size _ _ _ _ _ H1) as Hp.
  unfold bindR at 1 in H2. apply M_bind_inv in H2 as (area & s2 & H2 & H3).
  assert (os_run (match area with Ok _ => 1 | Err _ => 0 end) (os s1) (os s2)) as Hr2.
  { destruct (Z.eqb_spec (fst p) 0) as [E|]; [|injection H2 as <- <-; constructor]. rewrite (Hp E) in *.
    unfold bindR in H2. apply M_bind_inv in H2 as (x & s3 & H2 & H4).
    apply page_alloc_asks in H2; [|destruct (pages_of_bytes sz) as [-> _]; [lia|done|lia|lia]].
    destruct x as [a|e]; [|by injection H4 as <- <-]. by injection H4 as <- <-. }
  destruct area as [a|e]; [|injection H3 as <- <-; by apply (os_run_trans 0 0 _ _ _ Hr1)].
  pose proof (asks_add_to_heap _ _ _ _ _ H3) as Hr3. destruct r as [u|e].
  - apply (os_run_trans 0 1 _ _ _ Hr1). by apply (os_run_trans 1 0 _ _ _ Hr2).
  - exfalso. unfold add_to_heap in H3. do 3 (apply M_bind_inv in H3 as (? & ? & _ & H3)). done.
Qed.

Lemma grow_loop_asks fuel growby r : 0 ≤ r → 0 ≤ growby → asks 1 (grow_loop free_lists fuel growby r).
Proof.
  intros Hr. revert growby. induction fuel as [|fuel IH]; intros growby Hg s g s' H; [done|]. cbn [grow_loop] in H.
  apply M_bind_inv in H as (x & s1 & H1 & H2). apply heap_grow_asks in H1; [|done].
  destruct x as [u|e]; [by injection H2 as _ <-|]. apply (os_run_trans 0 1 _ _ _ H1).
  destruct (growby <=? r); [injection H2 as _ <-; constructor|]. eapply IH; [|exact H2]. lia.
Qed.

(** An allocation has at most one request granted. *)
Lemma cmpct_alloc_asks fuel sz : asks 1 (cmpct_alloc free_lists fuel sz).
Proof.
  unfold cmpct_alloc. assert (asks 1 (mret null : M HS Z)) as Hnull by (intros s a s' [= _ <-]; constructor).
  destruct (sz =? 0); [done|]. destruct (HEAP_MAX_ALLOC_SIZE <? sz); [done|].
  apply (asks_bind 0 1); [apply asks_lift|]. intros p. cbv zeta. set (r := uadd _ _).
  assert (0 ≤ r) as Hr by (unfold r, uadd, usize_wrap; apply Z.mod_pos_bound; lia).
  apply (asks_bind 1 0). 2:{ intros [b|]; [apply asks_alloc_from|apply asks_ret]. }
  unfold alloc_bucket. apply (asks_bind 0 1); [apply asks_find|]. intros [b|e]; [intros s a s' [= _ <-]; constructor|].
  apply (asks_bind 0 1); [apply asks_get|]. intros s0. apply (asks_bind 0 1); [apply asks_assert|]. intros [].
  apply (asks_bind 1 0); [apply grow_loop_asks; [done|]|].
  { change HEAP_LARGE_ALLOC_BYTES with (2 ^ 21 - 32). change HEAP_USABLE_GROW_SIZE with (2 ^ 18 - 32). lia. }
  intros g. pose proof (asks_find (fst p)). asks.
Qed.
End pages.
