(* ===== verification/HeapLists.v ===== *)
(** * The free lists of the kernel heap

    What the heap (Cmpctmalloc.v) relies on from the page allocator, and its
    free lists, bitmap and byte count as one representation of a list of free
    blocks: [create_free_area] adds a block to it and [unlink_free] takes one
    out, each with the exact set of bytes it writes. *)

From S2P Require Import Prelude Defs LinkedList Cmpctmalloc.

#[local] Existing Instance free_t_linked.

(** ** What the heap relies on *)

Definition disj (r r' : Z * Z) : Prop := r.1 + r.2 ≤ r'.1 ∨ r'.1 + r'.2 ≤ r.1.
Definition range_ok (r : Z * Z) : Prop :=
  0 < r.1 ∧ 0 < r.2 ∧ r.1 + r.2 < 2 ^ 64 ∧ (PAGE_SIZE | r.1) ∧ (PAGE_SIZE | r.2).
Definition total (l : list (Z * Z)) : Z := foldr (λ r, Z.add r.2) 0 l.

(** The pages handed out are mapped, page aligned, disjoint from each other
    and within a bounded total; a failed allocation changes nothing and a
    mapped range can be given back. *)
Class PageAllocatorLaws (S : Type) `{PageAllocator S} := {
  os_ok : S → Prop;
  os_ranges s : os_ok s → Forall range_ok (mapped s);
  os_disjoint s : os_ok s → ForallOrdPairs disj (mapped s);
  os_total s : os_ok s → total (mapped s) < 2 ^ 63;
  os_alloc s n : os_ok s → 0 < n →
    ∃ r s', va_alloc_pages n s = Ret (r, s') ∧ os_ok s' ∧
      match r with
      | Ok va => mapped s' = (va, n * PAGE_SIZE) :: mapped s
      | Err _ => mapped s' = mapped s
      end;
  os_free s va n : os_ok s → 0 < n → (va, n * PAGE_SIZE) ∈ mapped s →
    ∃ s', va_free_pages va n s = Ret (Ok (), s') ∧ os_ok s' ∧
      mapped s ≡ₚ (va, n * PAGE_SIZE) :: mapped s';
}.

Lemma disj_sym r r' : disj r r' → disj r' r.
Proof. unfold disj. tauto. Qed.

Lemma ForallOrdPairs_perm {A} (R : A → A → Prop) l l' :
  (∀ x y, R x y → R y x) → l ≡ₚ l' → ForallOrdPairs R l → ForallOrdPairs R l'.
Proof.
  intros Hsym Hp. induction Hp as [|x l l' Hp IH|x y l|l1 l2 l3 _ IH1 _ IH2]; intros Hf; auto.
  - inversion_clear Hf as [|? ? Hx Hl]. constructor; [by rewrite <-Hp|auto].
  - inversion_clear Hf as [|? ? Hy Hl]. inversion_clear Hl as [|? ? Hx Hl']. inversion_clear Hy as [|? ? Hxy Hyl].
    constructor; [constructor; auto|by constructor].
Qed.

Lemma mapped_head_disj r l r' : ForallOrdPairs disj l → l ≡ₚ r :: r' → Forall (disj r) r'.
Proof.
  intros Hf Hp. apply (ForallOrdPairs_perm _ _ _ disj_sym Hp) in Hf. by inversion Hf.
Qed.

(** ** The free lists *)

Section views.
Context {S : Type} `{PageAllocatorLaws S}.
Context (free_lists : Z → Z).

(** The bucket of a free block of [sz] bytes. *)
Definition bucket_of (sz : Z) (b : Z) : Prop := size_to_index_freeing (usub sz SIZE_OF_HEADER_T) = Ret b.
Definition free_size_ok (sz : Z) : Prop := SIZE_OF_FREE_T ≤ sz < 2 ^ 21 ∧ (8 | sz).

(** The lists, the bitmap and the byte count hold exactly the free blocks
    [frees]: pairs of address and size. *)
Definition lists_inv (s : HeapState S) (frees : list (Z * Z)) : Prop :=
  bits_wf (free_list_bits (heap s)) ∧ remaining (heap s) = total frees ∧ NoDup frees.*1 ∧
  ∃ fl : Z → list Z,
    (∀ b, is_bucket b → dll (flists s) (free_lists b) (into_node <$> fl b) ∧
       bucket_bit (free_list_bits (heap s)) b = negb (bool_decide (fl b = []))) ∧
    (∀ b b', is_bucket b → is_bucket b' → b ≠ b' →
       free_lists b :: (into_node <$> fl b) ## free_lists b' :: (into_node <$> fl b')) ∧
    (∀ b p, is_bucket b → p ∈ fl b ↔ ∃ sz, (p, sz) ∈ frees ∧ bucket_of sz b).

Record view := mkView {
  v_os : S; v_cached : Z; v_size : Z; v_hdrs : gmap Z header_t; v_frees : list (Z * Z);
  v_data : gmap Z Z;
}.

Definition repr (s : HeapState S) (v : view) : Prop :=
  os s = v_os v ∧ cached_os_alloc (heap s) = v_cached v ∧ size (heap s) = v_size v ∧
  headers s = v_hdrs v ∧ mem_bytes s = v_data v ∧ lists_inv s (v_frees v).

Definition put (p : Z) (h : header_t) (m : gmap Z header_t) : gmap Z header_t := <[p := h]> (keep p m).

(** A write to [p, p + 16) that touches no node of a free block and no list
    head. *)
Definition clear_of_nodes (frees : list (Z * Z)) (p : Z) : Prop :=
  (∀ x sz, (x, sz) ∈ frees → p ≤ x ∨ x + 32 ≤ p) ∧
  (∀ b, is_bucket b → free_lists b + 16 ≤ p ∨ p + 16 ≤ free_lists b).

Lemma keep_lookup {A} p (m : gmap Z A) q :
  keep p m !! q = if decide (q + 16 ≤ p ∨ p + 16 ≤ q) then m !! q else None.
Proof.
  unfold keep, keep_n. rewrite map_lookup_filter. destruct (m !! q) as [x|]; simpl.
  - by repeat case_guard; repeat case_decide.
  - by case_decide.
Qed.

Lemma put_lookup p h m q :
  put p h m !! q = if decide (q = p) then Some h else if decide (q + 16 ≤ p ∨ p + 16 ≤ q) then m !! q else None.
Proof. unfold put. rewrite lookup_insert, keep_lookup. repeat case_decide; subst; done || congruence. Qed.

Lemma put_far p h m q : q + 16 ≤ p ∨ p + 16 ≤ q → put p h m !! q = m !! q.
Proof. intros Hq. rewrite put_lookup, decide_False, decide_True by lia. done. Qed.
Lemma put_same p h m : put p h m !! p = Some h.
Proof. by rewrite put_lookup, decide_True. Qed.
Lemma keep_far {A} p (m : gmap Z A) q : q + 16 ≤ p ∨ p + 16 ≤ q → keep p m !! q = m !! q.
Proof. intros Hq. by rewrite keep_lookup, decide_True. Qed.

Lemma wipe_lookup p n d q : wipe p n d !! q = if decide (q < p ∨ p + n ≤ q) then d !! q else None.
Proof.
  unfold wipe. rewrite map_lookup_filter. destruct (d !! q) as [x|]; simpl.
  - by repeat case_guard; repeat case_decide.
  - by case_decide.
Qed.
Lemma wipe_far p n d q : q < p ∨ p + n ≤ q → wipe p n d !! q = d !! q.
Proof. intros Hq. by rewrite wipe_lookup, decide_True. Qed.

Lemma check_mapped_run s p n : is_mapped (os s) p n = true → check_mapped p n s = Ret ((), s).
Proof. intros Hm. unfold check_mapped. erewrite M_bind_run by reflexivity. by rewrite Hm. Qed.

Lemma is_mapped_spec o p n r :
  r ∈ mapped o → r.1 ≤ p → p + n ≤ r.1 + r.2 → is_mapped o p n = true.
Proof.
  intros Hr Hlo Hhi. unfold is_mapped. apply existsb_exists. exists r.
  split; [by apply list_elem_of_In|]. apply andb_true_intro. rewrite !Z.leb_le. done.
Qed.

(** The lists survive changes of other parts of memory. *)
Lemma lists_inv_stable s s' frees :
  lists_inv s frees → heap s' = heap s → refs (flists s') = refs (flists s) →
  (∀ q, (∃ x sz, (x, sz) ∈ frees ∧ q = x + 16) ∨ (∃ b, is_bucket b ∧ q = free_lists b) →
     nodes (flists s') !! q = nodes (flists s) !! q) →
  lists_inv s' frees.
Proof.
  intros (Hw & Hr & Hnd & fl & Hd & Hdis & Hin) Hh Hrefs Hn. unfold lists_inv. rewrite Hh.
  split_and!; [done|done|done|]. exists fl. split_and!; [|done|done].
  intros b Hb. destruct (Hd b Hb) as [Hdll Hbit]. split; [|done].
  apply (dll_stable _ _ _ _ Hdll); [by rewrite Hrefs|].
  intros q [->|Hq]%elem_of_cons; apply Hn; [right; eauto|left].
  apply list_elem_of_fmap in Hq as (x & -> & Hx). apply (Hin b x Hb) in Hx as (sz & Hx & _). eauto.
Qed.

(** Changing the typed memory at one place: the lists survive when no node of
    a free block and no list head is there. *)
Lemma lists_inv_write s s' frees p :
  lists_inv s frees → clear_of_nodes frees p → heap s' = heap s → refs (flists s') = refs (flists s) →
  (∀ q, q + 16 ≤ p ∨ p + 16 ≤ q → nodes (flists s') !! q = nodes (flists s) !! q) → lists_inv s' frees.
Proof.
  intros Hl [Hfr Hhd] Hh Hrefs Hn. apply (lists_inv_stable s); [done|done|done|].
  intros q [(x & sz & Hx & ->)|(b & Hb & ->)]; apply Hn.
  - destruct (Hfr x sz Hx); lia.
  - destruct (Hhd b Hb); lia.
Qed.

Lemma write_header_nodes s v p h :
  repr s v → is_mapped (v_os v) p 16 = true → clear_of_nodes (v_frees v) p →
  ∃ s', write_header p h s = Ret ((), s') ∧
    repr s' (mkView (v_os v) (v_cached v) (v_size v) (put p h (v_hdrs v)) (v_frees v) (wipe p 16 (v_data v))) ∧
    ∀ q, q + 16 ≤ p ∨ p + 16 ≤ q → nodes (flists s') !! q = nodes (flists s) !! q.
Proof.
  intros (Ho & Hc & Hs & Hh & Hdt & Hl) Hm Hcl. unfold write_header.
  erewrite M_bind_run by (apply check_mapped_run; rewrite Ho; exact Hm).
  eexists. split; [reflexivity|]. simpl. split; [|intros q; apply keep_far].
  unfold repr; simpl. rewrite Hh, Hdt. split_and!; try done.
  apply (lists_inv_write s _ _ p); try done. simpl. intros q. apply keep_far.
Qed.

Lemma write_header_spec s v p h :
  repr s v → is_mapped (v_os v) p 16 = true → clear_of_nodes (v_frees v) p →
  ∃ s', write_header p h s = Ret ((), s') ∧
    repr s' (mkView (v_os v) (v_cached v) (v_size v) (put p h (v_hdrs v)) (v_frees v) (wipe p 16 (v_data v))).
Proof. intros Hr Hm Hc. destruct (write_header_nodes s v p h Hr Hm Hc) as (s' & ? & ? & _). by exists s'. Qed.

Lemma write_node_spec s v p :
  repr s v → is_mapped (v_os v) p 16 = true →
  (∀ x sz, (x, sz) ∈ v_frees v → p + 16 ≤ x + 16 ∨ x + 32 ≤ p) →
  (∀ b, is_bucket b → free_lists b + 16 ≤ p ∨ p + 16 ≤ free_lists b) →
  ∃ s', write_node p s = Ret ((), s') ∧ nodes (flists s') !! p = Some ListNode_new ∧
    repr s' (mkView (v_os v) (v_cached v) (v_size v) (keep p (v_hdrs v)) (v_frees v) (wipe p 16 (v_data v))).
Proof.
  intros (Ho & Hc & Hs & Hh & Hdt & Hl) Hm Hfr Hhd. unfold write_node.
  erewrite M_bind_run by (apply check_mapped_run; rewrite Ho; exact Hm).
  eexists. split; [reflexivity|]. simpl. split; [by rewrite lookup_insert_eq|].
  unfold repr; simpl. rewrite Hh, Hdt. split_and!; try done.
  apply (lists_inv_write s _ _ p); [done| |done|done|].
  - split; [intros x sz Hx; destruct (Hfr x sz Hx); lia|done].
  - simpl. intros q Hq. rewrite lookup_insert_ne by lia. by apply keep_far.
Qed.

Lemma header_at_run (s : HeapState S) p h : headers s !! p = Some h → header_at p s = Ret (h, s).
Proof. apply (deref_run (λ s, headers s !! p)). Qed.

(** The field updates. *)
Lemma set_left_spec s v p h x :
  repr s v → v_hdrs v !! p = Some h → is_mapped (v_os v) p 16 = true → clear_of_nodes (v_frees v) p →
  ∃ s', set_left p x s = Ret ((), s') ∧
    repr s' (mkView (v_os v) (v_cached v) (v_size v) (put p (mkHdr x (hsize h) (flag h)) (v_hdrs v)) (v_frees v)
               (wipe p 16 (v_data v))).
Proof.
  intros Hr Hp Hm Hc. pose proof Hr as (_ & _ & _ & Hh & _ & _). unfold set_left.
  erewrite M_bind_run by (apply header_at_run; rewrite Hh; exact Hp). by apply write_header_spec.
Qed.
Lemma set_size_spec s v p h x :
  repr s v → v_hdrs v !! p = Some h → is_mapped (v_os v) p 16 = true → clear_of_nodes (v_frees v) p →
  ∃ s', set_size p x s = Ret ((), s') ∧
    repr s' (mkView (v_os v) (v_cached v) (v_size v) (put p (mkHdr (left h) x (flag h)) (v_hdrs v)) (v_frees v)
               (wipe p 16 (v_data v))).
Proof.
  intros Hr Hp Hm Hc. pose proof Hr as (_ & _ & _ & Hh & _ & _). unfold set_size.
  erewrite M_bind_run by (apply header_at_run; rewrite Hh; exact Hp). by apply write_header_spec.
Qed.

Lemma total_perm l l' : l ≡ₚ l' → total l = total l'.
Proof. unfold total. induction 1; simpl in *; lia. Qed.

Lemma into_node_eq p : into_node p = p + 16.
Proof. unfold into_node; simpl. done. Qed.

Lemma into_node_inj x y : into_node x = into_node y → x = y.
Proof. rewrite !into_node_eq. lia. Qed.

(** The lists of [s] with bucket [b] replaced by [l]. *)
Definition upd_fl (b : Z) (l : list Z) (fl : Z → list Z) : Z → list Z := λ x, if decide (x = b) then l else fl x.

(** One list changes, and with it its bit and the byte count. *)
Lemma lists_inv_bucket s m' bits' rem frees' b l' ps :
  ∀ fl : Z → list Z,
  is_bucket b → NoDup frees'.*1 → rem = total frees' →
  (∀ c, is_bucket c → c ≠ b → dll (flists s) (free_lists c) (into_node <$> fl c) ∧
     bucket_bit (free_list_bits (heap s)) c = negb (bool_decide (fl c = []))) →
  (∀ c c', is_bucket c → is_bucket c' → c ≠ c' →
     free_lists c :: (into_node <$> fl c) ## free_lists c' :: (into_node <$> fl c')) →
  frame (flists s) m' ps → dll m' (free_lists b) (into_node <$> l') →
  (∀ q c, q ∈ ps → is_bucket c → c ≠ b → q ∉ free_lists c :: (into_node <$> fl c)) →
  (∀ q, q ∈ l' → q ∈ fl b ∨ into_node q ∈ ps) →
  bit_updated b (negb (bool_decide (l' = []))) (free_list_bits (heap s)) bits' →
  (∀ c p, is_bucket c → p ∈ upd_fl b l' fl c ↔ ∃ sz, (p, sz) ∈ frees' ∧ bucket_of sz c) →
  lists_inv (mkHS (mkHeap (size (heap s)) rem (cached_os_alloc (heap s)) bits') (headers s) m' (mem_bytes s) (os s)) frees'.
Proof.
  intros fl Hb Hnd Hrem Hd Hdis Hf Hdb Hps Hl' [Hbw Hbits] Hin'. split_and!; simpl; try done.
  exists (upd_fl b l' fl). split_and!; [|clear Hin'|done].
  - intros c Hc. rewrite Hbits by done. unfold upd_fl. case_decide as E; [subst; done|].
    destruct (Hd c Hc E) as [Hdc Hbc]. split; [|done]. apply (dll_frame _ _ _ _ _ Hdc Hf).
    intros q Hq Hq'. by apply (Hps q c).
  - assert (∀ c, is_bucket c → c ≠ b → free_lists b :: (into_node <$> l') ## free_lists c :: (into_node <$> fl c)) as Hone.
    { intros c Hc Hne q Hq1 Hq2. apply elem_of_cons in Hq1 as [->|Hq1].
      - apply (Hdis b c Hb Hc ltac:(done) (free_lists b)); [set_solver|done].
      - apply list_elem_of_fmap in Hq1 as (x & -> & Hx). destruct (Hl' x Hx) as [Hx'|Hx'].
        + apply (Hdis b c Hb Hc ltac:(done) (into_node x)); [|done]. apply elem_of_cons; right.
          apply list_elem_of_fmap. eauto.
        + by apply (Hps (into_node x) c). }
    intros c c' Hc Hc' Hne. unfold upd_fl. do 2 case_decide; subst; [done|by apply Hone| |by apply Hdis].
    intros q Hq1 Hq2. by apply (Hone c Hc ltac:(done) q).
Qed.

Lemma bucket_of_fun sz b c : bucket_of sz b → bucket_of sz c → b = c.
Proof. unfold bucket_of. congruence. Qed.

Lemma bucket_of_exists sz : free_size_ok sz → ∃ b, bucket_of sz b ∧ is_bucket b.
Proof.
  intros [Hsz _]. unfold bucket_of. change SIZE_OF_FREE_T with 32 in Hsz. change SIZE_OF_HEADER_T with 16.
  destruct (size_to_index_freeing_spec (sz - 16)) as (b & Hb & Hr & _); [lia|].
  exists b. rewrite usub_small by (unfold is_usize; lia). done.
Qed.

(** [fl] sorts the free blocks into buckets. *)
Definition buckets (fl : Z → list Z) (frees : list (Z * Z)) : Prop :=
  ∀ c p, is_bucket c → p ∈ fl c ↔ ∃ sz, (p, sz) ∈ frees ∧ bucket_of sz c.

Lemma buckets_add fl frees b a sz :
  buckets fl frees → bucket_of sz b → buckets (upd_fl b (a :: fl b) fl) ((a, sz) :: frees).
Proof.
  unfold buckets. intros Hin Hbk c p Hcb. unfold upd_fl. case_decide as E; [subst c|].
  - rewrite elem_of_cons, Hin by done. split.
    + intros [->|(szx & ? & ?)]; [exists sz; split; [set_solver|done]|exists szx; split; [set_solver|done]].
    + intros (szx & [[= -> ->]|Hx]%elem_of_cons & Hbx); [by left|right; eauto].
  - rewrite Hin by done. split.
    + intros (szx & ? & ?). exists szx. split; [set_solver|done].
    + intros (szx & [[= -> ->]|Hx]%elem_of_cons & Hbx); [|eauto]. destruct E. by apply (bucket_of_fun sz).
Qed.

Lemma buckets_remove fl frees b a sz l :
  buckets fl ((a, sz) :: frees) → bucket_of sz b → a ∉ frees.*1 → (∀ p, p ∈ l ↔ p ∈ fl b ∧ p ≠ a) →
  buckets (upd_fl b l fl) frees.
Proof.
  unfold buckets. intros Hin Hbk Hna Hl c p Hcb. unfold upd_fl. case_decide as E; [subst c; rewrite Hl|]; rewrite Hin by done.
  - split.
    + intros [(szx & [[= -> ->]|Hx]%elem_of_cons & ?) Hne]; [done|eauto].
    + intros (szx & Hx & ?). split; [exists szx; split; [set_solver|done]|].
      intros ->. apply Hna. apply list_elem_of_fmap. by exists (a, szx).
  - split; [|intros (szx & ? & ?); exists szx; split; [set_solver|done]].
    intros (szx & [[= -> ->]|Hx]%elem_of_cons & Hbx); [|eauto]. destruct E. by apply (bucket_of_fun sz).
Qed.

(** The second half of [create_free_area]: the block whose node is in place
    joins the list of its bucket. *)
Lemma link_free_spec s v a sz b :
  repr s v → free_size_ok sz → 0 < a → bucket_of sz b → is_bucket b →
  is_Some (nodes (flists s) !! (a + 16)) →
  (∀ x szx, (x, szx) ∈ v_frees v → a + 32 ≤ x ∨ x + 32 ≤ a) →
  (∀ b, is_bucket b → free_lists b + 16 ≤ a ∨ a + 32 ≤ free_lists b) →
  total (v_frees v) + sz < 2 ^ 64 → 0 ≤ total (v_frees v) →
  ∃ s', (set_free_list_bit b;; fl ← free_list free_lists b; on_flists (List_add_head fl a);;
         set_remaining (λ r, uadd r sz)) s = Ret ((), s') ∧
    repr s' (mkView (v_os v) (v_cached v) (v_size v) (v_hdrs v) ((a, sz) :: v_frees v) (v_data v)).
Proof.
  intros (Ho & Hc & Hs & Hh & Hdt & Hw & Hrem & Hnd & fl & Hd & Hdis & Hin) Hsz Ha Hbk Hb Hn Hfar Hheads Htot Htot0.
  destruct (set_free_list_bit_spec s b Hw Hb) as (bits' & Hrun & Hbits). rewrite (M_bind_run _ _ _ _ _ Hrun).
  unfold free_list. rewrite (proj2 (Z.ltb_lt b NUMBER_OF_BUCKETS)) by apply Hb. erewrite M_bind_run by reflexivity.
  assert (∀ c, is_bucket c → into_node a ∉ free_lists c :: (into_node <$> fl c)) as Hna.
  { intros c Hcb. rewrite into_node_eq. intros [E|Hq]%elem_of_cons.
    - destruct (Hheads c Hcb); lia.
    - apply list_elem_of_fmap in Hq as (x & E & Hx). rewrite into_node_eq in E.
      apply (Hin c x Hcb) in Hx as (szx & Hx & _). destruct (Hfar x szx Hx); lia. }
  destruct (List_add_head_spec (flists s) (free_lists b) _ a (proj1 (Hd b Hb)) (Hna b Hb)) as (m' & Hrun4 & Hd4 & Hf4).
  { rewrite into_node_eq. unfold null. lia. }
  { by rewrite into_node_eq. }
  assert (on_flists (List_add_head (free_lists b) a) (with_bits bits' s) =
    Ret ((), mkHS (heap (with_bits bits' s)) (headers s) m' (mem_bytes s) (os s))) as Hrun5.
  { unfold on_flists, zoom. simpl. by rewrite Hrun4. }
  rewrite (M_bind_run _ _ _ _ _ Hrun5). eexists. split; [reflexivity|]. unfold repr; simpl.
  split_and!; try done. rewrite Hrem. destruct Hsz as [Hsz _]. change SIZE_OF_FREE_T with 32 in Hsz.
  eapply (lists_inv_bucket s m' bits' _ ((a, sz) :: v_frees v) b (a :: fl b) _ fl Hb); try done.
  - simpl. constructor; [|done]. intros ([x szx] & E & Hx)%list_elem_of_fmap. simpl in E. subst x.
    destruct (Hfar a szx Hx); lia.
  - simpl. rewrite uadd_small by (unfold is_usize; lia). lia.
  - intros c Hcb _. by apply Hd.
  - intros q c [->|Hq]%elem_of_cons Hcb Hne Hq'; [by apply (Hna c Hcb)|]. by apply (Hdis b c Hb Hcb ltac:(done) q).
  - intros q [->|Hq]%elem_of_cons; [right; set_solver|by left].
  - by apply buckets_add.
Qed.

(** [create_free_area] adds a block to the free ones. *)
Lemma create_free_area_spec s v a l sz :
  repr s v → free_size_ok sz → 0 < a → a + 32 < 2 ^ 64 →
  is_mapped (v_os v) a 16 = true → is_mapped (v_os v) (a + 16) 16 = true →
  (∀ x szx, (x, szx) ∈ v_frees v → a + 32 ≤ x ∨ x + 32 ≤ a) →
  (∀ b, is_bucket b → free_lists b + 16 ≤ a ∨ a + 32 ≤ free_lists b) →
  total (v_frees v) + sz < 2 ^ 64 → 0 ≤ total (v_frees v) →
  ∃ s', create_free_area free_lists a l sz s = Ret ((), s') ∧
    repr s' (mkView (v_os v) (v_cached v) (v_size v) (put a (mkHdr l sz FREE_BIT) (keep (a + 16) (v_hdrs v)))
               ((a, sz) :: v_frees v) (wipe a 16 (wipe (a + 16) 16 (v_data v)))).
Proof.
  intros Hr Hsz Ha Hau Hm1 Hm2 Hfar Hheads Htot Htot0. unfold create_free_area. rewrite into_node_eq.
  destruct (write_node_spec s v (a + 16) Hr Hm2) as (s1 & Hrun1 & Hn1 & Hr1).
  { intros x szx Hx. destruct (Hfar x szx Hx); lia. }
  { intros b Hb. destruct (Hheads b Hb); lia. }
  rewrite (M_bind_run _ _ _ _ _ Hrun1).
  assert (u32_wrap sz = sz) as ->.
  { apply Z.mod_small. destruct Hsz as [Hsz _]. change SIZE_OF_FREE_T with 32 in Hsz. lia. }
  destruct (write_header_nodes s1 _ a (mkHdr l sz FREE_BIT) Hr1 Hm1) as (s2 & Hrun2 & Hr2 & Hn2).
  { split; [intros x szx Hx; destruct (Hfar x szx Hx); lia|intros b Hb; destruct (Hheads b Hb); lia]. }
  rewrite (M_bind_run _ _ _ _ _ Hrun2). destruct (bucket_of_exists sz Hsz) as (b & Hbk & Hb). rewrite Hbk. cbn [lift_o].
  erewrite M_bind_run by reflexivity.
  apply (link_free_spec s2 _ a sz b Hr2); try done. rewrite Hn2, Hn1 by lia. by eexists.
Qed.

Lemma repr_perm s v frees :
  repr s v → v_frees v ≡ₚ frees → repr s (mkView (v_os v) (v_cached v) (v_size v) (v_hdrs v) frees (v_data v)).
Proof.
  intros (Ho & Hc & Hs & Hh & Hdt & Hw & Hrem & Hnd & fl & Hd & Hdis & Hin) Hp. split_and!; try done. simpl.
  split_and!; [done|by rewrite Hrem, (total_perm _ _ Hp)|by rewrite <-Hp|].
  exists fl. split_and!; [done|done|]. intros b p Hb. rewrite Hin by done.
  split; intros (sz & Hx & ?); exists sz; (split; [|done]); [by rewrite <-Hp|by rewrite Hp].
Qed.

(** The list part of [unlink_free]: the node leaves its list, and with any
    bitmap that tells whether the bucket is now empty the lists hold the
    other free blocks. *)
Lemma unlink_lists s a sz b frees' :
  lists_inv s ((a, sz) :: frees') → bucket_of sz b → is_bucket b → 0 ≤ total frees' →
  total ((a, sz) :: frees') < 2 ^ 64 → 0 ≤ sz →
  ∃ m' l, ListNode_delete_from_list (into_node a) (flists s) = Ret ((), m') ∧
    dll m' (free_lists b) (into_node <$> l) ∧ (∀ p, p ∈ l → p ≠ a ∧ ∃ szp, (p, szp) ∈ frees') ∧
    (∀ bits', bit_updated b (negb (bool_decide (l = []))) (free_list_bits (heap s)) bits' →
       lists_inv (mkHS (mkHeap (size (heap s)) (usub (remaining (heap s)) sz) (cached_os_alloc (heap s)) bits')
         (headers s) m' (mem_bytes s) (os s)) frees') ∧
    bucket_bit (free_list_bits (heap s)) b = true.
Proof.
  intros (Hw & Hrem & Hnd & fl & Hd & Hdis & Hin) Hbk Hb Ht' Ht Hsz. simpl in Hrem, Ht, Hnd.
  apply NoDup_cons in Hnd as [Hna Hnd].
  assert (a ∈ fl b) as (l1 & l2 & Efl)%list_elem_of_split by (apply (Hin b a Hb); exists sz; split; [set_solver|done]).
  destruct (Hd b Hb) as [Hdb Hbit]. rewrite Efl, fmap_app, fmap_cons in Hdb.
  assert (NoDup (fl b)) as Hndb.
  { destruct Hdb as (_ & _ & Hx%NoDup_cons & _). destruct Hx as [_ Hx]. rewrite <-fmap_cons, <-fmap_app, <-Efl in Hx.
    by apply NoDup_fmap_1 in Hx. }
  destruct (delete_from_list_spec _ _ _ _ _ Hdb) as (m' & Hrun & Hd' & _ & Hf).
  assert (∀ p, p ∈ l1 ++ l2 ↔ p ∈ fl b ∧ p ≠ a) as Hl12.
  { intros p. rewrite Efl in Hndb |- *. rewrite <-Permutation_middle in Hndb. apply NoDup_cons in Hndb as [Hn _].
    rewrite !elem_of_app, elem_of_cons in *. split; [|tauto]. intros Hp. split; [tauto|]. intros ->. tauto. }
  exists m', (l1 ++ l2). split; [done|]. split; [by rewrite fmap_app|]. split; [|split].
  - intros p [Hp Hpa]%Hl12. split; [done|]. apply (Hin b p Hb) in Hp as (szp & [[= -> _]|Hp]%elem_of_cons & _); [done|eauto].
  - intros bits' Hbits. eapply (lists_inv_bucket s m' bits' _ frees' b (l1 ++ l2) _ fl Hb); try done.
    + rewrite Hrem. simpl. rewrite usub_small by (unfold is_usize; lia). lia.
    + intros c Hcb _. by apply Hd.
    + by rewrite fmap_app.
    + intros q c Hq Hcb Hne Hq'. apply (Hdis b c Hb Hcb ltac:(done) q); [|done].
      by rewrite Efl, fmap_app, fmap_cons.
    + intros q Hq%Hl12. left. apply Hq.
    + by apply (buckets_remove fl frees' b a sz).
  - rewrite Hbit, Efl, bool_decide_false; [done|]. by destruct l1.
Qed.

(** The end of [unlink_free]: the bit of an emptied bucket is cleared. *)
Lemma clear_if_empty_run (s : HeapState S) b l :
  bits_wf (free_list_bits (heap s)) → is_bucket b → dll (flists s) (free_lists b) (into_node <$> l) →
  bucket_bit (free_list_bits (heap s)) b = true →
  ∃ bits', (fl ← free_list free_lists b; e ← on_flists (List_empty fl);
            if (e : bool) then clear_free_list_bit b else mret ()) s = Ret ((), with_bits bits' s) ∧
    bit_updated b (negb (bool_decide (l = []))) (free_list_bits (heap s)) bits'.
Proof.
  intros Hw Hb Hd Hbit. unfold free_list. rewrite (proj2 (Z.ltb_lt b NUMBER_OF_BUCKETS)) by apply Hb.
  erewrite M_bind_run by reflexivity.
  assert (on_flists (List_empty (free_lists b)) s = Ret (bool_decide (l = []), s)) as Hrun.
  { unfold on_flists, zoom. rewrite (List_empty_spec _ _ _ Hd). destruct s. simpl. do 2 f_equal.
    apply bool_decide_ext. split; [by intros ?%fmap_nil_inv|by intros ->]. }
  rewrite (M_bind_run _ _ _ _ _ Hrun). case_bool_decide as Hemp.
  - by apply clear_free_list_bit_spec.
  - exists (free_list_bits (heap s)). split; [by destruct s as [[]]|]. split; [done|].
    intros c Hcb. case_decide; [by subst c|done].
Qed.

(** [unlink_free] takes a block out of the free ones. *)
Lemma unlink_free_spec s v a l sz f b frees' :
  repr s v → v_frees v = (a, sz) :: frees' → v_hdrs v !! a = Some (mkHdr l sz f) → bucket_of sz b → is_bucket b →
  is_mapped (v_os v) a 16 = true → clear_of_nodes (v_frees v) a → 0 ≤ total frees' → total (v_frees v) < 2 ^ 64 →
  0 ≤ sz →
  ∃ s', unlink_free free_lists a b s = Ret ((), s') ∧
    repr s' (mkView (v_os v) (v_cached v) (v_size v) (put a (mkHdr l sz 0) (v_hdrs v)) frees' (wipe a 16 (v_data v))).
Proof.
  intros (Ho & Hc & Hs & Hh & Hdt & Hl) Hfr Ha Hbk Hb Hm [Hcf Hch] Ht' Ht Hsz. rewrite Hfr in Hl, Hcf, Ht.
  destruct (unlink_lists s a sz b frees' Hl Hbk Hb Ht' Ht Hsz) as (m' & l' & Hrun & Hd' & Hl' & Hlists & Hbit).
  destruct Hl as (Hw & Hrem & _). simpl in Hrem. unfold unlink_free. rewrite <-Hh in Ha.
  rewrite (M_bind_run _ _ _ _ _ (header_at_run _ _ _ Ha)). cbn [hsize]. erewrite M_bind_run by reflexivity.
  rewrite (proj2 (Z.leb_le sz (remaining (heap s)))) by lia.
  erewrite M_bind_run by reflexivity. erewrite M_bind_run by reflexivity. set (s1 := mkHS _ _ _ _ _).
  assert (on_flists (Linked_delete_from_list a) s1 = Ret ((), mkHS (heap s1) (headers s) m' (mem_bytes s) (os s))) as Hrun1.
  { unfold on_flists, zoom, Linked_delete_from_list. simpl. by rewrite Hrun. }
  rewrite (M_bind_run _ _ _ _ _ Hrun1). set (s2 := mkHS _ _ _ _ _).
  assert (set_flag a 0 s2 =
    Ret ((), mkHS (heap s1) (put a (mkHdr l sz 0) (headers s)) (keep_nodes a m') (wipe a 16 (mem_bytes s)) (os s))) as Hrun2.
  { unfold set_flag. erewrite M_bind_run by (apply header_at_run; exact Ha). unfold write_header.
    erewrite M_bind_run by (apply check_mapped_run; simpl; rewrite Ho; exact Hm). reflexivity. }
  rewrite (M_bind_run _ _ _ _ _ Hrun2). set (s3 := mkHS _ _ _ _ _).
  assert (dll (flists s3) (free_lists b) (into_node <$> l')) as Hd3.
  { apply (dll_stable _ _ _ _ Hd'); [done|]. simpl. intros q [->|Hq]%elem_of_cons; apply keep_far; [destruct (Hch b Hb); lia|].
    apply list_elem_of_fmap in Hq as (x & -> & Hx). rewrite into_node_eq.
    destruct (Hl' x Hx) as (? & szx & Hx'). destruct (Hcf x szx ltac:(set_solver)); lia. }
  destruct (clear_if_empty_run s3 b l' Hw Hb Hd3 Hbit) as (bits' & Hrun3 & Hbits). exists (with_bits bits' s3).
  split; [exact Hrun3|]. unfold repr; simpl. rewrite <-Hh, <-Hdt. split_and!; try done.
  eapply (lists_inv_write _ _ _ a (Hlists bits' Hbits)); [|done|done|simpl; intros q; apply keep_far].
  split; [|done]. intros x szx Hx. apply (Hcf x szx). set_solver.
Qed.
End views.
