(* ===== verification/CmpctHeap.v ===== *)
(** * The invariant of the kernel heap

    The blocks of the heap as a data structure: areas made of blocks, free
    blocks in the list of their size class (HeapLists.v), and what
    [cmpct_alloc], [cmpct_free] and [cmpct_memalign] (Cmpctmalloc.v) do to the
    set of live blocks and to the bytes in them.  Everything here is proved
    against the laws of the page allocator interface. *)

From S2P Require Import Prelude Defs LinkedList Cmpctmalloc HeapPages HeapLists.

#[local] Existing Instance free_t_linked.

(** ** Areas and their blocks *)

(** A block: its size with the header, and whether it is free. *)
Definition blk : Type := Z * bool.
Definition sum (bs : list blk) : Z := foldr (λ b, Z.add b.1) 0 bs.
Definition blk_flag (f : bool) : Z := if f then FREE_BIT else 0.

(** Headers of the blocks [bs] from address [a] on; [l] is what is left of
    them. *)
Fixpoint seg (hd : gmap Z header_t) (l a : Z) (bs : list blk) : Prop :=
  match bs with
  | [] => True
  | (sz, f) :: bs => hd !! a = Some (mkHdr l sz (blk_flag f)) ∧ seg hd a (a + sz) bs
  end.

Fixpoint lastp (l a : Z) (bs : list blk) : Z :=
  match bs with [] => l | (sz, _) :: bs => lastp a (a + sz) bs end.

(** ... up to the right sentinel. *)
Definition chain (hd : gmap Z header_t) (l a : Z) (bs : list blk) : Prop :=
  seg hd l a bs ∧ hd !! (a + sum bs) = Some (mkHdr (lastp l a bs) 0 0).

Definition blk_ok (b : blk) : Prop := 24 ≤ b.1 < 2 ^ 21 ∧ (8 | b.1) ∧ (b.2 = true → 32 ≤ b.1).

(** No two neighbours are free. *)
Fixpoint coalesced (bs : list blk) : Prop :=
  match bs with
  | (_, f) :: (((_, g) :: _) as bs') => (f && g = false) ∧ coalesced bs'
  | _ => True
  end.

Definition area : Type := Z * list blk.
Definition area_range (ar : area) : Z * Z := (ar.1, 32 + sum ar.2).
Definition area_ok (hd : gmap Z header_t) (ar : area) : Prop :=
  hd !! ar.1 = Some (mkHdr null SIZE_OF_HEADER_T 0) ∧ chain hd ar.1 (ar.1 + 16) ar.2 ∧
  Forall blk_ok ar.2 ∧ coalesced ar.2 ∧ ar.2 ≠ [] ∧ 32 + sum ar.2 ≤ 2 ^ 21.

Fixpoint blocks_at (f : bool) (a : Z) (bs : list blk) : list (Z * Z) :=
  match bs with
  | [] => []
  | (sz, g) :: bs => (if Bool.eqb f g then [(a, sz)] else []) ++ blocks_at f (a + sz) bs
  end.
Definition frees_of (ar : area) : list (Z * Z) := blocks_at true (ar.1 + 16) ar.2.
Definition used_of (ar : area) : list (Z * Z) := blocks_at false (ar.1 + 16) ar.2.

Lemma sum_cons b bs : sum (b :: bs) = b.1 + sum bs.
Proof. done. Qed.

Lemma sum_app bs1 bs2 : sum (bs1 ++ bs2) = sum bs1 + sum bs2.
Proof. unfold sum. induction bs1 as [|[] bs1 IH]; simpl in *; lia. Qed.

Lemma sum_snoc bs b : sum (bs ++ [b]) = sum bs + b.1.
Proof. rewrite sum_app. simpl. lia. Qed.

Lemma sum_nonneg bs : Forall blk_ok bs → 0 ≤ sum bs.
Proof. induction 1 as [|[sz f] bs [[? _] _] _ IH]; simpl in *; lia. Qed.

Lemma lastp_app l a bs1 bs2 : lastp l a (bs1 ++ bs2) = lastp (lastp l a bs1) (a + sum bs1) bs2.
Proof.
  revert l a. induction bs1 as [|[sz f] bs1 IH]; intros l a; simpl; [f_equal; lia|].
  rewrite IH. f_equal. lia.
Qed.

Lemma seg_app hd l a bs1 bs2 :
  seg hd l a (bs1 ++ bs2) ↔ seg hd l a bs1 ∧ seg hd (lastp l a bs1) (a + sum bs1) bs2.
Proof.
  revert l a. induction bs1 as [|[sz f] bs1 IH]; intros l a; simpl.
  - rewrite Z.add_0_r. tauto.
  - rewrite IH. replace (a + sz + sum bs1) with (a + (sz + sum bs1)) by lia. tauto.
Qed.

Lemma blocks_at_app f a bs1 bs2 :
  blocks_at f a (bs1 ++ bs2) = blocks_at f a bs1 ++ blocks_at f (a + sum bs1) bs2.
Proof.
  revert a. induction bs1 as [|[sz g] bs1 IH]; intros a; simpl; [f_equal; lia|].
  rewrite IH, <-app_assoc. do 3 f_equal. lia.
Qed.

(** Segments and chains depend on the headers of their blocks only. *)
Lemma seg_stable hd hd' l a bs :
  Forall blk_ok bs → seg hd l a bs → (∀ q, a ≤ q → q + 24 ≤ a + sum bs → hd' !! q = hd !! q) → seg hd' l a bs.
Proof.
  revert l a. induction bs as [|[sz f] bs IH]; intros l a Hok Hs Hq; simpl in *; [done|].
  apply Forall_cons in Hok as [[[? _] _] Hok]; simpl in *. pose proof (sum_nonneg bs Hok). destruct Hs as [Ha Hs].
  rewrite Hq by lia. split; [done|]. apply IH; [done|done|]. intros q Hq1 Hq2. apply Hq; lia.
Qed.

Lemma chain_stable hd hd' l a bs :
  Forall blk_ok bs → chain hd l a bs → (∀ q, a ≤ q ≤ a + sum bs → hd' !! q = hd !! q) → chain hd' l a bs.
Proof.
  intros Hok [Hs He] Hq. pose proof (sum_nonneg bs Hok). split; [|rewrite Hq by lia; done].
  apply (seg_stable hd); [done|done|]. intros q Hq1 Hq2. apply Hq. lia.
Qed.

(** The first header of a chain, and changing its left link. *)
Lemma chain_relink hd l a bs :
  Forall blk_ok bs → chain hd l a bs →
  ∃ h, hd !! a = Some h ∧ left h = l ∧ flag h = blk_flag (match bs with [] => false | b :: _ => b.2 end) ∧
    hsize h = (match bs with [] => 0 | b :: _ => b.1 end) ∧
    ∀ hd' l', hd' !! a = Some (mkHdr l' (hsize h) (flag h)) →
      (∀ q, a + 24 ≤ q ≤ a + sum bs → hd' !! q = hd !! q) → chain hd' l' a bs.
Proof.
  intros Hok [Hs He]. destruct bs as [|[sz f] bs]; simpl in *.
  - rewrite Z.add_0_r in He. eexists. split_and!; [done..|]. intros hd' l' Ha _. split; [done|]. simpl.
    by rewrite Z.add_0_r.
  - destruct Hs as [Ha Hs]. apply Forall_cons in Hok as [[[? _] _] Hok]; simpl in *. pose proof (sum_nonneg bs Hok).
    eexists. split_and!; [done..|]. simpl. intros hd' l' Ha' Hq. split; simpl; [split; [done|]|].
    + apply (seg_stable hd); [done|done|]. intros q ? ?. apply Hq. lia.
    + rewrite Hq by lia. done.
Qed.

(** Replace the blocks [mid] of an area by [mid'] of the same extent. *)
Lemma area_splice hd hd' base bs1 mid mid' bs2 :
  area_ok hd (base, bs1 ++ mid ++ bs2) →
  let a := base + 16 + sum bs1 in
  let e := a + sum mid in
  let la := lastp base (base + 16) bs1 in
  sum mid' = sum mid → Forall blk_ok (bs1 ++ mid' ++ bs2) → coalesced (bs1 ++ mid' ++ bs2) → mid' ≠ [] →
  (∀ q, base ≤ q → q + 16 ≤ a ∨ e + 16 ≤ q → hd' !! q = hd !! q) →
  seg hd' la a mid' →
  (∀ h, hd !! e = Some h → hd' !! e = Some (mkHdr (lastp la a mid') (hsize h) (flag h))) →
  area_ok hd' (base, bs1 ++ mid' ++ bs2).
Proof.
  intros (Hb & [Hseg Hend] & Hok & _ & _ & Hmax) a e la Hsum Hok' Hco' Hne Hout Hmid Hlink. cbn [fst snd] in *.
  rewrite !Forall_app in Hok, Hok'. destruct Hok as (Hok1 & Hokm & Hok2).
  pose proof (sum_nonneg _ Hok1). pose proof (sum_nonneg _ Hokm). pose proof (sum_nonneg _ Hok2).
  rewrite !seg_app in Hseg. destruct Hseg as (Hs1 & _ & Hs2). rewrite !lastp_app, !sum_app in Hend.
  fold la a in Hs2, Hend. replace (a + sum mid) with e in Hs2, Hend by done.
  destruct (chain_relink hd (lastp la a mid) e bs2 Hok2) as (h & He & _ & _ & _ & Hrel).
  { split; [done|]. rewrite <-Hend. f_equal. lia. }
  destruct (Hrel hd' (lastp la a mid')) as [Hs2' Hend'].
  { by apply Hlink. }
  { intros q Hq. apply Hout; lia. }
  split_and!; cbn [fst snd].
  - rewrite Hout by lia. done.
  - split.
    + rewrite !seg_app. fold la a. rewrite Hsum. split_and!; [|done|done].
      apply (seg_stable hd); [done|done|]. intros q ? ?. apply Hout; lia.
    + rewrite !lastp_app, !sum_app. fold la a. rewrite Hsum. replace (a + sum mid) with e by done.
      rewrite <-Hend'. f_equal. lia.
  - by rewrite !Forall_app.
  - done.
  - destruct bs1, mid'; done.
  - rewrite !sum_app in *. lia.
Qed.

(** Areas elsewhere are not affected. *)
Lemma area_elsewhere hd hd' ar lo hi :
  area_ok hd ar → ar.1 + (32 + sum ar.2) ≤ lo ∨ hi ≤ ar.1 → lo ≤ hi →
  (∀ q, q + 16 ≤ lo ∨ hi ≤ q → hd' !! q = hd !! q) → area_ok hd' ar.
Proof.
  intros (Hb & Hch & Hok & Hco & Hne & Hmax) Hdis Hle Hq. pose proof (sum_nonneg _ Hok).
  split_and!; [rewrite Hq by lia; done| |done..].
  apply (chain_stable hd); [done|done|]. intros q Hq'. apply Hq. lia.
Qed.

(** ** The bytes of the blocks *)

(** Outside of [lo, hi) the bytes are as before. *)
Definition same_outside (lo hi : Z) (d d' : gmap Z Z) : Prop := ∀ q, q < lo ∨ hi ≤ q → d' !! q = d !! q.
(** The payloads of the blocks [bs] are as before. *)
Definition kept (bs : list (Z * Z)) (d d' : gmap Z Z) : Prop :=
  ∀ x sz q, (x, sz) ∈ bs → x + SIZE_OF_HEADER_T ≤ q < x + sz → d' !! q = d !! q.

Lemma outside_refl lo hi d : same_outside lo hi d d.
Proof. by intros q _. Qed.
Lemma outside_trans lo hi d d' d'' : same_outside lo hi d d' → same_outside lo hi d' d'' → same_outside lo hi d d''.
Proof. intros H1 H2 q Hq. by rewrite H2, H1. Qed.
Lemma outside_wipe lo hi p n d d' : lo ≤ p → p + n ≤ hi → same_outside lo hi d d' → same_outside lo hi d (wipe p n d').
Proof. intros ? ? Hd q Hq. rewrite wipe_far by lia. by apply Hd. Qed.
Lemma outside_mono lo hi lo' hi' d d' : lo' ≤ lo → hi ≤ hi' → same_outside lo hi d d' → same_outside lo' hi' d d'.
Proof. intros ? ? Hd q Hq. apply Hd. lia. Qed.
Lemma kept_refl bs d : kept bs d d.
Proof. by intros x sz q _ _. Qed.
Lemma kept_trans bs d d' d'' : kept bs d d' → kept bs d' d'' → kept bs d d''.
Proof. intros H1 H2 x sz q Hx Hq. by rewrite (H2 x sz q), (H1 x sz q). Qed.
Lemma kept_incl bs bs' d d' : (∀ b, b ∈ bs' → b ∈ bs) → kept bs d d' → kept bs' d d'.
Proof. intros Hi Hk x sz q Hx. apply Hk. by apply Hi. Qed.
#[global] Instance kept_Permutation : Proper ((≡ₚ) ==> (=) ==> (=) ==> iff) kept.
Proof. intros l l' Hl d ? <- d' ? <-. split; apply kept_incl; intros b; by rewrite Hl. Qed.

(** Writes made of [wipe]s inside a range. *)
Ltac outside := repeat first [apply outside_refl | apply outside_wipe; [lia|lia|]].

(** ** The heap invariant *)

Section invariant.
Context {S : Type} `{PageAllocatorLaws S}.
Context (free_lists : Z → Z).

(** The list heads are kernel data: never in memory the page allocator hands
    out. *)
Hypothesis heads_apart : ∀ o r b, os_ok o → r ∈ mapped o → is_bucket b →
  free_lists b + 16 ≤ r.1 ∨ r.1 + r.2 ≤ free_lists b.

Definition cached_range (v : view (S:=S)) : list (Z * Z) :=
  if v_cached v =? null then []
  else match v_hdrs v !! v_cached v with Some h => [(v_cached v, hsize h)] | None => [] end.

Definition view_ok (v : view (S:=S)) (areas : list area) : Prop :=
  os_ok (v_os v) ∧ Forall (area_ok (v_hdrs v)) areas ∧
  v_frees v ≡ₚ concat (frees_of <$> areas) ∧
  mapped (v_os v) ≡ₚ (area_range <$> areas) ++ cached_range v ∧
  (v_cached v ≠ null → ∃ csz, v_hdrs v !! v_cached v = Some (mkHdr null csz 0) ∧ csz ≤ 2 ^ 21) ∧
  v_size v = total (mapped (v_os v)).

Definition heap_inv (s : HeapState S) (areas : list area) : Prop :=
  ∃ v : view (S:=S), repr free_lists s v ∧ view_ok v areas.

(** The blocks that are in use. *)
Definition used (areas : list area) : list (Z * Z) := concat (used_of <$> areas).

Lemma blocks_at_elem f a bs x sz :
  (x, sz) ∈ blocks_at f a bs → ∃ bs1 bs2, bs = bs1 ++ (sz, f) :: bs2 ∧ x = a + sum bs1.
Proof.
  revert a. induction bs as [|[sz' g] bs IH]; intros a; simpl; [by intros ?%not_elem_of_nil|].
  rewrite elem_of_app. intros [Hx|Hx].
  - destruct (Bool.eqb f g) eqn:E; [|by apply not_elem_of_nil in Hx].
    apply Bool.eqb_prop in E as <-. apply list_elem_of_singleton in Hx as [= -> ->].
    exists [], bs. simpl. split; [done|lia].
  - destruct (IH _ Hx) as (bs1 & bs2 & -> & ->). exists ((sz', g) :: bs1), bs2. simpl. split; [done|lia].
Qed.

Lemma blocks_at_range f a bs x sz :
  Forall blk_ok bs → (x, sz) ∈ blocks_at f a bs → a ≤ x ∧ x + sz ≤ a + sum bs ∧ blk_ok (sz, f).
Proof.
  intros Hok (bs1 & bs2 & -> & ->)%blocks_at_elem. rewrite Forall_app, Forall_cons in Hok.
  destruct Hok as (Hok1 & Hb & Hok2). rewrite sum_app. simpl.
  pose proof (sum_nonneg _ Hok1). pose proof (sum_nonneg _ Hok2). split_and!; [lia|lia|done].
Qed.

(** A free or used block is a block of some area. *)
Lemma find_area f areas x sz :
  (x, sz) ∈ concat ((λ ar : area, blocks_at f (ar.1 + 16) ar.2) <$> areas) →
  ∃ base bs1 bs2 rest, areas ≡ₚ (base, bs1 ++ (sz, f) :: bs2) :: rest ∧ x = base + 16 + sum bs1.
Proof.
  induction areas as [|[base bs] areas IH]; simpl; [by intros ?%not_elem_of_nil|].
  rewrite elem_of_app. intros [Hx|Hx].
  - apply blocks_at_elem in Hx as (bs1 & bs2 & E & ->). simpl in E. subst bs. by exists base, bs1, bs2, areas.
  - destruct (IH Hx) as (base' & bs1 & bs2 & rest & Hp & ->). exists base', bs1, bs2, ((base, bs) :: rest).
    split; [|done]. rewrite Hp. constructor.
Qed.

Lemma concat_perm {A} (l l' : list (list A)) : l ≡ₚ l' → concat l ≡ₚ concat l'.
Proof.
  induction 1 as [|x l l' _ IH|x y l|l1 l2 l3 _ IH1 _ IH2]; simpl; [done|by rewrite IH| |by rewrite IH1].
  rewrite !app_assoc. f_equiv. apply Permutation_app_comm.
Qed.

Lemma view_ok_perm (v : view (S:=S)) areas areas' : areas ≡ₚ areas' → view_ok v areas → view_ok v areas'.
Proof.
  intros Hp (? & Ha & Hf & Hm & ? & ?). split_and!; try done.
  - by rewrite <-Hp.
  - rewrite Hf. apply concat_perm. by rewrite Hp.
  - rewrite Hm. by rewrite Hp.
Qed.

(** The free (or used) blocks outside of [mid]. *)
Definition others (f : bool) (base : Z) (bs1 mid bs2 : list blk) (rest : list area) : list (Z * Z) :=
  blocks_at f (base + 16) bs1 ++ blocks_at f (base + 16 + sum bs1 + sum mid) bs2 ++
  concat ((λ ar : area, blocks_at f (ar.1 + 16) ar.2) <$> rest).

Lemma blocks_split f base bs1 mid bs2 rest :
  concat ((λ ar : area, blocks_at f (ar.1 + 16) ar.2) <$> ((base, bs1 ++ mid ++ bs2) :: rest)) ≡ₚ
  blocks_at f (base + 16 + sum bs1) mid ++ others f base bs1 mid bs2 rest.
Proof. simpl. rewrite !blocks_at_app. unfold others. solve_Permutation. Qed.

Lemma total_app l l' : total (l ++ l') = total l + total l'.
Proof. unfold total. induction l as [|x l IH]; simpl in *; lia. Qed.

Lemma blocks_total f a bs : Forall blk_ok bs → 0 ≤ total (blocks_at f a bs) ≤ sum bs.
Proof.
  intros Hok. revert a. induction Hok as [|[sz g] bs [[Hb _] _] _ IH]; intros a; simpl; [done|].
  rewrite total_app. specialize (IH (a + sz)). simpl in Hb. destruct (Bool.eqb f g); simpl; lia.
Qed.

Lemma frees_total areas hd :
  Forall (area_ok hd) areas →
  0 ≤ total (concat (frees_of <$> areas)) ≤ total (area_range <$> areas).
Proof.
  induction 1 as [|[base bs] areas (_ & _ & Hok & _) _ IH]; [done|].
  rewrite !fmap_cons. cbn [concat]. rewrite total_app.
  change (total (area_range (base, bs) :: (area_range <$> areas)))
    with (32 + sum bs + total (area_range <$> areas)).
  change (frees_of (base, bs)) with (blocks_at true (base + 16) bs).
  pose proof (blocks_total true (base + 16) bs Hok). lia.
Qed.

(** The blocks of other areas are not next to those of an area. *)
Lemma rest_apart f v base bs rest x szx :
  view_ok v ((base, bs) :: rest) → (x, szx) ∈ concat ((λ ar : area, blocks_at f (ar.1 + 16) ar.2) <$> rest) →
  blk_ok (szx, f) ∧ (x + szx + 16 ≤ base ∨ base + (32 + sum bs) + 16 ≤ x).
Proof.
  intros (Hos & Har & _ & Hmap & _) Hx. apply Forall_cons in Har as [_ Hrest]. rewrite fmap_cons in Hmap.
  apply (find_area f) in Hx as (base' & bs1' & bs2' & rest' & Hp & ->).
  pose proof (mapped_head_disj _ _ _ (os_disjoint _ Hos) Hmap) as Hdis. rewrite Forall_app in Hdis. destruct Hdis as [Hdis _].
  rewrite Hp, fmap_cons in Hdis. apply Forall_cons in Hdis as [Hd _]. unfold disj, area_range in Hd. cbn [fst snd] in Hd.
  rewrite Hp in Hrest. apply Forall_cons in Hrest as [(_ & _ & Hok & _) _]. cbn [snd] in Hok.
  rewrite sum_app, sum_cons in Hd. cbn [fst] in Hd. rewrite Forall_app, Forall_cons in Hok.
  destruct Hok as (Ho1%sum_nonneg & Hb & Ho2%sum_nonneg). split; [done|lia].
Qed.

(** The blocks outside of a run keep clear of it. *)
Lemma others_apart f v base bs1 mid bs2 rest x szx :
  view_ok v ((base, bs1 ++ mid ++ bs2) :: rest) → (x, szx) ∈ others f base bs1 mid bs2 rest →
  let a := base + 16 + sum bs1 in
  blk_ok (szx, f) ∧ (x + szx ≤ a ∨ a + sum mid ≤ x).
Proof.
  intros Hv Hx a. pose proof Hv as (_ & Har & _). apply Forall_cons in Har as [(_ & _ & Hok & _) _].
  cbn [snd] in Hok. rewrite !Forall_app in Hok. destruct Hok as (Hok1 & Hokm & Hok2).
  pose proof (sum_nonneg _ Hok1). pose proof (sum_nonneg _ Hokm). pose proof (sum_nonneg _ Hok2).
  unfold others in Hx. rewrite !elem_of_app in Hx. destruct Hx as [Hx|[Hx|Hx]].
  - apply blocks_at_range in Hx as (? & ? & ?); [|done]. split; [done|unfold a; lia].
  - apply blocks_at_range in Hx as (? & ? & ?); [|done]. split; [done|unfold a; lia].
  - apply (rest_apart f v _ _ _ _ _ Hv) in Hx as [? Hx]. rewrite !sum_app in Hx. split; [done|unfold a; lia].
Qed.

Lemma cached_total v areas rng :
  os_ok (v_os v) → mapped (v_os v) ≡ₚ rng ++ (area_range <$> areas) ++ cached_range v →
  0 ≤ total (cached_range v).
Proof.
  intros Hos Hmap. pose proof (os_ranges _ Hos) as Hro. rewrite Hmap, !Forall_app in Hro. destruct Hro as (_ & _ & Hro).
  clear Hmap. induction Hro as [|r l (_ & ? & _) _ IH]; [done|]. change (total (r :: l)) with (r.2 + total l). lia.
Qed.

(** The free bytes and a run fit the bound on mapped memory. *)
Lemma run_totals v base bs1 mid bs2 rest :
  view_ok v ((base, bs1 ++ mid ++ bs2) :: rest) →
  v_frees v ≡ₚ blocks_at true (base + 16 + sum bs1) mid ++ others true base bs1 mid bs2 rest ∧
  0 ≤ total (others true base bs1 mid bs2 rest) ∧ total (v_frees v) < 2 ^ 63 ∧
  total (others true base bs1 mid bs2 rest) + sum mid < 2 ^ 63.
Proof.
  intros (Hos & Har & Hfr & Hmap & _). apply Forall_cons in Har as [(_ & _ & Hok & _) Hrest].
  cbn [snd] in Hok. rewrite !Forall_app in Hok. destruct Hok as (Hok1 & Hokm & Hok2).
  pose proof (sum_nonneg _ Hok1). pose proof (sum_nonneg _ Hokm). pose proof (sum_nonneg _ Hok2).
  assert (v_frees v ≡ₚ blocks_at true (base + 16 + sum bs1) mid ++ others true base bs1 mid bs2 rest) as Hsplit.
  { rewrite Hfr. apply blocks_split. }
  split; [done|]. pose proof (os_total _ Hos) as Ht. pose proof (cached_total v _ [] Hos Hmap).
  rewrite fmap_cons, <-app_comm_cons in Hmap. rewrite (total_perm _ _ Hmap) in Ht. unfold area_range at 1 in Ht. cbn [fst snd] in Ht.
  match type of Ht with total ((?b, ?n) :: ?l) < _ => change (total ((b, n) :: l)) with (n + total l) in Ht end.
  rewrite total_app, !sum_app in Ht. pose proof (frees_total rest _ Hrest).
  rewrite (total_perm _ _ Hsplit), total_app. unfold others. rewrite !total_app.
  change (concat ((λ ar : area, blocks_at true (ar.1 + 16) ar.2) <$> rest)) with (concat (frees_of <$> rest)).
  pose proof (blocks_total true (base + 16 + sum bs1) mid Hokm). pose proof (blocks_total true (base + 16) bs1 Hok1).
  pose proof (blocks_total true (base + 16 + sum bs1 + sum mid) bs2 Hok2). lia.
Qed.

(** What the layout says about a run [mid] of blocks of an area: where its
    memory is, and that everything else keeps clear of it. *)
Lemma run_facts v base bs1 mid bs2 rest :
  view_ok v ((base, bs1 ++ mid ++ bs2) :: rest) →
  let a := base + 16 + sum bs1 in
  let e := a + sum mid in
  0 < base ∧ 0 ≤ sum bs1 ∧ 0 ≤ sum mid ∧ 0 ≤ sum bs2 ∧ base + (32 + sum bs1 + sum mid + sum bs2) < 2 ^ 64 ∧
  (PAGE_SIZE | base) ∧ (PAGE_SIZE | 32 + sum bs1 + sum mid + sum bs2) ∧
  (∀ p, base ≤ p → p + 16 ≤ base + (32 + sum bs1 + sum mid + sum bs2) → is_mapped (v_os v) p 16 = true) ∧
  (∀ p b, base ≤ p < base + (32 + sum bs1 + sum mid + sum bs2) → is_bucket b →
     free_lists b + 16 ≤ p ∨ base + (32 + sum bs1 + sum mid + sum bs2) ≤ free_lists b) ∧
  (∀ x szx, (x, szx) ∈ others true base bs1 mid bs2 rest → 32 ≤ szx ∧ (x + szx ≤ a ∨ e ≤ x)) ∧
  v_frees v ≡ₚ blocks_at true a mid ++ others true base bs1 mid bs2 rest ∧
  0 ≤ total (others true base bs1 mid bs2 rest) ∧ total (v_frees v) < 2 ^ 63 ∧
  total (others true base bs1 mid bs2 rest) + sum mid < 2 ^ 63.
Proof.
  intros Hv a e. pose proof (run_totals v _ _ _ _ _ Hv) as (? & ? & ? & ?).
  pose proof (others_apart true v base bs1 mid bs2 rest) as Hoth. destruct Hv as (Hos & Har & Hfr & Hmap & Hc & Hsz).
  pose proof (proj1 (Forall_cons _ _ _) Har) as [(_ & _ & Hok & _) _]. cbn [snd] in Hok. rewrite !Forall_app in Hok.
  destruct Hok as (Hok1%sum_nonneg & Hokm%sum_nonneg & Hok2%sum_nonneg).
  set (n := 32 + sum bs1 + sum mid + sum bs2).
  assert (area_range (base, bs1 ++ mid ++ bs2) = (base, n)) as Hrng.
  { unfold area_range, n. cbn [fst snd]. rewrite !sum_app. f_equal. lia. }
  assert ((base, n) ∈ mapped (v_os v)) as Hin by (rewrite Hmap, fmap_cons, Hrng; set_solver).
  destruct (proj1 (Forall_forall _ _) (os_ranges _ Hos) _ Hin) as (? & ? & ? & ? & ?). cbn [fst snd] in *.
  split_and!; try done.
  - intros p ? ?. by apply (is_mapped_spec _ _ _ (base, n)).
  - intros p b Hp Hb. destruct (heads_apart (v_os v) (base, n) b Hos Hin Hb); simpl in *; lia.
  - intros x szx Hx. destruct (Hoth x szx) as ((_ & _ & Hmin) & ?); [done|done|]. specialize (Hmin eq_refl). done.
Qed.

(** Writes to a run and to the header behind it leave the other live
    payloads as they are. *)
Lemma others_kept v base bs1 mid bs2 rest d d' :
  view_ok v ((base, bs1 ++ mid ++ bs2) :: rest) →
  same_outside (base + 16 + sum bs1) (base + 16 + sum bs1 + sum mid + 16) d d' →
  kept (others false base bs1 mid bs2 rest) d d'.
Proof.
  intros Hv Hd x sz q Hx Hq. apply Hd. change SIZE_OF_HEADER_T with 16 in Hq.
  destruct (others_apart false v base bs1 mid bs2 rest x sz Hv Hx) as [_ ?]. lia.
Qed.

Lemma cached_far v base bs rest :
  view_ok v ((base, bs) :: rest) → v_cached v ≠ null →
  v_cached v + 16 ≤ base ∨ base + (32 + sum bs) ≤ v_cached v.
Proof.
  intros (Hos & _ & _ & Hmap & Hc & _) Hne. destruct (Hc Hne) as (csz & Hh & _).
  pose proof (mapped_head_disj _ _ _ (os_disjoint _ Hos) Hmap) as Hdis. rewrite Forall_app in Hdis. destruct Hdis as [_ Hdis].
  pose proof (os_ranges _ Hos) as Hro. rewrite Hmap, Forall_app in Hro. destruct Hro as [_ Hro].
  unfold cached_range in *. rewrite (proj2 (Z.eqb_neq _ _)), Hh in Hdis, Hro by done.
  apply Forall_cons in Hdis as [Hd _], Hro as [(_ & Hp & _ & _ & [k Hk]) _]. unfold disj, area_range in Hd. simpl in *.
  change PAGE_SIZE with 4096 in Hk. lia.
Qed.

Lemma cached_range_ext v v' :
  v_cached v' = v_cached v → (v_cached v ≠ null → v_hdrs v' !! v_cached v = v_hdrs v !! v_cached v) →
  cached_range v' = cached_range v.
Proof.
  intros Hc Hh. unfold cached_range. rewrite Hc. destruct (Z.eqb_spec (v_cached v) null); [done|]. by rewrite Hh.
Qed.

(** The invariant after a change inside one run of blocks. *)
Lemma view_splice v v' base bs1 mid mid' bs2 rest :
  view_ok v ((base, bs1 ++ mid ++ bs2) :: rest) →
  v_os v' = v_os v → v_cached v' = v_cached v → v_size v' = v_size v →
  let a := base + 16 + sum bs1 in
  let e := a + sum mid in
  let la := lastp base (base + 16) bs1 in
  sum mid' = sum mid → Forall blk_ok mid' → coalesced (bs1 ++ mid' ++ bs2) → mid' ≠ [] →
  (∀ q, q + 16 ≤ a ∨ e + 16 ≤ q → v_hdrs v' !! q = v_hdrs v !! q) →
  seg (v_hdrs v') la a mid' →
  (∀ h, v_hdrs v !! e = Some h → v_hdrs v' !! e = Some (mkHdr (lastp la a mid') (hsize h) (flag h))) →
  v_frees v' ≡ₚ blocks_at true a mid' ++ others true base bs1 mid bs2 rest →
  view_ok v' ((base, bs1 ++ mid' ++ bs2) :: rest).
Proof.
  intros Hv Ho Hc Hs a e la Hsum Hokm' Hco Hne Hout Hseg Hlink Hfr.
  pose proof (run_facts v base bs1 mid bs2 rest Hv) as (_ & ? & ? & ? & _).
  pose proof Hv as (Hos & Har & _ & Hmap & Hch & Hsz). apply Forall_cons in Har as [Hao Hrest].
  rewrite fmap_cons in Hmap.
  assert (v_cached v ≠ null → v_hdrs v' !! v_cached v = v_hdrs v !! v_cached v) as Hcf.
  { intros Hnn. destruct (cached_far v _ _ _ Hv Hnn) as [|Hf]; apply Hout; unfold e, a; [lia|].
    rewrite !sum_app in Hf. lia. }
  unfold view_ok. rewrite Ho, Hc, Hs. split_and!; try done.
  - constructor.
    + apply (area_splice (v_hdrs v) _ base bs1 mid); try done.
      * destruct Hao as (_ & _ & Hok & _). cbn [snd] in Hok. rewrite !Forall_app in *. tauto.
      * intros q _. apply Hout.
    + pose proof (mapped_head_disj _ _ _ (os_disjoint _ Hos) Hmap) as Hdis. rewrite Forall_app in Hdis.
      destruct Hdis as [Hdis _]. apply Forall_forall. intros ar Hin.
      pose proof (proj1 (Forall_forall _ _) Hdis) as Hdis'. pose proof (proj1 (Forall_forall _ _) Hrest) as Hrest'.
      apply (area_elsewhere (v_hdrs v) _ ar base (base + (32 + sum (bs1 ++ mid ++ bs2)))); [by apply Hrest'| | |].
      * specialize (Hdis' (area_range ar)). unfold disj, area_range in Hdis'. cbn [fst snd] in Hdis'.
        destruct Hdis'; [apply list_elem_of_fmap; eauto|lia|lia].
      * rewrite !sum_app. lia.
      * intros q Hq. apply Hout. rewrite !sum_app in Hq. unfold e, a. lia.
  - rewrite Hfr, fmap_cons. cbn [concat]. change (others true base bs1 mid bs2 rest)
      with (blocks_at true (base + 16) bs1 ++ blocks_at true e bs2 ++ concat (frees_of <$> rest)).
    change (frees_of (base, bs1 ++ mid' ++ bs2)) with (blocks_at true (base + 16) (bs1 ++ mid' ++ bs2)).
    rewrite !blocks_at_app. fold a. rewrite Hsum. fold e. solve_Permutation.
  - rewrite Hmap, (cached_range_ext v v') by done. rewrite !fmap_cons. unfold area_range at 1 3. cbn [fst snd].
    rewrite !sum_app, Hsum. done.
  - intros Hnn. rewrite Hcf by done. by apply Hch.
Qed.

Lemma used_split base bs1 mid bs2 rest :
  used ((base, bs1 ++ mid ++ bs2) :: rest) ≡ₚ
  blocks_at false (base + 16 + sum bs1) mid ++ others false base bs1 mid bs2 rest.
Proof. apply blocks_split. Qed.

Lemma others_ext f base bs1 mid mid' bs2 rest :
  sum mid' = sum mid → others f base bs1 mid' bs2 rest = others f base bs1 mid bs2 rest.
Proof. intros E. unfold others. by rewrite E. Qed.

Lemma run_view (s : HeapState S) v : repr free_lists s v → headers s = v_hdrs v.
Proof. by intros (_ & _ & _ & ? & _). Qed.

Lemma header_run (s : HeapState S) v p h : repr free_lists s v → v_hdrs v !! p = Some h → header_at p s = Ret (h, s).
Proof. intros Hr Hp. apply header_at_run. by rewrite (run_view _ _ Hr). Qed.

(** The header of a block, and the one right of it. *)
Lemma block_header hd base bs1 sz f bs2 :
  area_ok hd (base, bs1 ++ (sz, f) :: bs2) →
  let a := base + 16 + sum bs1 in
  hd !! a = Some (mkHdr (lastp base (base + 16) bs1) sz (blk_flag f)) ∧
  hd !! (a + sz) = Some (mkHdr a (match bs2 with [] => 0 | b :: _ => b.1 end)
                          (blk_flag (match bs2 with [] => false | b :: _ => b.2 end))).
Proof.
  intros (_ & [Hseg Hend] & Hok & _) a. cbn [fst snd] in *. rewrite seg_app in Hseg. destruct Hseg as [_ [Ha Hs]].
  fold a in Ha, Hs. split; [done|]. rewrite Forall_app, Forall_cons in Hok. destruct Hok as (_ & _ & Hok2).
  destruct (chain_relink hd a (a + sz) bs2 Hok2) as (h & Hh & Hl & Hf & Hz & _).
  { split; [done|]. rewrite lastp_app, sum_app in Hend. simpl in Hend. fold a in Hend. rewrite <-Hend. f_equal. unfold a. lia. }
  rewrite Hh. destruct h; simpl in *. by subst.
Qed.

(** ** Coalescing *)

Definition head_free (bs : list blk) : bool := match bs with [] => false | b :: _ => b.2 end.
Definition last_free (bs : list blk) : bool := match last bs with None => false | Some b => b.2 end.

Lemma coalesced_app l1 l2 :
  coalesced (l1 ++ l2) ↔ coalesced l1 ∧ coalesced l2 ∧ last_free l1 && head_free l2 = false.
Proof.
  induction l1 as [|[z f] l1 IH]; [simpl; tauto|].
  destruct l1 as [|[z' g] l1].
  - destruct l2 as [|[z' g] l2]; simpl; unfold last_free; simpl; [rewrite andb_false_r; tauto|tauto].
  - change (coalesced (((z, f) :: (z', g) :: l1) ++ l2)) with (f && g = false ∧ coalesced (((z', g) :: l1) ++ l2)).
    change (coalesced ((z, f) :: (z', g) :: l1)) with (f && g = false ∧ coalesced ((z', g) :: l1)).
    change (last_free ((z, f) :: (z', g) :: l1)) with (last_free ((z', g) :: l1)). rewrite IH. tauto.
Qed.

Lemma create_header_spec (s : HeapState S) v p z l :
  repr free_lists s v → 0 < p → p + 16 < 2 ^ 64 → 0 ≤ z < 2 ^ 32 →
  is_mapped (v_os v) p 16 = true → clear_of_nodes free_lists (v_frees v) p →
  ∃ s', create_allocation_header p 0 z l s = Ret (p + 16, s') ∧
    repr free_lists s' (mkView (v_os v) (v_cached v) (v_size v) (put p (mkHdr l z 0) (v_hdrs v)) (v_frees v)
                          (wipe p 16 (v_data v))).
Proof.
  intros Hr Hp Hpu Hz Hm Hcl. unfold create_allocation_header.
  rewrite (uadd_small p 0), Z.add_0_r by (unfold is_usize; lia).
  assert (u32_wrap z = z) as -> by (apply Z.mod_small; lia).
  destruct (write_header_spec free_lists s v p (mkHdr l z 0) Hr Hm Hcl) as (s' & Hrun & Hr').
  rewrite (M_bind_run _ _ _ _ _ Hrun). exists s'. split; [|done].
  change SIZE_OF_HEADER_T with 16. by rewrite uadd_small by (unfold is_usize; lia).
Qed.

(** What the free lists give for a bucket whose bit is set. *)
Lemma bucket_head (s : HeapState S) frees b :
  lists_inv free_lists s frees → is_bucket b → bucket_bit (free_list_bits (heap s)) b = true →
  ∃ x sz, (x, sz) ∈ frees ∧ bucket_of sz b ∧
    on_flists (List_empty (free_lists b)) s = Ret (false, s) ∧
    on_flists (List_head (free_lists b)) s = Ret (x, s).
Proof.
  intros (_ & _ & _ & fl & Hd & _ & Hin) Hb Hbit. destruct (Hd b Hb) as [Hdll E]. rewrite Hbit in E.
  destruct (fl b) as [|x t] eqn:Efl; [by rewrite bool_decide_true in E|].
  destruct (proj1 (Hin b x Hb)) as (sz & Hx & Hbk); [rewrite Efl; set_solver|]. exists x, sz.
  split_and!; [done|done| |].
  - unfold on_flists, zoom. rewrite (List_empty_spec _ _ _ Hdll). by destruct s.
  - unfold on_flists, zoom, List_head. rewrite (M_bind_run _ _ _ _ _ (assert_initialized_run _ _ _ Hdll)).
    rewrite fmap_cons in Hdll. destruct (cons_last (free_lists b) (into_node x :: (into_node <$> t))) as (ps & a & E1).
    destruct (dll_home _ _ _ ps a (into_node x) ((into_node <$> t) ++ [free_lists b]) Hdll E1) as (_ & Hn & Hp & _); [done|].
    erewrite M_bind_run by (apply node_at_run; eassumption). simpl. rewrite from_into_node. by destruct s.
Qed.

Lemma bucket_of_size sz b : free_size_ok sz → bucket_of sz b → class_size b ≤ sz - 16 < class_size (b + 1).
Proof.
  intros [Hsz _] Hb. change SIZE_OF_FREE_T with 32 in Hsz. unfold bucket_of in Hb. change SIZE_OF_HEADER_T with 16 in Hb.
  rewrite usub_small in Hb by (unfold is_usize; lia).
  destruct (size_to_index_freeing_spec (sz - 16)) as (b' & Hb' & _ & Hr); [lia|]. congruence.
Qed.

(** A free block as the lists know it and as the areas know it. *)
Lemma free_block (v : view (S:=S)) areas x sz :
  view_ok v areas → (x, sz) ∈ v_frees v →
  ∃ base bs1 bs2 rest, areas ≡ₚ (base, bs1 ++ [(sz, true)] ++ bs2) :: rest ∧ x = base + 16 + sum bs1 ∧
    view_ok v ((base, bs1 ++ [(sz, true)] ++ bs2) :: rest) ∧ free_size_ok sz.
Proof.
  intros Hv Hx. pose proof Hv as (_ & _ & Hfr & _). rewrite Hfr in Hx.
  destruct (find_area true areas x sz Hx) as (base & bs1 & bs2 & rest & Hp & ->).
  exists base, bs1, bs2, rest. pose proof (view_ok_perm v _ _ Hp Hv) as Hv'. split_and!; [done|done|done|].
  destruct Hv' as (_ & Har & _). apply Forall_cons in Har as [(_ & _ & Hok & _) _]. cbn [snd] in Hok.
  rewrite Forall_app, Forall_cons in Hok. destruct Hok as (_ & (? & ? & Hm) & _). specialize (Hm eq_refl). simpl in *.
  split; [change SIZE_OF_FREE_T with 32; lia|done].
Qed.

(** Writing at a block boundary touches no node of the free blocks outside a
    run. *)
Lemma clear_run v base bs1 mid bs2 rest p :
  view_ok v ((base, bs1 ++ mid ++ bs2) :: rest) →
  base + 16 + sum bs1 ≤ p ≤ base + 16 + sum bs1 + sum mid →
  clear_of_nodes free_lists (others true base bs1 mid bs2 rest) p.
Proof.
  intros Hv Hp. destruct (run_facts v base bs1 mid bs2 rest Hv)
    as (? & ? & ? & ? & ? & _ & _ & _ & Hheads & Hoth & _).
  split.
  - intros x szx Hx. destruct (Hoth x szx Hx). lia.
  - intros b Hb. destruct (Hheads p b); [lia|done|lia|lia].
Qed.

(** Taking a free block off the lists, as [unlink_free] does it. *)
Lemma take_block s v base bs1 sz bs2 rest b :
  repr free_lists s v → view_ok v ((base, bs1 ++ [(sz, true)] ++ bs2) :: rest) → bucket_of sz b → is_bucket b →
  let a := base + 16 + sum bs1 in
  let la := lastp base (base + 16) bs1 in
  ∃ s', unlink_free free_lists a b s = Ret ((), s') ∧
    repr free_lists s' (mkView (v_os v) (v_cached v) (v_size v) (put a (mkHdr la sz 0) (v_hdrs v))
                          (others true base bs1 [(sz, true)] bs2 rest) (wipe a 16 (v_data v))).
Proof.
  intros Hr Hv Hbk Hb a la. set (oth := others true base bs1 [(sz, true)] bs2 rest).
  destruct (run_facts v base bs1 [(sz, true)] bs2 rest Hv)
    as (? & ? & ? & ? & ? & _ & _ & Hmap & Hheads & Hoth & Hfr & ? & ? & ?).
  fold a in Hfr, Hoth. simpl in Hfr. fold oth in Hfr.
  pose proof Hv as (_ & Har & _). apply Forall_cons in Har as [Hao _].
  destruct (block_header _ base bs1 sz true bs2 Hao) as [Ha _]. fold a la in Ha.
  assert (sum [(sz, true)] = sz) as Es by (simpl; lia). rewrite Es in *.
  apply (unlink_free_spec free_lists s (mkView (v_os v) (v_cached v) (v_size v) (v_hdrs v) ((a, sz) :: oth) (v_data v))
           a la sz (blk_flag true) b oth); simpl; try done.
  - by apply (repr_perm _ s v).
  - apply Hmap; unfold a; lia.
  - destruct (clear_run v base bs1 [(sz, true)] bs2 rest a Hv) as [Hc1 Hc2]; [unfold a; lia|].
    split; [|done]. intros x szx [[= -> ->]|Hx]%elem_of_cons; [lia|by apply (Hc1 x szx)].
  - rewrite (total_perm _ _ Hfr) in *. simpl in *. lia.
Qed.

(** Coalescing looks only at the flags at the ends of a run. *)
Lemma coalesced_run bs1 mid mid' bs2 :
  coalesced (bs1 ++ mid ++ bs2) → coalesced mid' →
  last_free bs1 && head_free (mid' ++ bs2) = false → last_free mid' && head_free bs2 = false →
  coalesced (bs1 ++ mid' ++ bs2).
Proof. rewrite !coalesced_app. tauto. Qed.

(** A free block becomes a used one. *)
Lemma unlink_block s v base bs1 sz bs2 rest b :
  repr free_lists s v → view_ok v ((base, bs1 ++ [(sz, true)] ++ bs2) :: rest) → bucket_of sz b → is_bucket b →
  let x := base + 16 + sum bs1 in
  ∃ s' v', unlink_free free_lists x b s = Ret ((), s') ∧ repr free_lists s' v' ∧ v_os v' = v_os v ∧
    view_ok v' ((base, bs1 ++ [(sz, false)] ++ bs2) :: rest) ∧
    same_outside x (x + 16) (v_data v) (v_data v') ∧ head_free bs2 = false.
Proof.
  intros Hr Hv Hbk Hb x. set (la := lastp base (base + 16) bs1).
  destruct (take_block s v base bs1 sz bs2 rest b Hr Hv Hbk Hb) as (s1 & Hrun & Hr1). fold x la in Hrun, Hr1.
  destruct (run_facts v base bs1 [(sz, true)] bs2 rest Hv) as (? & ? & ? & ? & _).
  pose proof Hv as (_ & Har & _). apply Forall_cons in Har as [Hao _].
  pose proof Hao as (_ & _ & Hok & Hco & _). cbn [snd] in Hok, Hco. rewrite !Forall_app in Hok.
  destruct Hok as (_ & Hbo & _). apply Forall_cons in Hbo as [((? & ?) & ? & _) _]. cbn [fst] in *.
  destruct (block_header _ base bs1 sz true bs2 Hao) as [_ Hright]. fold x in Hright.
  assert (head_free bs2 = false) as Hhf.
  { rewrite !coalesced_app in Hco. destruct Hco as (_ & (_ & _ & Hl) & _). exact Hl. }
  eexists s1, _. split_and!; [exact Hrun|exact Hr1|done| |simpl; outside|done].
  apply (view_splice v _ base bs1 [(sz, true)] [(sz, false)] bs2 rest); simpl; try done.
  - constructor; [|constructor]. by split_and!.
  - apply (coalesced_run _ _ [(sz, false)] _ Hco); [done|by rewrite andb_false_r|done].
  - intros q Hq. apply put_far. unfold x in *. lia.
  - fold x la. split; [apply put_same|done].
  - fold x la. rewrite Z.add_0_r. intros h Hh. rewrite put_far, Hh by lia. rewrite Hright in Hh. by injection Hh as <-.
Qed.

(** Cutting a free rest off a used block: what [cmpct_alloc] does with a
    block that is too large. *)
Lemma carve_free s v base bs1 xsz bs2 rest rup :
  repr free_lists s v → view_ok v ((base, bs1 ++ [(xsz, false)] ++ bs2) :: rest) → head_free bs2 = false →
  blk_ok (rup, false) → blk_ok (xsz - rup, true) →
  let x := base + 16 + sum bs1 in
  ∃ s' v', (create_free_area free_lists (x + rup) x (xsz - rup);;
            set_left (x + xsz) (x + rup);;
            h ← header_at x; set_size x (u32_wrap (hsize h - u32_wrap (xsz - rup)))) s = Ret ((), s') ∧
    repr free_lists s' v' ∧ v_os v' = v_os v ∧
    view_ok v' ((base, bs1 ++ [(rup, false); (xsz - rup, true)] ++ bs2) :: rest) ∧
    same_outside x (x + xsz + 16) (v_data v) (v_data v').
Proof.
  intros Hr Hv Hhf Hru Hlo x. set (la := lastp base (base + 16) bs1).
  destruct (run_facts v base bs1 [(xsz, false)] bs2 rest Hv)
    as (? & ? & ? & ? & ? & _ & _ & Hmap & Hheads & Hoth & Hfr & ? & ? & Htot).
  simpl in Hfr. set (oth := others true base bs1 [(xsz, false)] bs2 rest) in *.
  assert (sum [(xsz, false)] = xsz) as Es by (simpl; lia). rewrite Es in *.
  destruct Hru as ((? & ?) & ? & _), Hlo as ((? & ?) & ? & Hmin); cbn [fst snd] in *. specialize (Hmin eq_refl).
  pose proof Hv as (_ & Har & _). apply Forall_cons in Har as [Hao _].
  destruct (block_header _ base bs1 xsz false bs2 Hao) as [Hx0 Hright]. fold x la in Hx0, Hright.
  match type of Hright with _ = Some ?h => set (hr := h) in * end.
  destruct (create_free_area_spec free_lists s v (x + rup) x (xsz - rup) Hr) as (s2 & Hrun2 & Hr2).
  { split; [change SIZE_OF_FREE_T with 32; lia|done]. }
  { unfold x; lia. } { unfold x; lia. }
  { apply Hmap; unfold x; lia. } { apply Hmap; unfold x; lia. }
  { intros y szy. rewrite Hfr. intros Hy. destruct (Hoth y szy Hy). unfold x. lia. }
  { intros c Hc. destruct (Hheads (x + rup) c); [unfold x; lia|done|unfold x; lia|unfold x in *; lia]. }
  { rewrite (total_perm _ _ Hfr). lia. } { by rewrite (total_perm _ _ Hfr). }
  rewrite (M_bind_run _ _ _ _ _ Hrun2).
  assert (∀ p, p = x ∨ p = x + xsz → clear_of_nodes free_lists ((x + rup, xsz - rup) :: v_frees v) p) as Hclr.
  { intros p Hp. destruct (clear_run v base bs1 [(xsz, false)] bs2 rest p Hv) as [Hc1 Hc2]; [rewrite Es; unfold x in Hp; lia|].
    split; [|done]. intros y szy [[= -> ->]|Hy]%elem_of_cons; [lia|]. rewrite Hfr in Hy. by apply (Hc1 y szy). }
  destruct (set_left_spec free_lists s2 _ (x + xsz) hr (x + rup) Hr2) as (s3 & Hrun3 & Hr3); simpl.
  { rewrite put_far, keep_far by lia. exact Hright. }
  { apply Hmap; unfold x; lia. } { apply Hclr; lia. }
  rewrite (M_bind_run _ _ _ _ _ Hrun3). simpl in Hr3. set (hd3 := put (x + xsz) _ _) in Hr3.
  assert (hd3 !! x = Some (mkHdr la xsz 0)) as Hx3 by (unfold hd3; rewrite put_far, put_far, keep_far by lia; done).
  erewrite M_bind_run by (apply (header_run _ _ _ _ Hr3); exact Hx3). cbn [hsize].
  assert (u32_wrap (xsz - u32_wrap (xsz - rup)) = rup) as ->.
  { unfold u32_wrap. rewrite (Z.mod_small (xsz - rup)), Z.mod_small by lia. lia. }
  destruct (set_size_spec free_lists s3 _ x _ rup Hr3 Hx3) as (s4 & Hrun4 & Hr4); simpl.
  { apply Hmap; unfold x; lia. } { apply Hclr; lia. }
  simpl in Hr4. eexists s4, _. split; [exact Hrun4|]. split; [exact Hr4|]. split; [done|]. split; [|simpl; outside].
  apply (view_splice v _ base bs1 [(xsz, false)] [(rup, false); (xsz - rup, true)] bs2 rest); simpl; try done.
  - lia.
  - repeat constructor; simpl; try done; lia.
  - destruct Hao as (_ & _ & _ & Hco & _). cbn [snd] in Hco.
    apply (coalesced_run _ _ [(rup, false); (xsz - rup, true)] _ Hco); [done|by rewrite andb_false_r|done].
  - intros q Hq. fold x in Hq. unfold hd3. rewrite !put_far, keep_far by lia. done.
  - fold x la. split_and!; [apply put_same| |done]. unfold hd3. rewrite put_far, put_far by lia. apply put_same.
  - fold x la. rewrite Z.add_0_r. intros h Hh. rewrite Hright in Hh. injection Hh as <-. simpl.
    rewrite put_far by lia. apply put_same.
  - fold x. by rewrite Hfr.
Qed.

(** Writing the header of a used block once more. *)
Lemma rewrite_header s v base bs1 sz bs2 rest :
  repr free_lists s v → view_ok v ((base, bs1 ++ [(sz, false)] ++ bs2) :: rest) →
  let x := base + 16 + sum bs1 in
  let la := lastp base (base + 16) bs1 in
  ∃ s' v', create_allocation_header x 0 sz la s = Ret (x + 16, s') ∧ repr free_lists s' v' ∧
    v_os v' = v_os v ∧ view_ok v' ((base, bs1 ++ [(sz, false)] ++ bs2) :: rest) ∧
    same_outside x (x + 16) (v_data v) (v_data v').
Proof.
  intros Hr Hv x la.
  destruct (run_facts v base bs1 [(sz, false)] bs2 rest Hv)
    as (? & ? & ? & ? & ? & _ & _ & Hmap & _ & _ & Hfr & _).
  assert (sum [(sz, false)] = sz) as Es by (simpl; lia). rewrite Es in *.
  pose proof Hv as (_ & Har & _). apply Forall_cons in Har as [Hao _].
  pose proof Hao as (_ & _ & Hok & Hco & _). cbn [snd] in Hok, Hco. rewrite !Forall_app in Hok.
  destruct Hok as (_ & Hb & _). apply Forall_cons in Hb as [Hb _]. pose proof Hb as ((? & ?) & _). cbn [fst] in *.
  destruct (create_header_spec s v x sz la Hr) as (s' & Hrun & Hr').
  { unfold x; lia. } { unfold x; lia. } { lia. } { apply Hmap; unfold x; lia. }
  { destruct (clear_run v base bs1 [(sz, false)] bs2 rest x Hv) as [Hc1 Hc2]; [rewrite Es; unfold x; lia|].
    split; [|done]. intros y szy Hy. rewrite Hfr in Hy. simpl in Hy. by apply (Hc1 y szy). }
  eexists s', _. split_and!; [exact Hrun|exact Hr'|done| |simpl; outside].
  destruct (block_header _ base bs1 sz false bs2 Hao) as [Hx Hright]. fold x la in Hx, Hright.
  apply (view_splice v _ base bs1 [(sz, false)] [(sz, false)] bs2 rest); simpl; try done.
  - constructor; [done|constructor].
  - intros q Hq. apply put_far. unfold x in *. lia.
  - fold x la. split; [apply put_same|done].
  - fold x la. rewrite Z.add_0_r. intros h Hh. rewrite put_far, Hh by lia. rewrite Hright in Hh. by injection Hh as <-.
Qed.

(** The first half of [alloc_from]: a used block of at least [r + 16] bytes
    where the free one was, the rest of it free when there is enough of it. *)
Lemma alloc_take s v base bs1 xsz bs2 rest b r sz :
  repr free_lists s v → view_ok v ((base, bs1 ++ [(xsz, true)] ++ bs2) :: rest) → bucket_of xsz b → is_bucket b →
  8 ≤ r → (8 | r) → r + 16 ≤ xsz → free_size_ok xsz →
  let x := base + 16 + sum bs1 in
  ∃ nsz s1 v1 bs2', (if (SIZE_OF_FREE_T <=? xsz - (r + 16)) && (ushr sz 6 <? xsz - (r + 16))
     then right ← right_header x;
          unlink_free free_lists x b;;
          create_free_area free_lists (uadd x (r + 16)) x (xsz - (r + 16));;
          set_left right (uadd x (r + 16));;
          h ← header_at x; set_size x (u32_wrap (hsize h - u32_wrap (xsz - (r + 16))))
     else unlink_free free_lists x b) s = Ret ((), s1) ∧ repr free_lists s1 v1 ∧ v_os v1 = v_os v ∧
    view_ok v1 ((base, bs1 ++ [(nsz, false)] ++ bs2') :: rest) ∧
    used ((base, bs1 ++ [(nsz, false)] ++ bs2') :: rest) ≡ₚ (x, nsz) :: others false base bs1 [(xsz, true)] bs2 rest ∧
    same_outside x (x + xsz + 16) (v_data v) (v_data v1) ∧
    r + 16 ≤ nsz ≤ xsz ∧ (32 ≤ nsz ∨ head_free bs2' = true).
Proof.
  intros Hr Hv Hbk Hb Hr8 Hdiv Hfit [Hfs Hfd] x. change SIZE_OF_FREE_T with 32 in *.
  destruct (run_facts v base bs1 [(xsz, true)] bs2 rest Hv) as (? & ? & ? & ? & ? & _).
  assert (sum [(xsz, true)] = xsz) as Es by (simpl; lia). rewrite Es in *.
  pose proof Hv as (_ & Har & _). apply Forall_cons in Har as [Hao _].
  destruct (block_header _ base bs1 xsz true bs2 Hao) as [Hxh _]. fold x in Hxh.
  destruct (unlink_block s v base bs1 xsz bs2 rest b Hr Hv Hbk Hb) as (s1 & v1 & Hrun1 & Hr1 & Ho1 & Hv1 & Hd1 & Hhf).
  fold x in Hrun1, Hd1. destruct ((32 <=? xsz - (r + 16)) && (ushr sz 6 <? xsz - (r + 16))) eqn:Ec.
  - apply andb_prop in Ec as [Ec%Z.leb_le _].
    destruct (carve_free s1 v1 base bs1 xsz bs2 rest (r + 16) Hr1 Hv1 Hhf) as (s2 & v2 & Hrun2 & Hr2 & Ho2 & Hv2 & Hd2).
    { split_and!; simpl; [lia|lia|by apply Z.divide_add_r; [|exists 2]|done]. }
    { split_and!; simpl; [lia|lia| |lia]. apply Z.divide_sub_r; [done|]. by apply Z.divide_add_r; [|exists 2]. }
    fold x in Hrun2, Hd2. exists (r + 16), s2, v2, ((xsz - (r + 16), true) :: bs2).
    split; [|split; [done|split; [congruence|split; [exact Hv2|split; [|split; [|split; [lia|by right]]]]]]].
    + unfold right_header. erewrite M_bind_run. 2:{ by rewrite (M_bind_run _ _ _ _ _ (header_run _ _ _ _ Hr Hxh)). }
      cbn [hsize]. rewrite !uadd_small by (unfold is_usize, x; lia). by rewrite (M_bind_run _ _ _ _ _ Hrun1).
    + rewrite (used_split base bs1 [(r + 16, false)]). cbn [blocks_at Bool.eqb app]. fold x.
      unfold others. cbn [blocks_at Bool.eqb app]. rewrite !Es. simpl sum. rewrite !Z.add_0_r.
      replace (base + 16 + sum bs1 + (r + 16) + (xsz - (r + 16))) with (base + 16 + sum bs1 + xsz) by lia. done.
    + apply (outside_trans _ _ _ (v_data v1)); [|done]. apply (outside_mono x (x + 16)); [lia|lia|done].
  - exists xsz, s1, v1, bs2. split_and!; try done; try lia.
    + rewrite (used_split base bs1 [(xsz, false)]). cbn [blocks_at Bool.eqb app]. fold x.
      by rewrite (others_ext false base bs1 [(xsz, true)] [(xsz, false)]).
    + apply (outside_mono x (x + 16)); [lia|lia|done].
Qed.

(** What a block needs to be freed without harm: room for the header and the
    list node of a free block, or a free neighbour to merge with. *)
Definition freeable (areas : list area) (b : Z * Z) : Prop :=
  SIZE_OF_FREE_T ≤ b.2 ∨
  ∃ c, c ∈ concat (frees_of <$> areas) ∧ (c.1 = b.1 + b.2 ∨ c.1 + c.2 = b.1).

Lemma freeable_right base bs1 sz bs2 rest :
  head_free bs2 = true → freeable ((base, bs1 ++ [(sz, false)] ++ bs2) :: rest) (base + 16 + sum bs1, sz).
Proof.
  intros Hhf. destruct bs2 as [|[n f] bs2]; [done|]. simpl in Hhf. subst f. right.
  exists (base + 16 + sum bs1 + sz, n). split; [|by left]. rewrite fmap_cons. cbn [concat]. apply elem_of_app. left.
  unfold frees_of. cbn [fst snd]. rewrite !blocks_at_app. cbn [blocks_at Bool.eqb app].
  replace (base + 16 + sum bs1 + sum [(sz, false)]) with (base + 16 + sum bs1 + sz) by (simpl; lia). set_solver.
Qed.

Lemma alloc_from_spec s areas sz r start b :
  heap_inv s areas → is_bucket b → bucket_bit (free_list_bits (heap s)) b = true →
  0 ≤ start ≤ b → r = class_size start → (8 | r) → 0 < sz ≤ r →
  ∃ x nsz s' areas', alloc_from free_lists sz (r + 16) b s = Ret (x + 16, s') ∧ heap_inv s' areas' ∧
    used areas' ≡ₚ (x, nsz) :: used areas ∧ r + 16 ≤ nsz ∧ freeable areas' (x, nsz) ∧
    kept (used areas) (mem_bytes s) (mem_bytes s').
Proof.
  intros (v & Hr & Hv) Hb Hbit Hst Hcls Hdiv Hsz. pose proof Hr as (_ & _ & _ & _ & Hdt & Hl).
  destruct (bucket_head s _ b Hl Hb Hbit) as (x & xsz & Hx & Hbk & Hemp & Hhead).
  destruct (free_block v areas x xsz Hv Hx) as (base & bs1 & bs2 & rest & Hperm & -> & Hv' & Hfs).
  assert (used areas ≡ₚ others false base bs1 [(xsz, true)] bs2 rest) as Hused.
  { unfold used. rewrite (concat_perm _ _ (fmap_Permutation used_of _ _ Hperm)). apply (used_split base bs1 [(xsz, true)]). }
  destruct (run_facts v base bs1 [(xsz, true)] bs2 rest Hv') as (? & ? & ? & ? & ? & _).
  assert (sum [(xsz, true)] = xsz) as Es by (simpl; lia). rewrite Es in *.
  pose proof (bucket_of_size xsz b Hfs Hbk) as [Hcb _]. pose proof (class_size_mono start b Hst).
  assert (8 ≤ r) by (pose proof (class_size_step start ltac:(lia)); destruct Hdiv; lia).
  set (x := base + 16 + sum bs1) in *. set (la := lastp base (base + 16) bs1).
  pose proof Hv' as (_ & Har & _). apply Forall_cons in Har as [Hao _].
  destruct (block_header _ base bs1 xsz true bs2 Hao) as [Hxh _]. fold x la in Hxh.
  unfold alloc_from, free_list. rewrite (proj2 (Z.ltb_lt b NUMBER_OF_BUCKETS)) by apply Hb.
  erewrite M_bind_run by reflexivity. rewrite (M_bind_run _ _ _ _ _ Hemp). erewrite M_bind_run by reflexivity.
  rewrite (M_bind_run _ _ _ _ _ Hhead). rewrite (proj2 (Z.eqb_neq x null)) by (unfold x, null; lia).
  rewrite (M_bind_run _ _ _ _ _ (header_run _ _ _ _ Hr Hxh)). cbn [hsize].
  rewrite (usub_small xsz (r + 16)) by (destruct Hfs; unfold is_usize; lia).
  destruct (alloc_take s v base bs1 xsz bs2 rest b r sz Hr Hv' Hbk Hb) as
    (nsz & s1 & v1 & bs2' & Hrun & Hr1 & Ho1 & Hv1 & Hu1 & Hd1 & Hn & Hfree); [lia|done|lia|done|]. fold x in Hrun, Hu1, Hd1.
  pose proof Hv1 as (_ & Har1 & _). apply Forall_cons in Har1 as [Hao1 _].
  destruct (block_header _ base bs1 nsz false bs2' Hao1) as [Hh1 _]. fold x la in Hh1.
  rewrite (M_bind_run _ _ _ _ _ Hrun), (M_bind_run _ _ _ _ _ (header_run _ _ _ _ Hr1 Hh1)). cbn [hsize left].
  destruct (rewrite_header s1 v1 base bs1 nsz bs2' rest Hr1 Hv1) as (s2 & v2 & Hrun2 & Hr2 & Ho2 & Hv2 & Hd2).
  fold x la in Hrun2, Hd2. exists x, nsz, s2, ((base, bs1 ++ [(nsz, false)] ++ bs2') :: rest).
  pose proof Hr2 as (_ & _ & _ & _ & Hdt2 & _). rewrite Hdt, Hdt2, Hused.
  split_and!; [done|by exists v2|done|lia| |].
  - destruct Hfree; [by left|by apply freeable_right].
  - apply (others_kept v); [done|]. fold x. rewrite Es. apply (outside_trans _ _ _ (v_data v1)); [done|].
    apply (outside_mono x (x + 16)); [lia|lia|done].
Qed.

(** ** Areas come and go *)

(** The heap beside a mapped range that is not part of it. *)
Definition view_with (v : view (S:=S)) (rng : Z * Z) (areas : list area) : Prop :=
  os_ok (v_os v) ∧ Forall (area_ok (v_hdrs v)) areas ∧
  v_frees v ≡ₚ concat (frees_of <$> areas) ∧
  mapped (v_os v) ≡ₚ rng :: (area_range <$> areas) ++ cached_range v ∧
  (v_cached v ≠ null → ∃ csz, v_hdrs v !! v_cached v = Some (mkHdr null csz 0) ∧ csz ≤ 2 ^ 21) ∧
  v_size v = total (mapped (v_os v)).

Lemma fresh_facts v ab n areas :
  view_with v (ab, n) areas →
  0 < ab ∧ ab + n < 2 ^ 64 ∧ (PAGE_SIZE | ab) ∧ (PAGE_SIZE | n) ∧ 4096 ≤ n ∧
  (∀ p, ab ≤ p → p + 16 ≤ ab + n → is_mapped (v_os v) p 16 = true) ∧
  (∀ b, is_bucket b → free_lists b + 16 ≤ ab ∨ ab + n ≤ free_lists b) ∧
  (∀ x szx, (x, szx) ∈ v_frees v → 32 ≤ szx ∧ (x + szx ≤ ab ∨ ab + n ≤ x)) ∧
  0 ≤ total (v_frees v) ∧ total (v_frees v) + n < 2 ^ 63 ∧
  Forall (λ ar : area, disj (ab, n) (area_range ar)) areas ∧
  (v_cached v ≠ null → v_cached v + 16 ≤ ab ∨ ab + n ≤ v_cached v).
Proof.
  intros (Hos & Har & Hfr & Hmap & Hc & Hsz).
  pose proof (mapped_head_disj _ _ _ (os_disjoint _ Hos) Hmap) as Hdis. rewrite Forall_app in Hdis. destruct Hdis as [Hdis Hdc].
  pose proof (os_ranges _ Hos) as Hro. rewrite Hmap in Hro. apply Forall_cons in Hro as [(? & ? & ? & ? & [k Hk]) Hro].
  cbn [fst snd] in *. change PAGE_SIZE with 4096 in Hk.
  assert ((ab, n) ∈ mapped (v_os v)) as Hin by (rewrite Hmap; set_solver).
  assert (Forall (λ ar : area, disj (ab, n) (area_range ar)) areas) as Hda by (by rewrite Forall_fmap in Hdis).
  split_and!; try done; try lia.
  - by exists k.
  - intros p ? ?. by apply (is_mapped_spec _ _ _ (ab, n)).
  - intros b Hb. apply (heads_apart (v_os v) (ab, n) b Hos Hin Hb).
  - intros x szx Hx. rewrite Hfr in Hx. apply (find_area true) in Hx as (base & bs1 & bs2 & rest & Hp & ->).
    rewrite Hp in Hda, Har. apply Forall_cons in Hda as [Hd _], Har as [(_ & _ & Hok & _) _].
    unfold disj, area_range in Hd. cbn [fst snd] in *. rewrite sum_app, sum_cons in Hd.
    rewrite Forall_app, Forall_cons in Hok. destruct Hok as (Ho1 & (_ & _ & Hmin) & Ho2). specialize (Hmin eq_refl).
    pose proof (sum_nonneg _ Ho1). pose proof (sum_nonneg _ Ho2). simpl in *. lia.
  - rewrite (total_perm _ _ Hfr). apply (frees_total areas _ Har).
  - pose proof (os_total _ Hos) as Ht. rewrite (total_perm _ _ Hmap) in Ht.
    change (total ((ab, n) :: (area_range <$> areas) ++ cached_range v))
      with (n + total ((area_range <$> areas) ++ cached_range v)) in Ht. rewrite total_app in Ht.
    pose proof (frees_total areas _ Har). pose proof (cached_total v areas [(ab, n)] Hos Hmap).
    rewrite (total_perm _ _ Hfr). lia.
  - intros Hne. destruct (Hc Hne) as (csz & Hh & _). apply Forall_app in Hro as [_ Hrc].
    unfold cached_range in Hdc, Hrc. rewrite (proj2 (Z.eqb_neq _ _)), Hh in Hdc, Hrc by done.
    apply Forall_cons in Hdc as [Hd _], Hrc as [(_ & Hp & _ & _ & [kc Hkc]) _]. unfold disj in Hd. simpl in *.
    change PAGE_SIZE with 4096 in Hkc. lia.
Qed.

Lemma fresh_kept v ab n areas d d' :
  view_with v (ab, n) areas → same_outside ab (ab + n) d d' → kept (used areas) d d'.
Proof.
  intros Hv Hd x sz q Hx Hq. apply Hd. change SIZE_OF_HEADER_T with 16 in Hq.
  destruct (fresh_facts v ab n areas Hv) as (_ & _ & _ & _ & _ & _ & _ & _ & _ & _ & Hda & _).
  destruct Hv as (_ & Har & _). apply (find_area false) in Hx as (base & bs1 & bs2 & rest & Hp & ->).
  rewrite Hp in Hda, Har. apply Forall_cons in Hda as [Hdj _], Har as [(_ & _ & Hok & _) _].
  unfold disj, area_range in Hdj. cbn [fst snd] in *. rewrite sum_app, sum_cons in Hdj.
  rewrite Forall_app, Forall_cons in Hok. destruct Hok as (Ho1%sum_nonneg & _ & Ho2%sum_nonneg). simpl in *. lia.
Qed.

(** Writes inside the range leave the rest of the heap alone. *)
Lemma view_with_stable v v' ab n areas :
  view_with v (ab, n) areas → v_os v' = v_os v → v_cached v' = v_cached v → v_size v' = v_size v →
  v_frees v' = v_frees v →
  (∀ q, q + 16 ≤ ab ∨ ab + n ≤ q → v_hdrs v' !! q = v_hdrs v !! q) → view_with v' (ab, n) areas.
Proof.
  intros Hv Ho Hc Hs Hf Hq. pose proof (fresh_facts v ab n areas Hv) as (_ & _ & _ & _ & ? & _ & _ & _ & _ & _ & Hda & Hcf).
  pose proof Hv as (Hos & Har & Hfr & Hmap & Hch & Hsz). unfold view_with. rewrite Ho, Hc, Hs, Hf.
  split_and!; try done.
  - apply Forall_forall. intros ar Hin. pose proof (proj1 (Forall_forall _ _) Har ar Hin) as Hao.
    pose proof (proj1 (Forall_forall _ _) Hda ar Hin) as Hd. unfold disj, area_range in Hd. cbn [fst snd] in Hd.
    apply (area_elsewhere (v_hdrs v) _ ar ab (ab + n)); [done|lia|lia|done].
  - rewrite Hmap, (cached_range_ext v v'); [done|done|]. intros Hne. apply Hq. by apply Hcf.
  - intros Hne. rewrite Hq; [by apply Hch|by apply Hcf].
Qed.

Lemma add_to_heap_spec s v ar n areas :
  repr free_lists s v → view_with v (ar, n) areas → n ≤ 2 ^ 21 →
  ∃ s', add_to_heap free_lists ar n s = Ret (Ok (), s') ∧ heap_inv s' ((ar, [(n - 32, true)]) :: areas) ∧
    same_outside ar (ar + n) (v_data v) (mem_bytes s').
Proof.
  intros Hr Hv Hn. destruct (fresh_facts v ar n areas Hv) as (? & ? & ? & [kn Hkn] & ? & Hmap & Hheads & Hfar & ? & ? & Hda & Hcf).
  change PAGE_SIZE with 4096 in Hkn.
  assert (∀ p, ar ≤ p → p + 16 ≤ ar + n → clear_of_nodes free_lists (v_frees v) p) as Hclr.
  { intros p ? ?. split.
    - intros x szx Hx. destruct (Hfar x szx Hx). lia.
    - intros b Hb. destruct (Hheads b Hb); lia. }
  unfold add_to_heap.
  destruct (create_header_spec s v ar SIZE_OF_HEADER_T null Hr) as (s1 & Hrun1 & Hr1);
    [lia|lia|done|apply Hmap; lia|apply Hclr; lia|].
  rewrite (M_bind_run _ _ _ _ _ Hrun1). change (2 * SIZE_OF_HEADER_T) with 32. change SIZE_OF_HEADER_T with 16.
  rewrite (usub_small n 32) by (unfold is_usize; lia). simpl in Hr1.
  destruct (create_free_area_spec free_lists s1 _ (ar + 16) ar (n - 32) Hr1) as (s2 & Hrun2 & Hr2); simpl.
  { split; [change SIZE_OF_FREE_T with 32; lia|]. exists (kn * 512 - 4). lia. }
  { lia. } { lia. } { apply Hmap; lia. } { apply Hmap; lia. }
  { intros x szx Hx. destruct (Hfar x szx Hx). lia. }
  { intros b Hb. destruct (Hheads b Hb); lia. }
  { lia. } { lia. }
  rewrite (M_bind_run _ _ _ _ _ Hrun2). simpl in Hr2.
  rewrite (uadd_small ar n), (usub_small (ar + n) 16) by (unfold is_usize; lia).
  destruct (create_header_spec s2 _ (ar + n - 16) 0 (ar + 16) Hr2) as (s3 & Hrun3 & Hr3); simpl;
    [lia|lia|lia|apply Hmap; lia| |].
  { destruct (Hclr (ar + n - 16)) as [Hc1 Hc2]; [lia|lia|]. split; [|done].
    intros x szx [[= -> ->]|Hx]%elem_of_cons; [lia|by apply (Hc1 x szx)]. }
  rewrite (M_bind_run _ _ _ _ _ Hrun3). exists s3. split; [done|].
  split; [|destruct Hr3 as (_ & _ & _ & _ & -> & _); simpl; outside]. eexists. split; [exact Hr3|]. simpl.
  pose proof (view_with_stable v (mkView (v_os v) (v_cached v) (v_size v)
     (put (ar + n - 16) (mkHdr (ar + 16) 0 0) (put (ar + 16) (mkHdr ar (n - 32) FREE_BIT)
        (keep (ar + 16 + 16) (put ar (mkHdr null SIZE_OF_HEADER_T 0) (v_hdrs v))))) (v_frees v) (v_data v)) ar n areas Hv) as Hst.
  destruct Hst as (Hos & Har' & Hfr & Hmap' & Hch & Hsz); simpl; try done.
  { intros q Hq. rewrite !put_far, keep_far, put_far by lia. done. }
  simpl in *. split_and!; simpl; try done.
  - constructor; [|done]. split_and!; simpl; try done; try lia.
    + rewrite !put_far, keep_far by lia. apply put_same.
    + split; simpl.
      * split; [|done]. rewrite put_far by lia. apply put_same.
      * replace (ar + 16 + (n - 32 + 0)) with (ar + n - 16) by lia. apply put_same.
    + constructor; [|constructor]. split_and!; simpl; try lia. exists (kn * 512 - 4). lia.
  - by rewrite Hfr.
  - rewrite Hmap'. unfold area_range at 2. simpl. replace (32 + (n - 32 + 0)) with n by lia. done.
Qed.

Lemma on_os_run {A} (m : M S A) (s : HeapState S) v a o' :
  repr free_lists s v → m (v_os v) = Ret (a, o') →
  ∃ s', on_os m s = Ret (a, s') ∧ repr free_lists s' (mkView o' (v_cached v) (v_size v) (v_hdrs v) (v_frees v) (v_data v)).
Proof.
  intros (Ho & Hc & Hs & Hh & Hdt & Hl) Hm. unfold on_os, zoom. rewrite Ho, Hm. eexists. split; [done|].
  by split_and!.
Qed.

Lemma set_heap_size_run (s : HeapState S) v f :
  repr free_lists s v →
  ∃ s', set_heap_size f s = Ret ((), s') ∧
    repr free_lists s' (mkView (v_os v) (v_cached v) (f (v_size v)) (v_hdrs v) (v_frees v) (v_data v)).
Proof.
  intros (Ho & Hc & Hs & Hh & Hdt & Hl). eexists. split; [reflexivity|]. split_and!; simpl; try done; by rewrite ?Hs.
Qed.

Lemma set_cached_run (s : HeapState S) v p :
  repr free_lists s v →
  ∃ s', set_cached p s = Ret ((), s') ∧
    repr free_lists s' (mkView (v_os v) p (v_size v) (v_hdrs v) (v_frees v) (v_data v)).
Proof. intros (Ho & Hc & Hs & Hh & Hdt & Hl). eexists. split; [reflexivity|]. by split_and!. Qed.

Lemma mapped_total (o : S) : os_ok o → 0 ≤ total (mapped o).
Proof.
  intros Hro%os_ranges. induction Hro as [|r l (_ & ? & _) _ IH]; [done|].
  change (total (r :: l)) with (r.2 + total l). lia.
Qed.

Lemma free_to_os_spec s v va n :
  repr free_lists s v → os_ok (v_os v) → (va, n) ∈ mapped (v_os v) →
  v_size v = total (mapped (v_os v)) →
  ∃ s' o', free_to_os va n s = Ret (Ok (), s') ∧ os_ok o' ∧ mapped (v_os v) ≡ₚ (va, n) :: mapped o' ∧
    repr free_lists s' (mkView o' (v_cached v) (total (mapped o')) (v_hdrs v) (v_frees v) (v_data v)).
Proof.
  intros Hr Hos Hin Hsz. pose proof (proj1 (Forall_forall _ _) (os_ranges _ Hos) _ Hin) as (? & ? & ? & ? & Hd). cbn [fst snd] in *.
  destruct (pages_of_bytes n) as [Ep Hp]; [lia|done|lia|].
  destruct (os_free (v_os v) va (ushr n PAGE_SHIFT)) as (o' & Hfree & Hos' & Hmap); [done|done|by rewrite Ep|].
  rewrite Ep in Hmap. unfold free_to_os, heap_page_free.
  rewrite (proj2 (IS_PAGE_ALIGNED_spec va)) by (by apply Z.mod_divide).
  rewrite (proj2 (IS_PAGE_ALIGNED_spec n)) by (by apply Z.mod_divide).
  rewrite (proj2 (Z.ltb_lt 0 (ushr n PAGE_SHIFT))) by done.
  do 2 erewrite M_bind_run by reflexivity.
  destruct (on_os_run _ s v _ o' Hr Hfree) as (s1 & Hrun1 & Hr1).
  erewrite bindR_run by (do 2 erewrite M_bind_run by reflexivity; exact Hrun1).
  destruct (set_heap_size_run s1 _ (λ x, usub x n) Hr1) as (s2 & Hrun2 & Hr2). rewrite (M_bind_run _ _ _ _ _ Hrun2).
  exists s2, o'. split_and!; [done|done|done|]. simpl in Hr2.
  replace (total (mapped o')) with (usub (v_size v) n); [done|].
  pose proof (os_total _ Hos) as Ht. rewrite Hsz. rewrite (total_perm _ _ Hmap) in *.
  change (total ((va, n) :: mapped o')) with (n + total (mapped o')) in *.
  pose proof (mapped_total o' Hos').
  rewrite usub_small by (unfold is_usize; lia). lia.
Qed.

(** ** heap_grow *)

(** The page allocator, at [o0] before, with nothing but the areas in use and
    no request granted in between, refused [n] pages. *)
Definition refused (o0 : S) (areas : list area) (n : Z) : Prop :=
  ∃ o e o', os_run 0 o0 o ∧ os_ok o ∧ mapped o ≡ₚ (area_range <$> areas) ∧ va_alloc_pages n o = Ret (Err e, o').
(** The pages [heap_grow] asks for. *)
Definition grow_pages (sz0 : Z) : Z := ushr (ROUNDUP (uadd sz0 HEAP_GROW_OVER_HEAD) PAGE_SIZE) PAGE_SHIFT.

(** [heap_page_alloc]: a new range beside the areas, its bytes unknown, or a
    refusal. *)
Lemma heap_page_alloc_spec s v areas n :
  repr free_lists s v → view_ok v areas → v_cached v = null → 0 < n ≤ 2 ^ 21 → (PAGE_SIZE | n) →
  ∃ r s', (a ←? heap_page_alloc (ushr n PAGE_SHIFT); set_heap_size (λ x, uadd x n);; mret (Ok a)) s = Ret (r, s') ∧
    match r with
    | Ok va => ∃ v', repr free_lists s' v' ∧ view_with v' (va, n) areas ∧ same_outside va (va + n) (v_data v) (v_data v')
    | Err _ => heap_inv s' areas ∧ mem_bytes s' = v_data v ∧ refused (v_os v) areas (ushr n PAGE_SHIFT)
    end.
Proof.
  intros Hr Hv Hc Hn Hd. destruct Hv as (Hos & Har & Hfr & Hmap & Hch & Hsz).
  destruct (pages_of_bytes n) as [Ep Hp]; [lia|done|lia|].
  destruct (os_alloc (v_os v) (ushr n PAGE_SHIFT) Hos Hp) as (r & o' & Halloc & Hos' & Hr').
  destruct (on_os_run _ s v _ o' Hr Halloc) as (s1 & Hrun1 & Hr1).
  assert (cached_range v = []) as Hcr by (unfold cached_range; by rewrite Hc). rewrite Hcr in Hmap.
  unfold heap_page_alloc. rewrite (proj2 (Z.ltb_lt 0 (ushr n PAGE_SHIFT))) by done.
  pose proof Hr1 as (Ho1 & Hc1 & Hs1 & Hh1 & Hd1 & Hl1). destruct r as [va|e].
  - rewrite Ep in Hr'. eexists (Ok va), _. split.
    { erewrite bindR_run by (erewrite M_bind_run by reflexivity; erewrite bindR_run by exact Hrun1; reflexivity). reflexivity. }
    pose proof (os_total _ Hos') as Ht. rewrite Hr' in Ht. pose proof (mapped_total _ Hos).
    change (total ((va, n) :: mapped (v_os v))) with (n + total (mapped (v_os v))) in Ht.
    exists (mkView o' (v_cached v) (n + total (mapped (v_os v))) (v_hdrs v) (v_frees v) (wipe va n (v_data v))). split; [|split].
    + split_and!; simpl; try done; [|by rewrite Hd1, Ep]. rewrite Hs1. simpl. rewrite Hsz.
      rewrite uadd_small by (unfold is_usize; lia). lia.
    + split_and!; simpl; try done; rewrite Hr'; [|done]. unfold cached_range. simpl. rewrite Hc. simpl. by rewrite Hmap.
    + simpl. outside.
  - eexists (Err e), s1. split.
    { erewrite bindR_err; [reflexivity|]. erewrite M_bind_run by reflexivity. by erewrite bindR_err by exact Hrun1. }
    split; [|split; [done|exists (v_os v), e, o'; rewrite app_nil_r in Hmap; split; [constructor|done]]].
    eexists. split; [exact Hr1|]. split_and!; simpl; try done; rewrite Hr'; [|done].
    unfold cached_range. simpl. rewrite Hc. simpl. by rewrite Hmap.
Qed.

(** The part of [heap_grow] from the page allocator on. *)
Lemma grow_fresh s v areas n :
  repr free_lists s v → view_ok v areas → v_cached v = null → 0 < n ≤ 2 ^ 21 → (PAGE_SIZE | n) →
  ∃ r s', (area ←? (if 0 =? 0 then
             a ←? heap_page_alloc (ushr n PAGE_SHIFT);
             set_heap_size (λ x, uadd x n);;
             mret (Ok a)
           else mret (Ok 0));
    add_to_heap free_lists area n) s = Ret (r, s') ∧ kept (used areas) (v_data v) (mem_bytes s') ∧
    match r with
    | Ok _ => ∃ ar, heap_inv s' ((ar, [(n - 32, true)]) :: areas)
    | Err _ => heap_inv s' areas ∧ refused (v_os v) areas (ushr n PAGE_SHIFT)
    end.
Proof.
  intros Hr Hv Hc Hn Hd. rewrite Z.eqb_refl.
  destruct (heap_page_alloc_spec s v areas n Hr Hv Hc Hn Hd) as (r & s1 & Hrun1 & Hres). destruct r as [va|e].
  - destruct Hres as (v1 & Hr1 & Hv1 & Hd1).
    destruct (add_to_heap_spec s1 v1 va n areas Hr1 Hv1) as (s2 & Hrun2 & Hinv & Hd2); [lia|].
    exists (Ok ()), s2. rewrite (bindR_run _ _ _ _ _ Hrun1). split; [done|]. split; [|by exists va].
    apply (fresh_kept v1 va n areas _ _ Hv1). by apply (outside_trans _ _ _ (v_data v1)).
  - destruct Hres as (Hinv & Hd1 & Href). exists (Err e), s1. rewrite (bindR_err _ _ _ _ _ Hrun1), Hd1.
    split; [done|]. split; [apply kept_refl|done].
Qed.

Lemma cached_header v areas :
  view_ok v areas → v_cached v ≠ null →
  ∃ csz, v_hdrs v !! v_cached v = Some (mkHdr null csz 0) ∧ csz ≤ 2 ^ 21 ∧
    mapped (v_os v) ≡ₚ (v_cached v, csz) :: (area_range <$> areas) ∧ range_ok (v_cached v, csz).
Proof.
  intros (Hos & _ & _ & Hmap & Hc & _) Hne. destruct (Hc Hne) as (csz & Hh & Hle). exists csz.
  assert (cached_range v = [(v_cached v, csz)]) as Hcr.
  { unfold cached_range. by rewrite (proj2 (Z.eqb_neq _ _)), Hh by done. }
  assert (mapped (v_os v) ≡ₚ (v_cached v, csz) :: (area_range <$> areas)) as Hm.
  { rewrite Hmap, Hcr. symmetry. apply Permutation_cons_append. }
  split_and!; [done|done|done|]. pose proof (os_ranges _ Hos) as Hro. rewrite Hm in Hro. by apply Forall_cons in Hro as [? _].
Qed.

(** The two ways [heap_grow] treats a cached area: one that is large enough
    is used, a smaller one is given back first. *)
Lemma grow_cached s v areas csz n :
  repr free_lists s v → view_ok v areas → v_cached v ≠ null →
  v_hdrs v !! v_cached v = Some (mkHdr null csz 0) → n ≤ csz →
  ∃ s', (p ←? (h ← header_at (v_cached v);
               if n <=? hsize h then
                 zx_assert (IS_PAGE_ALIGNED (v_cached v));;
                 zx_assert (IS_PAGE_ALIGNED (hsize h));;
                 set_cached null;; mret (Ok (v_cached v, hsize h))
               else _ ←? free_to_os (v_cached v) (hsize h); set_cached null;; mret (Ok (0, n)));
         area ←? (if fst p =? 0 then
                    a ←? heap_page_alloc (ushr (snd p) PAGE_SHIFT); set_heap_size (λ x, uadd x (snd p));; mret (Ok a)
                  else mret (Ok (fst p)));
         add_to_heap free_lists area (snd p)) s = Ret (Ok (), s') ∧
    kept (used areas) (v_data v) (mem_bytes s') ∧ heap_inv s' ((v_cached v, [(csz - 32, true)]) :: areas).
Proof.
  intros Hr Hv Hne Hh Hbig. destruct (cached_header v areas Hv Hne) as (csz' & Hh' & Hle & Hm & Hrok).
  rewrite Hh in Hh'. injection Hh' as <-. pose proof Hrok as (? & ? & ? & Hd1 & Hd2). cbn [fst snd] in *.
  pose proof Hv as (Hos & Har & Hfr & _ & _ & Hvs).
  destruct (set_cached_run s v null Hr) as (s1 & Hrun1 & Hr1).
  assert (view_with (mkView (v_os v) null (v_size v) (v_hdrs v) (v_frees v) (v_data v)) (v_cached v, csz) areas) as Hw.
  { split_and!; simpl; try done. by rewrite app_nil_r. }
  destruct (add_to_heap_spec s1 _ (v_cached v) csz areas Hr1 Hw Hle) as (s2 & Hrun2 & Hinv & Hd). exists s2.
  split; [|split; [by apply (fresh_kept _ _ _ _ _ _ Hw)|done]]. erewrite bindR_run.
  2:{ erewrite M_bind_run by (apply (header_run _ _ _ _ Hr Hh)). cbn [hsize].
      rewrite (proj2 (Z.leb_le n csz)) by lia.
      rewrite (proj2 (IS_PAGE_ALIGNED_spec (v_cached v))) by (by apply Z.mod_divide).
      rewrite (proj2 (IS_PAGE_ALIGNED_spec csz)) by (by apply Z.mod_divide).
      do 2 erewrite M_bind_run by reflexivity. erewrite M_bind_run by exact Hrun1. reflexivity. }
  cbn [fst snd]. rewrite (proj2 (Z.eqb_neq (v_cached v) 0)) by done. erewrite bindR_run by reflexivity. exact Hrun2.
Qed.

Lemma drop_cached s v areas csz n :
  repr free_lists s v → view_ok v areas → v_cached v ≠ null →
  v_hdrs v !! v_cached v = Some (mkHdr null csz 0) → csz < n →
  ∃ s' v', (h ← header_at (v_cached v);
            if n <=? hsize h then
              zx_assert (IS_PAGE_ALIGNED (v_cached v));;
              zx_assert (IS_PAGE_ALIGNED (hsize h));;
              set_cached null;; mret (Ok (v_cached v, hsize h))
            else _ ←? free_to_os (v_cached v) (hsize h); set_cached null;; mret (Ok (0, n))) s = Ret (Ok (0, n), s') ∧
    repr free_lists s' v' ∧ view_ok v' areas ∧ v_cached v' = null ∧ v_data v' = v_data v ∧ os_run 0 (v_os v) (v_os v').
Proof.
  intros Hr Hv Hne Hh Hsmall. destruct (cached_header v areas Hv Hne) as (csz' & Hh' & _ & Hm & _).
  rewrite Hh in Hh'. injection Hh' as <-. pose proof Hv as (Hos & Har & Hfr & _ & _ & Hvs).
  destruct (free_to_os_spec s v (v_cached v) csz Hr Hos) as (s1 & o' & Hrun1 & Hos1 & Hm1 & Hr1); [rewrite Hm; set_solver|done|].
  destruct (set_cached_run s1 _ null Hr1) as (s2 & Hrun2 & Hr2). simpl in Hr2. eexists s2, _. split_and!; [|exact Hr2| |done|done|].
  - erewrite M_bind_run by (apply (header_run _ _ _ _ Hr Hh)). cbn [hsize]. rewrite (proj2 (Z.leb_gt n csz)) by lia.
    erewrite bindR_run by exact Hrun1. by erewrite M_bind_run by exact Hrun2.
  - split_and!; simpl; try done. rewrite app_nil_r. rewrite Hm in Hm1. by apply Permutation_cons_inv in Hm1.
  - pose proof (asks_free_to_os _ _ _ _ _ Hrun1) as Ho. destruct Hr as (<- & _), Hr1 as (E & _). by rewrite E in Ho.
Qed.

Lemma heap_grow_spec s areas sz0 :
  heap_inv s areas → 0 ≤ sz0 ≤ HEAP_LARGE_ALLOC_BYTES →
  ∃ r s', heap_grow free_lists sz0 s = Ret (r, s') ∧ kept (used areas) (mem_bytes s) (mem_bytes s') ∧
    match r with
    | Ok _ => ∃ ar n, sz0 ≤ n ∧ heap_inv s' ((ar, [(n, true)]) :: areas)
    | Err _ => heap_inv s' areas ∧ refused (os s) areas (grow_pages sz0)
    end.
Proof.
  intros (v & Hr & Hv) Hsz. destruct (grow_size sz0 Hsz) as [Hn Hd]. unfold heap_grow.
  rewrite (proj2 (Z.leb_le sz0 _)) by lia. erewrite M_bind_run by reflexivity.
  set (n := ROUNDUP _ _) in *. cbv zeta. erewrite M_bind_run by reflexivity.
  pose proof Hr as (Ho & Hc & _ & _ & Hdt & _). rewrite Hc, Hdt, Ho.
  (* with no cached area the page allocator decides *)
  assert (∀ s' v', repr free_lists s' v' → view_ok v' areas → v_cached v' = null → v_data v' = v_data v → os_run 0 (v_os v) (v_os v') →
    ∃ r s'', (area ←? (if 0 =? 0 then a ←? heap_page_alloc (ushr n PAGE_SHIFT); set_heap_size (λ x, uadd x n);; mret (Ok a)
                       else mret (Ok 0)); add_to_heap free_lists area n) s' = Ret (r, s'') ∧
      kept (used areas) (v_data v) (mem_bytes s'') ∧
      match r with
      | Ok _ => ∃ ar n, sz0 ≤ n ∧ heap_inv s'' ((ar, [(n, true)]) :: areas)
      | Err _ => heap_inv s'' areas ∧ refused (v_os v) areas (grow_pages sz0)
      end) as Hfresh.
  { intros s' v' Hr' Hv' Hc' Hd' Ho'. destruct (grow_fresh s' v' areas n Hr' Hv' Hc') as (r & s'' & Hrun & Hk & Hres); [lia|done|].
    rewrite Hd' in Hk. exists r, s''. split; [done|]. split; [done|]. destruct r.
    2:{ destruct Hres as (Hinv & o & e' & o' & Hrun' & Href). split; [done|]. exists o, e', o'. split; [|done].
        by apply (os_run_trans 0 0 _ (v_os v')). }
    destruct Hres as [ar Hinv]. exists ar, (n - 32). split; [lia|done]. }
  destruct (Z.eqb_spec (v_cached v) null) as [E|Hne].
  { erewrite bindR_run by reflexivity. apply (Hfresh s v); try done. constructor. }
  destruct (cached_header v areas Hv Hne) as (csz & Hh & _ & _).
  destruct (Z.le_gt_cases n csz) as [Hbig|Hsmall].
  - destruct (grow_cached s v areas csz n Hr Hv Hne Hh Hbig) as (s' & Hrun & Hk & Hinv).
    exists (Ok ()), s'. split; [exact Hrun|]. split; [done|]. exists (v_cached v), (csz - 32). split; [lia|done].
  - destruct (drop_cached s v areas csz n Hr Hv Hne Hh Hsmall) as (s1 & v1 & Hrun1 & Hr1 & Hv1 & Hc1 & Hd1 & Ho1).
    rewrite (bindR_run _ _ _ _ _ Hrun1). cbn [fst snd]. by apply (Hfresh s1 v1).
Qed.

(** ** cmpct_alloc *)

Lemma grow_loop_spec rup areas fuel growby s :
  heap_inv s areas → 24 ≤ rup ≤ growby → growby ≤ HEAP_LARGE_ALLOC_BYTES →
  (growby = rup ∧ (0 < fuel)%nat ∨ Z.log2 growby + 1 < Z.of_nat fuel) →
  ∃ g s', grow_loop free_lists fuel growby rup s = Ret (g, s') ∧ kept (used areas) (mem_bytes s) (mem_bytes s') ∧
    if (g : bool) then ∃ ar n, rup ≤ n ∧ heap_inv s' ((ar, [(n, true)]) :: areas)
    else heap_inv s' areas ∧ refused (os s) areas (grow_pages rup).
Proof.
  revert growby s. induction fuel as [|fuel IH]; intros growby s Hinv Hrup Hmax Hfuel.
  { pose proof (Z.log2_nonneg growby). lia. }
  cbn [grow_loop]. destruct (heap_grow_spec s areas growby Hinv) as (r & s1 & Hrun & Hk & Hres); [lia|].
  rewrite (M_bind_run _ _ _ _ _ Hrun). destruct r as [[]|e].
  { eexists true, s1. split; [done|]. split; [done|]. destruct Hres as (ar & n & Hn & Hi). exists ar, n. split; [lia|done]. }
  destruct (Z.leb_spec growby rup) as [Hle|Hgt].
  { replace growby with rup in Hres by lia. by eexists false, s1. }
  pose proof (heap_grow_asks _ _ _ _ _ Hrun ltac:(lia)) as Ho. cbv iota in Ho. destruct Hres as [Hres _]. destruct Hfuel as [[-> _]|Hfuel]; [lia|].
  change HEAP_LARGE_ALLOC_BYTES with (2 ^ 21 - 32) in *.
  assert (ushr growby 1 = growby / 2) as Eh.
  { unfold ushr. change (1 mod 64) with 1. by rewrite Z.shiftr_div_pow2. }
  assert (growby / 2 < growby) by (apply Z.div_lt; lia).
  assert (0 < Z.log2 growby) by (apply Z.log2_pos; lia).
  destruct (IH (Z.max (ushr growby 1) rup) s1) as (g & s' & Hrun' & Hk' & Hres'); [done|lia|lia| |].
  2:{ exists g, s'. split; [done|]. split; [by apply (kept_trans _ _ (mem_bytes s1))|]. destruct g; [done|].
      destruct Hres' as (Hinv' & o & e' & o' & Ho' & Href). split; [done|]. exists o, e', o'. split; [|done].
      by apply (os_run_trans 0 0 _ (os s1)). }
  rewrite Eh.
  destruct (decide (growby / 2 ≤ rup)) as [Hr|Hr].
  - left. split; lia.
  - right. rewrite Z.max_l by lia.
    assert (Z.log2 (growby / 2) = Z.log2 growby - 1); [|lia].
    rewrite <-Z.div2_div, Z.div2_spec, Z.log2_shiftr by lia. lia.
Qed.

(** A free block makes the bit of its bucket visible. *)
Lemma free_block_bit (s : HeapState S) v x sz b :
  repr free_lists s v → (x, sz) ∈ v_frees v → bucket_of sz b → is_bucket b →
  bucket_bit (free_list_bits (heap s)) b = true.
Proof.
  intros (_ & _ & _ & _ & _ & _ & _ & _ & fl & Hd & _ & Hin) Hx Hbk Hb. destruct (Hd b Hb) as [_ ->].
  assert (x ∈ fl b) as Hf by (apply (Hin b x Hb); eauto).
  destruct (fl b); [by apply not_elem_of_nil in Hf|done].
Qed.

Lemma inv_bits (s : HeapState S) areas : heap_inv s areas → bits_wf (free_list_bits (heap s)).
Proof. intros (v & (_ & _ & _ & _ & _ & ? & _) & _). done. Qed.

(** A block of [n] usable bytes is found from any bucket of a smaller class. *)
Lemma bucket_above n b start : free_size_ok n → bucket_of n b → is_bucket start → 0 ≤ b → class_size start ≤ n - 16 → start ≤ b.
Proof.
  intros Hf Hb [Hs _] Hb0 Hc. pose proof (bucket_of_size n b Hf Hb) as [_ Hlt].
  destruct (decide (start ≤ b)); [done|]. pose proof (class_size_mono (b + 1) start ltac:(lia)). lia.
Qed.

Lemma alloc_bucket_spec fuel s areas start :
  heap_inv s areas → is_bucket start → class_size start + 16 ≤ HEAP_LARGE_ALLOC_BYTES → (22 ≤ fuel)%nat →
  ∃ o s' areas', alloc_bucket free_lists fuel start (class_size start + 16) s = Ret (o, s') ∧
    heap_inv s' areas' ∧ used areas' = used areas ∧ kept (used areas) (mem_bytes s) (mem_bytes s') ∧
    match o with
    | Some b => start ≤ b ∧ is_bucket b ∧ bucket_bit (free_list_bits (heap s')) b = true
    | None => areas' = areas ∧ refused (os s) areas (grow_pages (class_size start + 16)) ∧
        ∀ x n, (x, n) ∈ concat (frees_of <$> areas) → n - 16 < class_size start
    end.
Proof.
  intros Hinv Hst Hmax Hfuel. unfold alloc_bucket. set (rup := class_size start + 16) in *.
  destruct (find_nonempty_bucket_spec s start (inv_bits _ _ Hinv) Hst) as (r & Hrun & Hset).
  rewrite (M_bind_run _ _ _ _ _ Hrun). destruct r as [b|e].
  { exists (Some b), s, areas. destruct Hset as (? & ? & ? & _). split_and!; done || apply kept_refl. }
  erewrite M_bind_run by reflexivity. set (growby := Z.min _ _).
  assert (24 ≤ rup) by (pose proof (class_size_mono 0 start ltac:(destruct Hst; lia)) as Hm;
    change (class_size 0) with 8 in Hm; unfold rup; lia).
  assert (rup ≤ growby ≤ HEAP_LARGE_ALLOC_BYTES) as Hg by (unfold growby; lia).
  rewrite (proj2 (Z.leb_le rup growby)) by lia. erewrite M_bind_run by reflexivity.
  destruct (grow_loop_spec rup areas fuel growby s Hinv) as (g & s1 & Hrun1 & Hk & Hres); [lia|lia| |].
  { right. change HEAP_LARGE_ALLOC_BYTES with (2 ^ 21 - 32) in Hg.
    assert (Z.log2 growby < 21) by (apply Z.log2_lt_pow2; lia). lia. }
  rewrite (M_bind_run _ _ _ _ _ Hrun1). destruct g; cbn [negb].
  2:{ destruct Hres as [Hinv1 Href]. exists None, s1, areas. split_and!; try done.
      intros x n Hx. destruct Hinv as (v & Hr & Hv), Hset as [_ Hno].
      assert ((x, n) ∈ v_frees v) as Hin by (destruct Hv as (_ & _ & -> & _); done).
      destruct (free_block v _ _ _ Hv Hin) as (_ & _ & _ & _ & _ & _ & _ & Hfs).
      destruct (bucket_of_exists n Hfs) as (b & Hbk & Hb). destruct (decide (n - 16 < class_size start)); [done|].
      pose proof (free_block_bit s v _ _ b Hr Hin Hbk Hb) as Hbit. rewrite Hno in Hbit; [done| |done].
      apply (bucket_above n b start Hfs Hbk Hst); [destruct Hb; lia|lia]. }
  destruct Hres as (ar & n & Hn & Hinv1). pose proof Hinv1 as (v & Hr & Hv).
  assert ((ar + 16, n) ∈ v_frees v) as Hin.
  { destruct Hv as (_ & _ & Hfr & _). rewrite Hfr. simpl. set_solver. }
  destruct (free_block v _ _ _ Hv Hin) as (_ & _ & _ & _ & _ & _ & _ & Hfs).
  destruct (bucket_of_exists n Hfs) as (b & Hbk & Hb).
  assert (start ≤ b) by (apply (bucket_above n b start Hfs Hbk Hst); [destruct Hb; lia|unfold rup in Hn; lia]).
  pose proof (free_block_bit s1 v _ _ b Hr Hin Hbk Hb) as Hbit.
  destruct (find_nonempty_bucket_spec s1 start (inv_bits _ _ Hinv1) Hst) as (r & Hrun2 & Hset2).
  rewrite (M_bind_run _ _ _ _ _ Hrun2). destruct r as [b'|e'].
  - exists (Some b'), s1, ((ar, [(n, true)]) :: areas). destruct Hset2 as (? & ? & ? & _). by split_and!.
  - destruct Hset2 as [_ Hno]. rewrite Hno in Hbit by done. done.
Qed.

(** Why an allocation of [sz] bytes fails: the size is no valid request, or
    every free block is below the size class of the request and the page
    allocator refused the pages for one block of that class. *)
Definition alloc_fails (o : S) (areas : list area) (sz : Z) : Prop :=
  sz = 0 ∨ HEAP_MAX_ALLOC_SIZE < sz ∨
  ∃ b r, size_to_index_allocating sz = Ret (b, r) ∧
    (∀ x n, (x, n) ∈ concat (frees_of <$> areas) → n < r + SIZE_OF_HEADER_T) ∧
    refused o areas (grow_pages (r + SIZE_OF_HEADER_T)).

(** The request behind a failure. *)
Lemma alloc_fails_refused o areas sz :
  alloc_fails o areas sz → 0 < sz ≤ HEAP_MAX_ALLOC_SIZE →
  ∃ o1 n e o', os_run 0 o o1 ∧ 0 < n * PAGE_SIZE ≤ 2 ^ 21 ∧ va_alloc_pages n o1 = Ret (Err e, o').
Proof.
  intros [|[|(b & r & Hcl & _ & o1 & e & o' & Hrun & _ & _ & Ha)]] Hsz; [lia|lia|].
  destruct (size_to_index_allocating_spec sz ltac:(lia)) as (b' & r' & Hcl' & _ & _ & _ & Hfit & Hw & _).
  rewrite Hcl in Hcl'. injection Hcl' as <- <-. change HEAP_MAX_ALLOC_SIZE with (2 ^ 20 - 16) in Hsz.
  exists o1, (grow_pages (r + SIZE_OF_HEADER_T)), e, o'. split; [done|]. split; [|done]. change SIZE_OF_HEADER_T with 16.
  destruct (grow_size (r + 16)) as [Hn Hd]; [change HEAP_LARGE_ALLOC_BYTES with (2 ^ 21 - 32); lia|]. unfold grow_pages.
  destruct (pages_of_bytes (ROUNDUP (uadd (r + 16) HEAP_GROW_OVER_HEAD) PAGE_SIZE)) as [-> _]; [lia|done|lia|lia].
Qed.

Lemma cmpct_alloc_spec fuel s areas sz :
  heap_inv s areas → 0 ≤ sz → (22 ≤ fuel)%nat →
  ∃ p s' areas', cmpct_alloc free_lists fuel sz s = Ret (p, s') ∧ heap_inv s' areas' ∧
    kept (used areas) (mem_bytes s) (mem_bytes s') ∧
    ((p = null ∧ used areas' = used areas ∧ alloc_fails (os s) areas sz) ∨
     (∃ x nsz, p = x + 16 ∧ 0 < sz ≤ HEAP_MAX_ALLOC_SIZE ∧ sz + 16 ≤ nsz ∧ used areas' ≡ₚ (x, nsz) :: used areas ∧
        freeable areas' (x, nsz))).
Proof.
  intros Hinv Hsz Hfuel. unfold cmpct_alloc.
  destruct (Z.eqb_spec sz 0) as [|Hne]; [exists null, s, areas; split_and!; [done|done|apply kept_refl|left; split_and!; [done..|unfold alloc_fails; lia]]|].
  destruct (Z.ltb_spec HEAP_MAX_ALLOC_SIZE sz) as [|Hle]; [exists null, s, areas; split_and!; [done|done|apply kept_refl|left; split_and!; [done..|unfold alloc_fails; lia]]|].
  destruct (size_to_index_allocating_spec sz ltac:(lia)) as (start & r & Hcl & Hst & Hr & Hdiv & Hfit & Hwaste & _).
  rewrite Hcl. cbn [lift_o]. erewrite M_bind_run by reflexivity. cbn [fst snd]. change SIZE_OF_HEADER_T with 16.
  change HEAP_MAX_ALLOC_SIZE with (2 ^ 20 - 16) in Hle.
  rewrite uadd_small by (unfold is_usize; lia). subst r.
  destruct (alloc_bucket_spec fuel s areas start Hinv Hst) as (o & s1 & areas1 & Hrun & Hinv1 & Hu1 & Hk1 & Hres);
    [change HEAP_LARGE_ALLOC_BYTES with (2 ^ 21 - 32); lia|done|].
  rewrite (M_bind_run _ _ _ _ _ Hrun). destruct o as [b|].
  - destruct Hres as (? & Hb & Hbit).
    destruct (alloc_from_spec s1 areas1 sz (class_size start) start b Hinv1 Hb Hbit)
      as (x & nsz & s2 & areas2 & Hrun2 & Hinv2 & Hu2 & Hn & Hfr & Hk2); [destruct Hst; lia|done|done|lia|].
    rewrite Hu1 in Hk2, Hu2. exists (x + 16), s2, areas2. split_and!; [done|done|by apply (kept_trans _ _ (mem_bytes s1))|right].
    exists x, nsz. change HEAP_MAX_ALLOC_SIZE with (2 ^ 20 - 16). split_and!; [done|lia|lia|lia|done|done].
  - destruct Hres as (-> & Href & Hsmall). exists null, s1, areas. split_and!; [done|done|done|left; split_and!; [done..|]].
    right; right. exists start, (class_size start). split_and!; [done| |done].
    intros x n Hx. specialize (Hsmall x n Hx). change SIZE_OF_HEADER_T with 16. lia.
Qed.

(** ** cmpct_free *)

Lemma unlink_unknown s v base bs1 sz bs2 rest :
  repr free_lists s v → view_ok v ((base, bs1 ++ [(sz, true)] ++ bs2) :: rest) →
  let x := base + 16 + sum bs1 in
  ∃ s' v', unlink_free_unknown_bucket free_lists x s = Ret ((), s') ∧ repr free_lists s' v' ∧
    view_ok v' ((base, bs1 ++ [(sz, false)] ++ bs2) :: rest) ∧ same_outside x (x + 16) (v_data v) (v_data v').
Proof.
  intros Hr Hv x. pose proof Hv as (_ & Har & _). apply Forall_cons in Har as [Hao _].
  destruct (block_header _ base bs1 sz true bs2 Hao) as [Hx _]. fold x in Hx.
  assert (free_size_ok sz) as Hfs.
  { destruct Hao as (_ & _ & Hok & _). cbn [snd] in Hok. rewrite !Forall_app in Hok.
    destruct Hok as (_ & Hbo & _). apply Forall_cons in Hbo as [(? & ? & Hm) _]. specialize (Hm eq_refl). simpl in *.
    split; [change SIZE_OF_FREE_T with 32; lia|done]. }
  destruct (bucket_of_exists sz Hfs) as (b & Hbk & Hb).
  destruct (unlink_block s v base bs1 sz bs2 rest b Hr Hv Hbk Hb) as (s' & v' & Hrun & Hr' & _ & Hv' & Hd' & _).
  exists s', v'. split_and!; [|done|done|done]. unfold unlink_free_unknown_bucket.
  rewrite (M_bind_run _ _ _ _ _ (header_run _ _ _ _ Hr Hx)). cbn [hsize]. rewrite Hbk. cbn [lift_o].
  by erewrite M_bind_run by reflexivity.
Qed.

Lemma possibly_free_spec s v base n areas :
  repr free_lists s v → view_with v (base, n) areas → n ≤ 2 ^ 21 →
  ∃ s', possibly_free_to_os base n s = Ret (Ok (), s') ∧ heap_inv s' areas ∧ same_outside base (base + n) (v_data v) (mem_bytes s').
Proof.
  intros Hr Hv Hn. destruct (fresh_facts v base n areas Hv) as (? & ? & ? & ? & ? & Hmap & Hheads & Hfar & _ & _ & Hda & Hcf).
  pose proof Hv as (Hos & Har & Hfr & Hm & Hch & Hsz). unfold possibly_free_to_os.
  erewrite M_bind_run by reflexivity. pose proof Hr as (_ & Hc & _). rewrite Hc.
  destruct (Z.eqb_spec (v_cached v) null) as [E|Hne].
  - destruct (set_cached_run s v base Hr) as (s1 & Hrun1 & Hr1). rewrite (M_bind_run _ _ _ _ _ Hrun1).
    assert (u32_wrap n = n) as -> by (apply Z.mod_small; lia).
    destruct (write_header_spec free_lists s1 _ base (mkHdr null n 0) Hr1) as (s2 & Hrun2 & Hr2); simpl.
    { apply Hmap; lia. }
    { split; [intros x szx Hx; destruct (Hfar x szx Hx); lia|intros b Hb; destruct (Hheads b Hb); lia]. }
    rewrite (M_bind_run _ _ _ _ _ Hrun2). exists s2. split; [done|].
    split; [|destruct Hr2 as (_ & _ & _ & _ & -> & _); simpl; outside]. eexists. split; [exact Hr2|]. simpl.
    split_and!; simpl; try done.
    + apply Forall_forall. intros ar Hin. pose proof (proj1 (Forall_forall _ _) Har ar Hin) as Hao.
      pose proof (proj1 (Forall_forall _ _) Hda ar Hin) as Hd. unfold disj, area_range in Hd. cbn [fst snd] in Hd.
      apply (area_elsewhere (v_hdrs v) _ ar base (base + n)); [done|lia|lia|]. intros q Hq. apply put_far. lia.
    + assert (cached_range v = []) as Hcr by (unfold cached_range; by rewrite E). rewrite Hcr, app_nil_r in Hm.
      unfold cached_range. simpl. rewrite (proj2 (Z.eqb_neq base null)), put_same by (unfold null; lia). simpl.
      rewrite Hm. apply Permutation_cons_append.
    + intros _. exists n. split; [apply put_same|done].
  - destruct (free_to_os_spec s v base n Hr Hos) as (s1 & o' & Hrun & Hos' & Hm' & Hr'); [rewrite Hm; set_solver|done|].
    exists s1. split; [done|]. split; [|destruct Hr' as (_ & _ & _ & _ & -> & _); apply outside_refl].
    eexists. split; [exact Hr'|]. split_and!; simpl; try done. rewrite Hm in Hm'. apply Permutation_cons_inv in Hm'. symmetry. exact Hm'.
Qed.

(** The header left of a run: the left sentinel, or the last block before it. *)
Lemma left_header hd base bs1 rst :
  area_ok hd (base, bs1 ++ rst) → 0 < base →
  let la := lastp base (base + 16) bs1 in
  ∃ h, hd !! la = Some h ∧ flag h = blk_flag (last_free bs1) ∧
    (bs1 = [] ∧ la = base ∧ h = mkHdr null SIZE_OF_HEADER_T 0 ∨ bs1 ≠ [] ∧ left h ≠ null ∧ la + 24 ≤ base + 16 + sum bs1) ∧
    base ≤ la ∧ la + 16 ≤ base + 16 + sum bs1.
Proof.
  intros Hao Hb la. destruct bs1 as [|[z f] bs1' _] using rev_ind.
  - exists (mkHdr null SIZE_OF_HEADER_T 0). destruct Hao as (Hh & _). simpl in *. unfold la. simpl. split_and!; try done; [by left|lia..].
  - rewrite <-app_assoc in Hao. pose proof Hao as (_ & _ & Hok & _). cbn [snd] in Hok. rewrite Forall_app in Hok.
    destruct Hok as [Hok1 Hok2]. apply Forall_cons in Hok2 as [((? & ?) & _) _]. cbn [fst] in *.
    destruct (block_header hd base bs1' z f rst Hao) as [Hh _]. pose proof (sum_nonneg _ Hok1).
    unfold la. rewrite lastp_app, sum_app. simpl. eexists. split; [exact Hh|]. simpl.
    assert (∀ l a, 0 < l → 0 < a → Forall blk_ok bs1' → 0 < lastp l a bs1') as Hpos.
    { clear. induction bs1' as [|[z f] bs IH]; intros l a Hl Ha Hok; [done|]. apply Forall_cons in Hok as [((? & ?) & _) Hok].
      simpl in *. apply IH; [done|lia|done]. }
    pose proof (Hpos base (base + 16) Hb ltac:(lia) Hok1).
    split_and!; [unfold last_free; by rewrite last_snoc|right|lia|lia].
    split_and!; [by destruct bs1'|unfold null; lia|lia].
Qed.

Definition all_used (bs : list blk) : Prop := Forall (λ b : blk, b.2 = false) bs.

Lemma all_used_frees a bs : all_used bs → blocks_at true a bs = [].
Proof. intros Hu. revert a. induction Hu as [|[z f] bs E _ IH]; intros a; simpl in *; [done|]. subst f. apply IH. Qed.

(** The state in which [free_memory] runs: [v0] is in order with the used
    blocks [mid]; since then only the left link behind them was set. *)
Definition freeing (v0 v : view (S:=S)) (base : Z) (bs1 mid bs2 : list blk) (rest : list area) : Prop :=
  let a := base + 16 + sum bs1 in
  let e := a + sum mid in
  view_ok v0 ((base, bs1 ++ mid ++ bs2) :: rest) ∧ all_used mid ∧ mid ≠ [] ∧
  last_free bs1 = false ∧ head_free bs2 = false ∧
  v_os v = v_os v0 ∧ v_cached v = v_cached v0 ∧ v_size v = v_size v0 ∧
  v_frees v = v_frees v0 ∧
  (∀ q, q + 16 ≤ a ∨ e + 16 ≤ q → v_hdrs v !! q = v_hdrs v0 !! q) ∧
  (∀ h, v_hdrs v0 !! e = Some h → v_hdrs v !! e = Some (mkHdr a (hsize h) (flag h))) ∧
  same_outside a (e + 16) (v_data v0) (v_data v).

(** The header behind a run. *)
Lemma end_header v0 v base bs1 mid bs2 rest :
  freeing v0 v base bs1 mid bs2 rest →
  let a := base + 16 + sum bs1 in
  ∃ h, v_hdrs v !! (a + sum mid) = Some h ∧ left h = a ∧ flag h = blk_flag (head_free bs2) ∧
    (bs2 = [] ∧ hsize h = 0 ∨ bs2 ≠ [] ∧ hsize h ≠ 0).
Proof.
  intros (Hv & _ & _ & _ & _ & _ & _ & _ & _ & _ & Hlink & _) a.
  destruct Hv as (_ & Har & _). apply Forall_cons in Har as [(_ & [Hseg Hend] & Hok & _) _]. cbn [fst snd] in *.
  rewrite !Forall_app in Hok. destruct Hok as (_ & _ & Hok2). rewrite !seg_app in Hseg. destruct Hseg as (_ & _ & Hs2).
  rewrite !lastp_app, !sum_app in Hend. fold a in Hs2, Hend, Hlink.
  destruct (chain_relink (v_hdrs v0) (lastp (lastp base (base + 16) bs1) a mid) (a + sum mid) bs2 Hok2) as (h & Hh & _ & Hf & Hz & _).
  { split; [done|]. rewrite <-Hend. f_equal. unfold a. lia. }
  eexists. split; [by apply Hlink|]. simpl. split_and!; [done|by destruct bs2|]. rewrite Hz.
  destruct bs2 as [|b bs2]; [by left|right]. apply Forall_cons in Hok2 as [((? & ?) & _) _]. split; [done|lia].
Qed.

Lemma whole_area_spec s v0 v base bs1 mid bs2 rest :
  repr free_lists s v → freeing v0 v base bs1 mid bs2 rest →
  whole_area (base + 16 + sum bs1) (lastp base (base + 16) bs1) (sum mid) s =
    Ret (bool_decide (bs1 = [] ∧ bs2 = []), s).
Proof.
  intros Hr Hfr. pose proof (end_header _ _ _ _ _ _ _ Hfr) as (he & He & _ & _ & Hz).
  destruct Hfr as (Hv & _ & _ & _ & _ & _ & _ & _ & _ & Hout & _ & _).
  destruct (run_facts v0 base bs1 mid bs2 rest Hv) as (? & ? & ? & ? & ? & Hal & _).
  pose proof Hv as (_ & Har & _). apply Forall_cons in Har as [Hao _].
  destruct (left_header _ base bs1 (mid ++ bs2) Hao) as (hl & Hl & _ & Hcase & ? & ?); [done|].
  set (la := lastp base (base + 16) bs1) in *. set (a := base + 16 + sum bs1) in *.
  assert (v_hdrs v !! la = Some hl) as Hl' by (rewrite Hout by lia; done).
  unfold whole_area, is_start_of_os_allocation, is_end_of_os_allocation.
  destruct Hcase as [(-> & Ela & ->)|(Hne & Hlne & _)].
  - rewrite (proj2 (IS_PAGE_ALIGNED_spec la)) by (rewrite Ela; by apply Z.mod_divide). cbn [negb].
    erewrite M_bind_run. 2:{ erewrite M_bind_run by (apply (header_run _ _ _ _ Hr Hl')). reflexivity. }
    cbn [left]. rewrite Z.eqb_refl. cbn [negb]. rewrite uadd_small by (unfold is_usize; unfold a in *; lia).
    erewrite M_bind_run by (apply (header_run _ _ _ _ Hr He)). unfold mret, M_ret. do 2 f_equal.
    destruct Hz as [[-> ->]|[Hne Hz]]; [by rewrite bool_decide_true|].
    rewrite bool_decide_false by tauto. by apply Z.eqb_neq.
  - rewrite bool_decide_false by tauto. destruct (IS_PAGE_ALIGNED la); cbn [negb]; [|done].
    erewrite M_bind_run. 2:{ erewrite M_bind_run by (apply (header_run _ _ _ _ Hr Hl')). reflexivity. }
    by rewrite (proj2 (Z.eqb_neq (left hl) null)) by done.
Qed.

(** [free_memory] when nothing else is left in the area. *)
Lemma free_whole s v0 v base mid rest :
  repr free_lists s v → freeing v0 v base [] mid [] rest →
  ∃ s', (h ← header_at base;
         zx_assert (hsize h =? SIZE_OF_HEADER_T);;
         possibly_free_to_os base (uadd (sum mid) (2 * SIZE_OF_HEADER_T))) s = Ret (Ok (), s') ∧
    heap_inv s' rest ∧ kept (used rest) (v_data v0) (mem_bytes s').
Proof.
  intros Hr (Hv & Hused & _ & _ & _ & Ho & Hc & Hs & Hf & Hout & _ & Hd).
  destruct (run_facts v0 base [] mid [] rest Hv) as (? & _ & ? & _ & ? & _ & _ & _ & _ & _ & Hsplit & _).
  rewrite (all_used_frees _ mid Hused), app_nil_l in Hsplit.
  pose proof Hv as (Hos & Har & Hfr & Hm & Hch & Hsz). apply Forall_cons in Har as [(Hbh & _ & _ & _ & _ & Hmax) Hrest].
  cbn [fst snd app] in *. rewrite app_nil_r in *. change (sum []) with 0 in *. rewrite Z.add_0_r in *.
  assert (v_hdrs v !! base = Some (mkHdr null SIZE_OF_HEADER_T 0)) as Hb' by (rewrite Hout by lia; done).
  rewrite (M_bind_run _ _ _ _ _ (header_run _ _ _ _ Hr Hb')). cbn [hsize]. rewrite Z.eqb_refl.
  erewrite M_bind_run by reflexivity. change (2 * SIZE_OF_HEADER_T) with 32. rewrite uadd_small by (unfold is_usize; lia).
  assert (view_with v0 (base, sum mid + 32) rest) as Hw0.
  { rewrite (Z.add_comm (sum mid) 32). by split_and!. }
  destruct (possibly_free_spec s v base (sum mid + 32) rest Hr) as (s' & Hrun & Hinv & Hd'); [|lia|].
  { apply (view_with_stable v0 v); try done. intros q Hq. apply Hout. lia. }
  exists s'. split; [done|]. split; [done|]. apply (fresh_kept v0 base (sum mid + 32) rest _ _ Hw0).
  apply (outside_trans _ _ _ (v_data v)); [|done]. apply (outside_mono (base + 16) (base + 16 + sum mid + 16)); [lia|lia|done].
Qed.

(** [free_memory] when the area has other blocks. *)
Lemma free_part s v0 v base bs1 mid bs2 rest :
  repr free_lists s v → freeing v0 v base bs1 mid bs2 rest → 32 ≤ sum mid → ¬ (bs1 = [] ∧ bs2 = []) →
  let a := base + 16 + sum bs1 in
  ∃ s', create_free_area free_lists a (lastp base (base + 16) bs1) (sum mid) s = Ret ((), s') ∧
    heap_inv s' ((base, bs1 ++ [(sum mid, true)] ++ bs2) :: rest) ∧
    same_outside a (a + sum mid + 16) (v_data v0) (mem_bytes s').
Proof.
  intros Hr (Hv & Hused & Hmne & Hlf & Hhf & Ho & Hc & Hs & Hf & Hout & Hlink & Hd) Hmin Hwhole a.
  destruct (run_facts v0 base bs1 mid bs2 rest Hv)
    as (? & ? & ? & ? & ? & Hal1 & Hal2 & Hmap & Hheads & Hoth & Hsplit & Ht0 & ? & Ht).
  rewrite (all_used_frees _ mid Hused), app_nil_l in Hsplit.
  pose proof Hv as (_ & Har & _). apply Forall_cons in Har as [(_ & _ & Hok & Hco & _ & Hmax) _]. cbn [fst snd] in *.
  rewrite !sum_app in Hmax. set (la := lastp base (base + 16) bs1).
  assert (8 | sum mid) as Hdiv.
  { rewrite !Forall_app in Hok. destruct Hok as (_ & Hokm & _). clear -Hokm.
    induction Hokm as [|b l (_ & Hd & _) _ IH]; [by exists 0|]. rewrite sum_cons. by apply Z.divide_add_r. }
  destruct (create_free_area_spec free_lists s v a la (sum mid) Hr) as (s' & Hrun & Hr').
  { split; [change SIZE_OF_FREE_T with 32; lia|done]. }
  { unfold a; lia. } { unfold a; lia. }
  { rewrite Ho. apply Hmap; unfold a; lia. } { rewrite Ho. apply Hmap; unfold a; lia. }
  { intros x szx. rewrite Hf, Hsplit. intros Hx. destruct (Hoth x szx Hx). unfold a. lia. }
  { intros b Hb. destruct (Hheads a b); [unfold a; lia|done|lia|unfold a in *; lia]. }
  { rewrite Hf, (total_perm _ _ Hsplit). lia. } { by rewrite Hf, (total_perm _ _ Hsplit). }
  exists s'. split; [done|]. split; [|destruct Hr' as (_ & _ & _ & _ & -> & _); simpl; by outside].
  eexists. split; [exact Hr'|]. apply (view_splice v0 _ base bs1 mid [(sum mid, true)] bs2 rest); simpl; try done.
  - lia.
  - constructor; [|constructor]. split_and!; simpl; done || lia.
  - apply (coalesced_run _ mid [(sum mid, true)] _ Hco); [done|by rewrite Hlf|done].
  - intros q Hq. fold a in Hq. rewrite put_far, keep_far by lia. by apply Hout.
  - fold a la. split; [apply put_same|done].
  - fold a la. intros h Hh. rewrite put_far, keep_far by lia. by apply Hlink.
  - by rewrite Hf, Hsplit.
Qed.

Lemma free_memory_spec s v0 v base bs1 mid bs2 rest :
  repr free_lists s v → freeing v0 v base bs1 mid bs2 rest → 32 ≤ sum mid →
  ∃ s' areas', free_memory free_lists (base + 16 + sum bs1) (lastp base (base + 16) bs1) (sum mid) s = Ret (Ok (), s') ∧
    heap_inv s' areas' ∧ used areas' ≡ₚ others false base bs1 mid bs2 rest ∧
    kept (used areas') (v_data v0) (mem_bytes s').
Proof.
  intros Hr Hfr Hmin. unfold free_memory. rewrite (M_bind_run _ _ _ _ _ (whole_area_spec _ _ _ _ _ _ _ _ Hr Hfr)).
  case_bool_decide as Hwhole.
  - destruct Hwhole as [-> ->]. destruct (free_whole s v0 v base mid rest Hr Hfr) as (s' & Hrun & Hinv & Hk).
    by exists s', rest.
  - destruct (free_part s v0 v base bs1 mid bs2 rest Hr Hfr Hmin Hwhole) as (s' & Hrun & Hinv & Hk).
    rewrite (M_bind_run _ _ _ _ _ Hrun). exists s', ((base, bs1 ++ [(sum mid, true)] ++ bs2) :: rest).
    assert (used ((base, bs1 ++ [(sum mid, true)] ++ bs2) :: rest) ≡ₚ others false base bs1 mid bs2 rest) as Hu.
    { rewrite (used_split base bs1 [(sum mid, true)]). cbn [blocks_at Bool.eqb app].
      rewrite (others_ext false base bs1 mid [(sum mid, true)]); [done|]. simpl. lia. }
    split_and!; [done|done|done|]. rewrite Hu. destruct Hfr as (Hv & _). by apply (others_kept v0).
Qed.

Lemma is_tagged_run (s : HeapState S) v p h f :
  repr free_lists s v → v_hdrs v !! p = Some h → p ≠ null → flag h = blk_flag f →
  is_tagged_as_free p s = Ret (f, s).
Proof.
  intros Hr Hp Hne Hf. unfold is_tagged_as_free. rewrite (proj2 (Z.eqb_neq p null)) by done.
  rewrite (M_bind_run _ _ _ _ _ (header_run _ _ _ _ Hr Hp)), Hf. by destruct f.
Qed.

Lemma right_header_run (s : HeapState S) v p h :
  repr free_lists s v → v_hdrs v !! p = Some h → 0 ≤ p + hsize h < 2 ^ 64 →
  right_header p s = Ret (p + hsize h, s).
Proof.
  intros Hr Hp Hb. unfold right_header. rewrite (M_bind_run _ _ _ _ _ (header_run _ _ _ _ Hr Hp)).
  by rewrite uadd_small.
Qed.

(** Setting the link behind a run of used blocks to its start. *)
Lemma set_link s v base bs1 mid bs2 rest :
  repr free_lists s v → view_ok v ((base, bs1 ++ mid ++ bs2) :: rest) → all_used mid → mid ≠ [] →
  last_free bs1 = false → head_free bs2 = false →
  let a := base + 16 + sum bs1 in
  ∃ s' v', set_left (a + sum mid) a s = Ret ((), s') ∧ repr free_lists s' v' ∧ freeing v v' base bs1 mid bs2 rest ∧
    (∀ q, q + 16 ≤ a + sum mid → v_hdrs v' !! q = v_hdrs v !! q).
Proof.
  intros Hr Hv Hu Hne Hlf Hhf a.
  destruct (run_facts v base bs1 mid bs2 rest Hv)
    as (? & ? & ? & ? & ? & _ & _ & Hmap & Hheads & Hoth & Hsplit & _).
  rewrite (all_used_frees _ mid Hu), app_nil_l in Hsplit.
  pose proof Hv as (_ & Har & _). apply Forall_cons in Har as [(_ & [Hseg Hend] & Hok & _) _]. cbn [fst snd] in *.
  rewrite !Forall_app in Hok. destruct Hok as (_ & Hokm & Hok2). rewrite !seg_app in Hseg. destruct Hseg as (_ & _ & Hs2).
  rewrite !lastp_app, !sum_app in Hend. fold a in Hs2, Hend.
  assert (24 ≤ sum mid).
  { destruct mid as [|b mid]; [done|]. apply Forall_cons in Hokm as [((? & ?) & _) Hokm]. rewrite sum_cons.
    pose proof (sum_nonneg _ Hokm). lia. }
  destruct (chain_relink (v_hdrs v) (lastp (lastp base (base + 16) bs1) a mid) (a + sum mid) bs2 Hok2) as (h & Hh & _).
  { split; [done|]. rewrite <-Hend. f_equal. unfold a. lia. }
  destruct (set_left_spec free_lists s v (a + sum mid) h a Hr Hh) as (s' & Hrun & Hr').
  { apply Hmap; unfold a; lia. }
  { destruct (clear_run v base bs1 mid bs2 rest (a + sum mid) Hv) as [Hc1 Hc2]; [unfold a; lia|].
    split; [|done]. intros x szx. rewrite Hsplit. apply Hc1. }
  eexists s', _. split_and!; [exact Hrun|exact Hr'| |].
  - unfold freeing. cbv zeta. simpl. split_and!; try done.
    + intros q Hq. apply put_far. unfold a in *. lia.
    + fold a. intros h' Hh'. rewrite Hh in Hh'. injection Hh' as <-. apply put_same.
    + fold a. outside.
  - simpl. intros q Hq. apply put_far. lia.
Qed.

(** What the neighbours of a used block say about coalescing. *)
Lemma neighbours v base bs1 sz bs2 rest :
  view_ok v ((base, bs1 ++ [(sz, false)] ++ bs2) :: rest) →
  (last_free bs1 = true → ∃ bs1' lsz, bs1 = bs1' ++ [(lsz, true)] ∧ last_free bs1' = false) ∧
  (head_free bs2 = true → ∃ rsz bs2', bs2 = (rsz, true) :: bs2' ∧ head_free bs2' = false).
Proof.
  intros (_ & Har & _). apply Forall_cons in Har as [(_ & _ & _ & Hco & _) _]. cbn [snd] in Hco.
  rewrite !coalesced_app in Hco. destruct Hco as (Hc1 & (_ & Hc2 & _) & _). split.
  - intros Hl. destruct bs1 as [|[lsz f] bs1' _] using rev_ind; [done|].
    unfold last_free in Hl. rewrite last_snoc in Hl. simpl in Hl. subst f. exists bs1', lsz. split; [done|].
    rewrite coalesced_app in Hc1. destruct Hc1 as (_ & _ & Hl). simpl in Hl. by rewrite andb_true_r in Hl.
  - intros Hh. destruct bs2 as [|[rsz f] bs2']; [done|]. simpl in Hh. subst f. exists rsz, bs2'. split; [done|].
    destruct bs2' as [|[z g] bs2']; [done|]. simpl in Hc2. apply Hc2.
Qed.

(** The end of [cmpct_free_internal] when the right neighbour is in use or
    has been unlinked. *)
Lemma free_run s v base bs1 mid bs2 rest n :
  repr free_lists s v → view_ok v ((base, bs1 ++ mid ++ bs2) :: rest) → all_used mid → mid ≠ [] →
  last_free bs1 = false → head_free bs2 = false → 32 ≤ sum mid → n = sum mid →
  let a := base + 16 + sum bs1 in
  ∃ s1 v1, set_left (a + sum mid) a s = Ret ((), s1) ∧ repr free_lists s1 v1 ∧
    (∀ q, q + 16 ≤ a + sum mid → v_hdrs v1 !! q = v_hdrs v !! q) ∧
    ∃ s' areas', free_memory free_lists a (lastp base (base + 16) bs1) n s1 = Ret (Ok (), s') ∧
      heap_inv s' areas' ∧ used areas' ≡ₚ others false base bs1 mid bs2 rest ∧ kept (used areas') (v_data v) (mem_bytes s').
Proof.
  intros Hr Hv Hu Hne Hlf Hhf Hmin -> a.
  destruct (set_link s v base bs1 mid bs2 rest Hr Hv Hu Hne Hlf Hhf) as (s1 & v1 & Hrun & Hr1 & Hfr & Hq).
  exists s1, v1. split_and!; [done|done|done|]. by apply (free_memory_spec s1 v v1).
Qed.

(** Where the blocks around a block are. *)
Lemma block_bounds v base bs1 sz f bs2 rest :
  view_ok v ((base, bs1 ++ (sz, f) :: bs2) :: rest) →
  0 < base ∧ 0 ≤ sum bs1 ∧ 24 ≤ sz ∧ 0 ≤ sum bs2 ∧ base + (32 + sum bs1 + sz + sum bs2) < 2 ^ 64 ∧
  32 + sum bs1 + sz + sum bs2 ≤ 2 ^ 21 ∧
  v_hdrs v !! (base + 16 + sum bs1) = Some (mkHdr (lastp base (base + 16) bs1) sz (blk_flag f)) ∧
  ∃ h, v_hdrs v !! (base + 16 + sum bs1 + sz) = Some h ∧ flag h = blk_flag (head_free bs2).
Proof.
  intros Hv. destruct (run_facts v base bs1 [(sz, f)] bs2 rest Hv) as (? & ? & ? & ? & Hb & _).
  pose proof Hv as (_ & Har & _). apply Forall_cons in Har as [Hao _].
  destruct (block_header _ base bs1 sz f bs2 Hao) as [Hx Hright].
  destruct Hao as (_ & _ & Hok & _ & _ & Hmax). cbn [snd] in *. rewrite sum_app, sum_cons in Hmax. rewrite Forall_app, Forall_cons in Hok.
  destruct Hok as (_ & ((? & ?) & _) & _). simpl in *. rewrite Z.add_0_r in Hb.
  split_and!; try done; try lia. eexists. split; [exact Hright|]. by destruct bs2.
Qed.

(** A used block of which the free right neighbour is unlinked first: the run
    of the two. *)
Lemma unlink_right s v base bs1 mid rsz bs2 rest :
  repr free_lists s v → view_ok v ((base, bs1 ++ mid ++ (rsz, true) :: bs2) :: rest) →
  let right := base + 16 + sum bs1 + sum mid in
  ∃ s1 v1, unlink_free_unknown_bucket free_lists right s = Ret ((), s1) ∧ repr free_lists s1 v1 ∧
    view_ok v1 ((base, bs1 ++ (mid ++ [(rsz, false)]) ++ bs2) :: rest) ∧
    (∃ l, v_hdrs v !! right = Some (mkHdr l rsz FREE_BIT)) ∧ (∃ l, v_hdrs v1 !! right = Some (mkHdr l rsz 0)) ∧
    same_outside right (right + 16) (v_data v) (v_data v1) ∧ 24 ≤ rsz ∧ right + rsz + 16 < 2 ^ 64.
Proof.
  intros Hr Hv right. rewrite app_assoc in Hv.
  destruct (block_bounds v base _ rsz true bs2 rest Hv) as (_ & _ & ? & ? & Hbd & _ & Hx & _).
  destruct (unlink_unknown s v base _ rsz bs2 rest Hr Hv) as (s1 & v1 & Hrun & Hr1 & Hv1 & Hd).
  destruct (block_bounds v1 base _ rsz false bs2 rest Hv1) as (_ & _ & _ & _ & _ & _ & Hx1 & _).
  rewrite sum_app in *. replace (base + 16 + (sum bs1 + sum mid)) with right in * by (unfold right; lia).
  exists s1, v1. split_and!; try done; [by rewrite <-!app_assoc in *|eauto|eauto|unfold right; lia].
Qed.

(** The part of [cmpct_free_internal] after the left neighbour [lsz] has been
    unlinked. *)
Lemma free_with_left s v base bs1 lsz sz bs2 rest :
  repr free_lists s v → view_ok v ((base, bs1 ++ [(lsz, false); (sz, false)] ++ bs2) :: rest) →
  last_free bs1 = false →
  let lft := base + 16 + sum bs1 in
  let header := lft + lsz in
  ∃ s' areas',
    (lh ← header_at lft;
     right ← right_header header;
     rf ← is_tagged_as_free right;
     if (rf : bool) then
       unlink_free_unknown_bucket free_lists right;;
       right_right ← right_header right;
       set_left right_right lft;;
       lh' ← header_at lft;
       rh ← header_at right;
       free_memory free_lists lft (left lh) (uadd (uadd (hsize lh') sz) (hsize rh))
     else
       set_left right lft;;
       lh' ← header_at lft;
       free_memory free_lists lft (left lh) (uadd (hsize lh') sz)) s = Ret (Ok (), s') ∧
    heap_inv s' areas' ∧ used areas' ≡ₚ others false base bs1 [(lsz, true); (sz, false)] bs2 rest ∧
    kept (used areas') (v_data v) (mem_bytes s').
Proof.
  intros Hr Hv Hlf lft header.
  destruct (block_bounds v base bs1 lsz false ((sz, false) :: bs2) rest Hv) as (? & ? & ? & ? & Hbd & Hmx & Hl & _).
  assert (view_ok v ((base, (bs1 ++ [(lsz, false)]) ++ (sz, false) :: bs2) :: rest)) as Hv' by (by rewrite <-app_assoc).
  destruct (block_bounds v base _ sz false bs2 rest Hv') as (_ & _ & ? & ? & _ & _ & Hx & hr & Hrh & Hrf).
  rewrite sum_cons in Hbd, Hmx. cbn [fst] in Hbd, Hmx. rewrite sum_snoc in Hx, Hrh. cbn [fst] in Hx, Hrh.
  replace (base + 16 + (sum bs1 + lsz)) with header in Hx, Hrh by (unfold header, lft; lia). fold lft in Hl.
  rewrite (M_bind_run _ _ _ _ _ (header_run _ _ _ _ Hr Hl)). cbn [left].
  rewrite (M_bind_run _ _ _ _ _ (right_header_run _ _ _ _ Hr Hx ltac:(simpl; unfold header, lft; lia))). cbn [hsize].
  rewrite (M_bind_run _ _ _ _ _ (is_tagged_run _ _ _ _ _ Hr Hrh ltac:(unfold null, header, lft; lia) Hrf)).
  assert (sum [(lsz, false); (sz, false)] = lsz + sz) as Es by (simpl; lia).
  assert (lft + (lsz + sz) = header + sz) as Eh by (unfold header; lia).
  destruct (head_free bs2) eqn:Ehf.
  - destruct (proj2 (neighbours v base _ sz bs2 rest Hv') Ehf) as (rsz & bs2' & -> & Hhf).
    destruct (unlink_right s v base bs1 [(lsz, false); (sz, false)] rsz bs2' rest Hr Hv)
      as (s1 & v1 & Hrun1 & Hr1 & Hv1 & _ & (l1 & Hrx) & Hd1 & ? & ?).
    fold lft in Hrun1, Hrx, Hd1. rewrite Es, Eh in *. rewrite (M_bind_run _ _ _ _ _ Hrun1).
    rewrite (M_bind_run _ _ _ _ _ (right_header_run _ _ _ _ Hr1 Hrx ltac:(simpl; unfold header, lft; lia))). cbn [hsize].
    destruct (block_bounds v1 base bs1 lsz false _ rest Hv1) as (_ & _ & _ & ? & _ & Hmx1 & Hlx & _).
    fold lft in Hlx. cbn [app] in Hmx1. rewrite !sum_cons in Hmx1, Hmx. cbn [fst] in Hmx1, Hmx.
    assert (sum [(lsz, false); (sz, false); (rsz, false)] = lsz + sz + rsz) as Es' by (simpl; lia).
    destruct (free_run s1 v1 base bs1 [(lsz, false); (sz, false); (rsz, false)] bs2' rest (lsz + sz + rsz) Hr1 Hv1)
      as (s2 & v2 & Hrun2 & Hr2 & Hq2 & s' & areas' & Hrun3 & Hinv & Hu & Hk); try done.
    { by repeat constructor. } { lia. }
    fold lft in Hrun2, Hq2, Hrun3. rewrite Es' in Hrun2, Hq2.
    replace (lft + (lsz + sz + rsz)) with (header + sz + rsz) in Hrun2, Hq2 by (unfold header; lia).
    rewrite (M_bind_run _ _ _ _ _ Hrun2). rewrite <-Hq2 in Hlx, Hrx by (unfold header; lia).
    rewrite (M_bind_run _ _ _ _ _ (header_run _ _ _ _ Hr2 Hlx)), (M_bind_run _ _ _ _ _ (header_run _ _ _ _ Hr2 Hrx)). cbn [hsize].
    rewrite (uadd_small lsz sz), (uadd_small (lsz + sz) rsz) by (unfold is_usize; lia).
    exists s', areas'. split_and!; [done|done| |].
    + rewrite Hu. unfold others. rewrite Es'. simpl.
      by replace (base + 16 + sum bs1 + (lsz + sz + rsz)) with (base + 16 + sum bs1 + (lsz + (sz + 0)) + rsz) by lia.
    + apply (kept_trans _ _ (v_data v1)); [|done]. rewrite Hu. apply (others_kept v1); [done|]. fold lft. rewrite Es'.
      apply (outside_mono (header + sz) (header + sz + 16)); [unfold header; lia|unfold header; lia|done].
  - destruct (free_run s v base bs1 [(lsz, false); (sz, false)] bs2 rest (lsz + sz) Hr Hv)
      as (s2 & v2 & Hrun2 & Hr2 & Hq2 & s' & areas' & Hrun3 & Hinv & Hu & Hk); try done.
    { by repeat constructor. } { lia. }
    fold lft in Hrun2, Hq2, Hrun3. rewrite Es, Eh in Hrun2, Hq2.
    rewrite (M_bind_run _ _ _ _ _ Hrun2). rewrite <-Hq2 in Hl by (unfold header; lia).
    rewrite (M_bind_run _ _ _ _ _ (header_run _ _ _ _ Hr2 Hl)). cbn [hsize].
    rewrite (uadd_small lsz sz) by (unfold is_usize; lia). exists s', areas'. by split_and!.
Qed.

(** ... and when the left neighbour is in use. *)
Lemma free_without_left s v base bs1 sz bs2 rest :
  repr free_lists s v → view_ok v ((base, bs1 ++ [(sz, false)] ++ bs2) :: rest) →
  last_free bs1 = false → 32 ≤ sz ∨ head_free bs2 = true →
  let header := base + 16 + sum bs1 in
  let lft := lastp base (base + 16) bs1 in
  ∃ s' areas',
    (right ← right_header header;
     rf ← is_tagged_as_free right;
     if (rf : bool) then
       right_right ← right_header right;
       unlink_free_unknown_bucket free_lists right;;
       set_left right_right header;;
       rh ← header_at right;
       free_memory free_lists header lft (uadd sz (hsize rh))
     else free_memory free_lists header lft sz) s = Ret (Ok (), s') ∧
    heap_inv s' areas' ∧ used areas' ≡ₚ others false base bs1 [(sz, false)] bs2 rest ∧
    kept (used areas') (v_data v) (mem_bytes s').
Proof.
  intros Hr Hv Hlf Hmin header lft.
  destruct (block_bounds v base bs1 sz false bs2 rest Hv) as (? & ? & ? & ? & Hbd & Hmx & Hx & hr & Hrh & Hrf).
  fold header lft in Hx, Hrh.
  rewrite (M_bind_run _ _ _ _ _ (right_header_run _ _ _ _ Hr Hx ltac:(simpl; unfold header; lia))). cbn [hsize].
  rewrite (M_bind_run _ _ _ _ _ (is_tagged_run _ _ _ _ _ Hr Hrh ltac:(unfold null, header; lia) Hrf)).
  assert (sum [(sz, false)] = sz) as Es by (simpl; lia).
  destruct (head_free bs2) eqn:Ehf.
  - destruct (proj2 (neighbours v base _ sz bs2 rest Hv) Ehf) as (rsz & bs2' & -> & Hhf).
    destruct (unlink_right s v base bs1 [(sz, false)] rsz bs2' rest Hr Hv)
      as (s1 & v1 & Hrun1 & Hr1 & Hv1 & (l0 & Hrx) & (l1 & Hrx1) & Hd1 & ? & ?).
    rewrite Es in *. fold header in Hrun1, Hrx, Hrx1, Hd1.
    rewrite (M_bind_run _ _ _ _ _ (right_header_run _ _ _ _ Hr Hrx ltac:(simpl; unfold header in *; lia))). cbn [hsize].
    rewrite (M_bind_run _ _ _ _ _ Hrun1). rewrite sum_cons in Hmx. cbn [fst] in Hmx.
    assert (sum [(sz, false); (rsz, false)] = sz + rsz) as Es' by (simpl; lia).
    destruct (free_run s1 v1 base bs1 [(sz, false); (rsz, false)] bs2' rest (sz + rsz) Hr1 Hv1)
      as (s2 & v2 & Hrun2 & Hr2 & Hq2 & s' & areas' & Hrun3 & Hinv & Hu & Hk); try done.
    { by repeat constructor. } { lia. }
    fold header lft in Hrun2, Hq2, Hrun3. rewrite Es' in Hrun2, Hq2. rewrite Z.add_assoc in Hrun2, Hq2.
    rewrite (M_bind_run _ _ _ _ _ Hrun2). rewrite <-Hq2 in Hrx1 by lia.
    rewrite (M_bind_run _ _ _ _ _ (header_run _ _ _ _ Hr2 Hrx1)). cbn [hsize].
    destruct (block_bounds v base bs1 sz false _ rest Hv) as (_ & _ & _ & ? & _).
    rewrite (uadd_small sz rsz) by (unfold is_usize; lia).
    exists s', areas'. split_and!; [done|done| |].
    + rewrite Hu. unfold others. rewrite Es'. simpl.
      by replace (base + 16 + sum bs1 + (sz + rsz)) with (base + 16 + sum bs1 + (sz + 0) + rsz) by lia.
    + apply (kept_trans _ _ (v_data v1)); [|done]. rewrite Hu. apply (others_kept v1); [done|]. fold header. rewrite Es'.
      apply (outside_mono (header + sz) (header + sz + 16)); [lia|lia|done].
  - destruct Hmin as [Hmin|]; [|done].
    destruct (free_memory_spec s v v base bs1 [(sz, false)] bs2 rest Hr) as (s' & areas' & Hrun & Hinv & Hu & Hk).
    { unfold freeing. cbv zeta. rewrite Es. fold header.
      split_and!; try done; [by repeat constructor|]. intros h Hh.
      pose proof Hv as (_ & Har & _). apply Forall_cons in Har as [Hao _].
      destruct (block_header _ base bs1 sz false bs2 Hao) as [_ Hright]. fold header in Hright.
      rewrite Hh in Hright. injection Hright as ->. exact Hh. }
    { lia. }
    rewrite Es in Hrun. exists s', areas'. by split_and!.
Qed.

(** A freeable block has room, or one of its neighbours in the area is free. *)
Lemma freeable_cases v base bs1 sz bs2 rest :
  view_ok v ((base, bs1 ++ [(sz, false)] ++ bs2) :: rest) →
  freeable ((base, bs1 ++ [(sz, false)] ++ bs2) :: rest) (base + 16 + sum bs1, sz) →
  32 ≤ sz ∨ head_free bs2 = true ∨ last_free bs1 = true.
Proof.
  intros Hv [?|([y n] & Hy & Hadj)]; [by left|right]. cbn [fst snd] in Hadj.
  pose proof Hv as (_ & Har & _). apply Forall_cons in Har as [(_ & _ & Hok & _) _].
  cbn [snd] in Hok. rewrite !Forall_app, Forall_cons in Hok. destruct Hok as (Hok1 & ([[? _] _] & _) & Hok2).
  pose proof (sum_nonneg _ Hok1). pose proof (sum_nonneg _ Hok2). cbn [fst] in *.
  assert (sum [(sz, false)] = sz) as Es by (simpl; lia).
  rewrite (blocks_split true base bs1 [(sz, false)] bs2 rest) in Hy. cbn [blocks_at Bool.eqb app] in Hy. unfold others in Hy.
  rewrite Es, !elem_of_app in Hy. destruct Hy as [Hy|[Hy|Hy]].
  - apply blocks_at_elem in Hy as (l1 & l2 & -> & ->). rewrite sum_app, sum_cons in *. cbn [fst] in *.
    rewrite Forall_app, Forall_cons in Hok1. destruct Hok1 as (_ & ([[? _] _] & Hl2)). cbn [fst] in *.
    pose proof (sum_nonneg _ Hl2). destruct l2 as [|[z f] l2].
    + right. unfold last_free. by rewrite last_snoc.
    + apply Forall_cons in Hl2 as [[[? _] _] Hl2]. pose proof (sum_nonneg _ Hl2). rewrite sum_cons in *. cbn [fst] in *. lia.
  - apply blocks_at_elem in Hy as (l1 & l2 & -> & ->). rewrite sum_app, sum_cons in *. cbn [fst] in *.
    rewrite Forall_app, Forall_cons in Hok2. destruct Hok2 as (Hl1 & ([[? _] _] & Hl2)). cbn [fst] in *.
    pose proof (sum_nonneg _ Hl2). destruct l1 as [|[z f] l1]; [by left|].
    apply Forall_cons in Hl1 as [[[? _] _] Hl1]. pose proof (sum_nonneg _ Hl1). rewrite sum_cons in *. cbn [fst] in *. lia.
  - apply (rest_apart true v _ _ _ _ _ Hv) in Hy as [((? & ?) & _) Hy]. rewrite !sum_app, Es in Hy. cbn [fst] in *. lia.
Qed.

#[global] Instance freeable_Permutation : Proper ((≡ₚ) ==> (=) ==> iff) freeable.
Proof.
  intros l l' Hl b ? <-. unfold freeable. f_equiv. f_equiv. intros c.
  by rewrite (concat_perm _ _ (fmap_Permutation frees_of _ _ Hl)).
Qed.

(** [cmpct_free_internal] on a used block that has room or a free neighbour. *)
Lemma cmpct_free_internal_spec s areas x sz :
  heap_inv s areas → (x, sz) ∈ used areas → freeable areas (x, sz) →
  ∃ s' areas', cmpct_free_internal free_lists x s = Ret (Ok (), s') ∧ heap_inv s' areas' ∧
    used areas ≡ₚ (x, sz) :: used areas' ∧ kept (used areas') (mem_bytes s) (mem_bytes s').
Proof.
  intros (v & Hr & Hv) Hin Hsz. pose proof Hr as (_ & _ & _ & _ & Hdt & _). rewrite Hdt.
  destruct (find_area false areas x sz Hin) as (base & bs1 & bs2 & rest & Hperm & Ex).
  pose proof (view_ok_perm v _ _ Hperm Hv) as Hv'. rewrite Hperm, Ex in Hsz.
  pose proof (freeable_cases v base bs1 sz bs2 rest Hv' Hsz) as Hcase.
  assert (used areas ≡ₚ (x, sz) :: others false base bs1 [(sz, false)] bs2 rest) as Hused.
  { unfold used. rewrite (concat_perm _ _ (fmap_Permutation used_of _ _ Hperm)).
    rewrite (used_split base bs1 [(sz, false)] bs2 rest). simpl. by rewrite <-Ex. }
  assert (∃ s' areas', cmpct_free_internal free_lists x s = Ret (Ok (), s') ∧ heap_inv s' areas' ∧
    used areas' ≡ₚ others false base bs1 [(sz, false)] bs2 rest ∧ kept (used areas') (v_data v) (mem_bytes s'))
    as (s' & areas' & Hrun & Hinv & Hu & Hk).
  2:{ exists s', areas'. split_and!; [done|done|by rewrite Hused, Hu|done]. }
  destruct (block_bounds v base bs1 sz false bs2 rest Hv') as (? & ? & ? & ? & Hbd & Hmx & Hx & _). rewrite <-Ex in Hx.
  pose proof Hv' as (_ & Har & _). apply Forall_cons in Har as [Hao _].
  destruct (left_header _ base bs1 ((sz, false) :: bs2) Hao) as (hl & Hl & Hlf & _ & ? & ?); [done|].
  set (lft := lastp base (base + 16) bs1) in *. unfold cmpct_free_internal.
  rewrite (M_bind_run _ _ _ _ _ (is_tagged_run _ _ _ _ false Hr Hx ltac:(unfold null; lia) eq_refl)). cbn [negb].
  erewrite M_bind_run by reflexivity. rewrite (M_bind_run _ _ _ _ _ (header_run _ _ _ _ Hr Hx)). cbn [hsize left].
  rewrite (proj2 (Z.ltb_lt SIZE_OF_HEADER_T sz)) by (change SIZE_OF_HEADER_T with 16; lia).
  erewrite M_bind_run by reflexivity. cbv zeta. rewrite (M_bind_run _ _ _ _ _ (header_run _ _ _ _ Hr Hl)).
  rewrite (M_bind_run _ _ _ _ _ (is_tagged_run _ _ _ _ _ Hr Hl ltac:(unfold null; lia) Hlf)).
  rewrite (proj2 (Z.eqb_neq lft null)) by (unfold null; lia). cbn [negb andb]. destruct (last_free bs1) eqn:Elf.
  - destruct (proj1 (neighbours v base bs1 sz bs2 rest Hv') Elf) as (bs1' & lsz & -> & Hlf').
    assert (lft = base + 16 + sum bs1') as El by (unfold lft; rewrite lastp_app; done).
    rewrite sum_snoc in *. cbn [fst] in *. assert (x = lft + lsz) as Exl by lia. rewrite <-app_assoc in Hv'.
    destruct (unlink_unknown s v base bs1' lsz ((sz, false) :: bs2) rest Hr Hv') as (s1 & v1 & Hrun1 & Hr1 & Hv1 & Hd1).
    rewrite <-El in Hrun1, Hd1. rewrite (M_bind_run _ _ _ _ _ Hrun1).
    destruct (free_with_left s1 v1 base bs1' lsz sz bs2 rest Hr1 Hv1 Hlf') as (s' & areas' & Hrun2 & Hinv & Hu & Hk).
    rewrite <-El, <-Exl in Hrun2. exists s', areas'. split_and!; [exact Hrun2|done| |].
    + rewrite Hu. unfold others. rewrite blocks_at_app. simpl. rewrite app_nil_r, sum_app. simpl.
      replace (base + 16 + (sum bs1' + (lsz + 0)) + (sz + 0)) with (base + 16 + sum bs1' + (lsz + (sz + 0))) by lia. done.
    + apply (kept_trans _ _ (v_data v1)); [|done]. rewrite Hu, (others_ext false base bs1' [(lsz, false); (sz, false)]) by done.
      apply (others_kept v1); [done|]. rewrite <-El. apply (outside_mono lft (lft + 16)); [lia|simpl; lia|done].
  - rewrite Ex. apply (free_without_left s v); [done|done|done|naive_solver].
Qed.

Lemma cmpct_free_spec s areas x sz :
  heap_inv s areas → (x, sz) ∈ used areas → freeable areas (x, sz) →
  ∃ s' areas', cmpct_free free_lists (x + 16) s = Ret ((), s') ∧ heap_inv s' areas' ∧
    used areas ≡ₚ (x, sz) :: used areas' ∧ kept (used areas') (mem_bytes s) (mem_bytes s').
Proof.
  intros Hinv Hin Hsz. destruct (cmpct_free_internal_spec s areas x sz Hinv Hin Hsz) as (s' & areas' & Hrun & Hinv' & Hu & Hk).
  exists s', areas'. split_and!; [|done|done|done].
  destruct Hinv as (v & _ & Hv). destruct (find_area false areas x sz Hin) as (base & bs1 & bs2 & rest & Hperm & ->).
  destruct (block_bounds v base bs1 sz false bs2 rest (view_ok_perm v _ _ Hperm Hv)) as (? & ? & ? & ? & ? & _).
  unfold cmpct_free. rewrite (proj2 (Z.eqb_neq _ null)) by (unfold null; lia).
  change SIZE_OF_HEADER_T with 16. rewrite usub_small by (unfold is_usize; lia).
  replace (base + 16 + sum bs1 + 16 - 16) with (base + 16 + sum bs1) by lia. by rewrite (M_bind_run _ _ _ _ _ Hrun).
Qed.

(** ** cmpct_memalign *)

Lemma block_aligned v base bs1 sz f bs2 rest :
  view_ok v ((base, bs1 ++ (sz, f) :: bs2) :: rest) → (8 | base + 16 + sum bs1) ∧ (8 | sz).
Proof.
  intros Hv. destruct (run_facts v base bs1 [(sz, f)] bs2 rest Hv) as (_ & _ & _ & _ & _ & [k Hk] & _).
  pose proof Hv as (_ & Har & _). apply Forall_cons in Har as [(_ & _ & Hok & _) _]. cbn [snd] in Hok.
  rewrite Forall_app, Forall_cons in Hok. destruct Hok as (Hok1 & (_ & Hd & _) & _). split; [|done].
  assert (8 | sum bs1) as [m Hm].
  { clear -Hok1. induction Hok1 as [|b l (_ & Hd & _) _ IH]; [by exists 0|]. rewrite sum_cons. by apply Z.divide_add_r. }
  change PAGE_SIZE with 4096 in Hk. exists (k * 512 + 2 + m). lia.
Qed.

(** Cutting a used block in two. *)
Lemma split_run s v base bs1 nsz bs2 rest lo :
  repr free_lists s v → view_ok v ((base, bs1 ++ [(nsz, false)] ++ bs2) :: rest) →
  32 ≤ lo → 24 ≤ nsz - lo → (8 | lo) →
  let x := base + 16 + sum bs1 in
  ∃ s' v', (h ← header_at x;
     _ ← create_allocation_header (x + lo) 0 (usub (hsize h) lo) x;
     right ← right_header x;
     set_size x (u32_wrap lo);;
     set_left right (x + lo)) s = Ret ((), s') ∧ repr free_lists s' v' ∧
    view_ok v' ((base, bs1 ++ [(lo, false); (nsz - lo, false)] ++ bs2) :: rest) ∧
    same_outside x (x + nsz + 16) (v_data v) (v_data v').
Proof.
  intros Hr Hv Hlo Hhi Hd x. set (la := lastp base (base + 16) bs1).
  destruct (block_bounds v base bs1 nsz false bs2 rest Hv) as (? & ? & ? & ? & Hbd & Hmx & Hx & hr & Hrh & Hrf).
  destruct (block_aligned v base bs1 nsz false bs2 rest Hv) as [Hxal Hnal]. fold x la in Hx, Hrh, Hxal.
  destruct (run_facts v base bs1 [(nsz, false)] bs2 rest Hv) as (_ & _ & _ & _ & _ & _ & _ & Hmap & _ & _ & Hsplit & _).
  simpl in Hsplit. assert (sum [(nsz, false)] = nsz) as Es by (simpl; lia). rewrite Es in Hmap.
  assert (∀ p, x ≤ p ≤ x + nsz → clear_of_nodes free_lists (v_frees v) p) as Hclr.
  { intros p Hp. destruct (clear_run v base bs1 [(nsz, false)] bs2 rest p Hv) as [Hc1 Hc2]; [rewrite Es; unfold x in Hp; lia|].
    split; [|done]. intros y szy. rewrite Hsplit. apply Hc1. }
  rewrite (M_bind_run _ _ _ _ _ (header_run _ _ _ _ Hr Hx)). cbn [hsize]. rewrite (usub_small nsz lo) by (unfold is_usize; lia).
  destruct (create_header_spec s v (x + lo) (nsz - lo) x Hr) as (s1 & Hrun1 & Hr1);
    [unfold x; lia|unfold x; lia|lia|apply Hmap; unfold x; lia|apply Hclr; lia|].
  rewrite (M_bind_run _ _ _ _ _ Hrun1). simpl in Hr1. set (hd1 := put (x + lo) _ _) in Hr1.
  assert (hd1 !! x = Some (mkHdr la nsz 0)) as Hx1 by (unfold hd1; rewrite put_far by lia; done).
  rewrite (M_bind_run _ _ _ _ _ (right_header_run _ _ _ _ Hr1 Hx1 ltac:(simpl; unfold x; lia))). cbn [hsize].
  assert (u32_wrap lo = lo) as -> by (apply Z.mod_small; lia).
  destruct (set_size_spec free_lists s1 _ x _ lo Hr1 Hx1) as (s2 & Hrun2 & Hr2); simpl;
    [apply Hmap; unfold x; lia|apply Hclr; lia|].
  rewrite (M_bind_run _ _ _ _ _ Hrun2). simpl in Hr2.
  destruct (set_left_spec free_lists s2 _ (x + nsz) hr (x + lo) Hr2) as (s3 & Hrun3 & Hr3); simpl.
  { unfold hd1. rewrite put_far, put_far by lia. exact Hrh. }
  { apply Hmap; unfold x; lia. } { apply Hclr; lia. }
  eexists s3, _. split; [exact Hrun3|]. split; [exact Hr3|]. split; [|simpl; outside].
  pose proof Hv as (_ & Har & _). apply Forall_cons in Har as [(_ & _ & Hok & Hco & _) _]. cbn [snd] in *.
  apply (view_splice v _ base bs1 [(nsz, false)] [(lo, false); (nsz - lo, false)] bs2 rest); simpl; try done.
  - lia.
  - repeat constructor; simpl; try done; try lia. by apply Z.divide_sub_r.
  - apply (coalesced_run _ _ [(lo, false); (nsz - lo, false)] _ Hco); [done|by rewrite andb_false_r|done].
  - intros q Hq. fold x in Hq. unfold hd1. rewrite !put_far by lia. done.
  - fold x la. split_and!; [rewrite put_far by lia; apply put_same| |done].
    unfold hd1. rewrite put_far, put_far by lia. apply put_same.
  - fold x la. replace (x + (nsz + 0)) with (x + nsz) by lia. intros h Hh. rewrite Hrh in Hh. injection Hh as <-. apply put_same.
Qed.

Lemma split_used s areas x nsz lo :
  heap_inv s areas → (x, nsz) ∈ used areas → 32 ≤ lo → 24 ≤ nsz - lo → (8 | lo) →
  ∃ s' areas' u,
    (h ← header_at x;
     _ ← create_allocation_header (x + lo) 0 (usub (hsize h) lo) x;
     right ← right_header x;
     set_size x (u32_wrap lo);;
     set_left right (x + lo)) s = Ret ((), s') ∧ heap_inv s' areas' ∧
    used areas ≡ₚ (x, nsz) :: u ∧ used areas' ≡ₚ (x, lo) :: (x + lo, nsz - lo) :: u ∧ kept u (mem_bytes s) (mem_bytes s').
Proof.
  intros (v & Hr & Hv) Hin Hlo Hhi Hd. pose proof Hr as (_ & _ & _ & _ & Hdt & _).
  destruct (find_area false areas x nsz Hin) as (base & bs1 & bs2 & rest & Hperm & ->).
  pose proof (view_ok_perm v _ _ Hperm Hv) as Hv'.
  destruct (split_run s v base bs1 nsz bs2 rest lo Hr Hv' Hlo Hhi Hd) as (s' & v' & Hrun & Hr' & Hv1 & Hd').
  pose proof Hr' as (_ & _ & _ & _ & Hdt' & _).
  exists s', ((base, bs1 ++ [(lo, false); (nsz - lo, false)] ++ bs2) :: rest), (others false base bs1 [(nsz, false)] bs2 rest).
  split_and!; [done|by exists v'| | |].
  - unfold used. rewrite (concat_perm _ _ (fmap_Permutation used_of _ _ Hperm)).
    apply (used_split base bs1 [(nsz, false)] bs2 rest).
  - rewrite (used_split base bs1 [(lo, false); (nsz - lo, false)] bs2 rest). simpl.
    rewrite (others_ext false base bs1 [(nsz, false)]); [done|simpl; lia].
  - rewrite Hdt, Hdt'. apply (others_kept v); [done|].
    by replace (sum [(nsz, false)]) with nsz by (simpl; lia).
Qed.

Lemma cmpct_memalign_spec fuel s areas k sz :
  heap_inv s areas → (22 ≤ fuel)%nat → 3 ≤ k < 64 → 0 < sz → sz + 2 ^ k + 32 < 2 ^ 64 →
  ∃ p s' areas', cmpct_memalign free_lists fuel (2 ^ k) sz s = Ret (p, s') ∧ heap_inv s' areas' ∧
    kept (used areas) (mem_bytes s) (mem_bytes s') ∧
    ((p = null ∧ used areas' = used areas ∧ alloc_fails (os s) areas (sz + 2 ^ k + SIZE_OF_FREE_T)) ∨
     (∃ x nsz, p = x + 16 ∧ (2 ^ k | p) ∧ sz + 16 ≤ nsz ∧ used areas' ≡ₚ (x, nsz) :: used areas)).
Proof.
  intros Hinv Hfuel Hk Hsz Hov. unfold cmpct_memalign. rewrite (proj2 (Z.eqb_neq sz 0)) by lia.
  assert (8 ≤ 2 ^ k) by (change 8 with (2 ^ 3); apply Z.pow_le_mono_r; lia).
  rewrite (proj2 (Z.ltb_ge (2 ^ k) 8)) by lia. change SIZE_OF_FREE_T with 32. change SIZE_OF_HEADER_T with 16.
  rewrite (uadd_small sz), (uadd_small (sz + 2 ^ k)) by (unfold is_usize; lia).
  destruct (cmpct_alloc_spec fuel s areas (sz + 2 ^ k + 32) Hinv ltac:(lia) Hfuel) as (p & s1 & areas1 & Hrun1 & Hinv1 & Hk1 & Hcase).
  rewrite (M_bind_run _ _ _ _ _ Hrun1).
  destruct Hcase as [(-> & Hu1 & Hfail)|(x & nsz & -> & Hmx & Hfit & Hu1 & _)].
  { exists null, s1, areas1. split_and!; [done|done|done|]. left. by split_and!. }
  assert ((x, nsz) ∈ used areas1) as Hin by (rewrite Hu1; set_solver).
  pose proof Hinv1 as (v1 & _ & Hv1).
  destruct (find_area false areas1 x nsz Hin) as (base & bs1 & bs2 & rest & Hperm & Ex).
  pose proof (view_ok_perm v1 _ _ Hperm Hv1) as Hv1'.
  destruct (block_bounds v1 base bs1 nsz false bs2 rest Hv1') as (? & ? & ? & ? & Hbd & Hmxa & _).
  destruct (block_aligned v1 base bs1 nsz false bs2 rest Hv1') as [[kx Hkx] _]. rewrite <-Ex in Hkx.
  change HEAP_MAX_ALLOC_SIZE with (2 ^ 20 - 16) in Hmx.
  rewrite (proj2 (Z.eqb_neq (x + 16) null)) by (unfold null; lia).
  rewrite (uadd_small (x + 16) 32) by (unfold is_usize; lia).
  change (Z.land (uadd (x + 16 + 32) (usub (2 ^ k) 1)) (unot (usub (2 ^ k) 1))) with (ROUNDUP (x + 16 + 32) (2 ^ k)).
  destruct (ROUNDUP_bounds (x + 16 + 32) k) as [Hal Hrb]; [lia|lia|lia|]. cbv zeta.
  set (payload := ROUNDUP (x + 16 + 32) (2 ^ k)) in *.
  rewrite (proj2 (Z.eqb_neq (x + 16) payload)) by lia. cbn [negb].
  rewrite (usub_small (x + 16) 16), (usub_small payload 16), (usub_small payload (x + 16)) by (unfold is_usize; lia).
  replace (x + 16 - 16) with x by lia. set (lo := payload - (x + 16)).
  assert (8 | lo) as Hd.
  { assert (8 | 2 ^ k) by (change 8 with (2 ^ 3); exists (2 ^ (k - 3)); rewrite <-Z.pow_add_r by lia; f_equal; lia).
    unfold lo. apply Z.divide_sub_r; [by apply (Z.divide_trans _ (2 ^ k))|]. exists (kx + 2). lia. }
  assert (24 ≤ nsz - lo).
  { destruct Hd as [kd Hkd]. destruct (block_aligned v1 base bs1 nsz false bs2 rest Hv1') as [_ [kn Hkn]]. unfold lo in *. lia. }
  destruct (split_used s1 areas1 x nsz lo Hinv1 Hin) as (s2 & areas2 & u & Hrun2 & Hinv2 & Hu2 & Hu2' & Hk2); [unfold lo; lia|done|done|].
  replace (payload - 16) with (x + lo) by (unfold lo; lia).
  assert ((x, lo) ∈ used areas2) as Hin2 by (rewrite Hu2'; set_solver).
  destruct (cmpct_free_spec s2 areas2 x lo Hinv2 Hin2) as (s3 & areas3 & Hrun3 & Hinv3 & Hu3 & Hk3);
    [left; change SIZE_OF_FREE_T with 32; unfold lo; cbn [snd]; lia|].
  rewrite Hu2' in Hu3. apply Permutation_cons_inv in Hu3. rewrite Hu1 in Hu2. apply Permutation_cons_inv in Hu2.
  rewrite <-Hu2 in Hu3, Hk2. exists payload, s3, areas3. split_and!; [|done| |].
  - apply M_bind_inv in Hrun2 as (h & s1a & Ha & Hrun2). apply M_bind_inv in Hrun2 as (p1 & s1b & Hb & Hrun2).
    apply M_bind_inv in Hrun2 as (p2 & s1c & Hc & Hrun2). apply M_bind_inv in Hrun2 as ([] & s1d & Hdd & Hrun2).
    erewrite M_bind_run; [reflexivity|]. rewrite (M_bind_run _ _ _ _ _ Ha), (M_bind_run _ _ _ _ _ Hb).
    rewrite (M_bind_run _ _ _ _ _ Hc), (M_bind_run _ _ _ _ _ Hdd), (M_bind_run _ _ _ _ _ Hrun2). exact Hrun3.
  - apply (kept_trans _ _ (mem_bytes s1)); [done|]. apply (kept_trans _ _ (mem_bytes s2)); [done|].
    apply (kept_incl (used areas3)); [|done]. intros b Hb. rewrite <-Hu3. set_solver.
  - right. exists (x + lo), (nsz - lo). split_and!; [unfold lo; lia|done|unfold lo; lia|by rewrite <-Hu3].
Qed.
End invariant.
