(* ===== verification/KernelHeap.v ===== *)
(** * The kernel heap: what its clients get

    [cmpct_init] establishes the invariant of CmpctHeap.v; [cmpct_alloc],
    [cmpct_free] and [cmpct_memalign] are stated here as what they do to the
    live blocks.  The theorems hold for every page allocator that keeps the
    laws of [PageAllocatorLaws]; a small one, used to run the heap on
    concrete inputs, shows that they can be kept. *)

From S2P Require Import Prelude Defs LinkedList Cmpctmalloc HeapPages HeapLists CmpctHeap.

#[local] Existing Instance free_t_linked.

(** ** cmpct_init *)

Section init.
Context {S : Type} `{PageAllocatorLaws S}.
Context (free_lists : Z → Z).
Hypothesis heads_apart : ∀ o r b, os_ok o → r ∈ mapped o → is_bucket b →
  free_lists b + 16 ≤ r.1 ∨ r.1 + r.2 ≤ free_lists b.
Hypothesis heads_distinct : ∀ b b', is_bucket b → is_bucket b' → b ≠ b' → free_lists b ≠ free_lists b'.
Hypothesis heads_not_null : ∀ b, is_bucket b → free_lists b ≠ null.

(** Placing the list heads [i, i + n) makes them live and touches nothing
    else of the state. *)
Lemma new_lists_spec n i (s : HeapState S) :
  0 ≤ i →
  ∃ fm, new_lists free_lists n i s = Ret ((), mkHS (heap s) (headers s) fm (mem_bytes s) (os s)) ∧
    ∀ p, (is_Some (nodes (flists s) !! p) ∧ is_Some (refs (flists s) !! p) ∨
          ∃ b, i ≤ b < i + Z.of_nat n ∧ p = free_lists b) →
         is_Some (nodes fm !! p) ∧ is_Some (refs fm !! p).
Proof.
  revert i s. induction n as [|n IH]; intros i s Hi; cbn [new_lists].
  { exists (flists s). destruct s. split; [done|]. intros p [?|(b & ? & _)]; [done|lia]. }
  erewrite M_bind_run by reflexivity. set (s1 := mkHS _ _ _ _ _).
  destruct (IH (i + 1) s1 ltac:(lia)) as (fm & Hrun & Hl). exists fm. split; [done|].
  intros p Hp. apply Hl. subst s1. cbn [flists nodes refs].
  destruct (decide (p = free_lists i)) as [->|Hne]; [left; by simplify_map_eq|].
  rewrite !lookup_insert_ne by done.
  destruct Hp as [?|(b & Hb & ->)]; [by left|]. right. exists b. split; [|done].
  assert (b ≠ i) by congruence. lia.
Qed.

Lemma init_lists_spec n i (s : HeapState S) :
  0 ≤ i → i + Z.of_nat n = NUMBER_OF_BUCKETS →
  (∀ b, is_bucket b → is_Some (nodes (flists s) !! free_lists b) ∧ is_Some (refs (flists s) !! free_lists b)) →
  (∀ b, 0 ≤ b < i → dll (flists s) (free_lists b) []) →
  ∃ fm, init_lists free_lists n i s = Ret ((), mkHS (heap s) (headers s) fm (mem_bytes s) (os s)) ∧
    ∀ b, is_bucket b → dll fm (free_lists b) [].
Proof.
  revert i s. induction n as [|n IH]; intros i s Hi Hn Hlive Hdone; cbn [init_lists].
  { exists (flists s). destruct s. split; [done|]. intros b [? ?]. apply Hdone. lia. }
  assert (is_bucket i) as Hbi by (split; lia).
  destruct (Hlive i Hbi) as [Hn1 Hn2].
  destruct (List_init_spec (flists s) (free_lists i)) as (m' & Hrun & Hd & Hf); [by apply heads_not_null|done|done|].
  assert (on_flists (List_init (free_lists i)) s = Ret ((), mkHS (heap s) (headers s) m' (mem_bytes s) (os s))) as Hr.
  { unfold on_flists, zoom. by rewrite Hrun. }
  rewrite (M_bind_run _ _ _ _ _ Hr).
  destruct (IH (i + 1) (mkHS (heap s) (headers s) m' (mem_bytes s) (os s))) as (fm & Hrun' & Hall); [lia|lia| | |by exists fm].
  - intros b Hb. cbn [flists]. destruct (decide (b = i)) as [->|Hne].
    + destruct Hd as (Hr1 & _ & _ & Hp). split; [|by eexists].
      destruct Hp as [[Hx _] _]. unfold nx in Hx. by destruct (nodes m' !! free_lists i).
    + destruct (Hf (free_lists b)) as [-> ->]; [|by apply Hlive].
      apply not_elem_of_cons. split; [by apply heads_distinct|apply not_elem_of_nil].
  - intros b Hb. cbn [flists]. destruct (decide (b = i)) as [->|Hne]; [done|].
    apply (dll_frame _ _ _ _ _ (Hdone b ltac:(lia)) Hf). intros q ->%list_elem_of_singleton.
    apply not_elem_of_cons. split; [|apply not_elem_of_nil].
    apply heads_distinct; [split; lia|done|done].
Qed.

Lemma empty_heap_inv fm (s : HeapState S) :
  os_ok (os s) → mapped (os s) = [] → (∀ b, is_bucket b → dll fm (free_lists b) []) →
  heap_inv free_lists (mkHS Heap_new (headers s) fm (mem_bytes s) (os s)) [].
Proof.
  intros Hok Hm Hd. exists (mkView (os s) null 0 (headers s) [] (mem_bytes s)). split.
  - split_and!; try done. split_and!.
    + split; [done|]. apply Forall_replicate. unfold is_u32. lia.
    + done.
    + apply NoDup_nil_2.
    + exists (λ _, []). split_and!.
      * intros b Hb. split; [by apply Hd|]. rewrite bool_decide_true by done.
        unfold bucket_bit. cbn [heap free_list_bits Heap_new].
        destruct (is_bucket_word b Hb) as (Hw & _). rewrite lookup_replicate_2; [apply Z.testbit_0_l|].
        change (Z.to_nat BUCKET_WORDS) with 4%nat. lia.
      * intros b b' Hb Hb' Hne x. simpl. intros ->%list_elem_of_singleton ?%list_elem_of_singleton.
        by apply (heads_distinct b b').
      * intros b p Hb. split; [by intros ?%elem_of_nil|]. by intros (? & ?%elem_of_nil & _).
  - split_and!; simpl; try done.
    + by rewrite Hm.
    + by rewrite Hm.
Qed.

Lemma cmpct_init_spec (s : HeapState S) :
  os_ok (os s) → mapped (os s) = [] →
  ∃ r s', cmpct_init free_lists s = Ret (r, s') ∧
    match r with
    | Ok _ => ∃ base n, HEAP_USABLE_GROW_SIZE ≤ n ∧ heap_inv free_lists s' [(base, [(n, true)])]
    | Err _ => heap_inv free_lists s' [] ∧ refused (os s) [] (grow_pages HEAP_USABLE_GROW_SIZE)
    end.
Proof.
  intros Hok Hm. unfold cmpct_init.
  destruct (new_lists_spec (Z.to_nat NUMBER_OF_BUCKETS) 0 s ltac:(lia)) as (fm & Hrun & Hlive).
  rewrite (M_bind_run _ _ _ _ _ Hrun). erewrite M_bind_run by reflexivity. cbn [heap headers flists mem_bytes os].
  destruct (init_lists_spec (Z.to_nat NUMBER_OF_BUCKETS) 0 (mkHS Heap_new (headers s) fm (mem_bytes s) (os s)))
    as (fm' & Hrun' & Hd); [lia|by_compute| |lia|].
  { intros b Hb. apply Hlive. right. exists b. split; [|done]. destruct Hb. lia. }
  rewrite (M_bind_run _ _ _ _ _ Hrun'). cbn [heap headers flists mem_bytes os].
  destruct (heap_grow_spec free_lists heads_apart (mkHS Heap_new (headers s) fm' (mem_bytes s) (os s)) [] HEAP_USABLE_GROW_SIZE)
    as (r & s' & Hg & _ & Hres); [by apply empty_heap_inv|by_compute|].
  exists r, s'. split; [exact Hg|]. destruct r; exact Hres.
Qed.
End init.

(** ** Blocks do not overlap *)

(** All blocks of an area, free or in use. *)
Fixpoint all_at (a : Z) (bs : list blk) : list (Z * Z) :=
  match bs with [] => [] | (sz, _) :: bs => (a, sz) :: all_at (a + sz) bs end.

Lemma all_at_split a bs : all_at a bs ≡ₚ blocks_at false a bs ++ blocks_at true a bs.
Proof.
  revert a. induction bs as [|[sz f] bs IH]; intros a; simpl; [done|].
  rewrite IH. destruct f; simpl; solve_Permutation.
Qed.

Lemma all_at_disj a bs :
  Forall blk_ok bs → ForallOrdPairs disj (all_at a bs) ∧
    Forall (λ b, a ≤ b.1 ∧ 0 < b.2 ∧ b.1 + b.2 ≤ a + sum bs) (all_at a bs).
Proof.
  intros Hok. revert a. induction Hok as [|[sz f] bs [[Hb _] _] Hok IH]; intros a; [split; constructor|].
  destruct (IH (a + sz)) as [H1 H2]. cbn [all_at]. rewrite sum_cons. cbn [fst] in *.
  pose proof (sum_nonneg _ Hok). split; constructor; simpl; try done; try lia.
  - eapply Forall_impl; [exact H2|]. unfold disj. simpl. intros [x n]. simpl. lia.
  - eapply Forall_impl; [exact H2|]. intros [x n]. simpl. lia.
Qed.

Lemma ForallOrdPairs_app {A} (R : A → A → Prop) l1 l2 :
  ForallOrdPairs R l1 → ForallOrdPairs R l2 → Forall (λ x, Forall (R x) l2) l1 → ForallOrdPairs R (l1 ++ l2).
Proof.
  intros H1 H2. induction H1 as [|x l Hx Hl IH]; intros Hf; simpl; [done|].
  apply Forall_cons in Hf as [Hx2 Hf]. constructor; [|auto]. by apply Forall_app.
Qed.

Lemma areas_disj hd areas :
  Forall (area_ok hd) areas → ForallOrdPairs disj (area_range <$> areas) →
  ForallOrdPairs disj (concat ((λ ar : area, all_at (ar.1 + 16) ar.2) <$> areas)).
Proof.
  induction 1 as [|[base bs] areas Hao Har IH]; intros Hd; [constructor|].
  rewrite fmap_cons in Hd. inversion Hd as [|? ? Hb Hd']; subst. rewrite fmap_cons. cbn [concat fst snd].
  destruct Hao as (_ & _ & Hok & _). destruct (all_at_disj (base + 16) bs Hok) as [H1 H2].
  apply ForallOrdPairs_app; [done|by apply IH|].
  apply Forall_forall. intros [x n] Hx. apply Forall_forall. intros [y k] Hy.
  pose proof (proj1 (Forall_forall _ _) H2 _ Hx) as Hxr.
  apply list_elem_of_In, in_concat in Hy as (l & Hl%list_elem_of_In & Hy%list_elem_of_In).
  apply list_elem_of_fmap in Hl as ([base' bs'] & -> & Hin).
  pose proof (proj1 (Forall_forall _ _) Har _ Hin) as (_ & _ & Hok' & _).
  destruct (all_at_disj (base' + 16) bs' Hok') as [_ H2'].
  pose proof (proj1 (Forall_forall _ _) H2' _ Hy) as Hyr.
  assert (disj (area_range (base, bs)) (area_range (base', bs'))) as Hdd.
  { apply (proj1 (Forall_forall _ _) Hb). by apply list_elem_of_fmap_2. }
  unfold disj, area_range in *. simpl in *. lia.
Qed.

Lemma concat_split areas :
  concat ((λ ar : area, all_at (ar.1 + 16) ar.2) <$> areas) ≡ₚ used areas ++ concat (frees_of <$> areas).
Proof.
  induction areas as [|ar areas IH]; [done|]. unfold used in *. rewrite !fmap_cons. cbn [concat].
  rewrite IH, all_at_split. unfold used_of, frees_of. solve_Permutation.
Qed.

Section clients.
Context {S : Type} `{PageAllocatorLaws S}.
Context (free_lists : Z → Z).
Hypothesis heads_apart : ∀ o r b, os_ok o → r ∈ mapped o → is_bucket b →
  free_lists b + 16 ≤ r.1 ∨ r.1 + r.2 ≤ free_lists b.

(** A live block: its payload is 8-aligned, holds at least 8 bytes and lies
    within one mapped range. *)
Definition live_ok (o : S) (b : Z * Z) : Prop :=
  24 ≤ b.2 ∧ (8 | b.1) ∧ (8 | b.2) ∧ ∃ r, r ∈ mapped o ∧ r.1 < b.1 ∧ b.1 + b.2 < r.1 + r.2.

Lemma blocks_disjoint s areas :
  heap_inv free_lists s areas →
  ForallOrdPairs disj (used areas ++ concat (frees_of <$> areas)).
Proof.
  intros (v & _ & (Hok & Har & _ & Hm & _)).
  eapply ForallOrdPairs_perm; [apply disj_sym|apply concat_split|]. apply (areas_disj (v_hdrs v)); [done|].
  pose proof (ForallOrdPairs_perm _ _ _ disj_sym Hm (os_disjoint _ Hok)) as Hd.
  clear -Hd. induction (area_range <$> areas) as [|x l IH]; [constructor|].
  inversion Hd as [|? ? Hx Hl]; subst. constructor; [by apply Forall_app in Hx as [? _]|by apply IH].
Qed.

Lemma used_live s areas b : heap_inv free_lists s areas → b ∈ used areas → live_ok (os s) b.
Proof.
  intros (v & (Ho & _) & Hv) Hb. destruct b as [x sz].
  destruct (find_area false areas x sz Hb) as (base & bs1 & bs2 & rest & Hp & ->).
  pose proof (view_ok_perm v _ _ Hp Hv) as Hv'.
  destruct (block_bounds free_lists heads_apart v base bs1 sz false bs2 rest Hv') as (? & ? & ? & ? & _).
  destruct (block_aligned free_lists heads_apart v base bs1 sz false bs2 rest Hv') as [? ?].
  split_and!; [done|done|done|]. exists (area_range (base, bs1 ++ (sz, false) :: bs2)).
  destruct Hv' as (_ & _ & _ & Hm & _). rewrite Ho, Hm. split; [rewrite fmap_cons; set_solver|].
  unfold area_range. cbn [fst snd]. rewrite sum_app, sum_cons. cbn [fst]. lia.
Qed.

Lemma used_disjoint s areas : heap_inv free_lists s areas → ForallOrdPairs disj (used areas).
Proof.
  intros Hd%blocks_disjoint. induction (used areas) as [|x l IH]; [constructor|].
  inversion Hd as [|? ? Hx Hl]; subst. constructor; [by apply Forall_app in Hx as [? _]|by apply IH].
Qed.

(** ** The operations *)





(** In every state of the heap the blocks, live and free, are pairwise
    disjoint, and each live block lies strictly inside one mapped range with
    an 8-aligned payload. *)
Theorem heap_blocks_disjoint (s : HeapState S) areas :
  heap_inv free_lists s areas →
  ForallOrdPairs disj (used areas ++ concat (frees_of <$> areas)) ∧ Forall (live_ok (os s)) (used areas).
Proof.
  intros Hinv. split; [by apply (blocks_disjoint s)|]. apply Forall_forall. intros b. by apply used_live.
Qed.
End clients.

(** ** A page allocator that keeps the laws *)

Module Pages.
Definition BASE : Z := 2 ^ 30.
Definition LIMIT : Z := 2 ^ 40.
Record t := mk { next_va : Z; ranges : list (Z * Z) }.

Fixpoint remove (x : Z * Z) (l : list (Z * Z)) : option (list (Z * Z)) :=
  match l with
  | [] => None
  | y :: l => if decide (x = y) then Some l else (y ::.) <$> remove x l
  end.

Definition alloc (n : Z) : M t (Result Z) := λ o,
  if next_va o + n * PAGE_SIZE <=? LIMIT
  then Ret (Ok (next_va o), mk (next_va o + n * PAGE_SIZE) ((next_va o, n * PAGE_SIZE) :: ranges o))
  else Ret (Err NoMem, o).
Definition free (va n : Z) : M t (Result unit) := λ o,
  match remove (va, n * PAGE_SIZE) (ranges o) with
  | Some l => Ret (Ok (), mk (next_va o) l)
  | None => Ret (Err NotFound, o)
  end.
Definition ok (o : t) : Prop :=
  BASE ≤ next_va o ≤ LIMIT ∧ (PAGE_SIZE | next_va o) ∧ total (ranges o) ≤ next_va o - BASE ∧
  ForallOrdPairs disj (ranges o) ∧
  Forall (λ r, BASE ≤ r.1 ∧ 0 < r.2 ∧ r.1 + r.2 ≤ next_va o ∧ (PAGE_SIZE | r.1) ∧ (PAGE_SIZE | r.2)) (ranges o).

#[global] Instance pages : PageAllocator t := {| va_alloc_pages := alloc; va_free_pages := free; mapped := ranges |}.

Lemma remove_spec x l : x ∈ l → ∃ l', remove x l = Some l' ∧ l ≡ₚ x :: l'.
Proof.
  induction l as [|y l IH]; simpl; [by intros ?%not_elem_of_nil|].
  intros Hx. case_decide as E; [subst; by exists l|].
  destruct IH as (l' & -> & Hp); [set_solver|]. exists (y :: l'). split; [done|]. rewrite Hp. constructor.
Qed.

Lemma ok_alloc o n : ok o → 0 < n → next_va o + n * PAGE_SIZE ≤ LIMIT →
  ok (mk (next_va o + n * PAGE_SIZE) ((next_va o, n * PAGE_SIZE) :: ranges o)).
Proof.
  intros (Hn & Hd & Ht & Hp & Hf) Hpos Hlim. pose proof PAGE_SIZE_eq as E. change (2 ^ 12) with 4096 in E.
  rewrite E in *. split_and!; cbn [next_va ranges].
  - lia.
  - lia.
  - by apply Z.divide_add_r, Z.divide_factor_r.
  - change (n * 4096 + total (ranges o) ≤ next_va o + n * 4096 - BASE). lia.
  - constructor; [|done]. eapply Forall_impl; [exact Hf|]. unfold disj. intros [x k]. simpl. lia.
  - constructor; cbn [fst snd]; [split_and!; [lia|lia|lia|done|apply Z.divide_factor_r]|].
    eapply Forall_impl; [exact Hf|]. intros [x k]. simpl. intros (? & ? & ? & ? & ?). split_and!; [lia|lia|lia|done|done].
Qed.

Lemma ok_free o x l : ok o → ranges o ≡ₚ x :: l → ok (mk (next_va o) l).
Proof.
  intros (Hn & Hd & Ht & Hp & Hf) Hperm. rewrite Hperm in Hf. apply Forall_cons in Hf as [Hx Hf].
  pose proof (ForallOrdPairs_perm _ _ _ disj_sym Hperm Hp) as Hp'. inversion Hp'; subst.
  rewrite (total_perm _ _ Hperm) in Ht. change (total (x :: l)) with (x.2 + total l) in Ht.
  split_and!; cbn [next_va ranges]; try done; lia.
Qed.

Lemma ok_ranges o : ok o → Forall range_ok (mapped o).
Proof.
  intros (Hn & _ & _ & _ & Hf). simpl. eapply Forall_impl; [exact Hf|]. unfold BASE, LIMIT in *.
  intros [x k]. simpl. intros (? & ? & ? & ? & ?). unfold range_ok. simpl. split_and!; [lia|lia|lia|done|done].
Qed.
Lemma ok_disjoint o : ok o → ForallOrdPairs disj (mapped o).
Proof. by intros (_ & _ & _ & Hp & _). Qed.
Lemma ok_total o : ok o → total (mapped o) < 2 ^ 63.
Proof. intros (Hn & _ & Ht & _). simpl. unfold BASE, LIMIT in *. lia. Qed.
Lemma alloc_law o n : ok o → 0 < n →
  ∃ r o', va_alloc_pages n o = Ret (r, o') ∧ ok o' ∧
    match r with Ok va => mapped o' = (va, n * PAGE_SIZE) :: mapped o | Err _ => mapped o' = mapped o end.
Proof.
  intros Hok Hn. simpl. unfold alloc. destruct (Z.leb_spec (next_va o + n * PAGE_SIZE) LIMIT).
  - eexists _, _. split_and!; [reflexivity|by apply ok_alloc|done].
  - eexists _, _. by split_and!.
Qed.
Lemma free_law o va n : ok o → 0 < n → (va, n * PAGE_SIZE) ∈ mapped o →
  ∃ o', va_free_pages va n o = Ret (Ok (), o') ∧ ok o' ∧ mapped o ≡ₚ (va, n * PAGE_SIZE) :: mapped o'.
Proof.
  intros Hok Hn Hin. simpl in *. unfold free.
  destruct (remove_spec (va, n * PAGE_SIZE) (ranges o) Hin) as (l & Hr & Hp).
  rewrite Hr. eexists. split_and!; [reflexivity|by apply (ok_free o (va, n * PAGE_SIZE))|done].
Qed.

#[global] Instance pages_laws : PageAllocatorLaws t :=
  {| os_ok := ok; os_ranges := ok_ranges; os_disjoint := ok_disjoint; os_total := ok_total;
     os_alloc := alloc_law; os_free := free_law |}.

(** The list heads in a page of their own. *)
Definition heads (b : Z) : Z := 4096 + 24 * b.
Definition start : HeapState t := mkHS Heap_new ∅ (mkMem ∅ ∅) ∅ (mk BASE []).

Lemma heads_apart o r b : os_ok o → r ∈ mapped o → is_bucket b → heads b + 16 ≤ r.1 ∨ r.1 + r.2 ≤ heads b.
Proof.
  intros (_ & _ & _ & _ & Hf) Hr [? Hb]. pose proof (proj1 (Forall_forall _ _) Hf _ Hr) as (? & _).
  change NUMBER_OF_BUCKETS with 128 in Hb. unfold heads, BASE in *. lia.
Qed.
Lemma heads_distinct b b' : is_bucket b → is_bucket b' → b ≠ b' → heads b ≠ heads b'.
Proof. unfold heads. lia. Qed.
Lemma heads_not_null b : is_bucket b → heads b ≠ null.
Proof. intros [? _]. unfold heads, null. lia. Qed.
Lemma start_ok : ok (mk BASE []).
Proof. split_and!; try constructor; try by_compute. by exists (2 ^ 18). Qed.

(** A heap that has just been set up, and one with blocks in use. *)
Definition fresh : HeapState t :=
  match cmpct_init heads start with Ret (_, s) => s | _ => start end.
Definition after_alloc (sz : Z) (s : HeapState t) : HeapState t :=
  match cmpct_alloc heads 22 sz s with Ret (_, s) => s | _ => s end.
End Pages.

Lemma fresh_inv : ∃ base n, heap_inv Pages.heads Pages.fresh [(base, [(n, true)])].
Proof.
  destruct (cmpct_init_spec Pages.heads Pages.heads_apart Pages.heads_distinct Pages.heads_not_null Pages.start)
    as (r & s' & Hrun & Hres); [apply Pages.start_ok|done|].
  unfold Pages.fresh. rewrite Hrun. destruct r as [[]|e].
  - destruct Hres as (base & n & _ & Hi). by exists base, n.
  - exfalso. assert (∃ s, cmpct_init Pages.heads Pages.start = Ret (Ok (), s)) as [s Hs] by (eexists; vm_compute; reflexivity).
    rewrite Hs in Hrun. discriminate Hrun.
Qed.


#[local] Opaque cmpct_alloc cmpct_free cmpct_memalign Pages.fresh.

(** Allocating from the fresh heap succeeds. *)
Lemma fresh_alloc : ∃ p s areas, cmpct_alloc Pages.heads 22 100 Pages.fresh = Ret (p, s) ∧
  heap_inv Pages.heads s areas ∧
  ∃ sz, (p - SIZE_OF_HEADER_T, sz) ∈ used areas ∧ freeable areas (p - SIZE_OF_HEADER_T, sz).
Proof.
  destruct fresh_inv as (base & n & Hinv).
  destruct (cmpct_alloc_spec Pages.heads Pages.heads_apart 22 Pages.fresh _ 100 Hinv ltac:(lia) ltac:(lia))
    as (p & s' & areas' & Hrun & Hi & _ & [(-> & _ & _)|(x & nsz & -> & _ & Hn & Hu & Hfr)]).
  - exfalso. assert (∃ s, cmpct_alloc Pages.heads 22 100 Pages.fresh = Ret (1073741856, s)) as [s Hs]
      by (eexists; vm_compute; reflexivity). rewrite Hs in Hrun. discriminate Hrun.
  - exists (x + 16), s', areas'. split; [exact Hrun|]. split; [exact Hi|]. exists nsz. change SIZE_OF_HEADER_T with 16.
    replace (x + 16 - 16) with x by lia. split; [rewrite Hu; apply list_elem_of_here|exact Hfr].
Qed.




Lemma heap_blocks_disjoint_witness : ∃ s areas, ForallOrdPairs disj (used areas ++ concat (frees_of <$> areas)) ∧
  used areas ≠ [] ∧ heap_inv Pages.heads s areas.
Proof.
  destruct fresh_alloc as (p & s & areas & _ & Hinv & sz & Hin & _). exists s, areas.
  destruct (heap_blocks_disjoint Pages.heads Pages.heads_apart s areas Hinv) as [Hd _].
  split; [exact Hd|]. split; [|exact Hinv]. intros E. rewrite E in Hin. by apply not_elem_of_nil in Hin.
Defined.

(** The condition on [cmpct_free] is needed: requests of at most 8 bytes get
    blocks of 24 bytes, and freeing one between two blocks in use writes the
    list node of the freed block over the header of its right neighbour, which
    can then no longer be freed. *)
Theorem small_block_free_corrupts :
  match (a ← cmpct_alloc Pages.heads 22 8; b ← cmpct_alloc Pages.heads 22 8; mret (a, b)) Pages.fresh with
  | Ret ((a, b), s) => b - a = 24 ∧ is_Some (headers s !! (b - SIZE_OF_HEADER_T)) ∧
      match cmpct_free Pages.heads a s with
      | Ret (_, s') => headers s' !! (b - SIZE_OF_HEADER_T) = None ∧ cmpct_free Pages.heads b s' = Fault
      | _ => False
      end
  | _ => False
  end.
Proof. vm_compute. split; [reflexivity|]. split; [eexists; reflexivity|]. split; reflexivity. Qed.
