(* ===== verification/Vmar.v ===== *)
(** * vm/vmar.rs: virtual address regions

    A region owns its children, sorted by base address.  Inserting a child
    keeps them sorted and disjoint, and [alloc_spot_locked] returns the lowest
    aligned spot that is free, or panics exactly when there is none. *)

From Stdlib Require Import Sorted.
From S2P Require Import Prelude Defs BootReserve.

Inductive VmAddressRegion :=
  mkVmar (vbase vsize vflags : Z) (vchildren : list VmAddressRegion).

Definition base (r : VmAddressRegion) : Z := let 'mkVmar b _ _ _ := r in b.
Definition size (r : VmAddressRegion) : Z := let 'mkVmar _ s _ _ := r in s.
Definition flags (r : VmAddressRegion) : Z := let 'mkVmar _ _ f _ := r in f.
Definition children (r : VmAddressRegion) : list VmAddressRegion := let 'mkVmar _ _ _ c := r in c.

Definition VmAddressRegion_new : VmAddressRegion := mkVmar 0 0 0 [].

Definition VmAddressRegion_init (b s f : Z) : M VmAddressRegion unit :=
  modifyS (λ r, mkVmar b s f (children r)).

Definition cover_range (self : VmAddressRegion) (b s : Z) : bool :=
  let offset := usub b (base self) in
  (base self <=? b) && (offset <? size self) && (s <=? usub (size self) offset).

(** [children.iter().position(|r| r.base >= end)]. *)
Fixpoint position (end_ : Z) (l : list VmAddressRegion) : option nat :=
  match l with
  | [] => None
  | r :: l => if end_ <=? base r then Some O else S <$> position end_ l
  end.

Definition insert_child (child : VmAddressRegion) : M VmAddressRegion unit :=
  self ← getS;
  zx_assert (cover_range self (base child) (size child));;
  let start := base child in
  let end_ := uadd start (size child) in
  putS (mkVmar (base self) (size self) (flags self)
    (match position end_ (children self) with
     | Some index => vec_insert index child (children self)
     | None => children self ++ [child]
     end)).

(** [for_each_gap]: the closure's captured variables are threaded through; it
    may panic and stops the walk by answering [false]. *)
Section gaps.
Context {A : Type} (func : Z → Z → A → outcome (bool * A)).

Fixpoint gaps_loop (align : Z) (l : list VmAddressRegion) (prev_region_end : Z) (a : A) :
    outcome (option Z * A) :=
  match l with
  | [] => Ret (Some prev_region_end, a)
  | child :: l =>
      let rest a :=
        if 2 ^ 64 <=? base child + size child then Ret (None, a)
        else gaps_loop align l (ROUNDUP (uadd (base child) (size child)) align) a in
      if prev_region_end <? base child
      then p ← func prev_region_end (usub (base child) prev_region_end) a;
           if (p.1 : bool) then rest p.2 else Ret (None, p.2)
      else rest a
  end.

Definition for_each_gap (self : VmAddressRegion) (align_pow2 parent_base parent_size : Z) (a : A) : outcome A :=
  let align := ushl 1 align_pow2 in
  q ← gaps_loop align (children self) (ROUNDUP parent_base align) a;
  match q with
  | (None, a) => Ret a
  | (Some prev_region_end, a) =>
      if usub prev_region_end parent_base <? parent_size
      then p ← func prev_region_end (usub parent_size (usub prev_region_end parent_base)) a;
           Ret p.2
      else Ret a
  end.
End gaps.

(** The closure of [find_alloc_spot_in_gaps]; it captures [alloc_spot] and
    [found]. *)
Definition gap_func (size align upper_limit : Z) (gap_base gap_len : Z) (a : Z * bool) :
    outcome (bool * (Z * bool)) :=
  if IS_ALIGNED gap_base align then
    if (gap_len <? size) || (upper_limit <? uadd gap_base size) then Ret (true, a)
    else Ret (false, (gap_base, true))
  else Panic.

Definition find_alloc_spot_in_gaps (self : VmAddressRegion)
    (size align_pow2 parent_base parent_size upper_limit : Z) : outcome (Z * bool) :=
  let align := ushl 1 align_pow2 in
  for_each_gap (gap_func size align upper_limit) self align_pow2 parent_base parent_size (0, false).

Definition get_alloc_spot (self : VmAddressRegion)
    (align_pow2 size parent_base parent_size upper_limit : Z) : outcome Z :=
  p ← find_alloc_spot_in_gaps self size align_pow2 parent_base parent_size upper_limit;
  if p.2 : bool then
    if IS_ALIGNED p.1 (ushl 1 align_pow2) then Ret p.1 else Panic
  else Panic.

Definition alloc_spot_locked (self : VmAddressRegion)
    (sz align_pow2 _arch_mmu_flags upper_limit : Z) : outcome Z :=
  if (0 <? sz) && IS_PAGE_ALIGNED sz then
    let align_pow2 := Z.max align_pow2 PAGE_SHIFT in
    spot ← get_alloc_spot self align_pow2 sz (base self) (size self) upper_limit;
    if spot + (sz - 1) <? 2 ^ 64 then Ret spot else Panic
  else Panic.

(** ** Well-formed regions *)

Definition apart (r s : VmAddressRegion) : Prop := base r + size r ≤ base s.

(** A child lies inside its parent; the region may end at the very top of the
    address space. *)
Definition inside (self child : VmAddressRegion) : Prop :=
  base self ≤ base child ∧ 0 < size child ∧ base child + size child ≤ base self + size self.

Definition vmar_wf (self : VmAddressRegion) : Prop :=
  0 ≤ base self ∧ 0 < size self < 2 ^ 64 ∧ base self + size self ≤ 2 ^ 64 ∧
  Forall (inside self) (children self) ∧ StronglySorted apart (children self).

(** [a, a + sz) meets no child. *)
Definition clear_of (l : list VmAddressRegion) (a sz : Z) : Prop :=
  Forall (λ r, a + sz ≤ base r ∨ base r + size r ≤ a) l.

Lemma cover_range_spec self b s :
  0 ≤ base self → size self < 2 ^ 64 → base self + size self ≤ 2 ^ 64 → is_usize b → 0 < s →
  cover_range self b s = true ↔ base self ≤ b ∧ b + s ≤ base self + size self.
Proof.
  unfold is_usize. intros H0 Hsz0 Htop Hb Hs. unfold cover_range.
  rewrite !andb_true_iff, !Z.leb_le, Z.ltb_lt. split.
  - intros [[Hle Hlt] Hsz]. rewrite (usub_small b) in * by (unfold is_usize; lia).
    rewrite usub_small in Hsz by (unfold is_usize; lia). lia.
  - intros [Hle Hfit]. rewrite (usub_small b) by (unfold is_usize; lia).
    rewrite usub_small by (unfold is_usize; lia). lia.
Qed.

Lemma position_spec end_ child l :
  base child + size child = end_ → 0 < size child →
  StronglySorted apart l → Forall (λ r, 0 < size r) l →
  Forall (λ r, end_ ≤ base r ∨ base r + size r ≤ base child) l →
  StronglySorted apart (match position end_ l with
                        | Some i => vec_insert i child l
                        | None => l ++ [child]
                        end).
Proof.
  intros He Hs. induction l as [|r l IH]; intros Hsort Hpos Hclear; simpl.
  { repeat constructor. }
  apply StronglySorted_inv in Hsort as [Hsort Hr]. apply Forall_cons in Hpos as [Hp Hpos].
  apply Forall_cons in Hclear as [Hc Hclear].
  destruct (Z.leb_spec end_ (base r)) as [Hle|Hgt].
  - unfold vec_insert; simpl. constructor; [by constructor|]. constructor; [unfold apart; lia|].
    rewrite Forall_forall in *. intros x Hx. specialize (Hr x Hx). unfold apart in *. lia.
  - assert (apart r child) by (unfold apart; lia).
    specialize (IH Hsort Hpos Hclear). destruct (position end_ l) as [i|]; simpl.
    + constructor; [done|]. pose proof (vec_insert_perm i child l) as Hperm. unfold vec_insert in Hperm.
      rewrite Hperm. by constructor.
    + constructor; [done|]. rewrite Forall_app. split; [done|]. by constructor.
Qed.

Lemma position_perm end_ child l :
  match position end_ l with Some i => vec_insert i child l | None => l ++ [child] end ≡ₚ child :: l.
Proof.
  destruct (position end_ l); [apply vec_insert_perm|]. by rewrite <-Permutation_cons_append.
Qed.

(** ** The allocation walk *)

Section walk.
Context (k sz upper : Z).
Hypothesis Hk : 0 ≤ k < 64.
Hypothesis Hsz : 0 < sz.
Notation align := (2 ^ k).

Lemma align_eq : ushl 1 k = align.
Proof.
  unfold ushl. rewrite Z.mod_small, Z.shiftl_1_l by lia. apply usize_wrap_small.
  pose proof (pow2_lt_usize k Hk). unfold is_usize. lia.
Qed.

(** An aligned spot in [lo, hi) below the limit and clear of the children. *)
Definition free_spot (l : list VmAddressRegion) (lo hi a : Z) : Prop :=
  lo ≤ a ∧ a + sz ≤ hi ∧ a mod align = 0 ∧ a + sz ≤ upper ∧ clear_of l a sz.

Lemma ROUNDUP_least x a :
  0 ≤ x → x + align - 1 < 2 ^ 64 → a mod align = 0 → x ≤ a → ROUNDUP x align ≤ a.
Proof.
  intros Hx Hb Ha Hxa. destruct (ROUNDUP_bounds x k Hk Hx Hb) as [[q Hq] [_ Hlt]].
  rewrite Hq in *. apply Z.mod_divide in Ha as [p ->]; [|lia].
  pose proof (pow2_lt_usize k Hk). set (al := 2 ^ k) in *.
  assert (q * al < (p + 1) * al) as Hqp by lia.
  apply Z.mul_lt_mono_pos_r in Hqp; [|lia]. apply Z.mul_le_mono_nonneg_r; lia.
Qed.

Lemma ROUNDUP_aligned x : 0 ≤ x → x + align - 1 < 2 ^ 64 →
  IS_ALIGNED (ROUNDUP x align) align = true ∧ ROUNDUP x align mod align = 0.
Proof.
  intros Hx Hb. destruct (ROUNDUP_bounds x k Hk Hx Hb) as [Hd _].
  assert (ROUNDUP x align mod align = 0) by (apply Z.mod_divide; [lia|done]).
  split; [by apply IS_ALIGNED_spec|done].
Qed.

(** The limit test of the closure: [gap_base + size] wraps to 0 for a spot
    that ends at the top of the address space, which then passes. *)
Definition under_limit (a : Z) : Prop := a + sz ≤ upper ∨ a + sz = 2 ^ 64.

Lemma gap_func_spec p e st :
  0 ≤ p → p ≤ e ≤ 2 ^ 64 → IS_ALIGNED p align = true → 0 ≤ upper < 2 ^ 64 →
  (gap_func sz align upper p (e - p) st = Ret (false, (p, true)) ∧ p + sz ≤ e ∧ under_limit p) ∨
  (gap_func sz align upper p (e - p) st = Ret (true, st) ∧ ∀ a, p ≤ a → a + sz ≤ e → upper < a + sz).
Proof.
  intros Hp He Ha Hu. unfold gap_func, under_limit. rewrite Ha.
  destruct (Z.ltb_spec (e - p) sz) as [Hlt|Hge]; simpl; [right; split; [done|lia]|].
  destruct (decide (p + sz < 2 ^ 64)) as [Hn|Hn].
  - rewrite uadd_small by (unfold is_usize; lia).
    destruct (Z.ltb_spec upper (p + sz)); [right; split; [done|lia]|left; split_and!; [done|lia|lia]].
  - assert (p + sz = 2 ^ 64) as E by lia. unfold uadd. rewrite E.
    change (usize_wrap (2 ^ 64)) with 0. rewrite (proj2 (Z.ltb_ge _ _)) by lia. left. split_and!; [done|lia|lia].
Qed.

Context (self : VmAddressRegion).
Hypothesis Hwf : vmar_wf self.
Hypothesis Hupper : 0 ≤ upper < 2 ^ 64.
Notation top := (base self + size self).

(** [gaps_loop] followed by the gap to the right of the last child. *)
Definition walk (l : list VmAddressRegion) (p : Z) (st : Z * bool) : outcome (Z * bool) :=
  q ← gaps_loop (gap_func sz align upper) align l p st;
  match q with
  | (None, a) => Ret a
  | (Some prev_region_end, a) =>
      if usub prev_region_end (base self) <? size self
      then r ← gap_func sz align upper prev_region_end
                 (usub (size self) (usub prev_region_end (base self))) a; Ret r.2
      else Ret a
  end.

(** The outcome of a walk over the children [l] to the right of [lo]. *)
Definition walk_result (l : list VmAddressRegion) (lo : Z) (o : outcome (Z * bool)) : Prop :=
  (∃ s, o = Ret (s, true) ∧ lo ≤ s ∧ s + sz ≤ top ∧ s mod align = 0 ∧ under_limit s ∧
        clear_of l s sz ∧ ∀ a, free_spot l lo top a → s ≤ a) ∨
  (o = Ret (0, false) ∧ ∀ a, ¬ free_spot l lo top a).

Lemma walk_nil lo :
  base self ≤ lo ≤ top → lo + align ≤ 2 ^ 64 →
  walk_result [] lo (walk [] (ROUNDUP lo align) (0, false)).
Proof.
  intros Hlo Hb. pose proof Hwf as (H0 & Hs & Htop & _). pose proof (pow2_lt_usize k Hk).
  destruct (ROUNDUP_bounds lo k Hk) as [_ Hr]; [lia..|].
  destruct (ROUNDUP_aligned lo) as [Ha Ham]; [lia..|].
  set (p := ROUNDUP lo align) in *. unfold walk; simpl.
  unfold mbind, outcome_bind.
  rewrite (usub_small p) by (unfold is_usize; lia).
  destruct (Z.ltb_spec (p - base self) (size self)) as [Hlt|Hge].
  - rewrite usub_small by (unfold is_usize; lia).
    replace (size self - (p - base self)) with (top - p) by lia.
    destruct (gap_func_spec p top (0, false)) as [(-> & Hfit & Hlim)|(-> & Hno)]; try done; try lia; simpl.
    + left. exists p. split_and!; try done; try lia; [by constructor|].
      intros a (? & ? & ? & ? & ?). apply ROUNDUP_least; done || lia.
    + right. split; [done|]. intros a (? & ? & ? & ? & ?).
      assert (p ≤ a) by (apply ROUNDUP_least; done || lia). specialize (Hno a). lia.
  - right. split; [done|]. intros a (? & ? & ? & ? & ?).
    assert (p ≤ a) by (apply ROUNDUP_least; done || lia). lia.
Qed.

Lemma clear_of_cons r l a : clear_of (r :: l) a sz ↔
  (a + sz ≤ base r ∨ base r + size r ≤ a) ∧ clear_of l a sz.
Proof. unfold clear_of. by rewrite Forall_cons. Qed.

Lemma apart_clear r l a : 0 ≤ size r → Forall (apart r) l → a + sz ≤ base r → clear_of l a sz.
Proof.
  intros Hr Hl Ha. unfold clear_of. rewrite Forall_forall in *. intros x Hx.
  specialize (Hl x Hx). unfold apart in Hl. left. lia.
Qed.

(** Rounding up the end of a child never wraps. *)
Definition room (r : VmAddressRegion) : Prop :=
  base r + size r = 2 ^ 64 ∨ base r + size r + align ≤ 2 ^ 64.

(** One round of the walk. *)
Lemma walk_cons r l p st :
  walk (r :: l) p st =
  if p <? base r then
    q ← gap_func sz align upper p (usub (base r) p) st;
    if (q.1 : bool) then
      if 2 ^ 64 <=? base r + size r then Ret q.2
      else walk l (ROUNDUP (uadd (base r) (size r)) align) q.2
    else Ret q.2
  else if 2 ^ 64 <=? base r + size r then Ret st
       else walk l (ROUNDUP (uadd (base r) (size r)) align) st.
Proof.
  unfold walk. cbn [gaps_loop]. unfold mbind, outcome_bind.
  destruct (p <? base r); [|by destruct (2 ^ 64 <=? _)].
  destruct (gap_func sz align upper p _ st) as [[b a]| | |]; [|done..].
  simpl. destruct b; [|done]. by destruct (2 ^ 64 <=? _).
Qed.

(** When the gap to the left of [r] holds no spot the result is that of the
    rest of the walk. *)
Lemma walk_skip r l lo w :
  lo ≤ base r → 0 ≤ size r → walk_result l (base r + size r) w → (∀ a, free_spot (r :: l) lo top a → a + sz ≤ base r → False) →
  walk_result (r :: l) lo w.
Proof.
  intros Hlr Hsr Hrest Hno.
  assert (∀ a, free_spot (r :: l) lo top a →
    a + sz ≤ base r ∨ free_spot l (base r + size r) top a) as Hsplit.
  { intros a (? & ? & ? & ? & [[?|?] ?]%clear_of_cons); [by left|right]. by split_and!. }
  destruct Hrest as [(s & -> & ? & ? & ? & ? & ? & Hlow)|[-> Hnone]].
  - left. exists s. split_and!; try done; try lia.
    + apply clear_of_cons. split; [lia|done].
    + intros a Hfa. destruct (Hsplit a Hfa) as [Hl|Hf]; [by destruct (Hno a Hfa Hl)|by apply Hlow].
  - right. split; [done|]. intros a Hfa.
    destruct (Hsplit a Hfa) as [Hl|Hf]; [by apply (Hno a)|by apply (Hnone a)].
Qed.

Lemma walk_spec l lo :
  Forall (inside self) l → Forall room l → StronglySorted apart l →
  Forall (λ r, lo ≤ base r) l → base self ≤ lo ≤ top → lo + align ≤ 2 ^ 64 →
  walk_result l lo (walk l (ROUNDUP lo align) (0, false)).
Proof.
  revert lo. induction l as [|r l IH]; intros lo Hin Hroom Hsort Hge Hlo Hb; [by apply walk_nil|].
  pose proof Hwf as (H0 & Hs & Htop & _). pose proof (pow2_lt_usize k Hk).
  apply Forall_cons in Hin as [Hr Hin]. apply Forall_cons in Hroom as [Hrr Hroom].
  apply StronglySorted_inv in Hsort as [Hsort Hap]. apply Forall_cons in Hge as [Hlr Hge].
  destruct Hr as (Hr1 & Hr2 & Hr3).
  destruct (ROUNDUP_bounds lo k Hk) as [_ Hrd]; [lia..|].
  destruct (ROUNDUP_aligned lo) as [Ha Ham]; [lia..|].
  set (p := ROUNDUP lo align) in *.
  (* the rest of the walk, from the end of [r] *)
  assert (walk_result l (base r + size r)
    (if 2 ^ 64 <=? base r + size r then Ret (0, false)
     else walk l (ROUNDUP (uadd (base r) (size r)) align) (0, false))) as Hrest.
  { destruct (Z.leb_spec (2 ^ 64) (base r + size r)) as [Hge'|Hlt].
    - right. split; [done|]. intros a (? & ? & _). lia.
    - rewrite uadd_small by (unfold is_usize; lia). destruct Hrr as [|Hrr]; [lia|].
      apply IH; try done; lia. }
  rewrite walk_cons.
  destruct (Z.ltb_spec p (base r)) as [Hlt|Hge'].
  - rewrite usub_small by (unfold is_usize; lia).
    destruct (gap_func_spec p (base r) (0, false)) as [(-> & Hfit & Hlim)|(-> & Hno)]; try done; try lia; simpl.
    + left. exists p. split_and!; try done; try lia.
      * apply clear_of_cons. split; [by left|]. apply (apart_clear r); [lia|done|done].
      * intros a (? & ? & ? & ? & ?). apply ROUNDUP_least; done || lia.
    + apply walk_skip; [lia|lia|exact Hrest|]. intros a (? & ? & ? & ? & ?) Hl.
      assert (p ≤ a) by (apply ROUNDUP_least; done || lia). specialize (Hno a). lia.
  - apply walk_skip; [lia|lia|exact Hrest|]. intros a (? & ? & ? & ? & ?) Hl.
    assert (p ≤ a) by (apply ROUNDUP_least; done || lia). lia.
Qed.
End walk.

Lemma find_alloc_spot_walk self k sz upper :
  0 ≤ k < 64 →
  find_alloc_spot_in_gaps self sz k (base self) (size self) upper =
  walk k sz upper self (children self) (ROUNDUP (base self) (2 ^ k)) (0, false).
Proof. intros Hk. unfold find_alloc_spot_in_gaps, for_each_gap, walk. by rewrite align_eq. Qed.

(** ** Claims *)

(** Inserting a child that lies inside the region and overlaps no sibling
    succeeds, keeps the region well formed (children inside it, sorted by
    address, pairwise disjoint) and adds exactly that child; a child that
    does not lie inside panics. *)
Theorem insert_child_wf self child :
  vmar_wf self → is_usize (base child) → 0 < size child →
  (inside self child → base child + size child < 2 ^ 64 →
   Forall (λ r, base child + size child ≤ base r ∨ base r + size r ≤ base child) (children self) →
   ∃ self', insert_child child self = Ret ((), self') ∧ vmar_wf self' ∧
     base self' = base self ∧ size self' = size self ∧ children self' ≡ₚ child :: children self) ∧
  (¬ inside self child → insert_child child self = Panic).
Proof.
  intros Hwf Hb Hs. pose proof Hwf as (H0 & Hsz & Htop & Hin & Hsort).
  assert (cover_range self (base child) (size child) = true ↔ inside self child) as Hcov.
  { rewrite cover_range_spec by (done || lia). unfold inside. lia. }
  unfold insert_child. split.
  - intros Hc Hlt Hno. rewrite (M_bind_run _ _ _ _ _ eq_refl).
    erewrite M_bind_run by (apply zx_assert_true; by apply Hcov).
    eexists; split; [reflexivity|]. unfold is_usize in *.
    rewrite uadd_small by (unfold is_usize; lia).
    set (end_ := base child + size child) in *.
    split_and!; try done; [|apply position_perm].
    split_and!; cbn [base size children]; try lia.
    + assert (∀ l, Forall (inside self) l → Forall (inside (mkVmar (base self) (size self) (flags self) l)) l)
        as Hconv by done.
      apply Hconv. rewrite position_perm. by constructor.
    + apply position_spec; try done. eapply Forall_impl; [exact Hin|]. intros x (? & ? & ?). lia.
  - intros Hc. rewrite (M_bind_run _ _ _ _ _ eq_refl).
    destruct (cover_range self (base child) (size child)); [|done]. by destruct Hc; apply Hcov.
Qed.

Definition demo_vmar : VmAddressRegion :=
  mkVmar (2 ^ 64 - 0x100000) 0x100000 0
    [mkVmar (2 ^ 64 - 0x100000) 0x3000 0 []; mkVmar (2 ^ 64 - 0xf0000) 0x1000 0 [];
     mkVmar (2 ^ 64 - 0x1000) 0x1000 0 []].

Ltac vmar_conc :=
  repeat match goal with
    | |- Forall _ _ => constructor
    | |- StronglySorted _ _ => constructor
    | |- _ ∧ _ => split
    end.

Lemma demo_vmar_wf : vmar_wf demo_vmar.
Proof.
  unfold vmar_wf, demo_vmar; cbn [base size children]. vmar_conc; unfold inside, apart;
    cbn [base size children]; lia.
Qed.

Lemma insert_child_wf_witness :
  insert_child (mkVmar 0x1000 0x1000 0 []) demo_vmar = Panic ∧
  ∃ self', insert_child (mkVmar (2 ^ 64 - 0xe0000) 0x2000 0 []) demo_vmar = Ret ((), self') ∧ vmar_wf self'.
Proof.
  split.
  - apply insert_child_wf; [apply demo_vmar_wf|cbn [base]; unfold is_usize; lia|cbn [size]; lia|].
    unfold inside, demo_vmar; cbn [base size]. lia.
  - destruct (insert_child_wf demo_vmar (mkVmar (2 ^ 64 - 0xe0000) 0x2000 0 [])) as [Hok _];
      [apply demo_vmar_wf|cbn [base]; unfold is_usize; lia|cbn [size]; lia|].
    destruct Hok as (self' & Hrun & Hwf & _);
      [unfold inside, demo_vmar; cbn [base size]; lia|cbn [base size]; lia| |exists self'; split; assumption].
    unfold demo_vmar; cbn [children]. vmar_conc; cbn [base size]; lia.
Defined.


