(* ===== verification/RBTree.v ===== *)
(** * klib/rbtree.rs: the red-black tree

    Nodes live in a finite map from addresses to [RBTreeNode]s with parent
    pointers; address 0 is the null pointer.  The file models every operation
    of the module on that memory and proves, through a zipper view of the
    tree, that rotations, the fix-up after an insertion, look-ups, bounds and
    iteration implement the corresponding functions on the sequence of
    entries, and that the red-black invariants are preserved. *)

From Stdlib Require Import Sorted.
From S2P Require Import Prelude.

(** The [Ord] trait of the keys. *)
Class Ord (K : Type) := {
  cmp : K → K → comparison;
  cmp_eq : ∀ x y, cmp x y = Eq ↔ x = y;
  cmp_antisym : ∀ x y, cmp y x = CompOpp (cmp x y);
  cmp_trans : ∀ x y z, cmp x y = Lt → cmp y z = Lt → cmp x z = Lt;
}.

#[export] Program Instance usize_ord : Ord Z := {| cmp := Z.compare |}.
Next Obligation. intros. apply Z.compare_eq_iff. Qed.
Next Obligation. intros. apply Z.compare_antisym. Qed.
Next Obligation. intros x y z. rewrite !Z.compare_lt_iff. lia. Qed.

Inductive Color := Red | Black.
#[export] Instance Color_eq_dec : EqDecision Color.
Proof. solve_decision. Defined.

Record RBTreeNode (K V : Type) := mkRBNode {
  color : Color;
  left : Z;
  right : Z;
  parent : Z;
  key : K;
  value : V;
}.
Arguments mkRBNode {K V}.
Arguments color {K V}.
Arguments left {K V}.
Arguments right {K V}.
Arguments parent {K V}.
Arguments key {K V}.
Arguments value {K V}.

(** [RBTree] and the boxes its nodes live in. *)
Record RBTree (K V : Type) := mkRBTree {
  boxes : gmap Z (RBTreeNode K V);
  root : Z;
  len : Z;
}.
Arguments mkRBTree {K V}.
Arguments boxes {K V}.
Arguments root {K V}.
Arguments len {K V}.

Section ops.
Context {K V : Type} `{!Ord K}.
Notation T := (RBTree K V).
Notation node := (RBTreeNode K V).

Definition RBTree_new : T := mkRBTree ∅ 0 0.

(** ** NodePtr *)

Definition is_null (p : Z) : bool := p =? 0.

Definition box_at (p : Z) : M T node := deref (λ t, boxes t !! p).

Definition update_box (f : node → node) (p : Z) : M T unit :=
  _ ← box_at p; modifyS (λ t, mkRBTree (alter f p (boxes t)) (root t) (len t)).

(** [Box::into_raw(Box::new(node))]: [addr] is the address of the new box. *)
Definition NodePtr_new (addr : Z) (k : K) (v : V) : M T Z :=
  modifyS (λ t, mkRBTree (<[addr := mkRBNode Black 0 0 0 k v]> (boxes t)) (root t) (len t));;
  mret addr.

Definition with_parent (x : Z) (n : node) : node :=
  mkRBNode (color n) (left n) (right n) x (key n) (value n).
Definition with_left (x : Z) (n : node) : node :=
  mkRBNode (color n) x (right n) (parent n) (key n) (value n).
Definition with_right (x : Z) (n : node) : node :=
  mkRBNode (color n) (left n) x (parent n) (key n) (value n).
Definition with_color (c : Color) (n : node) : node :=
  mkRBNode c (left n) (right n) (parent n) (key n) (value n).

Definition set_parent (p x : Z) : M T unit :=
  if is_null p then mret () else update_box (with_parent x) p.
Definition set_left (p x : Z) : M T unit :=
  if is_null p then mret () else update_box (with_left x) p.
Definition set_right (p x : Z) : M T unit :=
  if is_null p then mret () else update_box (with_right x) p.
Definition set_color (p : Z) (c : Color) : M T unit :=
  if is_null p then mret () else update_box (with_color c) p.
Definition set_red_color (p : Z) : M T unit := set_color p Red.
Definition set_black_color (p : Z) : M T unit := set_color p Black.

Definition get_parent (p : Z) : M T Z :=
  if is_null p then mret 0 else n ← box_at p; mret (parent n).
Definition get_left (p : Z) : M T Z :=
  if is_null p then mret 0 else n ← box_at p; mret (left n).
Definition get_right (p : Z) : M T Z :=
  if is_null p then mret 0 else n ← box_at p; mret (right n).
Definition get_color (p : Z) : M T Color :=
  if is_null p then mret Black else n ← box_at p; mret (color n).
Definition is_red_color (p : Z) : M T bool :=
  if is_null p then mret false else n ← box_at p; mret (bool_decide (color n = Red)).
Definition is_black_color (p : Z) : M T bool :=
  if is_null p then mret true else n ← box_at p; mret (bool_decide (color n = Black)).

(** [Ord for NodePtr]: compares the keys. *)
Definition NodePtr_cmp (p q : Z) : M T comparison :=
  a ← box_at p; b ← box_at q; mret (cmp (key a) (key b)).

(** The loops follow child or parent pointers; a tree has at most as many
    levels as there are boxes. *)
Definition fuel_of (t : T) : nat := S (size (boxes t)).

Fixpoint min_node_loop (fuel : nat) (temp : Z) : M T Z :=
  match fuel with
  | O => spin
  | S fuel =>
      l ← get_left temp;
      if is_null l then mret temp else l ← get_left temp; min_node_loop fuel l
  end.
Definition min_node (self : Z) : M T Z := t ← getS; min_node_loop (fuel_of t) self.

Definition is_left_child (self : Z) : M T bool :=
  p ← get_parent self; l ← get_left p; mret (l =? self).

Fixpoint next_loop (fuel : nat) (temp : Z) : M T Z :=
  match fuel with
  | O => spin
  | S fuel =>
      p ← get_parent temp;
      if is_null p then mret 0
      else
        b ← is_left_child temp;
        if b : bool then get_parent temp
        else p ← get_parent temp; next_loop fuel p
  end.
Definition NodePtr_next (self : Z) : M T Z :=
  r ← get_right self;
  if negb (is_null r) then r ← get_right self; min_node r
  else t ← getS; next_loop (fuel_of t) self.

(** ** RBTree *)

Definition get_root : M T Z := t ← getS; mret (root t).
Definition set_root (p : Z) : M T unit := modifyS (λ t, mkRBTree (boxes t) p (len t)).

Fixpoint bound_loop (fuel : nat) (k : K) (strict : bool) (temp found : Z) : M T Z :=
  match fuel with
  | O => spin
  | S fuel =>
      n ← box_at temp;
      let go_right :=
        match cmp k (key n) with Gt => true | Eq => strict | Lt => false end in
      let temp' := if go_right then right n else left n in
      let found' := if go_right then found else temp in
      if is_null temp' then mret found' else bound_loop fuel k strict temp' found'
  end.
(** The result is the cursor of the [IterMut]. *)
Definition bound (k : K) (strict : bool) : M T Z :=
  r ← get_root;
  if is_null r then mret 0
  else t ← getS; bound_loop (fuel_of t) k strict r 0.
Definition upper_bound (k : K) : M T Z := bound k true.
Definition lower_bound (k : K) : M T Z := bound k false.

Fixpoint find_node_loop (fuel : nat) (k : K) (temp : Z) : M T Z :=
  match fuel with
  | O => spin
  | S fuel =>
      n ← box_at temp;
      match cmp k (key n) with
      | Lt => if is_null (left n) then mret 0 else find_node_loop fuel k (left n)
      | Gt => if is_null (right n) then mret 0 else find_node_loop fuel k (right n)
      | Eq => mret temp
      end
  end.
Definition find_node (k : K) : M T Z :=
  r ← get_root;
  if is_null r then mret 0
  else t ← getS; find_node_loop (fuel_of t) k r.

(** [get] and [get_mut]: a reference to the value is its node's address. *)
Definition RBTree_get (k : K) : M T (option V) :=
  p ← find_node k;
  if is_null p then mret None else n ← box_at p; mret (Some (value n)).
Definition RBTree_get_mut (k : K) : M T (option Z) :=
  p ← find_node k;
  if is_null p then mret None else mret (Some p).
Definition contains_key (k : K) : M T bool :=
  p ← find_node k;
  if is_null p then mret false else mret true.

Definition left_rotate (node : Z) : M T unit :=
  temp ← get_right node;
  tl ← get_left temp;
  set_right node tl;;
  tl ← get_left temp;
  (if negb (is_null tl) then tl ← get_left temp; set_parent tl node else mret ());;
  p ← get_parent node;
  set_parent temp p;;
  r ← get_root;
  (if node =? r then set_root temp
   else
     p ← get_parent node;
     pl ← get_left p;
     if node =? pl then p ← get_parent node; set_left p temp
     else p ← get_parent node; set_right p temp);;
  set_left temp node;;
  set_parent node temp.

Definition right_rotate (node : Z) : M T unit :=
  temp ← get_left node;
  tr ← get_right temp;
  set_left node tr;;
  tr ← get_right temp;
  (if negb (is_null tr) then tr ← get_right temp; set_parent tr node else mret ());;
  p ← get_parent node;
  set_parent temp p;;
  r ← get_root;
  (if node =? r then set_root temp
   else
     p ← get_parent node;
     pr ← get_right p;
     if node =? pr then p ← get_parent node; set_right p temp
     else p ← get_parent node; set_left p temp);;
  set_right temp node;;
  set_parent node temp.

Fixpoint insert_fixup_loop (fuel : nat) (node : Z) : M T unit :=
  match fuel with
  | O => spin
  | S fuel =>
      p ← get_parent node;
      red ← is_red_color p;
      if red : bool then
        parent ← get_parent node;
        gparent ← get_parent parent;
        gl ← get_left gparent;
        if parent =? gl then
          uncle ← get_right gparent;
          ur ← is_red_color uncle;
          if negb (is_null uncle) && ur then
            set_black_color uncle;;
            set_black_color parent;;
            set_red_color gparent;;
            insert_fixup_loop fuel gparent
          else
            pr ← get_right parent;
            pn ← (if pr =? node then left_rotate parent;; mret (node, parent)
                  else mret (parent, node));
            set_black_color (fst pn);;
            set_red_color gparent;;
            right_rotate gparent;;
            insert_fixup_loop fuel (snd pn)
        else
          uncle ← get_left gparent;
          ur ← is_red_color uncle;
          if negb (is_null uncle) && ur then
            set_black_color uncle;;
            set_black_color parent;;
            set_red_color gparent;;
            insert_fixup_loop fuel gparent
          else
            pl ← get_left parent;
            pn ← (if pl =? node then right_rotate parent;; mret (node, parent)
                  else mret (parent, node));
            set_black_color (fst pn);;
            set_red_color gparent;;
            left_rotate gparent;;
            insert_fixup_loop fuel (snd pn)
      else mret ()
  end.
Definition insert_fixup (node : Z) : M T unit :=
  t ← getS;
  insert_fixup_loop (fuel_of t) node;;
  r ← get_root;
  set_black_color r.

(** [while !x.is_null()] of [insert]; returns [y]. *)
Fixpoint insert_descend (fuel : nat) (node y x : Z) : M T Z :=
  match fuel with
  | O => spin
  | S fuel =>
      if is_null x then mret y
      else
        o ← NodePtr_cmp node x;
        match o with
        | Lt => l ← get_left x; insert_descend fuel node x l
        | _ => r ← get_right x; insert_descend fuel node x r
        end
  end.

Definition RBTree_insert (addr : Z) (k : K) (v : V) : M T unit :=
  modifyS (λ t, mkRBTree (boxes t) (root t) (uadd (len t) 1));;
  node ← NodePtr_new addr k v;
  x ← get_root;
  t ← getS;
  y ← insert_descend (fuel_of t) node 0 x;
  set_parent node y;;
  (if is_null y then set_root node
   else
     o ← NodePtr_cmp node y;
     match o with
     | Lt => set_left y node
     | _ => set_right y node
     end);;
  set_red_color node;;
  insert_fixup node.

Definition first_child : M T Z :=
  r ← get_root;
  if is_null r then mret 0 else min_node r.

Fixpoint last_child_loop (fuel : nat) (temp : Z) : M T Z :=
  match fuel with
  | O => spin
  | S fuel =>
      r ← get_right temp;
      if is_null r then mret temp else r ← get_right temp; last_child_loop fuel r
  end.
Definition last_child : M T Z :=
  r ← get_root;
  if is_null r then mret 0 else t ← getS; last_child_loop (fuel_of t) r.

(** [iter] and [iter_mut]: the initial cursor. *)
Definition RBTree_iter : M T Z := first_child.

(** [IterMut::next]: the entry (its node, key and value) and the new cursor. *)
Definition IterMut_next (cursor : Z) : M T (option (Z * K * V) * Z) :=
  if is_null cursor then mret (None, cursor)
  else
    n ← box_at cursor;
    c ← NodePtr_next cursor;
    mret (Some (cursor, key n, value n), c).

(** A [for] loop over the iterator. *)
Fixpoint IterMut_collect (fuel : nat) (cursor : Z) : M T (list (Z * K * V)) :=
  match fuel with
  | O => spin
  | S fuel =>
      p ← IterMut_next cursor;
      match p with
      | (None, _) => mret []
      | (Some e, c) => es ← IterMut_collect fuel c; mret (e :: es)
      end
  end.
End ops.

(** ** Both directions at once *)

Inductive side := L | R.
#[export] Instance side_eq_dec : EqDecision side.
Proof. solve_decision. Defined.
Definition opp (s : side) : side := match s with L => R | R => L end.

(** The code writes each mirror image out; the proofs treat them together. *)
Section mirrored.
Context {K V : Type} `{!Ord K}.
Notation T := (RBTree K V).

Definition get_child (s : side) : Z → M T Z := match s with L => get_left | R => get_right end.
Definition set_child (s : side) : Z → Z → M T unit := match s with L => set_left | R => set_right end.

Definition rotate (s : side) (node : Z) : M T unit :=
  temp ← get_child (opp s) node;
  tl ← get_child s temp;
  set_child (opp s) node tl;;
  tl ← get_child s temp;
  (if negb (is_null tl) then tl ← get_child s temp; set_parent tl node else mret ());;
  p ← get_parent node;
  set_parent temp p;;
  r ← get_root;
  (if node =? r then set_root temp
   else
     p ← get_parent node;
     pl ← get_child s p;
     if node =? pl then p ← get_parent node; set_child s p temp
     else p ← get_parent node; set_child (opp s) p temp);;
  set_child s temp node;;
  set_parent node temp.

Lemma left_rotate_eq : left_rotate (K:=K) (V:=V) = rotate L.
Proof. reflexivity. Qed.
Lemma right_rotate_eq : right_rotate (K:=K) (V:=V) = rotate R.
Proof. reflexivity. Qed.

(** One round of [insert_fixup]'s loop below a parent that is the [s] child of
    the grandparent. *)
Definition fixup_round (s : side) (rec : Z → M T unit) (node parent gparent : Z) : M T unit :=
  uncle ← get_child (opp s) gparent;
  ur ← is_red_color uncle;
  if negb (is_null uncle) && ur then
    set_black_color uncle;;
    set_black_color parent;;
    set_red_color gparent;;
    rec gparent
  else
    pr ← get_child (opp s) parent;
    pn ← (if pr =? node then rotate s parent;; mret (node, parent)
          else mret (parent, node));
    set_black_color (fst pn);;
    set_red_color gparent;;
    rotate (opp s) gparent;;
    rec (snd pn).

Lemma insert_fixup_loop_S fuel node :
  insert_fixup_loop (K:=K) (V:=V) (S fuel) node =
  (p ← get_parent node;
   red ← is_red_color p;
   if red : bool then
     parent ← get_parent node;
     gparent ← get_parent parent;
     gl ← get_left gparent;
     if parent =? gl then fixup_round L (insert_fixup_loop fuel) node parent gparent
     else fixup_round R (insert_fixup_loop fuel) node parent gparent
   else mret ()).
Proof. reflexivity. Qed.

(** ** Trees and zippers *)

(** What the memory represents; a node remembers its address. *)
Inductive tree :=
  | Leaf
  | Node (c : Color) (a : Z) (k : K) (v : V) (l r : tree).

(** A node whose [s] child is [t] and whose other child is [u]. *)
Definition mkT (s : side) (c : Color) (a : Z) (k : K) (v : V) (t u : tree) : tree :=
  match s with L => Node c a k v t u | R => Node c a k v u t end.
Definition mkN (s : side) (c : Color) (x y p : Z) (k : K) (v : V) : RBTreeNode K V :=
  match s with L => mkRBNode c x y p k v | R => mkRBNode c y x p k v end.

Definition ptr (t : tree) : Z := match t with Leaf => 0 | Node _ a _ _ _ _ => a end.

Fixpoint addrs (t : tree) : list Z :=
  match t with Leaf => [] | Node _ a _ _ l r => a :: addrs l ++ addrs r end.

(** The entries in order. *)
Fixpoint elems (t : tree) : list (Z * K * V) :=
  match t with Leaf => [] | Node _ a k v l r => elems l ++ (a, k, v) :: elems r end.

Notation mem := (gmap Z (RBTreeNode K V)).

Fixpoint repr (m : mem) (par : Z) (t : tree) : Prop :=
  match t with
  | Leaf => True
  | Node c a k v l r =>
      m !! a = Some (mkRBNode c (ptr l) (ptr r) par k v) ∧ repr m a l ∧ repr m a r
  end.

(** The path from a subtree up to the root: at each step, which child we come
    from, the node, and its other child. *)
Inductive frame := Fr (s : side) (c : Color) (a : Z) (k : K) (v : V) (sib : tree).

Definition frame_addr (f : frame) : Z := let 'Fr _ _ a _ _ _ := f in a.
Definition up (ctx : list frame) : Z := match ctx with [] => 0 | f :: _ => frame_addr f end.

Fixpoint plug (t : tree) (ctx : list frame) : tree :=
  match ctx with
  | [] => t
  | Fr s c a k v sib :: ctx => plug (mkT s c a k v t sib) ctx
  end.

Fixpoint ctx_addrs (ctx : list frame) : list Z :=
  match ctx with
  | [] => []
  | Fr _ _ a _ _ sib :: ctx => a :: addrs sib ++ ctx_addrs ctx
  end.

Fixpoint repr_ctx (m : mem) (rt : Z) (ctx : list frame) (p : Z) : Prop :=
  match ctx with
  | [] => rt = p
  | Fr s c a k v sib :: ctx =>
      m !! a = Some (mkN s c p (ptr sib) (up ctx) k v) ∧ repr m a sib ∧ repr_ctx m rt ctx a
  end.

(** The tree [plug t ctx], seen from the subtree [t]. *)
Definition zrepr (m : mem) (rt : Z) (ctx : list frame) (t : tree) : Prop :=
  repr m (up ctx) t ∧ repr_ctx m rt ctx (ptr t) ∧
  NoDup (addrs t ++ ctx_addrs ctx) ∧ 0 ∉ addrs t ++ ctx_addrs ctx.

Definition is_tree (st : T) (t : tree) : Prop := zrepr (boxes st) (root st) [] t.

Lemma ptr_mkT s c a k v t u : ptr (mkT s c a k v t u) = a.
Proof. by destruct s. Qed.

Lemma addrs_mkT s c a k v t u : addrs (mkT s c a k v t u) ≡ₚ a :: addrs t ++ addrs u.
Proof. destruct s; simpl; [done|]. by rewrite (Permutation_app_comm (addrs u)). Qed.

Lemma repr_mkT m par s c a k v t u :
  repr m par (mkT s c a k v t u) ↔
  m !! a = Some (mkN s c (ptr t) (ptr u) par k v) ∧ repr m a t ∧ repr m a u.
Proof. destruct s; simpl; tauto. Qed.

(** Moving the focus to the parent. *)
Lemma zrepr_up m rt s c a k v sib ctx t :
  zrepr m rt (Fr s c a k v sib :: ctx) t ↔ zrepr m rt ctx (mkT s c a k v t sib).
Proof.
  unfold zrepr. rewrite repr_mkT, ptr_mkT, addrs_mkT. simpl.
  assert (addrs t ++ a :: addrs sib ++ ctx_addrs ctx ≡ₚ (a :: addrs t ++ addrs sib) ++ ctx_addrs ctx) as ->.
  { rewrite <-Permutation_middle. simpl. by rewrite <-app_assoc. }
  tauto.
Qed.

Lemma zrepr_plug m rt ctx t : zrepr m rt ctx t ↔ zrepr m rt [] (plug t ctx).
Proof.
  revert t. induction ctx as [|[s c a k v sib] ctx IH]; intros t; [done|].
  rewrite zrepr_up. apply IH.
Qed.

Lemma ptr_null t : 0 ∉ addrs t → is_null (ptr t) = true ↔ t = Leaf.
Proof.
  intros H0. unfold is_null. rewrite Z.eqb_eq. destruct t; simpl in *; [done|].
  split; [intros ->; set_solver|done].
Qed.

Lemma ptr_in t : t ≠ Leaf → ptr t ∈ addrs t.
Proof. destruct t; [done|]. intros _. simpl. set_solver. Qed.

(** ** Framing *)

Lemma repr_frame m m' par t :
  repr m par t → (∀ q, q ∈ addrs t → m' !! q = m !! q) → repr m' par t.
Proof.
  revert par. induction t as [|c a k v l IHl r IHr]; intros par; simpl; [done|].
  intros (Ha & Hl & Hr) Hq. split_and!.
  - rewrite Hq by set_solver. done.
  - apply IHl; [done|]. set_solver.
  - apply IHr; [done|]. set_solver.
Qed.

Lemma repr_ctx_frame m m' rt ctx p :
  repr_ctx m rt ctx p → (∀ q, q ∈ ctx_addrs ctx → m' !! q = m !! q) → repr_ctx m' rt ctx p.
Proof.
  revert p. induction ctx as [|[s c a k v sib] ctx IH]; intros p; simpl; [done|].
  intros (Ha & Hs & Hc) Hq. split_and!.
  - rewrite Hq by set_solver. done.
  - apply (repr_frame m); [done|]. set_solver.
  - apply IH; [done|]. set_solver.
Qed.

(** A subtree whose root got a new parent pointer. *)
Lemma repr_reparent m m' par par' t :
  repr m par t → NoDup (addrs t) →
  (∀ q, q ∈ addrs t → q ≠ ptr t → m' !! q = m !! q) →
  (t ≠ Leaf → m' !! ptr t = with_parent par' <$> m !! ptr t) → repr m' par' t.
Proof.
  destruct t as [|c a k v l r]; simpl; [done|].
  intros (Ha & Hl & Hr) Hnd Hq Hp.
  apply NoDup_cons in Hnd as [Hna Hnd].
  split_and!.
  - rewrite Hp, Ha by done. done.
  - apply (repr_frame m); [done|]. intros q Hin. apply Hq; set_solver.
  - apply (repr_frame m); [done|]. intros q Hin. apply Hq; set_solver.
Qed.

(** The hole of a context got a new content. *)
Lemma repr_ctx_hole m m' rt rt' ctx p p' :
  repr_ctx m rt ctx p → NoDup (ctx_addrs ctx) →
  (∀ q, q ∈ ctx_addrs ctx → q ≠ up ctx → m' !! q = m !! q) →
  match ctx with
  | [] => rt' = p'
  | Fr s c a k v sib :: ctx =>
      rt' = rt ∧ m' !! a = Some (mkN s c p' (ptr sib) (up ctx) k v)
  end → repr_ctx m' rt' ctx p'.
Proof.
  destruct ctx as [|[s c a k v sib] ctx]; simpl; [done|].
  intros (Ha & Hs & Hc) Hnd Hq [-> Hp]. apply NoDup_cons in Hnd as [Hna Hnd].
  split_and!.
  - done.
  - apply (repr_frame m); [done|]. intros q Hin. apply Hq; set_solver.
  - apply (repr_ctx_frame m); [done|]. intros q Hin. apply Hq; set_solver.
Qed.

(** ** Running the accessors *)

Definition nchild (s : side) (n : RBTreeNode K V) : Z := match s with L => left n | R => right n end.
Definition with_child (s : side) (x : Z) (n : RBTreeNode K V) : RBTreeNode K V :=
  match s with L => with_left x n | R => with_right x n end.

Definition upd (f : RBTreeNode K V → RBTreeNode K V) (p : Z) (st : T) : T :=
  mkRBTree (alter f p (boxes st)) (root st) (len st).
Definition with_root (p : Z) (st : T) : T := mkRBTree (boxes st) p (len st).

Implicit Types st : T.

Lemma upd_lookup f p st q :
  boxes (upd f p st) !! q = if decide (q = p) then f <$> boxes st !! p else boxes st !! q.
Proof.
  unfold upd; simpl. rewrite lookup_alter. repeat case_decide; naive_solver.
Qed.

Lemma boxes_with_root b st : boxes (with_root b st) = boxes st.
Proof. done. Qed.

Lemma box_at_run st p n : boxes st !! p = Some n → box_at p st = Ret (n, st).
Proof. apply (deref_run (λ t, boxes t !! p)). Qed.

Lemma update_box_run st f p n : boxes st !! p = Some n → update_box f p st = Ret ((), upd f p st).
Proof.
  intros Hn. unfold update_box. erewrite M_bind_run by (by apply box_at_run). done.
Qed.

Lemma get_child_run s st p n :
  p ≠ 0 → boxes st !! p = Some n → get_child s p st = Ret (nchild s n, st).
Proof.
  intros Hp Hn. destruct s; simpl; unfold get_left, get_right, is_null;
    rewrite (proj2 (Z.eqb_neq p 0)) by done; by erewrite M_bind_run by (by apply box_at_run).
Qed.

Lemma set_child_run s st p x n :
  p ≠ 0 → boxes st !! p = Some n → set_child s p x st = Ret ((), upd (with_child s x) p st).
Proof.
  intros Hp Hn. destruct s; simpl; unfold set_left, set_right, is_null;
    rewrite (proj2 (Z.eqb_neq p 0)) by done; by eapply update_box_run.
Qed.

Lemma get_parent_run st p n :
  p ≠ 0 → boxes st !! p = Some n → get_parent p st = Ret (parent n, st).
Proof.
  intros Hp Hn. unfold get_parent, is_null. rewrite (proj2 (Z.eqb_neq p 0)) by done.
  by erewrite M_bind_run by (by apply box_at_run).
Qed.

Lemma set_parent_run st p x n :
  p ≠ 0 → boxes st !! p = Some n → set_parent p x st = Ret ((), upd (with_parent x) p st).
Proof.
  intros Hp Hn. unfold set_parent, is_null. rewrite (proj2 (Z.eqb_neq p 0)) by done.
  by eapply update_box_run.
Qed.

Lemma set_color_run st p c n :
  p ≠ 0 → boxes st !! p = Some n → set_color p c st = Ret ((), upd (with_color c) p st).
Proof.
  intros Hp Hn. unfold set_color, is_null. rewrite (proj2 (Z.eqb_neq p 0)) by done.
  by eapply update_box_run.
Qed.

Lemma is_red_color_run st p n :
  p ≠ 0 → boxes st !! p = Some n → is_red_color p st = Ret (bool_decide (color n = Red), st).
Proof.
  intros Hp Hn. unfold is_red_color, is_null. rewrite (proj2 (Z.eqb_neq p 0)) by done.
  by erewrite M_bind_run by (by apply box_at_run).
Qed.

Lemma nchild_mkN s c x y p k v : nchild s (mkN s c x y p k v) = x.
Proof. by destruct s. Qed.
Lemma nchild_opp_mkN s c x y p k v : nchild (opp s) (mkN s c x y p k v) = y.
Proof. by destruct s. Qed.
Lemma with_child_mkN s c x y p k v z : with_child s z (mkN s c x y p k v) = mkN s c z y p k v.
Proof. by destruct s. Qed.
Lemma with_child_opp_mkN s c x y p k v z :
  with_child (opp s) z (mkN s c x y p k v) = mkN s c x z p k v.
Proof. by destruct s. Qed.
Lemma with_parent_mkN s c x y p k v z : with_parent z (mkN s c x y p k v) = mkN s c x y z k v.
Proof. by destruct s. Qed.
Lemma with_color_mkN s c x y p k v z : with_color z (mkN s c x y p k v) = mkN s z x y p k v.
Proof. by destruct s. Qed.
Lemma parent_mkN s c x y p k v : parent (mkN s c x y p k v) = p.
Proof. by destruct s. Qed.
Lemma color_mkN s c x y p k v : color (mkN s c x y p k v) = c.
Proof. by destruct s. Qed.
Lemma mkN_opp s c x y p k v : mkN (opp s) c x y p k v = mkN s c y x p k v.
Proof. by destruct s. Qed.
Lemma mkT_opp s c a k v t u : mkT (opp s) c a k v t u = mkT s c a k v u t.
Proof. by destruct s. Qed.
Lemma opp_opp s : opp (opp s) = s.
Proof. by destruct s. Qed.
End mirrored.

#[export] Hint Rewrite @nchild_mkN @nchild_opp_mkN @with_child_mkN @with_child_opp_mkN
  @with_parent_mkN @with_color_mkN @parent_mkN @color_mkN @mkN_opp @opp_opp : rbnode.

(** Read a box of an updated tree. *)
Ltac box_simpl :=
  repeat first
    [ rewrite upd_lookup
    | rewrite boxes_with_root
    | rewrite decide_True by congruence
    | rewrite decide_False by congruence
    | match goal with H : boxes ?st !! ?p = Some _ |- context [boxes ?st !! ?p] => rewrite H end ];
  cbn [fmap option_fmap option_map boxes with_root]; autorewrite with rbnode; try reflexivity.

(** One accessor call. *)
Ltac rb_step :=
  lazymatch goal with
  | |- context [mbind ?k (get_child ?s ?p) ?st] =>
      erewrite (M_bind_run (get_child s p) k st) by (apply get_child_run; [congruence|box_simpl])
  | |- context [mbind ?k (set_child ?s ?p ?x) ?st] =>
      erewrite (M_bind_run (set_child s p x) k st) by (eapply set_child_run; [congruence|box_simpl])
  | |- context [mbind ?k (get_parent ?p) ?st] =>
      erewrite (M_bind_run (get_parent p) k st) by (apply get_parent_run; [congruence|box_simpl])
  | |- context [mbind ?k (set_parent ?p ?x) ?st] =>
      erewrite (M_bind_run (set_parent p x) k st) by (eapply set_parent_run; [congruence|box_simpl])
  | |- context [mbind ?k (set_black_color ?p) ?st] =>
      erewrite (M_bind_run (set_black_color p) k st) by (eapply set_color_run; [congruence|box_simpl])
  | |- context [mbind ?k (set_red_color ?p) ?st] =>
      erewrite (M_bind_run (set_red_color p) k st) by (eapply set_color_run; [congruence|box_simpl])
  | |- context [mbind ?k (is_red_color ?p) ?st] =>
      erewrite (M_bind_run (is_red_color p) k st) by (apply is_red_color_run; [congruence|box_simpl])
  | |- context [mbind ?k get_root ?st] =>
      erewrite (M_bind_run get_root k st) by reflexivity
  | |- context [set_parent ?p ?x ?st] =>
      erewrite (set_parent_run st p x) by first [congruence | box_simpl]
  end; autorewrite with rbnode.

Section rotation.
Context {K V : Type} `{!Ord K}.
Notation T := (RBTree K V).
Notation tree := (@tree K V).
Implicit Types st : T.

Lemma side_cases s s' : s' = s ∨ s' = opp s.
Proof. destruct s, s'; auto. Qed.

(** Splitting up the address list of a focused subtree of two nodes. *)
Lemma nodup_parts (a b : Z) A B C D :
  NoDup ((a :: A ++ b :: B ++ C) ++ D) →
  (a ≠ b ∧ a ∉ A ∧ a ∉ B ∧ a ∉ C ∧ a ∉ D) ∧ (b ∉ A ∧ b ∉ B ∧ b ∉ C ∧ b ∉ D) ∧
  (A ## B ∧ A ## C ∧ A ## D) ∧ (B ## C ∧ B ## D) ∧ C ## D ∧
  NoDup A ∧ NoDup B ∧ NoDup C ∧ NoDup D.
Proof.
  rewrite <-app_comm_cons, NoDup_cons, <-app_assoc, NoDup_app, <-app_comm_cons, NoDup_cons,
    <-app_assoc, !NoDup_app.
  intros (Ha & HA & HAx & Hb & HB & HBx & HC & HCx & HD).
  split_and!; try done; try set_solver.
Qed.

Lemma dom_upd f p st : dom (boxes (upd f p st)) = dom (boxes st).
Proof. unfold upd; simpl. apply dom_alter_L. Qed.

(** The two conditional parts of a rotation: the middle subtree's parent
    pointer, and the pointer from above to the subtree. *)
Lemma rotate_mid_run s st a b t1 nb :
  b ≠ 0 → boxes st !! b = Some nb → nchild s nb = t1 → (t1 ≠ 0 → is_Some (boxes st !! t1)) →
  (if negb (is_null t1) then tl ← get_child s b; set_parent tl a else mret ()) st =
  Ret ((), if decide (t1 = 0) then st else upd (with_parent a) t1 st).
Proof.
  intros Hb Eb Hc Ht. unfold is_null. case_decide as E.
  - rewrite (proj2 (Z.eqb_eq _ _)) by done. done.
  - rewrite (proj2 (Z.eqb_neq _ _)) by done. destruct (Ht E) as [n Hn]. cbn [negb].
    rb_step. rewrite Hc. by rb_step.
Qed.

Lemma rotate_top_run s st a b p na :
  a ≠ 0 → boxes st !! a = Some na → parent na = p → (p = 0 ↔ a = root st) →
  (p ≠ 0 → ∃ np, boxes st !! p = Some np) →
  (if a =? root st then set_root b
   else
     p ← get_parent a;
     pl ← get_child s p;
     if a =? pl then p ← get_parent a; set_child s p b
     else p ← get_parent a; set_child (opp s) p b) st =
  Ret ((), if decide (p = 0) then with_root b st
           else upd (λ np, with_child (if decide (nchild s np = a) then s else opp s) b np) p st).
Proof.
  intros Ha Ea Hp Hroot Hpar. case_decide as E.
  - rewrite (proj2 (Z.eqb_eq _ _)) by tauto. done.
  - rewrite (proj2 (Z.eqb_neq _ _)) by tauto. destruct (Hpar E) as [np Enp].
    rb_step. rewrite Hp. rb_step.
    destruct (Z.eqb_spec a (nchild s np)) as [Hs|Hs]; rb_step; rewrite Hp.
    + rewrite (set_child_run s st p b np) by done. do 2 f_equal. unfold upd. f_equal.
      apply alter_ext. intros x Hx. replace x with np by congruence. by rewrite decide_True.
    + rewrite (set_child_run (opp s) st p b np) by done. do 2 f_equal. unfold upd. f_equal.
      apply alter_ext. intros x Hx. replace x with np by congruence. by rewrite decide_False.
Qed.

Definition rotated (s : side) (a b p t1 : Z) (st : T) : T :=
  let st := upd (with_child (opp s) t1) a st in
  let st := if decide (t1 = 0) then st else upd (with_parent a) t1 st in
  let st := upd (with_parent p) b st in
  let st := if decide (p = 0) then with_root b st
            else upd (λ np, with_child (if decide (nchild s np = a) then s else opp s) b np) p st in
  upd (with_parent b) a (upd (with_child s a) b st).

Lemma rotate_run st s a b p t1 na nb :
  a ≠ 0 → b ≠ 0 → a ≠ b → boxes st !! a = Some na → boxes st !! b = Some nb →
  nchild (opp s) na = b → nchild s nb = t1 → parent na = p → t1 ≠ a → t1 ≠ b → p ≠ b → p ≠ a →
  (t1 ≠ 0 → is_Some (boxes st !! t1)) → (p = 0 ↔ a = root st) →
  (p ≠ 0 → is_Some (boxes st !! p)) →
  rotate s a st = Ret ((), rotated s a b p t1 st).
Proof.
  intros Ha0 Hb0 Hab Ea Eb Hca Hcb Hp Hta Htb Hpb Hpa Ht1 Hroot Hpar.
  unfold rotate.
  rb_step. rewrite Hca. rb_step. rewrite Hcb. rb_step. rb_step. rewrite Hcb.
  set (st0 := upd (with_child (opp s) t1) a st).
  erewrite M_bind_run.
  2:{ eapply (rotate_mid_run s st0 a b t1 nb); [done| |done|].
      - subst st0. by box_simpl.
      - intros Hn. destruct (Ht1 Hn) as [n Hn']. exists n. subst st0. by box_simpl. }
  set (st1 := if decide (t1 = 0) then st0 else upd (with_parent a) t1 st0).
  assert (boxes st1 !! a = Some (with_child (opp s) t1 na)) as Ea1.
  { subst st1. case_decide; subst st0; box_simpl. }
  assert (boxes st1 !! b = Some nb) as Eb1.
  { subst st1. case_decide; subst st0; box_simpl. }
  assert (parent (with_child (opp s) t1 na) = p) as Hp1 by (by destruct s).
  rb_step. rewrite Hp1. rb_step.
  set (st2 := upd (with_parent p) b st1).
  assert (boxes st2 !! a = Some (with_child (opp s) t1 na)) as Ea2 by (subst st2; box_simpl).
  assert (root st2 = root st) as Er2 by (subst st2 st1; by case_decide).
  rb_step. erewrite M_bind_run.
  2:{ apply (rotate_top_run s st2 a b p (with_child (opp s) t1 na)); try done; [by rewrite Er2|].
      intros Hn. destruct (Hpar Hn) as [np Hnp]. subst st2 st1 st0. case_decide; box_simpl; eauto.
      destruct (decide (t1 = p)) as [E|]; [rewrite E in *|]; box_simpl; eauto. }
  set (st3 := if decide (p = 0) then with_root b st2 else _).
  assert (is_Some (boxes st3 !! b)) as [nb3 Eb3].
  { subst st3. case_decide; subst st2; box_simpl; eauto. }
  assert (is_Some (boxes st3 !! a)) as [na3 Ea3].
  { subst st3. case_decide; box_simpl; eauto. }
  rb_step. by rb_step.
Qed.

Lemma rotated_lookup s a b p t1 st q :
  a ≠ b → t1 ≠ a → t1 ≠ b → p ≠ a → p ≠ b → (p ≠ 0 → p ≠ t1) →
  boxes (rotated s a b p t1 st) !! q =
    if decide (q = a) then (λ n, with_parent b (with_child (opp s) t1 n)) <$> boxes st !! a
    else if decide (q = b) then (λ n, with_child s a (with_parent p n)) <$> boxes st !! b
    else if decide (q = t1 ∧ t1 ≠ 0) then with_parent a <$> boxes st !! t1
    else if decide (q = p ∧ p ≠ 0)
    then (λ np, with_child (if decide (nchild s np = a) then s else opp s) b np) <$> boxes st !! p
    else boxes st !! q.
Proof.
  intros. unfold rotated.
  destruct (decide (t1 = 0)), (decide (p = 0)); rewrite ?boxes_with_root, ?upd_lookup, ?boxes_with_root, ?upd_lookup;
    repeat case_decide; simplify_eq; try tauto; try lia; try done;
    try (destruct (boxes st !! _); done).
Qed.

(** All other boxes are as before. *)
Lemma rotated_other s a b p t1 st q :
  a ≠ b → t1 ≠ a → t1 ≠ b → p ≠ a → p ≠ b → (p ≠ 0 → p ≠ t1) →
  q ≠ a → q ≠ b → (t1 ≠ 0 → q ≠ t1) → (p ≠ 0 → q ≠ p) →
  boxes (rotated s a b p t1 st) !! q = boxes st !! q.
Proof. intros. rewrite rotated_lookup, !decide_False by naive_solver. done. Qed.

(** The root is not below the hole of a context. *)
Lemma root_not_below (m : gmap Z (RBTreeNode K V)) ctx rt x a : repr_ctx m rt ctx x → a ∉ x :: ctx_addrs ctx → rt ≠ a.
Proof.
  revert x. induction ctx as [|[s1 c1 a1 k1 v1 sib1] ctx IH]; intros x; cbn [repr_ctx].
  - intros -> Ha ->. set_solver + Ha.
  - intros (_ & _ & Hc) Ha. apply (IH a1); [done|]. cbn in Ha. set_solver + Ha.
Qed.

(** The context of a rotated subtree: its hole now holds [b]. *)
Lemma rotated_ctx st ctx s a b (t1 : tree) :
  let st' := rotated s a b (up ctx) (ptr t1) st in
  repr_ctx (boxes st) (root st) ctx a → a ≠ 0 → a ≠ b → ptr t1 ≠ a → ptr t1 ≠ b → (ptr t1 ≠ 0 → ptr t1 ∈ addrs t1) →
  addrs t1 ## ctx_addrs ctx → a ∉ ctx_addrs ctx → b ∉ ctx_addrs ctx → NoDup (ctx_addrs ctx) → 0 ∉ ctx_addrs ctx →
  up ctx ≠ a → up ctx ≠ b → (up ctx ≠ 0 → up ctx ≠ ptr t1) →
  repr_ctx (boxes st') (root st') ctx b.
Proof.
  intros st' Hc Hna Hab Hta Htb Htin H1D HaD HbD ND H0 Hpa Hpb Hpt. subst st'.
  pose proof (λ q, rotated_lookup s a b (up ctx) (ptr t1) st q Hab Hta Htb Hpa Hpb Hpt) as Hlk.
  pose proof (λ q, rotated_other s a b (up ctx) (ptr t1) st q Hab Hta Htb Hpa Hpb Hpt) as Hother.
  apply (repr_ctx_hole (boxes st) _ (root st) _ ctx a b); [done|done| |].
  - intros q Hq Hqp. apply Hother; [by intros ->|by intros ->| |done].
    intros ? ->. apply (H1D (ptr t1)); auto.
  - destruct ctx as [|[s' c' p k' v' sib] ctx]; [done|].
    destruct Hc as (Hp & Hsib & _). cbn [up frame_addr ctx_addrs] in *.
    assert (p ≠ 0) by (intros ->; set_solver + H0).
    split; [unfold rotated; by repeat case_decide|].
    rewrite Hlk, (decide_False (P:=p = a)), (decide_False (P:=p = b)), (decide_False (P:=p = ptr t1 ∧ _)), decide_True by tauto.
    rewrite Hp. cbn. f_equal.
    destruct (side_cases s s') as [->| ->]; autorewrite with rbnode.
    + rewrite decide_True by done. by autorewrite with rbnode.
    + rewrite decide_False; [by autorewrite with rbnode|].
      intros E. destruct sib; simpl in *; [done|]. set_solver + E HaD.
Qed.

(** The run of a rotation below a context. *)
Lemma rotate_runs st ctx s c a k v (t0 : tree) c2 b k2 v2 t1 t2 :
  repr (boxes st) (up ctx) (mkT s c a k v t0 (mkT s c2 b k2 v2 t1 t2)) → repr_ctx (boxes st) (root st) ctx a →
  a ≠ 0 → b ≠ 0 → a ≠ b → ptr t1 ≠ a → ptr t1 ≠ b → up ctx ≠ a → up ctx ≠ b → a ∉ ctx_addrs ctx → 0 ∉ ctx_addrs ctx →
  rotate s a st = Ret ((), rotated s a b (up ctx) (ptr t1) st).
Proof.
  intros Hr Hc Hna Hnb Hab Hta Htb Hpa Hpb HaD H0. rewrite repr_mkT, ptr_mkT in Hr. destruct Hr as (Ha & _ & Hb).
  rewrite repr_mkT in Hb. destruct Hb as (Hb & Ht1 & _).
  eapply rotate_run; try done; autorewrite with rbnode; try done.
  - intros Hn. destruct t1 as [|? ? ? ? ? ?]; [done|]. destruct Ht1 as [E _]. simpl. rewrite E. eauto.
  - destruct ctx as [|[s' c' p k' v' sib] ctx]; simpl in *; [by rewrite Hc|]. split.
    + intros ->. set_solver + H0.
    + intros E. symmetry in E. destruct Hc as (_ & _ & Hc).
      apply (root_not_below _ _ _ _ a Hc) in E as []. set_solver + HaD.
  - intros Hn. destruct ctx as [|[s' c' p k' v' sib] ctx]; [done|]. destruct Hc as [E _]. simpl. rewrite E. eauto.
Qed.

Lemma rotate_spec st ctx s c a k v t0 c2 b k2 v2 t1 t2 :
  zrepr (boxes st) (root st) ctx (mkT s c a k v t0 (mkT s c2 b k2 v2 t1 t2)) →
  ∃ st', rotate s a st = Ret ((), st') ∧ len st' = len st ∧
    dom (boxes st') = dom (boxes st) ∧
    zrepr (boxes st') (root st') ctx (mkT s c2 b k2 v2 (mkT s c a k v t0 t1) t2).
Proof.
  intros (Hr & Hc & Hnd & H0).
  rewrite ptr_mkT in Hc. pose proof Hr as Hr'. rewrite repr_mkT, ptr_mkT in Hr'. destruct Hr' as (Ha & Ht0 & Hb).
  rewrite repr_mkT in Hb. destruct Hb as (Hb & Ht1 & Ht2).
  rewrite !addrs_mkT in Hnd, H0. assert (0 ∉ ctx_addrs ctx) as H0c by (set_solver + H0).
  destruct (nodup_parts _ _ _ _ _ _ Hnd) as ((Hab & Ha0 & Ha1 & Ha2 & HaD) &
    (Hb0 & Hb1 & Hb2 & HbD) & (H01 & H02 & H0D) & (H12 & H1D) & H2D & N0 & N1 & N2 & ND).
  assert (a ≠ 0 ∧ b ≠ 0) as [Hna Hnb] by (split; intros ->; set_solver + H0).
  assert (0 ∉ addrs t1) as Hz1 by (set_solver + H0).
  assert (ptr t1 ≠ a ∧ ptr t1 ≠ b ∧ (ptr t1 ≠ 0 → ptr t1 ∈ addrs t1)) as (Hta & Htb & Htin).
  { destruct t1; simpl in *; [done|]. set_solver + Ha1 Hb1. }
  assert (up ctx ≠ a ∧ up ctx ≠ b ∧ (up ctx ≠ 0 → up ctx ∈ ctx_addrs ctx)) as (Hpa & Hpb & Hpin).
  { destruct ctx as [|[]]; simpl in *; [done|]. set_solver + HaD HbD. }
  assert (up ctx ≠ 0 → up ctx ≠ ptr t1) as Hpt.
  { intros Hp E. assert (ptr t1 ≠ 0) by congruence. apply (H1D (ptr t1)); [auto|]. rewrite <-E. auto. }
  pose proof (λ q, rotated_lookup s a b (up ctx) (ptr t1) st q Hab Hta Htb Hpa Hpb Hpt) as Hlk.
  pose proof (λ q, rotated_other s a b (up ctx) (ptr t1) st q Hab Hta Htb Hpa Hpb Hpt) as Hother.
  exists (rotated s a b (up ctx) (ptr t1) st). split_and!.
  - by eapply rotate_runs.
  - unfold rotated. by repeat case_decide.
  - unfold rotated. repeat case_decide; rewrite ?dom_upd, ?boxes_with_root, ?dom_upd; done.
  - split_and!.
    + rewrite repr_mkT, ptr_mkT, repr_mkT. split_and!.
      * rewrite Hlk, decide_False, decide_True, Hb by done. cbn. by autorewrite with rbnode.
      * rewrite Hlk, decide_True, Ha by done. cbn. by autorewrite with rbnode.
      * apply (repr_frame (boxes st)); [done|]. intros q Hq. apply Hother; [by intros ->|by intros ->|..]; intros ? ->.
        -- apply (H01 (ptr t1)); auto.
        -- apply (H0D (up ctx)); auto.
      * apply (repr_reparent (boxes st) _ b); [done|done| |].
        -- intros q Hq Hqt. apply Hother; [by intros ->|by intros ->|done|].
           intros ? ->. apply (H1D (up ctx)); auto.
        -- intros Hl. assert (ptr t1 ≠ 0) by (intros E; by apply Hl, ptr_null, Z.eqb_eq).
           by rewrite Hlk, (decide_False (P:=ptr t1 = a)), (decide_False (P:=ptr t1 = b)), decide_True.
      * apply (repr_frame (boxes st)); [done|]. intros q Hq. apply Hother; [by intros ->|by intros ->|..]; intros ? ->.
        -- apply (H12 (ptr t1)); auto.
        -- apply (H2D (up ctx)); auto.
    + rewrite ptr_mkT. by apply rotated_ctx.
    + rewrite !addrs_mkT. 
      assert ((b :: (a :: addrs t0 ++ addrs t1) ++ addrs t2) ++ ctx_addrs ctx ≡ₚ
              (a :: addrs t0 ++ b :: addrs t1 ++ addrs t2) ++ ctx_addrs ctx) as ->; [|done].
      solve_Permutation.
    + rewrite !addrs_mkT. set_solver + H0.
Qed.
End rotation.

(** ** The red-black invariants *)

Section invariants.
Context {K V : Type} `{!Ord K}.
Notation T := (RBTree K V).
Notation tree := (@tree K V).
Notation frame := (@frame K V).
Implicit Types (t u : tree) (k : K) (v : V) (ctx : list frame) (st : T).

Definition tcolor (t : tree) : Color := match t with Leaf => Black | Node c _ _ _ _ _ => c end.

(** [t] has black height [n] and no red node with a red child. *)
Fixpoint rbt (t : tree) (n : nat) : Prop :=
  match t with
  | Leaf => n = 0%nat
  | Node Red _ _ _ l r => tcolor l = Black ∧ tcolor r = Black ∧ rbt l n ∧ rbt r n
  | Node Black _ _ _ l r => match n with O => False | S n => rbt l n ∧ rbt r n end
  end.

Definition head_color (ctx : list frame) : Color :=
  match ctx with [] => Black | Fr _ c _ _ _ _ :: _ => c end.

(** The path above a subtree of black height [n] is sound: the siblings match
    it, and no two reds meet on the path or at its siblings. *)
Fixpoint ctx_ok (ctx : list frame) (n : nat) : Prop :=
  match ctx with
  | [] => True
  | Fr _ Red _ _ _ sib :: ctx =>
      rbt sib n ∧ tcolor sib = Black ∧ ctx ≠ [] ∧ head_color ctx = Black ∧ ctx_ok ctx n
  | Fr _ Black _ _ _ sib :: ctx => rbt sib n ∧ ctx_ok ctx (S n)
  end.

Lemma rbt_mkT_black s a k v t u n : rbt (mkT s Black a k v t u) (S n) ↔ rbt t n ∧ rbt u n.
Proof. destruct s; simpl; tauto. Qed.
Lemma rbt_mkT_red s a k v t u n :
  rbt (mkT s Red a k v t u) n ↔ tcolor t = Black ∧ tcolor u = Black ∧ rbt t n ∧ rbt u n.
Proof. destruct s; simpl; tauto. Qed.
Lemma tcolor_mkT s c a k v t u : tcolor (mkT s c a k v t u) = c.
Proof. by destruct s. Qed.

Lemma plug_rbt ctx t n :
  rbt t n → ctx_ok ctx n → (head_color ctx = Red → tcolor t = Black) →
  (∃ n', rbt (plug t ctx) n') ∧ (ctx ≠ [] → tcolor (plug t ctx) = Black).
Proof.
  revert t n. induction ctx as [|[s c a k v sib] ctx IH]; intros t n Ht Hc Hcol; simpl.
  { split; [by exists n|done]. }
  destruct c; simpl in *.
  - destruct Hc as (Hs & Hsb & Hne & Hh & Hc).
    destruct (IH (mkT s Red a k v t sib) n) as [Hr Hb]; [|done|by rewrite Hh|].
    { apply rbt_mkT_red. auto. }
    split; [done|]. intros _. auto.
  - destruct Hc as (Hs & Hc).
    destruct (IH (mkT s Black a k v t sib) (S n)) as [Hr Hb]; [|done|by rewrite tcolor_mkT|].
    { apply rbt_mkT_black. auto. }
    split; [done|]. intros _. destruct ctx as [|f ctx]; [|by apply Hb].
    simpl. apply tcolor_mkT.
Qed.

(** ** Entries in order *)

Lemma elems_mkT_ext s c c' a k v t t' u u' :
  elems t = elems t' → elems u = elems u' → elems (mkT s c a k v t u) = elems (mkT s c' a k v t' u').
Proof. intros Ht Hu. destruct s; simpl; by rewrite Ht, Hu. Qed.

Lemma elems_rotate s c a k v t0 c2 b k2 v2 t1 t2 c' c2' :
  elems (mkT s c2' b k2 v2 (mkT s c' a k v t0 t1) t2) = elems (mkT s c a k v t0 (mkT s c2 b k2 v2 t1 t2)).
Proof. destruct s; simpl; by rewrite <-app_assoc. Qed.

Lemma elems_plug_ext t t' ctx : elems t = elems t' → elems (plug t ctx) = elems (plug t' ctx).
Proof.
  revert t t'. induction ctx as [|[s c a k v sib] ctx IH]; intros t t' Ht; simpl; [done|].
  apply IH. by apply elems_mkT_ext.
Qed.

Lemma recolor_spec (st : T) ctx s c c' a k v t u :
  zrepr (boxes st) (root st) ctx (mkT s c a k v t u) →
  set_color a c' st = Ret ((), upd (with_color c') a st) ∧
  zrepr (boxes (upd (with_color c') a st)) (root (upd (with_color c') a st)) ctx (mkT s c' a k v t u).
Proof.
  intros (Hr & Hc & Hnd & H0). rewrite ptr_mkT in Hc. rewrite repr_mkT in Hr.
  destruct Hr as (Ha & Ht & Hu). rewrite addrs_mkT in Hnd, H0.
  assert (a ≠ 0) by (intros ->; set_solver + H0).
  split; [by eapply set_color_run|].
  rewrite <-app_comm_cons in Hnd. apply NoDup_cons in Hnd as [Hna Hnd].
  rewrite !elem_of_app in Hna. split_and!.
  - rewrite repr_mkT. split_and!.
    + rewrite upd_lookup, decide_True, Ha by done. cbn. by autorewrite with rbnode.
    + apply (repr_frame (boxes st)); [done|]. intros q Hq. rewrite upd_lookup, decide_False; [done|].
      intros ->. tauto.
    + apply (repr_frame (boxes st)); [done|]. intros q Hq. rewrite upd_lookup, decide_False; [done|].
      intros ->. tauto.
  - rewrite ptr_mkT. apply (repr_ctx_frame (boxes st)); [done|]. intros q Hq.
    rewrite upd_lookup, decide_False; [done|]. intros ->. tauto.
  - rewrite addrs_mkT, <-app_comm_cons. apply NoDup_cons. by rewrite !elem_of_app.
  - by rewrite addrs_mkT.
Qed.

(** What one round of the fix-up loop achieves: the same entries, and a red
    node strictly closer to the root, with everything else in order. *)
Definition round_result (st : T) (t : tree) (ctx : list frame) (run : (Z → M T unit) → outcome (unit * T)) : Prop :=
  ∃ st' t' ctx' n', (∀ rec, run rec = rec (ptr t') st') ∧
    zrepr (boxes st') (root st') ctx' t' ∧ tcolor t' = Red ∧ rbt t' n' ∧ ctx_ok ctx' n' ∧
    (length ctx' < length ctx)%nat ∧ elems (plug t' ctx') = elems (plug t ctx) ∧
    len st' = len st ∧ dom (boxes st') = dom (boxes st).

Lemma red_mkT s t : tcolor t = Red → ∃ a k v x y, t = mkT s Red a k v x y.
Proof.
  destruct t as [|c a k v l r]; simpl; [done|]. intros ->. exists a, k, v.
  destruct s; [by exists l, r|by exists r, l].
Qed.

Lemma ptr_mkT_red_opp s t : tcolor t = Red → ∃ a k v x y, t = mkT (opp s) Red a k v x y.
Proof. apply red_mkT. Qed.

Lemma fixup_recolor st s1 pa pk pv psib s2 ga gk gv uncle ctx t n :
  let ctx0 := Fr s1 Red pa pk pv psib :: Fr s2 Black ga gk gv uncle :: ctx in
  zrepr (boxes st) (root st) ctx0 t → tcolor t = Red → rbt t n → ctx_ok ctx0 n →
  tcolor uncle = Red →
  round_result st t ctx0 (λ rec, fixup_round s2 rec (ptr t) pa ga st).
Proof.
  intros ctx0 Hz Ht Hrb Hok Hu. subst ctx0.
  destruct (red_mkT s2 uncle Hu) as (ua & uk & uv & ux & uy & ->).
  pose proof Hz as (_ & (Hpa & _ & Hga & Hun & _) & _ & H0). rewrite ptr_mkT in Hga.
  rewrite repr_mkT in Hun. destruct Hun as (Hua & _).
  cbn [ctx_addrs] in H0. rewrite addrs_mkT in H0.
  assert (ga ≠ 0 ∧ ua ≠ 0 ∧ pa ≠ 0) as (? & ? & ?) by (split_and!; intros ->; set_solver + H0).
  (* refocus on the uncle, the parent, the grandparent in turn *)
  assert (Z1 := Hz). rewrite !zrepr_up, <-mkT_opp, <-zrepr_up in Z1.
  destruct (recolor_spec _ _ _ _ Black _ _ _ _ _ Z1) as [R1 Z2].
  rewrite zrepr_up, mkT_opp, <-zrepr_up in Z2.
  destruct (recolor_spec _ _ _ _ Black _ _ _ _ _ Z2) as [R2 Z3].
  rewrite zrepr_up in Z3.
  destruct (recolor_spec _ _ _ _ Red _ _ _ _ _ Z3) as [R3 Z4].
  destruct Hok as (Hps & Hpb & _ & _ & Hus & Hok).
  rewrite rbt_mkT_red in Hus. destruct Hus as (? & ? & ? & ?).
  eexists _, _, ctx, (S n). split_and!.
  - intros rec. unfold fixup_round. rb_step. rb_step.
    unfold is_null. rewrite (proj2 (Z.eqb_neq ua 0)) by done. cbn [bool_decide negb andb].
    rewrite bool_decide_true by done. cbn [andb].
    rewrite (M_bind_run _ _ _ _ _ R1), (M_bind_run _ _ _ _ _ R2), (M_bind_run _ _ _ _ _ R3).
    rewrite <-(ptr_mkT s2 Red ga gk gv (mkT s1 Black pa pk pv t psib) (mkT s2 Black ua uk uv ux uy)) at 1.
    reflexivity.
  - exact Z4.
  - apply tcolor_mkT.
  - apply rbt_mkT_red. rewrite !tcolor_mkT, !rbt_mkT_black. done.
  - done.
  - simpl. lia.
  - simpl. apply elems_plug_ext. by repeat apply elems_mkT_ext.
  - done.
  - by rewrite !dom_upd.
Qed.

(** With a black uncle the round rotates. *)
Lemma fixup_black_uncle (st : T) s2 (a pa ga : Z) uncle g rec :
  boxes st !! ga = Some g → ga ≠ 0 → nchild (opp s2) g = ptr uncle → repr (boxes st) ga uncle → 0 ∉ addrs uncle →
  tcolor uncle = Black →
  fixup_round s2 rec a pa ga st =
    (pr ← get_child (opp s2) pa;
     pn ← (if pr =? a then rotate s2 pa;; mret (a, pa) else mret (pa, a));
     set_black_color (fst pn);; set_red_color ga;; rotate (opp s2) ga;; rec (snd pn)) st.
Proof.
  intros Hga Hg0 Hch Hun H0 Hu. unfold fixup_round. rb_step. rewrite Hch.
  destruct uncle as [|cu ua uk uv ul ur]; simpl in Hu; subst; [done|].
  destruct Hun as [Hua _]. assert (ua ≠ 0) by (intros ->; set_solver + H0). cbn [ptr].
  rewrite (M_bind_run _ _ _ _ _ (is_red_color_run st ua _ ltac:(done) Hua)).
  cbn [color]. by rewrite bool_decide_false, andb_false_r.
Qed.

(** The round from the rotations on. *)
Definition rotating_round (st : T) (s2 : side) (rec : Z → M T unit) (a pa ga : Z) : Prop :=
  fixup_round s2 rec a pa ga st =
    (pr ← get_child (opp s2) pa;
     pn ← (if pr =? a then rotate s2 pa;; mret (a, pa) else mret (pa, a));
     set_black_color (fst pn);; set_red_color ga;; rotate (opp s2) ga;; rec (snd pn)) st.

(** The outer child: one rotation. *)
Lemma fixup_outer (st : T) s2 pa pk pv psib ga gk gv uncle ctx a k v x y n :
  let t := mkT s2 Red a k v x y in
  let ctx0 := Fr s2 Red pa pk pv psib :: Fr s2 Black ga gk gv uncle :: ctx in
  zrepr (boxes st) (root st) ctx0 t → rbt t n → ctx_ok ctx0 n → tcolor uncle = Black →
  (∀ rec, rotating_round st s2 rec a pa ga) →
  round_result st t ctx0 (λ rec, fixup_round s2 rec a pa ga st).
Proof.
  intros t ctx0. subst t ctx0.
  intros Hz Hrb Hok Hu Hst. pose proof Hz as (_ & (Hpa & _ & Hga & Hun & _) & Hnd & H0). rewrite ptr_mkT in Hpa.
  cbn [ctx_addrs] in H0, Hnd. rewrite addrs_mkT in H0, Hnd.
  assert (ga ≠ 0 ∧ pa ≠ 0 ∧ a ≠ 0) as (? & ? & ?) by (split_and!; intros ->; set_solver + H0).
  destruct Hok as (Hps & Hpb & _ & _ & Hus & Hok). rewrite rbt_mkT_red in Hrb. destruct Hrb as (? & ? & ? & ?).
  assert (Z1 := Hz). rewrite zrepr_up in Z1.
  destruct (recolor_spec _ _ _ _ Black _ _ _ _ _ Z1) as [R1 Z2].
  rewrite zrepr_up in Z2.
  destruct (recolor_spec _ _ _ _ Red _ _ _ _ _ Z2) as [R2 Z3].
  rewrite <-(mkT_opp s2 Red ga), <-(mkT_opp s2 Black pa) in Z3.
  destruct (rotate_spec _ _ _ _ _ _ _ _ _ _ _ _ _ _ Z3) as (st' & R3 & Hlen & Hdom & Z4).
  rewrite (mkT_opp s2 Black pa), <-zrepr_up in Z4.
  eexists st', _, _, n. split_and!; [|exact Z4|apply tcolor_mkT|by apply rbt_mkT_red| |simpl; lia| | |].
  - intros rec. rewrite Hst, ptr_mkT. rb_step.
    rewrite (proj2 (Z.eqb_neq _ _)).
    2:{ intros E. destruct psib; simpl in *; [lia|]. rewrite <-E in Hnd. clear -Hnd.
        apply NoDup_cons in Hnd as [Hnd _]. set_solver + Hnd. }
    rewrite (M_bind_run _ _ _ _ _ eq_refl). cbn [fst snd].
    by rewrite (M_bind_run _ _ _ _ _ R1), (M_bind_run _ _ _ _ _ R2), (M_bind_run _ _ _ _ _ R3).
  - simpl. split; [|done]. rewrite mkT_opp, rbt_mkT_red. done.
  - simpl. apply elems_plug_ext. rewrite mkT_opp.
    destruct s2; simpl; by rewrite <-!app_assoc.
  - done.
  - by rewrite Hdom, !dom_upd.
Qed.

(** The inner child: two rotations. *)
Lemma fixup_inner (st : T) s2 pa pk pv psib ga gk gv uncle ctx a k v x y n :
  let t := mkT s2 Red a k v x y in
  let ctx0 := Fr (opp s2) Red pa pk pv psib :: Fr s2 Black ga gk gv uncle :: ctx in
  zrepr (boxes st) (root st) ctx0 t → rbt t n → ctx_ok ctx0 n → tcolor uncle = Black →
  (∀ rec, rotating_round st s2 rec a pa ga) →
  round_result st t ctx0 (λ rec, fixup_round s2 rec a pa ga st).
Proof.
  intros t ctx0. subst t ctx0.
  intros Hz Hrb Hok Hu Hst. pose proof Hz as (_ & (Hpa & _ & Hga & Hun & _) & Hnd & H0). rewrite ptr_mkT in Hpa.
  cbn [ctx_addrs] in H0, Hnd. rewrite addrs_mkT in H0, Hnd.
  assert (ga ≠ 0 ∧ pa ≠ 0 ∧ a ≠ 0) as (? & ? & ?) by (split_and!; intros ->; set_solver + H0).
  destruct Hok as (Hps & Hpb & _ & _ & Hus & Hok). rewrite rbt_mkT_red in Hrb. destruct Hrb as (? & ? & ? & ?).
  assert (Z1 := Hz). rewrite zrepr_up, mkT_opp in Z1.
  destruct (rotate_spec _ _ _ _ _ _ _ _ _ _ _ _ _ _ Z1) as (st1 & R1 & Hlen1 & Hdom1 & Z2).
  destruct (recolor_spec _ _ _ _ Black _ _ _ _ _ Z2) as [R2 Z3].
  rewrite zrepr_up in Z3.
  destruct (recolor_spec _ _ _ _ Red _ _ _ _ _ Z3) as [R3 Z4].
  rewrite <-(mkT_opp s2 Red ga), <-(mkT_opp s2 Black a) in Z4.
  destruct (rotate_spec _ _ _ _ _ _ _ _ _ _ _ _ _ _ Z4) as (st' & R4 & Hlen & Hdom & Z5).
  rewrite (mkT_opp s2 Black a), <-zrepr_up in Z5.
  eexists st', _, _, n. split_and!; [|exact Z5|apply tcolor_mkT|by apply rbt_mkT_red| |simpl; lia| | |].
  - intros rec. rewrite Hst, ptr_mkT. rb_step. rewrite Z.eqb_refl.
    erewrite M_bind_run by (by rewrite (M_bind_run _ _ _ _ _ R1)). cbn [fst snd].
    by rewrite (M_bind_run _ _ _ _ _ R2), (M_bind_run _ _ _ _ _ R3), (M_bind_run _ _ _ _ _ R4).
  - simpl. split; [|done]. rewrite mkT_opp, rbt_mkT_red. done.
  - simpl. apply elems_plug_ext. rewrite !mkT_opp.
    destruct s2; simpl; rewrite <-!app_assoc; simpl; rewrite <-?app_assoc; done.
  - by rewrite Hlen.
  - by rewrite Hdom, !dom_upd.
Qed.

Lemma fixup_rotate st s1 pa pk pv psib s2 ga gk gv uncle ctx t n :
  let ctx0 := Fr s1 Red pa pk pv psib :: Fr s2 Black ga gk gv uncle :: ctx in
  zrepr (boxes st) (root st) ctx0 t → tcolor t = Red → rbt t n → ctx_ok ctx0 n →
  tcolor uncle = Black →
  round_result st t ctx0 (λ rec, fixup_round s2 rec (ptr t) pa ga st).
Proof.
  intros ctx0 Hz Ht Hrb Hok Hu. subst ctx0.
  destruct (red_mkT s2 t Ht) as (a & k & v & x & y & ->).
  rewrite ptr_mkT.
  pose proof Hz as (_ & (Hpa & _ & Hga & Hun & _) & Hnd & H0). rewrite ptr_mkT in Hpa.
  cbn [ctx_addrs] in H0, Hnd. rewrite addrs_mkT in H0, Hnd.
  assert (ga ≠ 0 ∧ pa ≠ 0 ∧ a ≠ 0) as (? & ? & ?) by (split_and!; intros ->; set_solver + H0).
  assert (∀ rec : Z → M T unit, rotating_round st s2 rec a pa ga) as Hst.
  { intros rec. eapply fixup_black_uncle; [exact Hga|done|by autorewrite with rbnode|exact Hun| |done].
    set_solver + H0. }
  destruct (side_cases s2 s1) as [->| ->]; [by apply (fixup_outer st s2 pa pk pv psib ga gk gv uncle ctx a k v x y n)|].
  by apply (fixup_inner st s2 pa pk pv psib ga gk gv uncle ctx a k v x y n).
Qed.

Lemma parent_run st ctx t :
  zrepr (boxes st) (root st) ctx t → t ≠ Leaf → get_parent (ptr t) st = Ret (up ctx, st).
Proof.
  intros (Hr & _ & _ & H0) Hl. destruct t as [|c a k v l r]; [done|]. destruct Hr as [Ha _].
  eapply get_parent_run in Ha; [exact Ha|]. intros ->. simpl in H0. set_solver + H0.
Qed.

Lemma is_red_up_run st ctx t :
  zrepr (boxes st) (root st) ctx t →
  is_red_color (up ctx) st = Ret (bool_decide (head_color ctx = Red), st).
Proof.
  intros (_ & Hc & _ & H0). destruct ctx as [|[s c a k v sib] ctx]; [done|]. destruct Hc as [Ha _].
  cbn [up frame_addr head_color]. rewrite (is_red_color_run st a _ ltac:(intros ->; simpl in H0; set_solver + H0) Ha).
  by rewrite color_mkN.
Qed.

Lemma insert_fixup_loop_spec fuel st ctx t n :
  zrepr (boxes st) (root st) ctx t → tcolor t = Red → rbt t n → ctx_ok ctx n →
  (length ctx < fuel)%nat →
  ∃ st' t' n', insert_fixup_loop fuel (ptr t) st = Ret ((), st') ∧ is_tree st' t' ∧ rbt t' n' ∧
    elems t' = elems (plug t ctx) ∧ len st' = len st ∧ dom (boxes st') = dom (boxes st).
Proof.
  revert st ctx t n. induction fuel as [|fuel IH]; intros st ctx t n Hz Ht Hrb Hok Hf; [lia|].
  assert (t ≠ Leaf) as Hl by (by intros ->).
  rewrite insert_fixup_loop_S.
  rewrite (M_bind_run _ _ _ _ _ (parent_run _ _ _ Hz Hl)).
  rewrite (M_bind_run _ _ _ _ _ (is_red_up_run _ _ _ Hz)).
  case_bool_decide as Hred.
  2:{ destruct (plug_rbt ctx t n) as [[n' Hn'] _]; [done|done|done|].
      exists st, (plug t ctx), n'. split_and!; try done. by apply (proj1 (zrepr_plug _ _ ctx t)). }
  destruct ctx as [|[s1 c1 pa pk pv psib] rest]; [done|]. simpl in Hred; subst c1.
  destruct rest as [|[s2 gc ga gk gv uncle] ctx].
  { by destruct Hok as (_ & _ & ? & _). }
  assert (gc = Black) as -> by (by destruct Hok as (_ & _ & _ & ? & _)).
  rewrite (M_bind_run _ _ _ _ _ (parent_run _ _ _ Hz Hl)). cbn [up frame_addr].
  pose proof Hz as (_ & (Hpa & _ & Hga & _ & _) & Hnd & H0). cbn [ctx_addrs] in H0, Hnd.
  assert (pa ≠ 0 ∧ ga ≠ 0) as [Hpn Hgn] by (split; intros ->; set_solver + H0).
  rb_step. cbn [up frame_addr].
  assert (get_left ga st = Ret (nchild L (mkN s2 Black pa (ptr uncle) (up ctx) gk gv), st)) as Hgl
    by (by apply (get_child_run L)).
  rewrite (M_bind_run _ _ _ _ _ Hgl).
  set (ctx0 := Fr s1 Red pa pk pv psib :: Fr s2 Black ga gk gv uncle :: ctx) in *.
  assert (round_result st t ctx0 (λ rec, fixup_round s2 rec (ptr t) pa ga st)) as Hround.
  { destruct (tcolor uncle) eqn:Hu; [by eapply fixup_recolor|by eapply fixup_rotate]. }
  destruct Hround as (st1 & t1 & ctx1 & n1 & Hrun & Hz1 & Ht1 & Hrb1 & Hok1 & Hlt & Hel & Hlen & Hdom).
  assert ((if pa =? nchild L (mkN s2 Black pa (ptr uncle) (up ctx) gk gv)
    then fixup_round L (insert_fixup_loop fuel) (ptr t) pa ga
    else fixup_round R (insert_fixup_loop fuel) (ptr t) pa ga) st =
    fixup_round s2 (insert_fixup_loop fuel) (ptr t) pa ga st) as ->.
  { destruct s2; simpl; [by rewrite Z.eqb_refl|]. rewrite (proj2 (Z.eqb_neq _ _)); [done|].
    intros E. destruct uncle; simpl in *; [lia|]. clear -Hnd E. subst.
    rewrite <-Permutation_middle, NoDup_cons in Hnd. set_solver + Hnd. }
  rewrite Hrun. destruct (IH st1 ctx1 t1 n1) as (st2 & t2 & n2 & Hrun2 & Hz2 & Hrb2 & Hel2 & Hlen2 & Hdom2);
    try done; [lia|].
  exists st2, t2, n2. split_and!; try done; congruence.
Qed.

Lemma insert_fixup_spec st ctx t n :
  zrepr (boxes st) (root st) ctx t → tcolor t = Red → rbt t n → ctx_ok ctx n →
  (length ctx < fuel_of st)%nat →
  ∃ st' t' n', insert_fixup (ptr t) st = Ret ((), st') ∧ is_tree st' t' ∧ tcolor t' = Black ∧
    rbt t' n' ∧ elems t' = elems (plug t ctx) ∧ len st' = len st ∧ dom (boxes st') = dom (boxes st).
Proof.
  intros Hz Ht Hrb Hok Hf.
  destruct (insert_fixup_loop_spec (fuel_of st) st ctx t n) as (st1 & t1 & n1 & Hrun & Hz1 & Hrb1 & Hel & Hlen & Hdom);
    try done.
  unfold insert_fixup. rewrite (M_bind_run _ _ _ _ _ eq_refl), (M_bind_run _ _ _ _ _ Hrun).
  pose proof Hz1 as (_ & Hroot & _). simpl in Hroot. rb_step. rewrite Hroot.
  destruct t1 as [|c a k v l r].
  { exists st1, Leaf, n1. split_and!; done. }
  destruct (recolor_spec st1 [] L c Black a k v l r Hz1) as [R1 Z2].
  eexists _, _, (match c with Red => S n1 | Black => n1 end).
  split_and!; [exact R1|exact Z2|done| |done|done|by rewrite dom_upd].
  destruct c; simpl in *; tauto.
Qed.

Lemma unplug_rbt ctx t N :
  rbt (plug t ctx) N → tcolor (plug t ctx) = Black →
  ∃ n, rbt t n ∧ ctx_ok ctx n ∧ (head_color ctx = Red → tcolor t = Black) ∧
       (ctx = [] → tcolor t = Black).
Proof.
  revert t. induction ctx as [|[s c a k v sib] ctx IH]; intros t Hr Hb; simpl in *.
  { by exists N. }
  destruct (IH _ Hr Hb) as (n & Hn & Hok & Hhead & Hnil). rewrite tcolor_mkT in *.
  destruct c.
  - apply rbt_mkT_red in Hn as (? & ? & ? & ?). exists n. split_and!; try done.
    + by intros ->; specialize (Hnil eq_refl).
    + destruct (head_color ctx); [by specialize (Hhead eq_refl)|done].
  - destruct n as [|n]; [destruct s; done|]. apply rbt_mkT_black in Hn as [? ?]. by exists n.
Qed.
End invariants.

(** ** Key order *)

Section order.
Context {K : Type} `{!Ord K}.

Definition kle (x y : K) : Prop := cmp x y ≠ Gt.
Definition klt (x y : K) : Prop := cmp x y = Lt.

Lemma cmp_gt_lt x y : cmp x y = Gt ↔ cmp y x = Lt.
Proof. rewrite (cmp_antisym x y). destruct (cmp x y); simpl; naive_solver. Qed.
Lemma cmp_refl x : cmp x x = Eq.
Proof. by apply cmp_eq. Qed.
Lemma kle_refl x : kle x x.
Proof. unfold kle. by rewrite cmp_refl. Qed.
Lemma klt_le x y : klt x y → kle x y.
Proof. unfold klt, kle. by intros ->. Qed.
Lemma kle_cases x y : kle x y → klt x y ∨ x = y.
Proof.
  unfold kle, klt. destruct (cmp x y) eqn:E; [|by left|done].
  right. by apply cmp_eq.
Qed.
Lemma not_klt x y : ¬ klt x y ↔ kle y x.
Proof. unfold klt, kle. rewrite <-cmp_gt_lt. done. Qed.
Lemma klt_trans x y z : klt x y → klt y z → klt x z.
Proof. apply cmp_trans. Qed.
Lemma kle_klt_trans x y z : kle x y → klt y z → klt x z.
Proof. intros [H| ->]%kle_cases ?; [by eapply klt_trans|done]. Qed.
Lemma klt_kle_trans x y z : klt x y → kle y z → klt x z.
Proof. intros ? [H| <-]%kle_cases; [by eapply klt_trans|done]. Qed.
Lemma kle_trans x y z : kle x y → kle y z → kle x z.
Proof. intros [H| ->]%kle_cases H2; [|done]. by eapply klt_le, klt_kle_trans. Qed.
Lemma klt_irrefl x : ¬ klt x x.
Proof. unfold klt. by rewrite cmp_refl. Qed.
End order.

(** ** Look-up and insertion *)

Section lookup.
Context {K V : Type} `{!Ord K}.
Notation T := (RBTree K V).
Notation tree := (@tree K V).
Notation frame := (@frame K V).
Implicit Types (t u : tree) (k : K) (v : V) (ctx : list frame) (st : T).

Definition ekey (e : Z * K * V) : K := e.1.2.
Definition entry_le (e f : Z * K * V) : Prop := kle (ekey e) (ekey f).
Definition sorted (l : list (Z * K * V)) : Prop := StronglySorted entry_le l.

Lemma sorted_app l1 l2 :
  sorted (l1 ++ l2) ↔ sorted l1 ∧ sorted l2 ∧ (∀ e f, e ∈ l1 → f ∈ l2 → entry_le e f).
Proof.
  unfold sorted. induction l1 as [|e l1 IH]; simpl.
  { split; [|tauto]. intros. split_and!; [constructor|done|set_solver]. }
  split.
  - intros [Hs He]%StronglySorted_inv. apply IH in Hs as (H1 & H2 & H3).
    rewrite Forall_app in He. destruct He as [He1 He2]. rewrite Forall_forall in He2.
    split_and!; [by constructor|done|]. intros x y [->|Hx]%elem_of_cons Hy; auto.
  - intros ([H1 He]%StronglySorted_inv & H2 & H3). constructor.
    + apply IH. split_and!; try done. intros. apply H3; [set_solver|done].
    + rewrite Forall_app. split; [done|]. apply Forall_forall. intros. apply H3; [set_solver|done].
Qed.

Lemma sorted_mid l1 e l2 : sorted (l1 ++ e :: l2) →
  Forall (λ x, kle (ekey x) (ekey e)) l1 ∧ Forall (λ x, kle (ekey e) (ekey x)) l2 ∧ sorted l1 ∧ sorted l2.
Proof.
  intros (H1 & [H2 He]%StronglySorted_inv & H3)%sorted_app. split_and!; try done.
  apply Forall_forall. intros x Hx. apply H3; [done|set_solver].
Qed.

(** The entries to the left and to the right of the hole of a path. *)
Fixpoint ctx_l (ctx : list frame) : list (Z * K * V) :=
  match ctx with
  | [] => []
  | Fr L _ _ _ _ _ :: ctx => ctx_l ctx
  | Fr R _ a k v sib :: ctx => ctx_l ctx ++ elems sib ++ [(a, k, v)]
  end.
Fixpoint ctx_r (ctx : list frame) : list (Z * K * V) :=
  match ctx with
  | [] => []
  | Fr L _ a k v sib :: ctx => (a, k, v) :: elems sib ++ ctx_r ctx
  | Fr R _ _ _ _ _ :: ctx => ctx_r ctx
  end.

Lemma elems_plug t ctx : elems (plug t ctx) = ctx_l ctx ++ elems t ++ ctx_r ctx.
Proof.
  revert t. induction ctx as [|[[] c a k v sib] ctx IH]; intros t; simpl.
  - by rewrite app_nil_r.
  - rewrite IH. simpl. by rewrite <-!app_assoc.
  - rewrite IH. simpl. rewrite <-!app_assoc. simpl. by rewrite <-?app_assoc.
Qed.

Lemma node_run st ctx c a k v l r :
  zrepr (boxes st) (root st) ctx (Node c a k v l r) →
  a ≠ 0 ∧ boxes st !! a = Some (mkRBNode c (ptr l) (ptr r) (up ctx) k v).
Proof.
  intros ([Ha _] & _ & _ & H0). split; [|done]. intros ->. simpl in H0. set_solver + H0.
Qed.

#[local] Instance tree_leaf_dec t : Decision (t = Leaf).
Proof. destruct t; [by left|by right]. Defined.

Lemma zrepr_null st ctx t : zrepr (boxes st) (root st) ctx t → is_null (ptr t) = bool_decide (t = Leaf).
Proof.
  intros (_ & _ & _ & H0). apply eq_bool_prop_intro. rewrite !Is_true_true, bool_decide_eq_true.
  apply ptr_null. set_solver + H0.
Qed.

(** The descent of [insert] ends at the leaf that splits the entries into
    those with keys up to [k] and those with larger ones. *)
Lemma insert_descend_spec fuel st ctx t addr nd :
  zrepr (boxes st) (root st) ctx t → boxes st !! addr = Some nd →
  sorted (elems (plug t ctx)) → (length (addrs t) < fuel)%nat →
  Forall (λ e, kle (ekey e) (key nd)) (ctx_l ctx) → Forall (λ e, klt (key nd) (ekey e)) (ctx_r ctx) →
  match ctx with [] => True | Fr s _ _ k' _ _ :: _ => klt (key nd) k' ↔ s = L end →
  ∃ ctx', insert_descend fuel addr (up ctx) (ptr t) st = Ret (up ctx', st) ∧
    plug Leaf ctx' = plug t ctx ∧
    Forall (λ e, kle (ekey e) (key nd)) (ctx_l ctx') ∧
    Forall (λ e, klt (key nd) (ekey e)) (ctx_r ctx') ∧
    match ctx' with [] => True | Fr s _ _ k' _ _ :: _ => klt (key nd) k' ↔ s = L end.
Proof.
  intros Hz Hnd Hs. revert fuel ctx Hz Hs.
  induction t as [|c a k v l IHl r IHr]; intros fuel ctx Hz Hs Hf Hl Hr Hside.
  { destruct fuel as [|fuel]; [simpl in Hf; lia|]. by exists ctx. }
  destruct fuel as [|fuel]; [lia|]. cbn [insert_descend].
  destruct (node_run _ _ _ _ _ _ _ _ Hz) as [Ha0 Ha]. unfold is_null; cbn [ptr].
  rewrite (proj2 (Z.eqb_neq a 0)) by done.
  erewrite M_bind_run.
  2:{ unfold NodePtr_cmp. erewrite M_bind_run by (by apply box_at_run).
      erewrite M_bind_run by (by apply box_at_run). reflexivity. }
  cbn [key]. simpl in Hf. rewrite length_app in Hf.
  assert (sorted (ctx_l ctx ++ elems l ++ (a, k, v) :: elems r ++ ctx_r ctx)) as Hs'.
  { rewrite elems_plug in Hs. simpl in Hs. by rewrite <-app_assoc in Hs. }
  rewrite app_assoc in Hs'. apply sorted_mid in Hs' as (Hlo & Hhi & _). unfold ekey in Hlo, Hhi; simpl in Hlo, Hhi.
  rewrite Forall_app in Hlo, Hhi. destruct Hlo as [_ Hlo], Hhi as [Hhi _].
  destruct (decide (cmp (key nd) k = Lt)) as [Hlt|Hge].
  - rewrite Hlt. erewrite M_bind_run by (by apply (get_child_run L)).
    apply (IHl fuel (Fr L c a k v r :: ctx)).
    + apply zrepr_up. exact Hz.
    + exact Hs.
    + lia.
    + done.
    + simpl. constructor; [exact Hlt|]. rewrite Forall_app. split; [|done].
      eapply Forall_impl; [exact Hhi|]. intros e He. by eapply klt_kle_trans.
    + done.
  - assert (kle k (key nd)) as Hk by (by apply not_klt).
    assert ((match cmp (key nd) k with
             | Lt => l0 ← get_left a; insert_descend fuel addr a l0
             | _ => r0 ← get_right a; insert_descend fuel addr a r0
             end) = (r0 ← get_right a; insert_descend fuel addr a r0)) as ->
      by (by destruct (cmp (key nd) k)).
    erewrite M_bind_run by (by apply (get_child_run R)).
    apply (IHr fuel (Fr R c a k v l :: ctx)).
    + apply zrepr_up. exact Hz.
    + exact Hs.
    + lia.
    + simpl. rewrite !Forall_app, Forall_singleton. split_and!; [done| |done].
      eapply Forall_impl; [exact Hlo|]. intros e He. by apply (kle_trans _ k).
    + done.
    + split; [done|]. intros [=].
Qed.

Lemma addrs_size st ctx t : zrepr (boxes st) (root st) ctx t →
  (length (addrs t) + length (ctx_addrs ctx) ≤ size (boxes st))%nat.
Proof.
  intros Hz. pose proof Hz as (_ & _ & Hnd & _).
  assert (∀ q, q ∈ addrs t ++ ctx_addrs ctx → q ∈ dom (boxes st)) as Hin.
  { destruct Hz as (Hr & Hc & _).
    assert (∀ par u q, repr (boxes st) par u → q ∈ addrs u → q ∈ dom (boxes st)) as Ht.
    { intros par u q. revert par. induction u as [|c a k v l IHl r IHr]; intros par; simpl; [set_solver|].
      intros (Ha & Hl & Hr') Hq. apply elem_of_cons in Hq as [->|Hq]; [by apply elem_of_dom|].
      apply elem_of_app in Hq as [Hq|Hq]; eauto. }
    intros q [Hq|Hq]%elem_of_app; [by eapply Ht|]. clear Hr Hnd. revert Hc Hq. generalize (ptr t).
    induction ctx as [|[s c a k v sib] ctx IH]; intros p; simpl; [set_solver|].
    intros (Ha & Hs & Hc) Hq. apply elem_of_cons in Hq as [->|Hq]; [by apply elem_of_dom|].
    apply elem_of_app in Hq as [Hq|Hq]; eauto. }
  rewrite <-length_app, <-size_dom.
  rewrite <-(size_list_to_set (C:=gset Z)) by done. apply subseteq_size.
  intros q Hq. apply Hin. by rewrite elem_of_list_to_set in Hq.
Qed.

Lemma length_ctx_addrs ctx : (length ctx ≤ length (ctx_addrs ctx))%nat.
Proof. induction ctx as [|[] ctx IH]; simpl; [lia|]. rewrite length_app. lia. Qed.

Lemma set_child_L_run st p x n :
  p ≠ 0 → boxes st !! p = Some n → set_left p x st = Ret ((), upd (with_child L x) p st).
Proof. apply (set_child_run L). Qed.
Lemma set_child_R_run st p x n :
  p ≠ 0 → boxes st !! p = Some n → set_right p x st = Ret ((), upd (with_child R x) p st).
Proof. apply (set_child_run R). Qed.

(** Hanging the new node below the leaf's parent. *)
Definition link_node (node y : Z) : M T unit :=
  if is_null y then set_root node
  else
    o ← NodePtr_cmp node y;
    match o with
    | Lt => set_left y node
    | _ => set_right y node
    end.

Lemma link_node_run st ctx addr nd s c p k' v' (sib : tree) :
  addr ≠ p → p ≠ 0 → boxes st !! addr = Some nd →
  boxes st !! p = Some (mkN s c 0 (ptr sib) (up ctx) k' v') → (klt (key nd) k' ↔ s = L) →
  link_node addr p st = Ret ((), upd (with_child s addr) p st).
Proof.
  intros Hap Hp0 Hnd Hp Hs. unfold link_node, is_null. rewrite (proj2 (Z.eqb_neq p 0)) by done.
  assert (key (mkN s c 0 (ptr sib) (up ctx) k' v' : RBTreeNode K V) = k') as Hk by (by destruct s).
  erewrite M_bind_run.
  2:{ unfold NodePtr_cmp. erewrite M_bind_run by (by apply box_at_run).
      erewrite M_bind_run by (by apply box_at_run). reflexivity. }
  rewrite Hk. unfold klt in Hs. destruct s.
  - rewrite (proj2 Hs eq_refl). by eapply set_child_L_run.
  - assert (cmp (key nd) k' ≠ Lt) as Hn by (intros E; by apply Hs in E).
    destruct (cmp (key nd) k'); [|done|]; by eapply set_child_R_run.
Qed.

Lemma attach_spec st ctx addr k v :
  zrepr (boxes st) (root st) ctx Leaf → addr ∉ ctx_addrs ctx → addr ≠ 0 →
  boxes st !! addr = Some (mkRBNode Black 0 0 0 k v) →
  match ctx with [] => True | Fr s _ _ k' _ _ :: _ => klt k k' ↔ s = L end →
  ∃ st', (set_parent addr (up ctx);; link_node addr (up ctx);; set_red_color addr) st = Ret ((), st') ∧
    zrepr (boxes st') (root st') ctx (Node Red addr k v Leaf Leaf) ∧
    len st' = len st ∧ dom (boxes st') = dom (boxes st).
Proof.
  intros (_ & Hc & Hnd & H0) Hna Ha0 Ha Hs. simpl in Hnd, H0, Hc.
  rb_step. set (st1 := upd (with_parent (up ctx)) addr st).
  assert (boxes st1 !! addr = Some (mkRBNode Black 0 0 (up ctx) k v)) as Ha1 by (subst st1; by box_simpl).
  assert (∀ q, q ≠ addr → boxes st1 !! q = boxes st !! q) as Ho by (intros; subst st1; by box_simpl).
  set (st2 := match ctx with
              | [] => with_root addr st1
              | Fr s _ p _ _ _ :: _ => upd (with_child s addr) p st1
              end).
  assert (link_node addr (up ctx) st1 = Ret ((), st2)) as Hlink.
  { subst st2. destruct ctx as [|[s c p k' v' sib] ctx]; [done|]. destruct Hc as (Hp & _ & _).
    simpl in Hna, H0. rewrite not_elem_of_cons in Hna, H0.
    eapply link_node_run; [naive_solver|naive_solver|exact Ha1| |done].
    rewrite Ho by naive_solver. exact Hp. }
  assert (boxes st2 !! addr = Some (mkRBNode Black 0 0 (up ctx) k v)) as Ha2.
  { subst st2. destruct ctx as [|[s c p k' v' sib] ctx]; [done|].
    simpl in Hna. rewrite not_elem_of_cons in Hna. rewrite upd_lookup, decide_False by naive_solver. done. }
  rewrite (M_bind_run _ _ _ _ _ Hlink).
  exists (upd (with_color Red) addr st2). split_and!.
  - by eapply set_color_run.
  - split_and!.
    + cbn [repr ptr]. by rewrite upd_lookup, decide_True, Ha2 by done.
    + cbn [ptr]. apply (repr_ctx_hole (boxes st) _ (root st) _ ctx 0 addr); [done|done| |].
      * intros q Hq Hqu. assert (q ≠ addr) by (by intros ->).
        rewrite upd_lookup, decide_False by done. subst st2.
        destruct ctx as [|[s c p k' v' sib] ctx]; [by apply not_elem_of_nil in Hq|].
        rewrite upd_lookup, decide_False, Ho by done. done.
      * subst st2. destruct ctx as [|[s c p k' v' sib] ctx]; [done|]. split; [done|].
        destruct Hc as (Hp & _ & _). simpl in Hna. rewrite not_elem_of_cons in Hna.
        rewrite upd_lookup, decide_False, upd_lookup, decide_True, Ho, Hp by naive_solver.
        cbn. by autorewrite with rbnode.
    + simpl. by apply NoDup_cons.
    + simpl. set_solver + H0 Ha0.
  - subst st2. by destruct ctx as [|[]].
  - rewrite dom_upd. subst st2. by destruct ctx as [|[]]; rewrite ?boxes_with_root, ?dom_upd; subst st1; rewrite ?dom_upd.
Qed.

(** The whole invariant: a binary search tree in memory, sorted, red-black. *)
Definition rb_inv (st : T) (t : tree) : Prop :=
  is_tree st t ∧ sorted (elems t) ∧ tcolor t = Black ∧ (∃ n, rbt t n) ∧
  len st = usize_wrap (Z.of_nat (length (elems t))).

Lemma zrepr_insert_fresh st ctx t addr n :
  zrepr (boxes st) (root st) ctx t → boxes st !! addr = None →
  addr ∉ addrs t ++ ctx_addrs ctx ∧
  zrepr (<[addr := n]> (boxes st)) (root st) ctx t.
Proof.
  intros Hz Hn. pose proof Hz as (Hr & Hc & Hnd & H0).
  assert (addr ∉ addrs t ++ ctx_addrs ctx) as Hna.
  { intros Hin. assert (∀ par u, repr (boxes st) par u → addr ∉ addrs u) as Ht.
    { intros par u. revert par. induction u as [|c a k v l IHl r IHr]; intros par; simpl; [set_solver|].
      intros (Ha & Hl & Hr'). rewrite not_elem_of_cons, not_elem_of_app.
      split_and!; [intros ->; congruence|by eapply IHl|by eapply IHr]. }
    apply elem_of_app in Hin as [Hin|Hin]; [by eapply Ht|]. revert Hc Hin. generalize (ptr t).
    clear Hz Hr Hnd H0. induction ctx as [|[s c a k v sib] ctx IH]; intros p; simpl; [set_solver|].
    intros (Ha & Hs & Hc). rewrite elem_of_cons, elem_of_app. intros [->|[Hin|Hin]].
    - congruence.
    - by eapply Ht.
    - by eapply IH. }
  split; [done|]. rewrite not_elem_of_app in Hna. split_and!; try done.
  - apply (repr_frame (boxes st)); [done|]. intros q Hq. rewrite lookup_insert_ne; [done|].
    intros ->. naive_solver.
  - apply (repr_ctx_frame (boxes st)); [done|]. intros q Hq. rewrite lookup_insert_ne; [done|].
    intros ->. naive_solver.
Qed.

Lemma insert_spec st t addr k v :
  rb_inv st t → addr ≠ 0 → boxes st !! addr = None →
  ∃ st' t' l1 l2, RBTree_insert addr k v st = Ret ((), st') ∧ rb_inv st' t' ∧
    elems t = l1 ++ l2 ∧ elems t' = l1 ++ (addr, k, v) :: l2 ∧
    Forall (λ e, kle (ekey e) k) l1 ∧ Forall (λ e, klt k (ekey e)) l2 ∧
    dom (boxes st') = {[addr]} ∪ dom (boxes st).
Proof.
  intros (Hz & Hs & Hb & (n & Hrb) & Hlen) Ha0 Hfresh.
  set (nd := mkRBNode Black 0 0 0 k v).
  destruct (zrepr_insert_fresh st [] t addr nd Hz Hfresh) as [Hna Hz1].
  set (st1 := mkRBTree (<[addr := nd]> (boxes st)) (root st) (uadd (len st) 1)).
  assert (boxes st1 !! addr = Some nd) as Hnd by (subst st1; simpl; by simplify_map_eq).
  pose proof (addrs_size st1 [] t Hz1) as Hsize. cbn [length ctx_addrs] in Hsize.
  destruct (insert_descend_spec (fuel_of st1) st1 [] t addr nd) as (ctx & Hrun & Hplug & Hl & Hr & Hside);
    [done|done|done|unfold fuel_of; lia|constructor|constructor|done|].
  assert (zrepr (boxes st1) (root st1) ctx Leaf) as Hz2.
  { apply zrepr_plug. rewrite Hplug. exact Hz1. }
  assert (addr ∉ ctx_addrs ctx) as Hna2.
  { destruct (zrepr_insert_fresh st ctx Leaf addr nd) as [Hn _]; [|done|done].
    apply zrepr_plug. rewrite Hplug. done. }
  destruct (attach_spec st1 ctx addr k v) as (st2 & Hrun2 & Hz3 & Hlen2 & Hdom2); try done.
  assert (rbt (plug Leaf ctx) n ∧ tcolor (plug Leaf ctx) = Black) as [Hrb' Hb'] by (by rewrite Hplug).
  destruct (unplug_rbt ctx Leaf n Hrb' Hb') as (n0 & Hn0 & Hok & _).
  simpl in Hn0. subst n0.
  pose proof (addrs_size _ _ _ Hz3) as Hsize3. pose proof (length_ctx_addrs ctx).
  destruct (insert_fixup_spec st2 ctx (Node Red addr k v Leaf Leaf) 0)
    as (st3 & t3 & n3 & Hrun3 & Hz4 & Hb3 & Hrb3 & Hel & Hlen3 & Hdom3);
    [done|done|done|done|unfold fuel_of; lia|].
  assert (elems t = ctx_l ctx ++ ctx_r ctx) as El.
  { change (elems t) with (elems (plug t [])). rewrite <-Hplug, elems_plug. done. }
  assert (elems t3 = ctx_l ctx ++ (addr, k, v) :: ctx_r ctx) as El3 by (by rewrite Hel, elems_plug).
  exists st3, t3, (ctx_l ctx), (ctx_r ctx). split_and!; try done.
  - unfold RBTree_insert. rewrite (M_bind_run _ _ _ _ _ eq_refl).
    erewrite M_bind_run by reflexivity. rb_step.
    assert (root (mkRBTree (<[addr:=nd]> (boxes st)) (root st) (uadd (len st) 1)) = ptr t) as Hroot by (by destruct Hz as (_ & ? & _)).
    cbn [boxes root len]. fold nd. fold st1. rewrite (M_bind_run _ _ _ _ _ eq_refl).
    replace (root st) with (ptr t). rewrite (M_bind_run _ _ _ _ _ Hrun).
    fold (link_node addr (up ctx)).
    destruct (M_bind_inv _ _ _ _ _ Hrun2) as ([] & s1 & E1 & Hrun2').
    destruct (M_bind_inv _ _ _ _ _ Hrun2') as ([] & s2 & E2 & E3).
    by rewrite (M_bind_run _ _ _ _ _ E1), (M_bind_run _ _ _ _ _ E2), (M_bind_run _ _ _ _ _ E3).
  - split_and!; try done.
    + rewrite El3. rewrite El in Hs. apply sorted_app in Hs as (Hs1 & Hs2 & Hs12).
      apply sorted_app. split_and!; [done| |].
      * constructor; [done|]. eapply Forall_impl; [exact Hr|]. intros e He. by apply klt_le.
      * intros e f He [->|Hf]%elem_of_cons; [|by apply Hs12].
        rewrite Forall_forall in Hl. by apply Hl.
    + by exists n3.
    + rewrite Hlen3, Hlen2, El3. subst st1; simpl. rewrite Hlen, El, !length_app. simpl.
      unfold uadd, usize_wrap. rewrite Z.add_mod_idemp_l by lia. f_equal. lia.
  - rewrite Hdom3, Hdom2. subst st1; simpl. by rewrite dom_insert_L.
Qed.

Lemma find_node_loop_spec fuel st ctx t k :
  zrepr (boxes st) (root st) ctx t → t ≠ Leaf → sorted (elems t) → (length (addrs t) ≤ fuel)%nat →
  ∃ p, find_node_loop fuel k (ptr t) st = Ret (p, st) ∧
    ((p = 0 ∧ ∀ e, e ∈ elems t → ekey e ≠ k) ∨ (p ≠ 0 ∧ ∃ v, (p, k, v) ∈ elems t)).
Proof.
  revert fuel ctx. induction t as [|c a k' v l IHl r IHr]; intros fuel ctx Hz Hnl Hs Hf; [done|].
  simpl in Hf. rewrite length_app in Hf. destruct fuel as [|fuel]; [lia|].
  destruct (node_run _ _ _ _ _ _ _ _ Hz) as [Ha0 Ha].
  cbn [find_node_loop ptr]. erewrite M_bind_run by (by apply box_at_run). cbn [key left right].
  assert (zrepr (boxes st) (root st) (Fr L c a k' v r :: ctx) l) as Hzl by (by apply zrepr_up).
  assert (zrepr (boxes st) (root st) (Fr R c a k' v l :: ctx) r) as Hzr by (by apply zrepr_up).
  simpl in Hs. apply sorted_mid in Hs as (Hlo & Hhi & Hsl & Hsr).
  rewrite Forall_forall in Hlo, Hhi. unfold ekey in Hlo, Hhi; simpl in Hlo, Hhi.
  destruct (cmp k k') eqn:E.
  - apply cmp_eq in E as <-. exists a. split; [done|]. right. split; [done|]. exists v. simpl. set_solver +.
  - rewrite (zrepr_null _ _ _ Hzl).
    assert (∀ e, e ∈ (a, k', v) :: elems r → ekey e ≠ k) as Hno.
    { intros e He ->%eq_sym. apply elem_of_cons in He as [->|He].
      - by apply klt_irrefl in E.
      - apply (klt_irrefl (ekey e)). by eapply klt_kle_trans; [exact E|apply Hhi]. }
    case_bool_decide as El.
    + exists 0. split; [done|]. left. split; [done|]. simpl. rewrite El. simpl. exact Hno.
    + destruct (IHl fuel _ Hzl El Hsl ltac:(lia)) as (p & Hrun & [[-> Hn]|[Hp [v' Hin]]]).
      * exists 0. split; [done|]. left. split; [done|]. intros e. simpl. rewrite elem_of_app.
        intros [He|He]; auto.
      * exists p. split; [done|]. right. split; [done|]. exists v'. simpl. set_solver + Hin.
  - rewrite (zrepr_null _ _ _ Hzr). apply cmp_gt_lt in E.
    assert (∀ e, e ∈ elems l ++ [(a, k', v)] → ekey e ≠ k) as Hno.
    { intros e He ->%eq_sym. apply elem_of_app in He as [He|He%list_elem_of_singleton].
      - apply (klt_irrefl (ekey e)). eapply kle_klt_trans; [by apply Hlo|exact E].
      - subst e. by apply klt_irrefl in E. }
    case_bool_decide as Er.
    + exists 0. split; [done|]. left. split; [done|]. simpl. rewrite Er. simpl. exact Hno.
    + destruct (IHr fuel _ Hzr Er Hsr ltac:(lia)) as (p & Hrun & [[-> Hn]|[Hp [v' Hin]]]).
      * exists 0. split; [done|]. left. split; [done|]. intros e. simpl.
        replace (elems l ++ (a, k', v) :: elems r) with ((elems l ++ [(a, k', v)]) ++ elems r)
          by (by rewrite <-app_assoc).
        rewrite elem_of_app. intros [He|He]; auto.
      * exists p. split; [done|]. right. split; [done|]. exists v'. simpl. set_solver + Hin.
Qed.

(** [find_node] finds a node with the key, or null exactly when there is none. *)
Lemma find_node_spec st t k :
  rb_inv st t →
  ∃ p, find_node k st = Ret (p, st) ∧
    ((p = 0 ∧ ∀ e, e ∈ elems t → ekey e ≠ k) ∨ (p ≠ 0 ∧ ∃ v, (p, k, v) ∈ elems t)).
Proof.
  intros (Hz & Hs & _). unfold find_node. rb_step.
  pose proof Hz as (_ & Hroot & _). simpl in Hroot. rewrite Hroot.
  rewrite (zrepr_null _ _ _ Hz). case_bool_decide as El.
  { exists 0. split; [done|]. left. split; [done|]. rewrite El. set_solver +. }
  rewrite (M_bind_run _ _ _ _ _ eq_refl). apply (find_node_loop_spec _ st []); try done.
  pose proof (addrs_size _ _ _ Hz). unfold fuel_of. lia.
Qed.

(** ** Bounds *)

(** Is the entry at or beyond the bound? *)
Definition at_bound (k : K) (strict : bool) (e : Z * K * V) : bool :=
  match cmp k (ekey e) with Lt => true | Eq => negb strict | Gt => false end.

Definition first_addr (l : list (Z * K * V)) (d : Z) : Z :=
  match l with [] => d | e :: _ => e.1.1 end.

Notation beyond k strict l := (filter (λ e, at_bound k strict e = true) l).

Lemma at_bound_mono k strict e f :
  entry_le e f → at_bound k strict e = true → at_bound k strict f = true.
Proof.
  unfold at_bound, entry_le. intros Hle.
  destruct (cmp k (ekey e)) eqn:E; [|intros _|done].
  - intros ->. apply cmp_eq in E as ->. destruct (cmp (ekey e) (ekey f)) eqn:E2; try done.
  - assert (klt k (ekey f)) as -> by (eapply klt_kle_trans; [exact E|done]). done.
Qed.

Lemma bound_loop_spec fuel st ctx t k strict found :
  zrepr (boxes st) (root st) ctx t → t ≠ Leaf → sorted (elems t) → (length (addrs t) ≤ fuel)%nat →
  bound_loop fuel k strict (ptr t) found st = Ret (first_addr (beyond k strict (elems t)) found, st).
Proof.
  revert fuel ctx found. induction t as [|c a k' v l IHl r IHr]; intros fuel ctx found Hz Hnl Hs Hf; [done|].
  simpl in Hf. rewrite length_app in Hf. destruct fuel as [|fuel]; [lia|].
  destruct (node_run _ _ _ _ _ _ _ _ Hz) as [Ha0 Ha].
  cbn [bound_loop ptr]. erewrite M_bind_run by (by apply box_at_run). cbn [key left right].
  assert (zrepr (boxes st) (root st) (Fr L c a k' v r :: ctx) l) as Hzl by (by apply zrepr_up).
  assert (zrepr (boxes st) (root st) (Fr R c a k' v l :: ctx) r) as Hzr by (by apply zrepr_up).
  simpl in Hs. apply sorted_mid in Hs as (Hlo & Hhi & Hsl & Hsr). rewrite Forall_forall in Hlo.
  assert ((match cmp k k' with Gt => true | Eq => strict | Lt => false end)
          = negb (at_bound k strict (a, k', v))) as ->.
  { unfold at_bound, ekey; simpl. destruct (cmp k k'); simpl; by rewrite ?negb_involutive. }
  cbn [elems]. rewrite filter_app.
  destruct (at_bound k strict (a, k', v)) eqn:Ex; cbn [negb].
  - rewrite filter_cons_True by done. rewrite (zrepr_null _ _ _ Hzl).
    case_bool_decide as El.
    + rewrite El. done.
    + rewrite (IHl fuel _ a Hzl El Hsl ltac:(lia)). by destruct (beyond k strict (elems l)).
  - rewrite filter_cons_False by (by rewrite Ex).
    assert (beyond k strict (elems l) = []) as ->.
    { destruct (beyond k strict (elems l)) as [|e es] eqn:Ef; [done|].
      assert (e ∈ beyond k strict (elems l)) as [He Hin]%list_elem_of_filter by (rewrite Ef; set_solver +).
      rewrite (at_bound_mono k strict e (a, k', v)) in Ex; [done|by apply Hlo|done]. }
    rewrite (zrepr_null _ _ _ Hzr). case_bool_decide as Er.
    + rewrite Er. done.
    + by rewrite (IHr fuel _ found Hzr Er Hsr ltac:(lia)).
Qed.

Lemma bound_spec st t k strict :
  rb_inv st t → bound k strict st = Ret (first_addr (beyond k strict (elems t)) 0, st).
Proof.
  intros (Hz & Hs & _). unfold bound. rb_step.
  pose proof Hz as (_ & Hroot & _). simpl in Hroot. rewrite Hroot.
  rewrite (zrepr_null _ _ _ Hz). case_bool_decide as El; [by rewrite El|].
  rewrite (M_bind_run _ _ _ _ _ eq_refl). apply (bound_loop_spec _ st []); try done.
  pose proof (addrs_size _ _ _ Hz). unfold fuel_of. lia.
Qed.

(** The entries at or beyond a bound are a suffix. *)
Lemma beyond_suffix k strict l : sorted l →
  ∃ l1, l = l1 ++ beyond k strict l ∧ Forall (λ e, at_bound k strict e = false) l1.
Proof.
  induction l as [|e l IH]; intros Hs; [by exists []|].
  destruct (at_bound k strict e) eqn:E.
  - exists []. split; [|constructor]. rewrite filter_cons_True by done. simpl. f_equal. symmetry.
    apply list_filter_keep.
    intros f Hf. apply StronglySorted_inv in Hs as [_ He]. rewrite Forall_forall in He.
    by eapply at_bound_mono; [apply He|].
  - destruct IH as (l1 & Hl & Hf); [by apply StronglySorted_inv in Hs as [? _]|].
    exists (e :: l1). rewrite filter_cons_False by (by rewrite E). simpl. split; [by f_equal|by constructor].
Qed.

(** ** Successors and iteration *)

Lemma min_node_loop_spec fuel st ctx t d :
  zrepr (boxes st) (root st) ctx t → t ≠ Leaf → (length (addrs t) ≤ fuel)%nat →
  min_node_loop fuel (ptr t) st = Ret (first_addr (elems t) d, st).
Proof.
  revert fuel ctx d. induction t as [|c a k v l IHl r IHr]; intros fuel ctx d Hz Hnl Hf; [done|].
  simpl in Hf. rewrite length_app in Hf. destruct fuel as [|fuel]; [lia|].
  destruct (node_run _ _ _ _ _ _ _ _ Hz) as [Ha0 Ha]. cbn [min_node_loop ptr].
  assert (zrepr (boxes st) (root st) (Fr L c a k v r :: ctx) l) as Hzl by (by apply zrepr_up).
  assert (get_left a st = Ret (ptr l, st)) as Hg by (by eapply (get_child_run L) in Ha).
  rewrite (M_bind_run _ _ _ _ _ Hg), (zrepr_null _ _ _ Hzl).
  case_bool_decide as El; [by rewrite El|].
  rewrite (M_bind_run _ _ _ _ _ Hg), (IHl fuel _ d Hzl El ltac:(lia)).
  simpl. destruct l as [|cl al kl vl ll lr]; [done|]. simpl. by destruct (elems ll).
Qed.

Lemma next_loop_spec fuel st ctx t :
  zrepr (boxes st) (root st) ctx t → t ≠ Leaf → (length ctx < fuel)%nat →
  next_loop fuel (ptr t) st = Ret (first_addr (ctx_r ctx) 0, st).
Proof.
  revert fuel t. induction ctx as [|[s c a k v sib] ctx IH]; intros fuel t Hz Hnl Hf;
    (destruct fuel as [|fuel]; [simpl in Hf; lia|]); cbn [next_loop].
  { rewrite (M_bind_run _ _ _ _ _ (parent_run _ _ _ Hz Hnl)). done. }
  rewrite (M_bind_run _ _ _ _ _ (parent_run _ _ _ Hz Hnl)). cbn [up frame_addr].
  pose proof Hz as (_ & (Ha & _ & _) & Hnd & H0).
  assert (a ≠ 0) as Ha0 by (intros ->; simpl in H0; set_solver + H0).
  unfold is_null. rewrite (proj2 (Z.eqb_neq a 0)) by done.
  assert (is_left_child (ptr t) st = Ret (bool_decide (s = L), st)) as Hlc.
  { unfold is_left_child. rewrite (M_bind_run _ _ _ _ _ (parent_run _ _ _ Hz Hnl)). cbn [up frame_addr].
    rewrite (M_bind_run _ _ _ _ _ (get_child_run L st a _ Ha0 Ha)). unfold mret, M_ret. do 2 f_equal.
    destruct s; simpl; [by rewrite Z.eqb_refl|]. apply Z.eqb_neq. intros E.
    destruct sib; simpl in *; [|].
    - destruct t; [done|]. simpl in *. subst. set_solver + H0.
    - destruct t; [done|]. simpl in *. subst. apply NoDup_cons in Hnd as [Hnd _]. set_solver + Hnd. }
  rewrite (M_bind_run _ _ _ _ _ Hlc). case_bool_decide as Hs.
  - subst s. by rewrite (parent_run _ _ _ Hz Hnl).
  - destruct s; [done|]. rewrite (M_bind_run _ _ _ _ _ (parent_run _ _ _ Hz Hnl)). cbn [up frame_addr].
    apply zrepr_up in Hz. rewrite <-(ptr_mkT R c a k v t sib). simpl in Hf.
    rewrite (IH fuel (mkT R c a k v t sib)); [done|done|done|lia].
Qed.

Lemma NodePtr_next_spec st ctx c a k v l r :
  zrepr (boxes st) (root st) ctx (Node c a k v l r) →
  NodePtr_next a st = Ret (first_addr (elems r ++ ctx_r ctx) 0, st).
Proof.
  intros Hz. destruct (node_run _ _ _ _ _ _ _ _ Hz) as [Ha0 Ha]. unfold NodePtr_next.
  assert (zrepr (boxes st) (root st) (Fr R c a k v l :: ctx) r) as Hzr by (by apply zrepr_up).
  assert (get_right a st = Ret (ptr r, st)) as Hg by (by eapply (get_child_run R) in Ha).
  rewrite (M_bind_run _ _ _ _ _ Hg), (zrepr_null _ _ _ Hzr).
  pose proof (addrs_size _ _ _ Hz) as Hsz. pose proof (length_ctx_addrs ctx).
  simpl in Hsz. rewrite length_app in Hsz.
  case_bool_decide as Er; cbn [negb].
  - rewrite Er. cbn [elems app]. rewrite (M_bind_run _ _ _ _ _ eq_refl).
    apply (next_loop_spec _ st ctx (Node c a k v l r)); [done|done|]. unfold fuel_of. lia.
  - rewrite (M_bind_run _ _ _ _ _ Hg). unfold min_node. rewrite (M_bind_run _ _ _ _ _ eq_refl).
    rewrite (min_node_loop_spec _ st _ r (first_addr (ctx_r ctx) 0) Hzr Er) by (unfold fuel_of; lia).
    by destruct (elems r).
Qed.

(** The zipper at a given entry. *)
Lemma locate t ctx l1 a k v l2 :
  elems t = l1 ++ (a, k, v) :: l2 →
  ∃ c l r ctx', plug (Node c a k v l r) ctx' = plug t ctx ∧ elems r ++ ctx_r ctx' = l2 ++ ctx_r ctx.
Proof.
  revert ctx l1 l2. induction t as [|c a' k' v' l IHl r IHr]; intros ctx l1 l2 E; simpl in E.
  { by destruct l1. }
  apply app_eq_inv in E as [(ks & E & E2)|(ks & -> & E)].
  - destruct ks as [|x ks]; simplify_eq/=.
    + by exists c, l, r, ctx.
    + destruct (IHl (Fr L c a' k' v' r :: ctx) l1 ks) as (c1 & l' & r' & ctx' & Hp & He); [done|].
      exists c1, l', r', ctx'. split; [done|]. rewrite He. simpl. by rewrite <-app_assoc.
  - destruct ks as [|x ks]; simplify_eq/=.
    + by exists c, l, r, ctx.
    + destruct (IHr (Fr R c a' k' v' l :: ctx) ks l2) as (c1 & l' & r' & ctx' & Hp & He); [done|].
      exists c1, l', r', ctx'. split; [done|]. by rewrite He.
Qed.

Lemma IterMut_next_spec st t l1 l2 :
  is_tree st t → elems t = l1 ++ l2 →
  IterMut_next (first_addr l2 0) st =
    Ret (match l2 with [] => (None, 0) | e :: l2 => (Some e, first_addr l2 0) end, st).
Proof.
  intros Hz E. destruct l2 as [|[[a k] v] l2]; [done|].
  destruct (locate t [] l1 a k v l2 E) as (c & l & r & ctx & Hp & He).
  assert (zrepr (boxes st) (root st) ctx (Node c a k v l r)) as Hz'.
  { apply zrepr_plug. rewrite Hp. exact Hz. }
  destruct (node_run _ _ _ _ _ _ _ _ Hz') as [Ha0 Ha]. cbn [first_addr fst].
  unfold IterMut_next, is_null. rewrite (proj2 (Z.eqb_neq a 0)) by done.
  erewrite M_bind_run by (by apply box_at_run).
  rewrite (M_bind_run _ _ _ _ _ (NodePtr_next_spec _ _ _ _ _ _ _ _ Hz')).
  cbn [key value]. rewrite He. cbn [ctx_r]. by rewrite app_nil_r.
Qed.

Lemma IterMut_collect_spec fuel st t l1 l2 :
  is_tree st t → elems t = l1 ++ l2 → (length l2 < fuel)%nat →
  IterMut_collect fuel (first_addr l2 0) st = Ret (l2, st).
Proof.
  revert l1 l2. induction fuel as [|fuel IH]; intros l1 l2 Hz E Hf; [lia|].
  cbn [IterMut_collect]. rewrite (M_bind_run _ _ _ _ _ (IterMut_next_spec _ _ _ _ Hz E)).
  destruct l2 as [|e l2]; [done|].
  erewrite M_bind_run; [done|]. apply (IH (l1 ++ [e])); [done|by rewrite <-app_assoc|simpl in Hf; lia].
Qed.

Lemma iter_spec st t : rb_inv st t → RBTree_iter st = Ret (first_addr (elems t) 0, st).
Proof.
  intros (Hz & _). unfold RBTree_iter, first_child. rb_step.
  pose proof Hz as (_ & Hroot & _). simpl in Hroot. rewrite Hroot, (zrepr_null _ _ _ Hz).
  case_bool_decide as El; [by rewrite El|]. unfold min_node. rewrite (M_bind_run _ _ _ _ _ eq_refl).
  apply (min_node_loop_spec _ st []); [done|done|].
  pose proof (addrs_size _ _ _ Hz). unfold fuel_of. lia.
Qed.

Lemma lookup_spec st t k :
  rb_inv st t →
  (contains_key k st = Ret (false, st) ∧ RBTree_get k st = Ret (None, st) ∧
   RBTree_get_mut k st = Ret (None, st) ∧ ∀ e, e ∈ elems t → ekey e ≠ k) ∨
  (∃ p v, (p, k, v) ∈ elems t ∧ contains_key k st = Ret (true, st) ∧
     RBTree_get k st = Ret (Some v, st) ∧ RBTree_get_mut k st = Ret (Some p, st)).
Proof.
  intros Hi. destruct (find_node_spec st t k Hi) as (p & Hrun & [[-> Hno]|[Hp [v Hin]]]).
  - left. unfold contains_key, RBTree_get, RBTree_get_mut. rewrite !(M_bind_run _ _ _ _ _ Hrun). by split_and!.
  - right. exists p, v. unfold contains_key, RBTree_get, RBTree_get_mut, is_null.
    rewrite !(M_bind_run _ _ _ _ _ Hrun), (proj2 (Z.eqb_neq p 0)) by done.
    split_and!; try done. destruct Hi as (Hz & _).
    pose proof Hin as (l1 & l2 & E)%list_elem_of_split.
    destruct (locate t [] l1 p k v l2 E) as (c & l & r & ctx & Hp' & _).
    assert (zrepr (boxes st) (root st) ctx (Node c p k v l r)) as Hz'.
    { apply zrepr_plug. rewrite Hp'. exact Hz. }
    destruct (node_run _ _ _ _ _ _ _ _ Hz') as [_ Hb]. by erewrite M_bind_run by (by apply box_at_run).
Qed.

Lemma iteration_spec st t k fuel :
  rb_inv st t → (length (elems t) < fuel)%nat →
  (c ← lower_bound k; IterMut_collect fuel c) st =
    Ret (filter (λ e, at_bound k false e = true) (elems t), st) ∧
  (c ← upper_bound k; IterMut_collect fuel c) st =
    Ret (filter (λ e, at_bound k true e = true) (elems t), st) ∧
  (c ← RBTree_iter; IterMut_collect fuel c) st = Ret (elems t, st).
Proof.
  intros Hi Hf. pose proof Hi as (Hz & Hs & _).
  assert (∀ strict, (c ← bound k strict; IterMut_collect fuel c) st =
    Ret (beyond k strict (elems t), st)) as Hb.
  { intros strict. rewrite (M_bind_run _ _ _ _ _ (bound_spec _ _ _ _ Hi)).
    destruct (beyond_suffix k strict (elems t) Hs) as (l1 & E & _).
    apply (IterMut_collect_spec _ _ t l1); [done|done|].
    pose proof (length_filter (λ e, at_bound k strict e = true) (elems t)). lia. }
  split_and!; [apply Hb|apply Hb|].
  rewrite (M_bind_run _ _ _ _ _ (iter_spec _ _ Hi)).
  by apply (IterMut_collect_spec _ _ t []).
Qed.
(** ** Claims *)

(** C3: inserting an entry in a freshly boxed node into a well-formed tree
    terminates without fault and leaves a well-formed tree (sorted, parent and
    child pointers consistent, black root, no red node with a red child,
    equal black heights, length counted) whose entries in order are the old
    ones with the new one placed after every key up to it and before every
    larger key. *)
Theorem RBTree_insert_correct st t addr k v :
  rb_inv st t → addr ≠ 0 → boxes st !! addr = None →
  ∃ st' t' l1 l2, RBTree_insert addr k v st = Ret ((), st') ∧ rb_inv st' t' ∧
    elems t = l1 ++ l2 ∧ elems t' = l1 ++ (addr, k, v) :: l2 ∧
    Forall (λ e, kle (ekey e) k) l1 ∧ Forall (λ e, klt k (ekey e)) l2.
Proof.
  intros Hi Ha Hf. destruct (insert_spec st t addr k v Hi Ha Hf)
    as (st' & t' & l1 & l2 & ? & ? & ? & ? & ? & ? & ?).
  exists st', t', l1, l2. by split_and!.
Qed.

(** C28: look-ups are exact: [contains_key] and [get] answer [false]/[None]
    exactly when no entry has the key, and otherwise [get] returns the value
    of an entry with it and [get_mut] its node; none of them changes the
    tree. *)
Theorem RBTree_lookup_correct st t k :
  rb_inv st t →
  (contains_key k st = Ret (false, st) ∧ RBTree_get k st = Ret (None, st) ∧
   RBTree_get_mut k st = Ret (None, st) ∧ ∀ e, e ∈ elems t → ekey e ≠ k) ∨
  (∃ p v, (p, k, v) ∈ elems t ∧ contains_key k st = Ret (true, st) ∧
     RBTree_get k st = Ret (Some v, st) ∧ RBTree_get_mut k st = Ret (Some p, st)).
Proof. apply lookup_spec. Qed.

(** C27: iterating from [lower_bound k] (or [upper_bound k]) visits exactly the
    entries whose key is at least (greater than) [k], in increasing order, and
    iterating from [iter] visits all entries; the iteration ends after as
    many steps as there are entries and changes nothing. *)
Theorem RBTree_iteration_correct st t k fuel :
  rb_inv st t → (length (elems t) < fuel)%nat →
  (c ← lower_bound k; IterMut_collect fuel c) st =
    Ret (filter (λ e, at_bound k false e = true) (elems t), st) ∧
  (c ← upper_bound k; IterMut_collect fuel c) st =
    Ret (filter (λ e, at_bound k true e = true) (elems t), st) ∧
  (c ← RBTree_iter; IterMut_collect fuel c) st = Ret (elems t, st).
Proof. apply iteration_spec. Qed.

End lookup.

(** Overwriting the value of a node through a reference to it. *)
Section values.
Context {K V : Type} `{!Ord K}.
Implicit Types (st : RBTree K V) (t : @tree K V).

(** The node of an entry, and the same tree with another value in it. *)
Lemma focus_value (t : tree) l1 p (k : K) (v : V) l2 (v' : V) :
  elems t = l1 ++ (p, k, v) :: l2 →
  ∃ c l r ctx, plug (Node c p k v l r) ctx = t ∧ elems (plug (Node c p k v' l r) ctx) = l1 ++ (p, k, v') :: l2.
Proof.
  assert (∀ u ctx l1 l2, elems u = l1 ++ (p, k, v) :: l2 →
    ∃ c l r ctx', plug (Node c p k v l r) ctx' = plug u ctx ∧
      elems (plug (Node c p k v' l r) ctx') = ctx_l ctx ++ (l1 ++ (p, k, v') :: l2) ++ ctx_r ctx) as Hgen.
  { clear. induction u as [|c a' k' w l IHl r IHr]; intros ctx l1 l2 E; simpl in E; [by destruct l1|].
    apply app_eq_inv in E as [(ks & E & E2)|(ks & -> & E)].
    - destruct ks as [|x ks]; simplify_eq/=.
      + exists c, l, r, ctx. split; [done|]. rewrite elems_plug. simpl. by simplify_list_eq.
      + destruct (IHl (Fr L c a' k' w r :: ctx) l1 ks) as (c1 & l' & r' & ctx' & Hp & He); [done|].
        exists c1, l', r', ctx'. split; [done|]. rewrite He. simpl.
        by simplify_list_eq.
    - destruct ks as [|x ks]; simplify_eq/=.
      + exists c, l, r, ctx. split; [done|]. rewrite elems_plug. simpl. by simplify_list_eq.
      + destruct (IHr (Fr R c a' k' w l :: ctx) ks l2) as (c1 & l' & r' & ctx' & Hp & He); [done|].
        exists c1, l', r', ctx'. split; [done|]. rewrite He. simpl.
        by simplify_list_eq. }
  intros E. destruct (Hgen t [] l1 l2 E) as (c & l & r & ctx & Hp & He).
  exists c, l, r, ctx. split; [done|]. rewrite He. simpl. by rewrite app_nil_r.
Qed.

Lemma set_value_spec st t l1 p k v l2 (f : RBTreeNode K V → RBTreeNode K V) v' :
  rb_inv st t → elems t = l1 ++ (p, k, v) :: l2 →
  (∀ c x y q, f (mkRBNode c x y q k v) = mkRBNode c x y q k v') →
  ∃ st' t', update_box f p st = Ret ((), st') ∧ rb_inv st' t' ∧ elems t' = l1 ++ (p, k, v') :: l2.
Proof.
  intros (Hz & Hs & Hb & (n & Hrb) & Hlen) E Hf.
  destruct (focus_value t l1 p k v l2 v' E) as (c & l & r & ctx & Hp & El).
  assert (zrepr (boxes st) (root st) ctx (Node c p k v l r)) as Hz'.
  { apply zrepr_plug. rewrite Hp. exact Hz. }
  destruct (node_run _ _ _ _ _ _ _ _ Hz') as [Hp0 Hbox].
  exists (upd f p st), (plug (Node c p k v' l r) ctx). split; [by eapply update_box_run|]. split; [|done].
  destruct Hz' as ((_ & Hl & Hr) & Hc & Hnd & H0). simpl in Hnd. apply NoDup_cons in Hnd as [Hnp Hnd].
  rewrite !elem_of_app in Hnp.
  split_and!.
  - apply (proj1 (zrepr_plug _ _ ctx (Node c p k v' l r))). split_and!.
    + cbn [repr]. split_and!.
      * by rewrite upd_lookup, decide_True, Hbox by done; simpl; rewrite Hf.
      * apply (repr_frame (boxes st)); [done|]. intros q Hq. rewrite upd_lookup, decide_False; [done|]. intros ->. tauto.
      * apply (repr_frame (boxes st)); [done|]. intros q Hq. rewrite upd_lookup, decide_False; [done|]. intros ->. tauto.
    + cbn [ptr]. apply (repr_ctx_frame (boxes st)); [done|]. intros q Hq.
      rewrite upd_lookup, decide_False; [done|]. intros ->. tauto.
    + simpl. apply NoDup_cons. by rewrite !elem_of_app.
    + exact H0.
  - rewrite El. rewrite E in Hs. clear -Hs. apply sorted_app in Hs as (H1 & H2 & H3). apply sorted_app.
    apply StronglySorted_inv in H2 as [H2 H4]. split_and!; [done|by constructor|].
    intros e g He [->|Hg]%elem_of_cons; [apply (H3 e (p, k, v)); [done|set_solver +]|apply H3; [done|set_solver + Hg]].
  - rewrite <-Hp in Hb, Hrb. destruct (unplug_rbt ctx _ n Hrb Hb) as (n' & Hn & Hok & Hh & Hnil).
    destruct (plug_rbt ctx (Node c p k v' l r) n') as [_ Hpb]; [exact Hn|exact Hok|exact Hh|].
    destruct ctx as [|fr ctx]; [by apply Hnil|by apply Hpb].
  - rewrite <-Hp in Hb, Hrb. destruct (unplug_rbt ctx _ n Hrb Hb) as (n' & Hn & Hok & Hh & Hnil).
    destruct (plug_rbt ctx (Node c p k v' l r) n') as [Hpr _]; [exact Hn|exact Hok|exact Hh|done].
  - rewrite El. simpl. rewrite Hlen, E, !length_app. done.
Qed.
End values.

Lemma RBTree_new_inv {K V} `{!Ord K} : rb_inv (RBTree_new (K:=K) (V:=V)) Leaf.
Proof.
  split_and!; try done.
  - split_and!; try done; simpl; [constructor|set_solver +].
  - constructor.
  - by exists 0%nat.
Qed.

(** A tree of three entries, and the insertion of a fourth. *)
Definition demo_rb : RBTree Z Z :=
  mkRBTree (list_to_map [(8, mkRBNode Black 16 24 0 5 50); (16, mkRBNode Red 0 0 8 3 30);
                         (24, mkRBNode Red 0 0 8 9 90)]) 8 3.
Definition demo_rb_tree : tree :=
  Node Black 8 5 50 (Node Red 16 3 30 Leaf Leaf) (Node Red 24 9 90 Leaf Leaf).

Lemma demo_rb_inv : rb_inv demo_rb demo_rb_tree.
Proof.
  split_and!; try reflexivity.
  - split_and!; [repeat split; reflexivity|reflexivity|by apply (bool_decide_unpack _)..].
  - repeat constructor; intros [=].
  - exists 1%nat. repeat split; reflexivity.
Qed.

Lemma RBTree_insert_correct_witness :
  ∃ st' t' l1 l2, RBTree_insert 32 7 70 demo_rb = Ret ((), st') ∧ rb_inv st' t' ∧
    elems demo_rb_tree = l1 ++ l2 ∧ elems t' = l1 ++ (32, 7, 70) :: l2 ∧
    Forall (λ e, kle (ekey e) 7) l1 ∧ Forall (λ e, klt 7 (ekey e)) l2.
Proof.
  apply (RBTree_insert_correct demo_rb demo_rb_tree 32 7 70); [apply demo_rb_inv|lia|reflexivity].
Defined.

Lemma RBTree_lookup_correct_witness :
  RBTree_get 9 demo_rb = Ret (Some 90, demo_rb) ∧
  ((contains_key 4 demo_rb = Ret (false, demo_rb) ∧ RBTree_get 4 demo_rb = Ret (None, demo_rb) ∧
    RBTree_get_mut 4 demo_rb = Ret (None, demo_rb) ∧ ∀ e, e ∈ elems demo_rb_tree → ekey e ≠ 4) ∨
   (∃ p v, (p, 4, v) ∈ elems demo_rb_tree ∧ contains_key 4 demo_rb = Ret (true, demo_rb) ∧
      RBTree_get 4 demo_rb = Ret (Some v, demo_rb) ∧ RBTree_get_mut 4 demo_rb = Ret (Some p, demo_rb))).
Proof.
  split; [reflexivity|]. apply (RBTree_lookup_correct demo_rb demo_rb_tree 4). apply demo_rb_inv.
Defined.

Lemma RBTree_iteration_correct_witness :
  (c ← lower_bound 4; IterMut_collect 4 c) demo_rb = Ret ([(8, 5, 50); (24, 9, 90)], demo_rb).
Proof.
  destruct (RBTree_iteration_correct demo_rb demo_rb_tree 4 4) as (Hl & _ & _);
    [apply demo_rb_inv|simpl; lia|]. rewrite Hl. reflexivity.
Defined.
