(* ===== verification/VmPageList.v ===== *)
(** * vm/vm_page_list.rs: the page list of a VM object

    A page list is a red-black tree of nodes of sixteen slots each.  The file
    models the slot encoding, the nodes, look-up with allocation and the
    traversal of a range, and proves them against the list of the non-empty
    slots by offset. *)

From Stdlib Require Import Sorted.
From S2P Require Import Prelude Defs Bitmap RBTree.

(** ** VmPageOrMarker *)

Record VmPageOrMarker := mkPoM { raw : Z }.

Definition K_TYPE_BITS : Z := 2.
Definition K_PAGE_TYPE : Z := 0.
Definition K_ZERO_MARKER_TYPE : Z := 1.
Definition K_REFERENCE_TYPE : Z := 2.

Definition get_type (p : VmPageOrMarker) : Z := Z.land (raw p) (BIT_MASK K_TYPE_BITS).
Definition is_empty (p : VmPageOrMarker) : bool := raw p =? K_PAGE_TYPE.
Definition is_page (p : VmPageOrMarker) : bool := negb (is_empty p) && (get_type p =? K_PAGE_TYPE).
Definition is_marker (p : VmPageOrMarker) : bool := get_type p =? K_ZERO_MARKER_TYPE.
Definition is_reference (p : VmPageOrMarker) : bool := get_type p =? K_REFERENCE_TYPE.
Definition is_page_or_ref (p : VmPageOrMarker) : bool := is_page p || is_reference p.

Definition PoM_empty : VmPageOrMarker := mkPoM K_PAGE_TYPE.
Definition PoM_marker : VmPageOrMarker := mkPoM K_ZERO_MARKER_TYPE.

Definition PoM_page (p : VmPageOrMarker) : outcome Z := if is_page p then Ret (raw p) else Panic.

Definition as_page (p : Z) : outcome VmPageOrMarker :=
  if negb (p =? 0) && (Z.land p (BIT_MASK K_TYPE_BITS) =? 0)
  then Ret (mkPoM (Z.lor p K_PAGE_TYPE)) else Panic.

(** [set_page] and [set]: the new value of the slot. *)
Definition set_page (p : VmPageOrMarker) : outcome VmPageOrMarker :=
  if is_page p then
    r ← PoM_page p;
    if Z.land r (BIT_MASK K_TYPE_BITS) =? 0 then Ret (mkPoM (Z.lor r K_PAGE_TYPE)) else Panic
  else Panic.
Definition PoM_set (p : VmPageOrMarker) : outcome VmPageOrMarker :=
  if is_page p then set_page p else Panic.
Definition set_empty : VmPageOrMarker := mkPoM K_PAGE_TYPE.

(** ** VmPageListNode *)

Record VmPageListNode := mkPLN { obj_offset : Z; slots : list VmPageOrMarker }.

Definition K_PAGE_FAN_OUT : Z := 16.

Definition VmPageListNode_new (offset : Z) : VmPageListNode :=
  mkPLN offset (replicate (Z.to_nat K_PAGE_FAN_OUT) PoM_empty).

Definition end_offset (n : VmPageListNode) : Z := uadd (obj_offset n) (umul K_PAGE_FAN_OUT PAGE_SIZE).

(** [lookup]: the slot; [lookup_mut]: a reference to it, its index. *)
Definition PLN_lookup (n : VmPageListNode) (index : Z) : outcome VmPageOrMarker :=
  if index <? K_PAGE_FAN_OUT
  then match slots n !! Z.to_nat index with Some p => Ret p | None => Panic end
  else Panic.
Definition PLN_lookup_mut (n : VmPageListNode) (index : Z) : outcome Z :=
  if index <? K_PAGE_FAN_OUT
  then match slots n !! Z.to_nat index with Some _ => Ret index | None => Panic end
  else Panic.

Section traversal.
Context {A : Type} (per_page_func : VmPageOrMarker → Z → M A (Result unit)).

(** [for i in start..end] over the slots; [k] iterations left. *)
Fixpoint node_loop (n : VmPageListNode) (k : nat) (i skew : Z) : M A (Result unit) :=
  match k with
  | O => mret (Ok ())
  | S k =>
      match slots n !! Z.to_nat i with
      | None => panic
      | Some p =>
          if is_empty p then node_loop n k (i + 1) skew
          else _ ←? per_page_func p (usub (uadd (obj_offset n) (umul i PAGE_SIZE)) skew);
               node_loop n k (i + 1) skew
      end
  end.

Definition PLN_for_every_page_in_range (n : VmPageListNode) (start_offset end_off skew : Z) :
    M A (Result unit) :=
  zx_assert (start_offset <=? end_off);;
  zx_assert (obj_offset n <=? start_offset);;
  zx_assert (end_off <=? end_offset n);;
  let start := usub start_offset (obj_offset n) / PAGE_SIZE in
  let end_ := usub end_off (obj_offset n) / PAGE_SIZE in
  node_loop n (Z.to_nat (end_ - start)) start skew.

Definition PLN_for_every_page (n : VmPageListNode) (skew : Z) : M A (Result unit) :=
  PLN_for_every_page_in_range n (obj_offset n) (end_offset n) skew.
End traversal.

(** ** VmPageList *)

Record VmPageList := mkVPL { plist : RBTree Z VmPageListNode; list_skew : Z }.

Definition VmPageList_new : VmPageList := mkVPL RBTree_new 0.

Definition MAX_SIZE : Z := ROUNDDOWN usize_max (umul (umul 2 K_PAGE_FAN_OUT) PAGE_SIZE).

Definition offset_to_node_offset (offset skew : Z) : Z :=
  ROUNDDOWN (uadd offset skew) (umul PAGE_SIZE K_PAGE_FAN_OUT).
Definition offset_to_node_index (offset skew : Z) : Z :=
  ushr (uadd offset skew) PAGE_SHIFT mod K_PAGE_FAN_OUT.

Definition on_list {A} (m : M (RBTree Z VmPageListNode) A) : M VmPageList A :=
  zoom plist (λ t s, mkVPL t (list_skew s)) m.

(** The result is a mutable reference: the node and the index of the slot.
    [addr] is where the box of a new node would be. *)
Definition lookup_or_allocate (addr offset : Z) : M VmPageList (Result (Z * Z)) :=
  self ← getS;
  let node_offset := offset_to_node_offset offset (list_skew self) in
  let index := offset_to_node_index offset (list_skew self) in
  if MAX_SIZE <=? node_offset then mret (Err OutOfRange)
  else
    b ← on_list (contains_key node_offset);
    (if negb b then on_list (RBTree_insert addr node_offset (VmPageListNode_new node_offset))
     else mret ());;
    r ← on_list (RBTree_get_mut node_offset);
    match r with
    | Some p =>
        n ← on_list (box_at p);
        match PLN_lookup_mut (value n) index with
        | Ret i => mret (Ok (p, i))
        | _ => panic
        end
    | None => panic
    end.

(** Reading and writing through such a reference. *)
Definition slot_read (ref : Z * Z) : M VmPageList VmPageOrMarker :=
  n ← on_list (box_at ref.1);
  match slots (value n) !! Z.to_nat ref.2 with Some p => mret p | None => fault end.

Definition with_slot (i : Z) (p : VmPageOrMarker) (n : RBTreeNode Z VmPageListNode) :
    RBTreeNode Z VmPageListNode :=
  mkRBNode (color n) (left n) (right n) (parent n) (key n)
    (mkPLN (obj_offset (value n)) (<[Z.to_nat i := p]> (slots (value n)))).
Definition slot_write (ref : Z * Z) (p : VmPageOrMarker) : M VmPageList unit :=
  on_list (update_box (with_slot ref.2 p) ref.1).

Section list_traversal.
Context {A : Type} (per_page_func : VmPageOrMarker → Z → M A (Result unit)).
Notation S2 := (VmPageList * A)%type.

(** The list is only read; the closure's state is threaded along. *)
Definition on_tree {B} (m : M (RBTree Z VmPageListNode) B) : M S2 B :=
  zoom (λ s, plist s.1) (λ t s, (mkVPL t (list_skew s.1), s.2)) m.
Definition on_closure {B} (m : M A B) : M S2 B := zoom snd (λ a s, (s.1, a)) m.

(** [while cur.end_offset() < end_offset], then the last node. *)
Fixpoint full_nodes (fuel : nat) (cur : VmPageListNode) (cursor start_off end_off skew : Z) :
    M S2 (Result unit) :=
  match fuel with
  | O => spin
  | S fuel =>
      if end_offset cur <? end_off then
        zx_assert (start_off <=? obj_offset cur);;
        _ ←? on_closure (PLN_for_every_page per_page_func cur skew);
        nx ← on_tree (IterMut_next cursor);
        match nx with
        | (None, _) => mret (Ok ())
        | (Some (_, _, v), cursor) => full_nodes fuel v cursor start_off end_off skew
        end
      else if obj_offset cur <? end_off then
        zx_assert (end_off <=? end_offset cur);;
        on_closure (PLN_for_every_page_in_range per_page_func cur (obj_offset cur) end_off skew)
      else mret (Ok ())
  end.

Definition for_every_page_in_range (fuel : nat) (start_offset end_off : Z) : M S2 (Result unit) :=
  self ← getS;
  let skew := list_skew self.1 in
  let start_offset := uadd start_offset skew in
  let end_off := uadd end_off skew in
  let offset := ROUNDDOWN start_offset (umul K_PAGE_FAN_OUT PAGE_SIZE) in
  c ← on_tree (lower_bound offset);
  nx ← on_tree (IterMut_next c);
  match nx with
  | (None, _) => mret (Ok ())
  | (Some (_, _, cur), c) =>
      if obj_offset cur <? start_offset then
        _ ←? on_closure (PLN_for_every_page_in_range per_page_func cur start_offset
               (Z.min end_off (end_offset cur)) skew);
        nx ← on_tree (IterMut_next c);
        match nx with
        | (None, _) => mret (Ok ())
        | (Some (_, _, cur), c) => full_nodes fuel cur c start_offset end_off skew
        end
      else full_nodes fuel cur c start_offset end_off skew
  end.
End list_traversal.

(** ** Slot encoding *)

Lemma type_mask : BIT_MASK K_TYPE_BITS = Z.ones 2.
Proof. done. Qed.

Lemma get_type_mod p : get_type p = raw p mod 4.
Proof. unfold get_type. rewrite type_mask, Z.land_ones by lia. done. Qed.

(** ** Contents of a page list *)

Definition NODE_SPAN : Z := 65536.

Lemma node_span_mul : umul PAGE_SIZE K_PAGE_FAN_OUT = 2 ^ 16 ∧ umul K_PAGE_FAN_OUT PAGE_SIZE = 2 ^ 16.
Proof. done. Qed.
Lemma MAX_SIZE_eq : MAX_SIZE = 2 ^ 64 - 2 ^ 17.
Proof. done. Qed.

(** The non-empty slots with their offsets, from [off] on. *)
Fixpoint enum_slots (off : Z) (l : list VmPageOrMarker) : list (Z * VmPageOrMarker) :=
  match l with
  | [] => []
  | p :: l => if is_empty p then enum_slots (off + 4096) l else (off, p) :: enum_slots (off + 4096) l
  end.
Definition node_pages (n : VmPageListNode) : list (Z * VmPageOrMarker) :=
  enum_slots (obj_offset n) (slots n).
Definition list_pages (es : list (Z * Z * VmPageListNode)) : list (Z * VmPageOrMarker) :=
  concat (map (λ e, node_pages e.2) es).

Definition entry_ok (e : Z * Z * VmPageListNode) : Prop :=
  obj_offset e.2 = ekey e ∧ ekey e mod NODE_SPAN = 0 ∧ 0 ≤ ekey e < MAX_SIZE ∧
  length (slots e.2) = 16%nat.

(** The invariant of a page list that holds the entries [es]. *)
Definition vpl_inv (s : VmPageList) (t : tree) : Prop :=
  rb_inv (plist s) t ∧ Forall entry_ok (elems t) ∧
  StronglySorted (λ e f : Z * Z * VmPageListNode, ekey e < ekey f) (elems t) ∧ is_usize (list_skew s).

Definition in_range (lo hi : Z) (e : Z * VmPageOrMarker) : Prop := lo ≤ e.1 < hi.
#[export] Instance in_range_dec lo hi e : Decision (in_range lo hi e).
Proof. unfold in_range. apply _. Defined.

Lemma enum_slots_app off l1 l2 :
  enum_slots off (l1 ++ l2) = enum_slots off l1 ++ enum_slots (off + 4096 * Z.of_nat (length l1)) l2.
Proof.
  revert off. induction l1 as [|p l1 IH]; intros off.
  { simpl. f_equal. lia. }
  simpl. rewrite IH. replace (off + 4096 + 4096 * Z.of_nat (length l1))
    with (off + 4096 * Z.of_nat (S (length l1))) by lia. by destruct (is_empty p).
Qed.

Lemma enum_slots_bounds off l e :
  e ∈ enum_slots off l → off ≤ e.1 < off + 4096 * Z.of_nat (length l).
Proof.
  revert off. induction l as [|p l IH]; intros off; [intros []%not_elem_of_nil|].
  simpl. destruct (is_empty p).
  - intros He%IH. lia.
  - intros [->|He%IH]%elem_of_cons; simpl; lia.
Qed.

Lemma filter_none {A} (P : A → Prop) `{!∀ x, Decision (P x)} (l : list A) :
  (∀ x, x ∈ l → ¬ P x) → filter P l = [].
Proof.
  intros Hn. destruct (filter P l) as [|x l'] eqn:E; [done|].
  assert (x ∈ filter P l) as [Hp Hin]%list_elem_of_filter by (rewrite E; set_solver +).
  by destruct (Hn x Hin).
Qed.

(** The slots [i .. i+k) of a node are its pages in that range. *)
Lemma enum_slots_slice off l i k :
  (i + k ≤ length l)%nat →
  filter (in_range (off + 4096 * Z.of_nat i) (off + 4096 * Z.of_nat (i + k))) (enum_slots off l) =
  enum_slots (off + 4096 * Z.of_nat i) (take k (drop i l)).
Proof.
  intros Hk. rewrite <-(take_drop i l) at 1. rewrite <-(take_drop k (drop i l)) at 1.
  rewrite !enum_slots_app, !filter_app, !length_take, length_drop.
  rewrite !Nat.min_l by lia.
  rewrite (filter_none _ (enum_slots off (take i l))), (filter_none _ (enum_slots _ (drop k _))).
  - rewrite app_nil_r. simpl. apply list_filter_keep. intros e He%enum_slots_bounds.
    rewrite length_take, length_drop, Nat.min_l in He by lia. unfold in_range. lia.
  - intros e He%enum_slots_bounds. unfold in_range. lia.
  - intros e He%enum_slots_bounds. rewrite length_take, Nat.min_l in He by lia. unfold in_range. lia.
Qed.

(** ** Traversals as visits of a list *)

Section visits.
Context {A : Type} (f : VmPageOrMarker → Z → M A (Result unit)).

Fixpoint visit (skew : Z) (l : list (Z * VmPageOrMarker)) : M A (Result unit) :=
  match l with
  | [] => mret (Ok ())
  | (off, p) :: l => _ ←? f p (usub off skew); visit skew l
  end.

(** Sequencing two fallible runs. *)
Definition then_ok (o : outcome (Result unit * A)) (k : A → outcome (Result unit * A)) :
    outcome (Result unit * A) :=
  match o with
  | Ret (Ok _, a) => k a
  | o => o
  end.

Lemma visit_cons skew off p l a :
  visit skew ((off, p) :: l) a = then_ok (f p (usub off skew) a) (visit skew l).
Proof. simpl. unfold bindR, mbind, M_bind. by destruct (f p (usub off skew) a) as [[[[]|e] a']| | |]. Qed.

Lemma visit_app skew l1 l2 a :
  visit skew (l1 ++ l2) a = then_ok (visit skew l1 a) (visit skew l2).
Proof.
  revert a. induction l1 as [|[off p] l1 IH]; intros a; [done|].
  rewrite <-app_comm_cons, !visit_cons. destruct (f p (usub off skew) a) as [[[[]|e] a']| | |]; simpl; auto.
Qed.

Lemma node_loop_visit n k i skew a :
  (Z.to_nat i + k ≤ length (slots n))%nat → 0 ≤ i → length (slots n) = 16%nat →
  0 ≤ obj_offset n < MAX_SIZE →
  node_loop f n k i skew a =
  visit skew (enum_slots (obj_offset n + 4096 * i) (take k (drop (Z.to_nat i) (slots n)))) a.
Proof.
  rewrite MAX_SIZE_eq. intros Hk Hi H16 Ho. revert i a Hk Hi.
  induction k as [|k IH]; intros i a Hk Hi; [done|]. cbn [node_loop].
  destruct (lookup_lt_is_Some_2 (slots n) (Z.to_nat i)) as [p Hp]; [lia|].
  rewrite Hp, (drop_S _ p) by done. cbn [take enum_slots].
  replace (obj_offset n + 4096 * i + 4096) with (obj_offset n + 4096 * (i + 1)) by lia.
  replace (S (Z.to_nat i)) with (Z.to_nat (i + 1)) by lia.
  destruct (is_empty p).
  - apply IH; lia.
  - rewrite visit_cons. change PAGE_SIZE with 4096.
    rewrite (umul_small i), (uadd_small (obj_offset n)) by (unfold is_usize; lia).
    replace (obj_offset n + i * 4096) with (obj_offset n + 4096 * i) by lia.
    unfold bindR, mbind, M_bind, then_ok.
    destruct (f p _ a) as [[[[]|e] a']| | |]; try done. apply IH; lia.
Qed.

Lemma end_offset_eq n : 0 ≤ obj_offset n < MAX_SIZE → end_offset n = obj_offset n + NODE_SPAN.
Proof.
  rewrite MAX_SIZE_eq. intros Ho. unfold end_offset. rewrite (proj2 node_span_mul).
  change NODE_SPAN with (2 ^ 16). apply uadd_small. unfold is_usize. lia.
Qed.

(** A page-aligned part of a node. *)
Lemma node_range_visit n lo hi skew a :
  0 ≤ obj_offset n < MAX_SIZE → length (slots n) = 16%nat →
  obj_offset n ≤ lo ≤ hi → hi ≤ obj_offset n + NODE_SPAN →
  lo mod 4096 = 0 → hi mod 4096 = 0 → obj_offset n mod NODE_SPAN = 0 →
  PLN_for_every_page_in_range f n lo hi skew a =
  visit skew (filter (in_range lo hi) (node_pages n)) a.
Proof.
  intros Ho H16 Hlo Hhi Hlm Hhm Hom. pose proof Ho as Ho'. rewrite MAX_SIZE_eq in Ho'.
  unfold PLN_for_every_page_in_range. unfold NODE_SPAN in *.
  rewrite (M_bind_run _ _ _ _ _ (zx_assert_true _ a (proj2 (Z.leb_le _ _) (proj2 Hlo)))).
  rewrite (M_bind_run _ _ _ _ _ (zx_assert_true _ a (proj2 (Z.leb_le _ _) (proj1 Hlo)))).
  erewrite M_bind_run.
  2:{ apply zx_assert_true, Z.leb_le. rewrite end_offset_eq by done. unfold NODE_SPAN. lia. }
  cbv zeta. change PAGE_SIZE with 4096. rewrite !usub_small by (unfold is_usize; lia).
  set (i := (lo - obj_offset n) / 4096). set (j := (hi - obj_offset n) / 4096).
  assert (lo = obj_offset n + 4096 * i ∧ hi = obj_offset n + 4096 * j ∧ 0 ≤ i ≤ j ∧ j ≤ 16) as (Ei & Ej & Hij & Hj).
  { subst i j. Z.div_mod_to_equations. lia. }
  rewrite node_loop_visit by (done || lia).
  pose proof (enum_slots_slice (obj_offset n) (slots n) (Z.to_nat i) (Z.to_nat (j - i)) ltac:(lia)) as Hs.
  assert (Z.of_nat (Z.to_nat i) = i) as E1 by lia.
  assert (Z.of_nat (Z.to_nat i + Z.to_nat (j - i)) = j) as E2 by lia.
  rewrite E1, E2, <-Ei, <-Ej in Hs. unfold node_pages. by rewrite Hs, Ei.
Qed.
End visits.

Section traversal_spec.
Context {A : Type} (f : VmPageOrMarker → Z → M A (Result unit)).
Implicit Types (s : VmPageList) (t : @tree Z VmPageListNode).

Definition lift_s (s : VmPageList) (o : outcome (Result unit * A)) :
    outcome (Result unit * (VmPageList * A)) :=
  match o with
  | Ret (r, a) => Ret (r, (s, a))
  | Panic => Panic | Fault => Fault | Spin => Spin
  end.

Lemma on_tree_run {B} (m : M (RBTree Z VmPageListNode) B) s (a : A) x :
  m (plist s) = Ret (x, plist s) → on_tree m (s, a) = Ret (x, (s, a)).
Proof. intros Hm. unfold on_tree, zoom; simpl. rewrite Hm. by destruct s. Qed.

Lemma bindR_closure (m : M A (Result unit)) (k : () → M (VmPageList * A) (Result unit)) s a g :
  (∀ a', k () (s, a') = lift_s s (g a')) →
  bindR (on_closure m) k (s, a) = lift_s s (then_ok (m a) g).
Proof.
  intros Hk. unfold bindR, mbind, M_bind, on_closure, zoom; simpl.
  destruct (m a) as [[[[]|e] a']| | |]; simpl; auto.
Qed.

Lemma on_closure_run (m : M A (Result unit)) s a : on_closure m (s, a) = lift_s s (m a).
Proof. unfold on_closure, zoom, lift_s; simpl. by destruct (m a) as [[? ?]| | |]. Qed.

Lemma node_pages_bounds (n : VmPageListNode) e :
  length (slots n) = 16%nat → e ∈ node_pages n → obj_offset n ≤ e.1 < obj_offset n + NODE_SPAN.
Proof. intros H16 He%enum_slots_bounds. rewrite H16 in He. unfold NODE_SPAN. lia. Qed.

(** The nodes after [cur] lie beyond it. *)
Lemma later_pages (e0 : Z * Z * VmPageListNode) es x :
  Forall entry_ok (e0 :: es) → StronglySorted (λ e f : Z * Z * VmPageListNode, ekey e < ekey f) (e0 :: es) →
  x ∈ list_pages es → obj_offset e0.2 + NODE_SPAN ≤ x.1.
Proof.
  intros [Hok0 Hok]%Forall_cons [_ Hlt]%StronglySorted_inv Hx.
  unfold list_pages in Hx. rewrite list_elem_of_In, in_concat in Hx. destruct Hx as (l & Hl & Hx).
  rewrite <-list_elem_of_In in Hl. rewrite <-list_elem_of_In in Hx. apply list_elem_of_fmap in Hl as (e & -> & He). rewrite Forall_forall in Hok, Hlt.
  destruct Hok0 as (E0 & M0 & _ & _). destruct (Hok e He) as (E1 & M1 & _ & H16).
  specialize (Hlt e He). apply node_pages_bounds in Hx; [|done]. unfold NODE_SPAN in *.
  Z.div_mod_to_equations. lia.
Qed.

Lemma filter_pages_ext lo lo' hi hi' (l : list (Z * VmPageOrMarker)) :
  (∀ e, e ∈ l → in_range lo hi e ↔ in_range lo' hi' e) →
  filter (in_range lo hi) l = filter (in_range lo' hi') l.
Proof.
  induction l as [|e l IH]; intros He; [done|]. rewrite !filter_cons.
  rewrite IH by (intros; apply He; set_solver). pose proof (He e ltac:(set_solver)).
  repeat case_decide; tauto.
Qed.

Lemma full_nodes_spec fuel s t l1 a0 k0 cur es lo hi a :
  vpl_inv s t → elems t = l1 ++ (a0, k0, cur) :: es → (length es < fuel)%nat →
  0 ≤ lo ≤ obj_offset cur → hi mod 4096 = 0 →
  full_nodes f fuel cur (first_addr es 0) lo hi (list_skew s) (s, a) =
  lift_s s (visit f (list_skew s) (filter (in_range lo hi) (list_pages ((a0, k0, cur) :: es))) a).
Proof.
  intros Hinv. pose proof Hinv as ((Hz & _) & Hok & Hsort & Hsk).
  revert l1 a0 k0 cur es a. induction fuel as [|fuel IH]; intros l1 a0 k0 cur es a E Hf Hlo Hhi; [lia|].
  rewrite E in Hok, Hsort. apply Forall_app in Hok as [_ Hok].
  assert (StronglySorted (λ e f : Z * Z * VmPageListNode, ekey e < ekey f) ((a0, k0, cur) :: es)) as Hsort'.
  { clear -Hsort. induction l1 as [|x l1 IH]; [done|]. apply IH. by apply StronglySorted_inv in Hsort as [? _]. }
  pose proof Hok as [(E0 & M0 & B0 & H16) _]%Forall_cons. cbn [snd ekey fst] in E0, M0, B0, H16.
  rewrite <-E0 in B0, M0. unfold list_pages; cbn [map concat snd]. rewrite filter_app.
  fold (list_pages es). cbn [full_nodes]. rewrite (end_offset_eq cur B0).
  assert (NODE_SPAN mod 4096 = 0) as HS by done. assert (0 < NODE_SPAN) as HSp by done.
  assert (obj_offset cur mod 4096 = 0) as M4.
  { unfold NODE_SPAN in M0. Z.div_mod_to_equations. lia. }
  assert (hi ≤ obj_offset cur + NODE_SPAN → filter (in_range lo hi) (list_pages es) = []) as Hlater.
  { intros Hle. apply filter_none. intros x Hx. pose proof (later_pages _ _ _ Hok Hsort' Hx) as Hb.
    simpl in Hb. unfold in_range. lia. }
  destruct (Z.ltb_spec (obj_offset cur + NODE_SPAN) hi) as [Hlt|Hge].
  - erewrite M_bind_run by (apply zx_assert_true, Z.leb_le; lia).
    rewrite visit_app. unfold PLN_for_every_page.
    rewrite end_offset_eq by done.
    erewrite (bindR_closure _ _ s a (visit f (list_skew s) (filter (in_range lo hi) (list_pages es)))).
    + f_equal. f_equal. rewrite node_range_visit; try done; try lia.
      * f_equal. apply filter_pages_ext. intros x Hx%node_pages_bounds; [|done]. unfold in_range. lia.
      * rewrite Z.add_mod, M4, HS by lia. done.
    + intros a'. assert (elems t = (l1 ++ [(a0, k0, cur)]) ++ es) as E' by (by rewrite <-app_assoc).
      rewrite (M_bind_run _ _ _ _ _ (on_tree_run _ _ _ _ (IterMut_next_spec _ _ _ _ Hz E'))).
      destruct es as [|[[a1 k1] v1] es]; [done|].
      rewrite (IH (l1 ++ [(a0, k0, cur)]) a1 k1 v1 es a'); [done|done|simpl in Hf; lia| |done].
      apply StronglySorted_inv in Hsort' as [_ [Hk1 _]%Forall_cons].
      apply Forall_cons in Hok as [_ [(E1 & _) _]%Forall_cons]. simpl in *. unfold ekey in *; simpl in *. lia.
  - rewrite Hlater, app_nil_r by done.
    destruct (Z.ltb_spec (obj_offset cur) hi) as [Hlt2|Hge2].
    + erewrite M_bind_run by (apply zx_assert_true, Z.leb_le; lia).
      rewrite on_closure_run, node_range_visit; try done; try lia.
      do 2 f_equal. apply filter_pages_ext. intros x Hx%node_pages_bounds; [|done]. unfold in_range. lia.
    + rewrite filter_none; [done|]. intros x Hx%node_pages_bounds; [|done]. unfold in_range. lia.
Qed.

Lemma list_pages_app es1 es2 : list_pages (es1 ++ es2) = list_pages es1 ++ list_pages es2.
Proof. unfold list_pages. by rewrite map_app, concat_app. Qed.

Lemma elem_of_list_pages x es :
  x ∈ list_pages es ↔ ∃ e, e ∈ es ∧ x ∈ node_pages e.2.
Proof.
  unfold list_pages. rewrite list_elem_of_In, in_concat. split.
  - intros (l & Hl & Hx). rewrite <-list_elem_of_In in Hl. rewrite <-list_elem_of_In in Hx.
    apply list_elem_of_fmap in Hl as (e & -> & He). eauto.
  - intros (e & He & Hx). exists (node_pages e.2). rewrite <-!list_elem_of_In. split; [|done].
    apply list_elem_of_fmap. eauto.
Qed.

Lemma ROUNDDOWN_node x : is_usize x → ROUNDDOWN x (umul K_PAGE_FAN_OUT PAGE_SIZE) = x - x mod NODE_SPAN.
Proof. intros Hx. rewrite (proj2 node_span_mul). apply ROUNDDOWN_spec; [done|lia]. Qed.

(** The nodes that lie before the one of [lo] hold no page of the range. *)
Lemma pages_beyond (l l1 B : list (Z * Z * VmPageListNode)) lo hi :
  let off := lo - lo mod NODE_SPAN in
  l = l1 ++ B → Forall entry_ok l → Forall (λ e, at_bound off false e = false) l1 →
  filter (in_range lo hi) (list_pages l) = filter (in_range lo hi) (list_pages B).
Proof.
  intros off -> Hok Hl1. rewrite list_pages_app, filter_app, filter_none; [done|].
  intros x (e & He & Hx)%elem_of_list_pages. rewrite Forall_forall in Hl1, Hok.
  specialize (Hl1 e He). destruct (Hok e) as (E1 & M1 & _ & H16); [set_solver + He|].
  apply node_pages_bounds in Hx; [|done]. unfold at_bound in Hl1; simpl in Hl1.
  destruct (Z.compare_spec off (ekey e)); [done|done|].
  unfold in_range, NODE_SPAN in *. subst off. Z.div_mod_to_equations. lia.
Qed.

Lemma for_every_page_spec s t lo hi fuel a :
  vpl_inv s t → 0 ≤ lo ≤ hi → hi + list_skew s < 2 ^ 64 →
  (lo + list_skew s) mod 4096 = 0 → (hi + list_skew s) mod 4096 = 0 →
  (length (elems t) < fuel)%nat →
  for_every_page_in_range f fuel lo hi (s, a) =
  lift_s s (visit f (list_skew s)
    (filter (in_range (lo + list_skew s) (hi + list_skew s)) (list_pages (elems t))) a).
Proof.
  intros Hinv Hlh Htop Hlm Hhm Hf. pose proof Hinv as (Hrb & Hok & Hsort & [Hsk0 Hsk]).
  pose proof Hrb as (Hz & Hs & _).
  unfold for_every_page_in_range. rewrite (M_bind_run _ _ _ _ _ eq_refl). cbv zeta. cbn [fst].
  rewrite (uadd_small lo), (uadd_small hi) by (unfold is_usize; lia).
  set (lo' := lo + list_skew s) in *. set (hi' := hi + list_skew s) in *.
  rewrite ROUNDDOWN_node by (unfold is_usize; lia). set (off := lo' - lo' mod NODE_SPAN).
  assert (off ≤ lo' < off + NODE_SPAN ∧ off mod NODE_SPAN = 0) as (Hoff & Hom).
  { subst off. unfold NODE_SPAN. Z.div_mod_to_equations. lia. }
  rewrite (M_bind_run _ _ _ _ _ (on_tree_run _ _ _ _ (bound_spec _ _ off false Hrb))).
  destruct (beyond_suffix off false (elems t) Hs) as (l1 & E & Hl1).
  set (B := filter (λ e, at_bound off false e = true) (elems t)) in *.
  assert (∀ e, e ∈ B → off ≤ ekey e) as HB.
  { intros e [He _]%list_elem_of_filter. unfold at_bound in He; simpl in He.
    destruct (Z.compare_spec off (ekey e)); [lia|lia|done]. }
  rewrite (pages_beyond (elems t) l1 B lo' hi' E Hok Hl1).
  rewrite (M_bind_run _ _ _ _ _ (on_tree_run _ _ _ _ (IterMut_next_spec _ _ _ _ Hz E))).
  assert (Hlen : (length B ≤ length (elems t))%nat) by (pose proof (f_equal length E) as El; rewrite length_app in El; lia).
  clearbody B. destruct B as [|[[a0 k0] cur] es]; [done|].
  rewrite E in Hok, Hsort. apply Forall_app in Hok as [_ Hok].
  assert (StronglySorted (λ e f : Z * Z * VmPageListNode, ekey e < ekey f) ((a0, k0, cur) :: es)) as Hsort'.
  { clear -Hsort. induction l1 as [|x l1 IH]; [done|]. apply IH. by apply StronglySorted_inv in Hsort as [? _]. }
  pose proof Hok as [(E0 & M0 & B0 & H16) Hok']%Forall_cons. cbn [snd ekey fst] in E0, M0, B0, H16.
  specialize (HB _ ltac:(left)). cbn [ekey fst snd] in HB. rewrite <-E0 in B0, M0, HB.
  simpl in Hlen.
  destruct (Z.ltb_spec (obj_offset cur) lo') as [Hlt|Hge].
  2:{ rewrite (full_nodes_spec fuel s t l1 a0 k0 cur es lo' hi' a); try done; lia. }
  assert (obj_offset cur = off) as Eoff.
  { unfold NODE_SPAN in *. Z.div_mod_to_equations. lia. }
  assert (NODE_SPAN mod 4096 = 0 ∧ 0 < NODE_SPAN) as [HS HSp] by done.
  assert (off mod 4096 = 0) as M4. { unfold NODE_SPAN in Hom. Z.div_mod_to_equations. lia. }
  unfold list_pages; cbn [map concat snd]. rewrite filter_app, visit_app. fold (list_pages es).
  rewrite end_offset_eq by done.
  erewrite (bindR_closure _ _ s a (visit f (list_skew s) (filter (in_range lo' hi') (list_pages es)))).
  - do 2 f_equal. rewrite node_range_visit; try done; try lia.
    + f_equal. apply filter_pages_ext. intros x Hx%node_pages_bounds; [|done]. unfold in_range. lia.
    + destruct (Z.min_spec hi' (obj_offset cur + NODE_SPAN)) as [[_ ->]|[_ ->]]; [done|].
      rewrite Z.add_mod, Eoff, M4, HS by lia. done.
  - intros a'. assert (elems t = (l1 ++ [(a0, k0, cur)]) ++ es) as E' by (by rewrite <-app_assoc).
    rewrite (M_bind_run _ _ _ _ _ (on_tree_run _ _ _ _ (IterMut_next_spec _ _ _ _ Hz E'))).
    destruct es as [|[[a1 k1] v1] es]; [done|].
    rewrite (full_nodes_spec fuel s t (l1 ++ [(a0, k0, cur)]) a1 k1 v1 es lo' hi' a'); try done.
    + simpl in Hlen. lia.
    + apply StronglySorted_inv in Hsort' as [_ [Hk1 _]%Forall_cons].
      apply Forall_cons in Hok' as [(E1 & M1 & _) _]. unfold ekey, NODE_SPAN in *; simpl in *.
      Z.div_mod_to_equations. lia.
Qed.
End traversal_spec.

(** ** Look-up with allocation, and writing a slot *)

Section slots.
Implicit Types (s : VmPageList) (t : @tree Z VmPageListNode).

Lemma on_list_run {B} (m : M (RBTree Z VmPageListNode) B) s x l' :
  m (plist s) = Ret (x, l') → on_list m s = Ret (x, mkVPL l' (list_skew s)).
Proof. intros Hm. unfold on_list, zoom. by rewrite Hm. Qed.

Lemma elem_of_enum_slots off l x q :
  (x, q) ∈ enum_slots off l ↔
  ∃ j, l !! j = Some q ∧ is_empty q = false ∧ x = off + 4096 * Z.of_nat j.
Proof.
  revert off. induction l as [|p l IH]; intros off.
  { split; [intros []%not_elem_of_nil|by intros (? & ? & _)]. }
  simpl. assert ((x, q) ∈ enum_slots (off + 4096) l ↔
    ∃ j, l !! j = Some q ∧ is_empty q = false ∧ x = off + 4096 * Z.of_nat (S j)) as Hrest.
  { rewrite IH. split; intros (j & ? & ? & ?); exists j; (split_and!; [done|done|lia]). }
  destruct (is_empty p) eqn:Ep.
  - rewrite Hrest. split.
    + intros (j & ? & ? & ?). by exists (S j).
    + intros ([|j] & Hj & ? & ?); [simpl in Hj; congruence|]. by exists j.
  - rewrite elem_of_cons, Hrest. split.
    + intros [[= -> ->]|(j & ? & ? & ?)]; [exists 0%nat; split_and!; [done|done|lia]|by exists (S j)].
    + intros ([|j] & Hj & ? & ?); [left; simpl in Hj; simplify_eq; f_equal; lia|right; by exists j].
Qed.

Lemma node_pages_new off : node_pages (VmPageListNode_new off) = [].
Proof. reflexivity. Qed.

Lemma vpl_inv_insert (s : VmPageList) t l1 l2 addr no l' t' :
  vpl_inv s t → elems t = l1 ++ l2 → rb_inv l' t' →
  elems t' = l1 ++ (addr, no, VmPageListNode_new no) :: l2 →
  Forall (λ e, kle (ekey e) no) l1 → Forall (λ e, klt no (ekey e)) l2 →
  (∀ e, e ∈ elems t → ekey e ≠ no) → no mod NODE_SPAN = 0 → 0 ≤ no < MAX_SIZE →
  vpl_inv (mkVPL l' (list_skew s)) t' ∧ list_pages (elems t') = list_pages (elems t).
Proof.
  intros (_ & Hok & Hsort & Hsk) E Hrb' E' Hle Hlt Hne Hm Hb. split.
  - split_and!; [exact Hrb'| | |exact Hsk]; rewrite E'.
    + rewrite E, Forall_app in Hok. rewrite Forall_app, Forall_cons. destruct Hok as [Hok1 Hok2].
      split_and!; try done.
    + rewrite E in Hsort, Hne. clear -Hsort Hle Hlt Hne.
      induction l1 as [|e l1 IH]; simpl in *.
      * constructor; [done|]. eapply Forall_impl; [exact Hlt|]. intros x Hx. by apply Z.compare_lt_iff.
      * apply StronglySorted_inv in Hsort as [Hsort He]. apply Forall_cons in Hle as [Hle0 Hle].
        assert (ekey e < no).
        { specialize (Hne e ltac:(set_solver +)). change (Z.compare (ekey e) no ≠ Gt) in Hle0.
          assert (ekey e ≤ no) by (by apply Z.compare_le_iff). lia. }
        constructor.
        -- apply IH; try done. intros x Hx. apply Hne. set_solver + Hx.
        -- rewrite Forall_app in He |- *. rewrite Forall_cons. naive_solver.
  - rewrite E', E, !list_pages_app. done.
Qed.

Lemma lookup_slot (s : VmPageList) t p no n i :
  vpl_inv s t → (p, no, n) ∈ elems t → 0 ≤ i < 16 →
  (n0 ← on_list (box_at p);
   match PLN_lookup_mut (value n0) i with
   | Ret i => mret (Ok (p, i)) | _ => panic
   end) s = Ret (Ok (p, i), s).
Proof.
  intros (Hrb & Hok & _) Hin Hi. pose proof Hrb as (Hz & _).
  pose proof Hin as (l1 & l2 & E)%list_elem_of_split.
  destruct (locate t [] l1 p no n l2 E) as (c & l & r & ctx & Hp' & _).
  assert (zrepr (boxes (plist s)) (root (plist s)) ctx (Node c p no n l r)) as Hz'.
  { apply zrepr_plug. rewrite Hp'. exact Hz. }
  destruct (node_run _ _ _ _ _ _ _ _ Hz') as [_ Hb].
  rewrite (M_bind_run _ _ _ _ _ (on_list_run _ _ _ _ (box_at_run _ _ _ Hb))). cbn [value].
  rewrite Forall_forall in Hok. destruct (Hok _ Hin) as (_ & _ & _ & H16). simpl in H16.
  unfold PLN_lookup_mut, K_PAGE_FAN_OUT. rewrite (proj2 (Z.ltb_lt i 16)) by lia.
  destruct (lookup_lt_is_Some_2 (slots n) (Z.to_nat i)) as [q Hq]; [lia|]. rewrite Hq.
  by destruct s.
Qed.

Lemma node_offset_facts x :
  is_usize x →
  let no := x - x mod NODE_SPAN in let i := x / 4096 mod 16 in
  no mod NODE_SPAN = 0 ∧ 0 ≤ no ∧ 0 ≤ i < 16 ∧ x - x mod 4096 = no + 4096 * i.
Proof. unfold is_usize, NODE_SPAN. intros Hx. Z.div_mod_to_equations. lia. Qed.

Lemma lookup_or_allocate_spec s t addr offset :
  vpl_inv s t → 0 ≤ offset → is_usize (offset + list_skew s) →
  addr ≠ 0 → boxes (plist s) !! addr = None →
  let x := offset + list_skew s in
  let no := x - x mod NODE_SPAN in let i := x / 4096 mod 16 in
  (MAX_SIZE ≤ no ∧ lookup_or_allocate addr offset s = Ret (Err OutOfRange, s)) ∨
  (no < MAX_SIZE ∧ ∃ p s' t' n, lookup_or_allocate addr offset s = Ret (Ok (p, i), s') ∧
     vpl_inv s' t' ∧ list_skew s' = list_skew s ∧ (p, no, n) ∈ elems t' ∧
     list_pages (elems t') = list_pages (elems t)).
Proof.
  intros Hinv Ho Hx Ha0 Hfr x no i. destruct (node_offset_facts x Hx) as (Hm & Hno0 & Hi & Hsum).
  fold no in Hm, Hno0, Hsum. fold i in Hi, Hsum.
  unfold lookup_or_allocate. rewrite (M_bind_run _ _ _ _ _ eq_refl). cbv zeta.
  assert (offset_to_node_offset offset (list_skew s) = no) as ->.
  { unfold offset_to_node_offset. rewrite uadd_small, (proj1 node_span_mul) by done.
    apply ROUNDDOWN_spec; [done|lia]. }
  assert (offset_to_node_index offset (list_skew s) = i) as ->.
  { unfold offset_to_node_index. rewrite uadd_small by done. unfold ushr.
    change (PAGE_SHIFT mod 64) with 12. rewrite Z.shiftr_div_pow2 by lia. done. }
  destruct (Z.leb_spec MAX_SIZE no) as [Hge|Hlt]; [by left|right; split; [done|]].
  pose proof Hinv as (Hrb & Hok & Hsort & Hsk).
  destruct (lookup_spec (plist s) t no Hrb) as [(Hc & _ & Hg & Hno)|(p & n & Hin & Hc & _ & Hg)].
  - rewrite (M_bind_run _ _ _ _ _ (on_list_run _ _ _ _ Hc)). cbn [negb].
    destruct (insert_spec (plist s) t addr no (VmPageListNode_new no) Hrb Ha0 Hfr)
      as (l' & t' & l1 & l2 & Hins & Hrb' & E & E' & Hle & Hltk & _).
    destruct (vpl_inv_insert s t l1 l2 addr no l' t') as [Hinv' Hpages]; try done.
    set (s1 := mkVPL (plist s) (list_skew s)).
    assert (on_list (RBTree_insert addr no (VmPageListNode_new no)) s1 =
      Ret ((), mkVPL l' (list_skew s))) as Hrun by exact (on_list_run _ s1 _ _ Hins).
    rewrite (M_bind_run _ _ _ _ _ Hrun).
    destruct (lookup_spec l' t' no Hrb') as [(_ & _ & _ & Hno')|(p & n & Hin & _ & _ & Hg')].
    { destruct (Hno' (addr, no, VmPageListNode_new no)); [rewrite E'; set_solver +|done]. }
    exists p, (mkVPL l' (list_skew s)), t', n.
    rewrite (M_bind_run _ _ _ _ _ (on_list_run _ (mkVPL l' (list_skew s)) _ _ Hg')). cbn [plist list_skew].
    split_and!; try done. by apply (lookup_slot _ t' p no n i).
  - rewrite (M_bind_run _ _ _ _ _ (on_list_run _ _ _ _ Hc)). cbn [negb].
    rewrite (M_bind_run _ _ _ _ _ eq_refl).
    rewrite (M_bind_run _ _ _ _ _ (on_list_run _ (mkVPL (plist s) (list_skew s)) _ _ Hg)). cbn [plist list_skew].
    exists p, s, t, n. replace (mkVPL (plist s) (list_skew s)) with s by (by destruct s).
    split_and!; try done. by apply (lookup_slot _ t p no n i).
Qed.

(** Two nodes of the list have disjoint offset ranges. *)
Lemma pages_apart (es : list (Z * Z * VmPageListNode)) e e' x :
  Forall entry_ok es → StronglySorted (λ e f : Z * Z * VmPageListNode, ekey e < ekey f) es →
  e ∈ es → e' ∈ es → x ∈ node_pages e'.2 → ekey e ≤ x.1 < ekey e + NODE_SPAN → e' = e.
Proof.
  intros Hok Hs He He' Hx Hr. rewrite Forall_forall in Hok.
  destruct (Hok e He) as (_ & M & _ & _), (Hok e' He') as (E' & M' & _ & H16').
  apply node_pages_bounds in Hx; [|done]. rewrite E' in Hx.
  assert (ekey e' = ekey e) as Hk by (unfold NODE_SPAN in *; Z.div_mod_to_equations; lia).
  clear -Hs He He' Hk. induction es as [|y es IH]; [by apply not_elem_of_nil in He|].
  apply StronglySorted_inv in Hs as [Hs Hy]. rewrite Forall_forall in Hy.
  apply elem_of_cons in He as [->|He], He' as [->|He']; auto.
  - specialize (Hy e' He'). lia.
  - specialize (Hy e He). lia.
Qed.

(** The pages of a node after a write to one slot. *)
Lemma node_pages_write n i q x r :
  0 ≤ i < 16 → length (slots n) = 16%nat → is_empty q = false →
  (x, r) ∈ node_pages (mkPLN (obj_offset n) (<[Z.to_nat i := q]> (slots n))) ↔
  (x = obj_offset n + 4096 * i ∧ r = q) ∨ (x ≠ obj_offset n + 4096 * i ∧ (x, r) ∈ node_pages n).
Proof.
  intros Hi H16 Hq. unfold node_pages; simpl. rewrite !elem_of_enum_slots. split.
  - intros (j & Hj & Hne & ->). destruct (decide (j = Z.to_nat i)) as [->|Hji].
    + rewrite list_lookup_insert_eq in Hj by lia. left. split; [lia|congruence].
    + rewrite list_lookup_insert_ne in Hj by done. right. split; [lia|by exists j].
  - intros [[-> ->]|[Hne (j & Hj & He & ->)]].
    + exists (Z.to_nat i). rewrite list_lookup_insert_eq by lia. split_and!; [done|done|lia].
    + exists j. rewrite list_lookup_insert_ne by lia. done.
Qed.

(** In a list with increasing keys an entry occurs once. *)
Lemma sorted_entry_once (l1 l2 : list (Z * Z * VmPageListNode)) e :
  StronglySorted (λ e f : Z * Z * VmPageListNode, ekey e < ekey f) (l1 ++ e :: l2) → e ∉ l1 ++ l2.
Proof.
  induction l1 as [|z l1 IH]; simpl; intros [Hs Hf]%StronglySorted_inv Hy.
  - rewrite Forall_forall in Hf. specialize (Hf _ Hy). simpl in Hf. lia.
  - apply elem_of_cons in Hy as [<-|Hy]; [|by apply IH]. rewrite Forall_app, Forall_cons in Hf. simpl in Hf. lia.
Qed.

Lemma slot_write_spec s t p no n i q :
  vpl_inv s t → (p, no, n) ∈ elems t → 0 ≤ i < 16 → is_empty q = false →
  ∃ s' t', slot_write (p, i) q s = Ret ((), s') ∧ vpl_inv s' t' ∧ list_skew s' = list_skew s ∧
    ∀ x r, (x, r) ∈ list_pages (elems t') ↔
      (x = no + 4096 * i ∧ r = q) ∨ (x ≠ no + 4096 * i ∧ (x, r) ∈ list_pages (elems t)).
Proof.
  intros Hinv Hin Hi Hq. pose proof Hinv as (Hrb & Hok & Hsort & Hsk).
  pose proof Hin as (l1 & l2 & E)%list_elem_of_split.
  set (n' := mkPLN (obj_offset n) (<[Z.to_nat i := q]> (slots n))).
  destruct (set_value_spec (plist s) t l1 p no n l2 (with_slot i q) n' Hrb E)
    as (l' & t' & Hrun & Hrb' & E'); [done|].
  exists (mkVPL l' (list_skew s)), t'. split; [by apply on_list_run|].
  pose proof Hok as Hok0. rewrite Forall_forall in Hok0.
  destruct (Hok0 _ Hin) as (En & Mn & Bn & H16). cbn [ekey fst snd] in En, Mn, Bn, H16.
  assert (Forall entry_ok (elems t')) as Hok'.
  { rewrite E'. rewrite E, Forall_app, Forall_cons in Hok. rewrite Forall_app, Forall_cons.
    destruct Hok as (Hok1 & _ & Hok2). split_and!; [exact Hok1| |exact Hok2].
    unfold entry_ok, ekey; subst n'; cbn [fst snd obj_offset slots]. rewrite length_insert. split_and!; first [done|lia]. }
  assert (StronglySorted (λ e f : Z * Z * VmPageListNode, ekey e < ekey f) (elems t')) as Hsort'.
  { rewrite E'. rewrite E in Hsort. clear -Hsort. induction l1 as [|y l1 IH]; simpl in *.
    - apply StronglySorted_inv in Hsort as [? ?]. by constructor.
    - apply StronglySorted_inv in Hsort as [Hs Hy]. constructor; [by apply IH|].
      rewrite Forall_app, Forall_cons in Hy |- *. tauto. }
  split; [by split_and!|]. split; [done|]. intros x r. rewrite !elem_of_list_pages.
  assert (∀ r, (x, r) ∈ node_pages n' ↔
    (x = no + 4096 * i ∧ r = q) ∨ (x ≠ no + 4096 * i ∧ (x, r) ∈ node_pages n)) as Hnode.
  { intros r'. rewrite <-En. by apply node_pages_write. }
  assert (∀ y, y ∈ l1 ++ l2 → (x, r) ∈ node_pages y.2 → x ≠ no + 4096 * i) as Hother.
  { intros y Hy Hx ->. assert (y = (p, no, n')) as ->.
    { apply (pages_apart (elems t') (p, no, n') y (no + 4096 * i, r)); try done.
      - rewrite E'. set_solver +.
      - rewrite E'. set_solver + Hy.
      - cbn [ekey fst snd]. unfold NODE_SPAN. lia. }
    rewrite E' in Hsort'. by apply (sorted_entry_once _ _ _ Hsort'). }
  rewrite E', E. split.
  - intros (y & Hy & Hx). rewrite elem_of_app, elem_of_cons in Hy.
    assert (y ∈ l1 ++ l2 ∨ y = (p, no, n')) as [Hy'| ->] by (rewrite elem_of_app; tauto).
    + right. split; [by eapply Hother|]. exists y. split; [set_solver + Hy'|done].
    + simpl in Hx. apply Hnode in Hx as [?|[? Hx]]; [by left|right]. split; [done|].
      exists (p, no, n). split; [set_solver +|done].
  - intros [[-> ->]|[Hne (y & Hy & Hx)]].
    + exists (p, no, n'). split; [set_solver +|]. apply Hnode. by left.
    + rewrite elem_of_app, elem_of_cons in Hy.
      assert (y ∈ l1 ++ l2 ∨ y = (p, no, n)) as [Hy'| ->] by (rewrite elem_of_app; tauto).
      * exists y. split; [set_solver + Hy'|done].
      * exists (p, no, n'). split; [set_solver +|]. apply Hnode. by right.
Qed.
End slots.

(** ** Claims *)

(** A slot is in exactly one of the states empty, page, marker, reference
    or an unused tag, and wrapping a non-null 4-byte aligned page pointer
    yields a page slot from which [page] returns that pointer, and which
    [set] stores unchanged; a null or misaligned pointer panics. *)
Theorem VmPageOrMarker_roundtrip p :
  is_usize p →
  (p ≠ 0 ∧ p mod 4 = 0 →
     ∃ s, as_page p = Ret s ∧ is_page s = true ∧ is_empty s = false ∧ is_marker s = false ∧
          is_reference s = false ∧ PoM_page s = Ret p ∧ PoM_set s = Ret s) ∧
  (p = 0 ∨ p mod 4 ≠ 0 → as_page p = Panic) ∧
  (let n := (if is_empty (mkPoM p) then 1 else 0) + (if is_page (mkPoM p) then 1 else 0) +
            (if is_marker (mkPoM p) then 1 else 0) + (if is_reference (mkPoM p) then 1 else 0) in
   n = if p mod 4 =? 3 then 0 else 1).
Proof.
  intros Hp. assert (Z.land p (BIT_MASK K_TYPE_BITS) = p mod 4) as El
    by (rewrite type_mask, Z.land_ones by lia; done).
  assert (is_page (mkPoM p) = negb (p =? 0) && (p mod 4 =? 0)) as Epg
    by (unfold is_page; by rewrite get_type_mod).
  assert (is_marker (mkPoM p) = (p mod 4 =? 1) ∧ is_reference (mkPoM p) = (p mod 4 =? 2)) as [Emk Erf]
    by (unfold is_marker, is_reference; by rewrite get_type_mod).
  assert (is_empty (mkPoM p) = (p =? 0)) as Eem by done.
  split_and!.
  - intros [Hn Hm]. exists (mkPoM p).
    unfold as_page, PoM_set, set_page, PoM_page. rewrite Epg, Emk, Erf, Eem, El, Hm.
    rewrite (proj2 (Z.eqb_neq p 0)) by done. cbn [negb andb Z.eqb raw mbind outcome_bind].
    rewrite El, Hm. cbn [Z.eqb]. by rewrite Z.lor_0_r.
  - unfold as_page. rewrite El. intros [->|Hm]; [done|].
    rewrite (proj2 (Z.eqb_neq _ 0) Hm). by rewrite andb_false_r.
  - pose proof (Z.mod_pos_bound p 4 ltac:(lia)). cbv zeta. rewrite Epg, Emk, Erf, Eem.
    destruct (Z.eqb_spec p 0) as [->|]; [done|]. cbn [negb andb].
    destruct (Z.eqb_spec (p mod 4) 0), (Z.eqb_spec (p mod 4) 1), (Z.eqb_spec (p mod 4) 2),
      (Z.eqb_spec (p mod 4) 3); lia.
Qed.

Lemma VmPageOrMarker_roundtrip_witness : ∃ s, as_page 0x1000 = Ret s ∧ PoM_page s = Ret 0x1000.
Proof.
  destruct (VmPageOrMarker_roundtrip 0x1000) as [Hok _]; [unfold is_usize; lia|].
  destruct Hok as (s & Has & _ & _ & _ & _ & Hpg & _); [split; [lia|reflexivity]|].
  exists s. split; [exact Has|exact Hpg].
Defined.

(** C22: storing a page: on a well-formed page list [lookup_or_allocate]
    either answers [OutOfRange], exactly for a node offset beyond [MAX_SIZE],
    leaving the list alone, or returns a slot such that writing a non-empty
    value to it gives a well-formed list with that value at the page's
    (skewed) offset and the same contents everywhere else. *)
Theorem page_list_store s t addr offset q :
  vpl_inv s t → 0 ≤ offset → is_usize (offset + list_skew s) →
  addr ≠ 0 → boxes (plist s) !! addr = None → is_empty q = false →
  let x := offset + list_skew s in
  let page := x - x mod 4096 in
  (MAX_SIZE ≤ x - x mod NODE_SPAN ∧ lookup_or_allocate addr offset s = Ret (Err OutOfRange, s)) ∨
  (x - x mod NODE_SPAN < MAX_SIZE ∧ ∃ ref s1 s2 t2,
     lookup_or_allocate addr offset s = Ret (Ok ref, s1) ∧ slot_write ref q s1 = Ret ((), s2) ∧
     vpl_inv s2 t2 ∧ list_skew s2 = list_skew s ∧
     ∀ y r, (y, r) ∈ list_pages (elems t2) ↔
       (y = page ∧ r = q) ∨ (y ≠ page ∧ (y, r) ∈ list_pages (elems t))).
Proof.
  intros Hinv Ho Hx Ha Hfr Hq x page.
  destruct (lookup_or_allocate_spec s t addr offset) as [Hl|(Hlt & p & s1 & t1 & n & Hrun & Hinv1 & Hsk1 & Hin & Hpg)];
    try done; [by left|right].
  destruct (node_offset_facts x Hx) as (_ & _ & Hi & Hsum). fold x in Hlt, Hin, Hrun.
  destruct (slot_write_spec s1 t1 p _ n _ q Hinv1 Hin Hi Hq) as (s2 & t2 & Hw & Hinv2 & Hsk2 & Hc).
  split; [done|]. exists (p, x / 4096 mod 16), s1, s2, t2.
  split_and!; try done; [by rewrite Hsk2|]. intros y r. rewrite Hc, Hpg. unfold page. by rewrite Hsum.
Qed.

Lemma VmPageList_new_inv : vpl_inv VmPageList_new Leaf.
Proof. split; [apply RBTree_new_inv|]. cbn [elems].
  split; [apply List.Forall_nil|]. split; [apply SSorted_nil|done].
Qed.

Lemma page_list_store_witness :
  ∃ ref s1 s2 t2, lookup_or_allocate 8 0x21000 VmPageList_new = Ret (Ok ref, s1) ∧
    slot_write ref (mkPoM 0x4000) s1 = Ret ((), s2) ∧ vpl_inv s2 t2 ∧
    (0x21000, mkPoM 0x4000) ∈ list_pages (elems t2).
Proof.
  destruct (page_list_store VmPageList_new Leaf 8 0x21000 (mkPoM 0x4000))
    as [[Hge _]|(_ & ref & s1 & s2 & t2 & H1 & H2 & H3 & _ & H5)];
    [apply VmPageList_new_inv|lia|vm_compute; split; [intros [=]|reflexivity]|lia|reflexivity|reflexivity| |].
  - exfalso. apply Hge. vm_compute. reflexivity.
  - exists ref, s1, s2, t2. split; [exact H1|]. split; [exact H2|]. split; [exact H3|].
    apply H5. left. split; reflexivity.
Defined.

(** C23: [for_every_page_in_range] over a page-aligned range of a well-formed
    list terminates and calls the function on exactly the non-empty slots
    whose offset lies in the range, in increasing order of offset and with
    the skew taken off, stopping at the first error, and leaves the list
    unchanged. *)
Theorem for_every_page_in_range_visits {A} (f : VmPageOrMarker → Z → M A (Result unit)) s t lo hi fuel a :
  vpl_inv s t → 0 ≤ lo ≤ hi → hi + list_skew s < 2 ^ 64 →
  (lo + list_skew s) mod 4096 = 0 → (hi + list_skew s) mod 4096 = 0 →
  (length (elems t) < fuel)%nat →
  for_every_page_in_range f fuel lo hi (s, a) =
  lift_s s (visit f (list_skew s)
    (filter (in_range (lo + list_skew s) (hi + list_skew s)) (list_pages (elems t))) a).
Proof. apply for_every_page_spec. Qed.

(** One node, at offset 0x10000, with pages in slots 1 and 3 and a marker in
    slot 4. *)
Definition demo_pln : VmPageListNode :=
  mkPLN 0x10000 ([PoM_empty; mkPoM 0x100; PoM_empty; mkPoM 0x200; PoM_marker] ++ replicate 11 PoM_empty).
Definition demo_vpl : VmPageList :=
  mkVPL (mkRBTree {[8 := mkRBNode Black 0 0 0 0x10000 demo_pln]} 8 1) 0.
Definition demo_vpl_tree : tree := Node Black 8 0x10000 demo_pln Leaf Leaf.

Lemma demo_vpl_inv : vpl_inv demo_vpl demo_vpl_tree.
Proof.
  split_and!.
  - split_and!; try reflexivity.
    + split_and!; [repeat split; reflexivity|reflexivity|by apply (bool_decide_unpack _)..].
    + repeat constructor.
    + exists 1%nat. repeat split; reflexivity.
  - repeat constructor; vm_compute; intros [=].
  - repeat constructor.
  - done.
Qed.

(** A closure that collects what it is called with. *)
Definition collect (p : VmPageOrMarker) (off : Z) : M (list (Z * Z)) (Result unit) :=
  modifyS (λ l, l ++ [(off, raw p)]);; mret (Ok ()).

Lemma for_every_page_in_range_visits_witness :
  for_every_page_in_range collect 5 0x12000 0x15000 (demo_vpl, []) =
  Ret (Ok (), (demo_vpl, [(0x13000, 0x200); (0x14000, 1)])).
Proof.
  rewrite (for_every_page_in_range_visits collect demo_vpl demo_vpl_tree);
    [vm_compute; reflexivity|apply demo_vpl_inv|lia|vm_compute; reflexivity|reflexivity|reflexivity|simpl; lia].
Defined.
