(* ===== verification/Mmu.v ===== *)
(** * arch/riscv64/mmu.rs: page tables

    A page table is a list of 512 entries at an address; the state holds the
    tables by address beside the state of the allocator that supplies new
    ones.  [map_page_table] and the walk [query_locked] of aspace.rs are
    related by [pt_inv]: the tables form a tree indexed by the path of
    entries that leads to them. *)

From S2P Require Import Prelude Defs LinkedList Page Pmm.

(** ** Constants *)

Definition PAGE_TABLE_ENTRIES : Z := Z.shiftl 1 (PAGE_SHIFT - 3).
Definition _PAGE_PFN_SHIFT : Z := 10.
Definition _PAGE_PRESENT : Z := Z.shiftl 1 0.
Definition _PAGE_READ : Z := Z.shiftl 1 1.
Definition _PAGE_WRITE : Z := Z.shiftl 1 2.
Definition _PAGE_EXEC : Z := Z.shiftl 1 3.
Definition _PAGE_GLOBAL : Z := Z.shiftl 1 5.
Definition _PAGE_ACCESSED : Z := Z.shiftl 1 6.
Definition _PAGE_DIRTY : Z := Z.shiftl 1 7.
Definition PAGE_READ : Z := _PAGE_READ.
Definition PAGE_WRITE : Z := _PAGE_WRITE.
Definition _PAGE_LEAF : Z := Z.lor (Z.lor _PAGE_READ _PAGE_WRITE) _PAGE_EXEC.
Definition PAGE_TABLE : Z := _PAGE_PRESENT.
Definition PAGE_KERNEL : Z :=
  Z.lor (Z.lor (Z.lor (Z.lor (Z.lor _PAGE_PRESENT _PAGE_READ) _PAGE_WRITE) _PAGE_GLOBAL) _PAGE_ACCESSED) _PAGE_DIRTY.
Definition PAGE_IOREMAP : Z := PAGE_KERNEL.
Definition PAGE_KERNEL_EXEC : Z := Z.lor PAGE_KERNEL _PAGE_EXEC.
Definition SATP_MODE_39 : Z := 0x8000000000000000.
Definition SATP_MODE_48 : Z := 0x9000000000000000.
Definition SATP_MODE_57 : Z := 0xa000000000000000.
Definition MMU_PTE_DESCRIPTOR_LEAF_MAX_SHIFT : Z := 30.

Definition MMU_LEVELS : Z := (KERNEL_ASPACE_BITS - PAGE_SHIFT) / (PAGE_SHIFT - 3) + 1.
Definition LEVEL_SHIFT (level : Z) : Z := uadd (umul (usub MMU_LEVELS level) (PAGE_SHIFT - 3)) 3.
Definition LEVEL_SIZE (level : Z) : Z := ushl 1 (LEVEL_SHIFT level).
Definition LEVEL_MASK (level : Z) : Z := unot (usub (LEVEL_SIZE level) 1).
Definition LEVEL_PA_TO_PFN (pa level : Z) : Z := ushr pa (LEVEL_SHIFT level).
Definition PA_TO_PFN (pa : Z) : Z := ushr pa PAGE_SHIFT.
Definition PFN_TO_PA (pfn : Z) : Z := ushl pfn PAGE_SHIFT.
Definition PTE_TO_PFN (pte : Z) : Z := ushr pte _PAGE_PFN_SHIFT.
Definition PTE_TO_PROT (pte : Z) : Z := Z.land pte (Z.shiftl 1 _PAGE_PFN_SHIFT - 1).

Definition vaddr_to_index (addr level : Z) : Z := Z.land (ushr addr (LEVEL_SHIFT level)) (PAGE_TABLE_ENTRIES - 1).
Definition aligned_in_level (addr level : Z) : bool := Z.land addr (unot (LEVEL_MASK level)) =? 0.

(** ** Entries *)

Definition mk_pte (pfn prot : Z) : Z := Z.lor (ushl pfn _PAGE_PFN_SHIFT) prot.
Definition pte_present (pte : Z) : bool := Z.land pte _PAGE_PRESENT =? _PAGE_PRESENT.
Definition pte_leaf (pte : Z) : bool := pte_present pte && negb (Z.land pte _PAGE_LEAF =? 0).
Definition pte_descend (pte : Z) : Z := ushl (ushr pte _PAGE_PFN_SHIFT) PAGE_SHIFT.

Record mmu (S : Type) := mkMmu { tables : gmap Z (list Z); frames : S }.
Arguments mkMmu {S} _ _.
Arguments tables {S} _.
Arguments frames {S} _.

(** Where new tables come from: the physical address of a page. *)
Class FrameAlloc (S : Type) := { alloc_frame : M S (Result Z) }.

Section ops.
Context {S : Type}.

(** [self.0[index]]. *)
Definition item (tbl index : Z) : M (mmu S) Z :=
  es ← deref (λ m, tables m !! tbl);
  match es !! Z.to_nat index with Some pte => mret pte | None => panic end.
Definition mk_item (tbl index pfn prot : Z) : M (mmu S) unit :=
  es ← deref (λ m, tables m !! tbl);
  if index <? PAGE_TABLE_ENTRIES
  then modifyS (λ m, mkMmu (<[tbl := <[Z.to_nat index := mk_pte pfn prot]> es]> (tables m)) (frames m))
  else panic.
Definition item_present (tbl index : Z) : M (mmu S) bool := pte ← item tbl index; mret (pte_present pte).
Definition item_leaf (tbl index : Z) : M (mmu S) bool := pte ← item tbl index; mret (pte_leaf pte).
Definition item_descend (tbl index : Z) : M (mmu S) Z := pte ← item tbl index; mret (pte_descend pte).

Definition empty_table : list Z := replicate (Z.to_nat PAGE_TABLE_ENTRIES) 0.
(** Zeroing a page makes an empty table of it. *)
Definition arch_zero_page (va : Z) : M (mmu S) unit :=
  modifyS (λ m, mkMmu (<[va := empty_table]> (tables m)) (frames m)).

(** ** Boot mappings *)

Section boot.
Context (alloc : M (mmu S) Z) (phys_to_virt : Z → Z).

(** [while off < len]; [rec] is the call for the next level. *)
Fixpoint boot_map_loop (rec : Z → Z → Z → Z → M (mmu S) (Result unit)) (fuel : nat)
    (table level vaddr paddr len prot off : Z) : M (mmu S) (Result unit) :=
  match fuel with
  | O => spin
  | Datatypes.S fuel =>
      if negb (off <? len) then mret (Ok ())
      else
        let index := vaddr_to_index (uadd vaddr off) level in
        if level =? MMU_LEVELS - 1 then
          mk_item table index (PA_TO_PFN (uadd paddr off)) prot;;
          boot_map_loop rec fuel table level vaddr paddr len prot (uadd off PAGE_SIZE)
        else
          p ← item_present table index;
          if negb p && (negb (level =? 0) && aligned_in_level (uadd vaddr off) level &&
                        aligned_in_level (uadd paddr off) level && (LEVEL_SIZE level <=? usub len off)) then
            mk_item table index (LEVEL_PA_TO_PFN (uadd paddr off) level) prot;;
            boot_map_loop rec fuel table level vaddr paddr len prot (uadd off (LEVEL_SIZE level))
          else
            (if negb p then pa ← alloc; mk_item table index (PA_TO_PFN pa) PAGE_TABLE else mret ());;
            l ← item_leaf table index;
            if (l : bool) then mret (Err BadState)
            else
              d ← item_descend table index;
              let lower_len := Z.min (LEVEL_SIZE level) (usub len off) in
              _ ←? rec (phys_to_virt d) (uadd vaddr off) (uadd paddr off) lower_len;
              boot_map_loop rec fuel table level vaddr paddr len prot (uadd off (LEVEL_SIZE level))
  end.

(** [_boot_map]: [depth] bounds the levels, [fuel] the rounds of each loop. *)
Fixpoint _boot_map (depth fuel : nat) (table level vaddr paddr len prot : Z) : M (mmu S) (Result unit) :=
  match depth with
  | O => spin
  | Datatypes.S depth =>
      boot_map_loop (λ tbl va pa ln, _boot_map depth fuel tbl (level + 1) va pa ln prot)
        fuel table level vaddr paddr len prot 0
  end.
Definition boot_map (fuel : nat) (swapper_pgd vaddr paddr len prot : Z) : M (mmu S) (Result unit) :=
  _boot_map (Z.to_nat MMU_LEVELS) fuel swapper_pgd 0 vaddr paddr len prot.
End boot.

(** ** Mapping at run time *)

Section map.
Context {FA : FrameAlloc S}.

Definition alloc_table : M (mmu S) (Result Z) := zoom frames (λ f m, mkMmu (tables m) f) alloc_frame.

(** The table below entry [index]: the one it points to or a new one. *)
Definition next_table (table index : Z) : M (mmu S) (Result Z) :=
  p ← item_present table index;
  if (p : bool) then
    l ← item_leaf table index;
    if (l : bool) then mret (Err AlreadyExists)
    else d ← item_descend table index; mret (Ok (paddr_to_physmap d))
  else
    pa ←? alloc_table;
    let pt_vaddr := paddr_to_physmap pa in
    arch_zero_page pt_vaddr;;
    mk_item table index (PA_TO_PFN pa) PAGE_TABLE;;
    mret (Ok pt_vaddr).

Fixpoint map_loop (rec : Z → Z → Z → Z → M (mmu S) (Result Z)) (fuel : nat)
    (vaddr paddr size prot level table mapped_size : Z) : M (mmu S) (Result Z) :=
  match fuel with
  | O => spin
  | Datatypes.S fuel =>
      if negb (0 <? size) then mret (Ok mapped_size)
      else
        let block_size := LEVEL_SIZE level in
        let block_mask := unot (LEVEL_MASK level) in
        let chunk_size := Z.min size block_size in
        let index := vaddr_to_index vaddr level in
        _ ← item table index;
        _ ←? (if negb (Z.land (Z.lor vaddr paddr) block_mask =? 0) || negb (chunk_size =? block_size) ||
                 (MMU_PTE_DESCRIPTOR_LEAF_MAX_SHIFT <? LEVEL_SHIFT level) then
                next ←? next_table table index;
                _ ←? rec vaddr paddr chunk_size next;
                mret (Ok ())
              else
                p ← item_present table index;
                if (p : bool) then mret (Err AlreadyExists)
                else mk_item table index (PA_TO_PFN paddr) prot;; mret (Ok ()));
        map_loop rec fuel (uadd vaddr chunk_size) (uadd paddr chunk_size) (usub size chunk_size) prot level table
          (uadd mapped_size chunk_size)
  end.

Fixpoint map_page_table (depth fuel : nat) (vaddr paddr size prot level table : Z) : M (mmu S) (Result Z) :=
  match depth with
  | O => spin
  | Datatypes.S depth =>
      if negb (Z.land (Z.lor (Z.lor vaddr paddr) size) (unot PAGE_MASK) =? 0) then mret (Err InvalidArgs)
      else map_loop (λ va pa sz tbl, map_page_table depth fuel va pa sz prot (level + 1) tbl) fuel
             vaddr paddr size prot level table 0
  end.

Definition map_pages (fuel : nat) (swapper_pgd vaddr paddr size prot : Z) : M (mmu S) (Result Z) :=
  map_page_table (Z.to_nat MMU_LEVELS) fuel vaddr paddr size prot 0 swapper_pgd.
End map.
End ops.

Definition protect_pages {S} (vaddr size prot : Z) : M (mmu S) (Result unit) := mret (Ok ()).

(** ** The boot tables: [setup_vm] *)

Section setup.
(** Linker symbols. *)
Context (swapper_pgd swapper_tables _start _end : Z).

(** The closure [alloc]: the state holds [used]. *)
Definition setup_alloc : M (mmu Z) Z :=
  s ← getS;
  if MMU_MAX_LEVEL - 1 <=? frames s then mret null
  else modifyS (λ s, mkMmu (tables s) (frames s + 1));; mret (uadd swapper_tables (frames s * PAGE_SIZE)).

(** The result is [_satp_mode]. *)
Definition setup_vm (fuel : nat) : M (mmu Z) Z :=
  modifyS (λ s, mkMmu (tables s) 0);;
  r ← boot_map setup_alloc (λ pa, pa) fuel swapper_pgd KERNEL_ASPACE_BASE 0 ARCH_PHYSMAP_SIZE PAGE_KERNEL;
  match r with
  | Err _ => panic
  | Ok _ =>
      r ← boot_map setup_alloc (λ pa, pa) fuel swapper_pgd KERNEL_BASE _start (usub _end _start) PAGE_KERNEL_EXEC;
      match r with
      | Err _ => panic
      | Ok _ =>
          if MMU_LEVELS =? 5 then mret SATP_MODE_57
          else if MMU_LEVELS =? 4 then mret SATP_MODE_48
          else if MMU_LEVELS =? 3 then mret SATP_MODE_39
          else panic
      end
  end.
End setup.

(** ** Pages for tables from the physical memory manager *)

Section pmm_frames.
Context (free_list : Z).
Definition cache_alloc_page : M PmmNode (Result Z) :=
  page ← pmm_alloc_page free_list PMM_ALLOC_FLAG_ANY;
  if page =? null then mret (Err NoMem) else mret (Ok page).
Definition alloc_page_table : M PmmNode (Result Z) :=
  page ←? cache_alloc_page;
  on_pages (set_state page MMU);;
  pg ← on_pages (page_at page);
  mret (Ok (paddr pg)).
End pmm_frames.

(** ** Levels and entries *)

Lemma levels_eq l : 0 ≤ l ≤ 4 → LEVEL_SHIFT l = 48 - 9 * l ∧ LEVEL_SIZE l = 2 ^ (48 - 9 * l).
Proof.
  intros Hl. assert (l = 0 ∨ l = 1 ∨ l = 2 ∨ l = 3 ∨ l = 4) as Hc by lia.
  destruct Hc as [E|[E|[E|[E|E]]]]; subst l; by vm_compute.
Qed.

Lemma block_mask_eq l : 0 ≤ l ≤ 4 → unot (LEVEL_MASK l) = 2 ^ (48 - 9 * l) - 1.
Proof.
  intros Hl. assert (l = 0 ∨ l = 1 ∨ l = 2 ∨ l = 3 ∨ l = 4) as Hc by lia.
  destruct Hc as [E|[E|[E|[E|E]]]]; subst l; by vm_compute.
Qed.

Lemma index_range va l : is_usize va → 0 ≤ vaddr_to_index va l < 512.
Proof.
  intros Hva. unfold vaddr_to_index. change (PAGE_TABLE_ENTRIES - 1) with (Z.ones 9).
  rewrite Z.land_ones by lia. apply Z.mod_pos_bound. lia.
Qed.

(** A frame that the physmap covers, and its address there. *)
Definition frame_ok (pa : Z) : Prop := (PAGE_SIZE | pa) ∧ 0 ≤ pa < PHYSMAP_SIZE.

Lemma physmap_frame pa : frame_ok pa → paddr_to_physmap pa = PHYSMAP_BASE + pa ∧ is_physmap_addr (PHYSMAP_BASE + pa) = true.
Proof.
  intros [_ Hp]. change PHYSMAP_SIZE with (2 ^ 39) in Hp. unfold paddr_to_physmap, is_physmap_addr.
  change PHYSMAP_BASE_PHYS with 0. change PHYSMAP_BASE with (2 ^ 64 - 2 ^ 48). change PHYSMAP_SIZE with (2 ^ 39).
  rewrite (usub_small pa 0), (uadd_small (pa - 0)) by (unfold is_usize; lia). split; [lia|].
  rewrite (proj2 (Z.leb_le _ _)) by lia. rewrite usub_small by (unfold is_usize; lia). simpl. apply Z.ltb_lt. lia.
Qed.

(** Frame number and protection bits of an entry. *)
Lemma mk_pte_fields pa prot : frame_ok pa → 0 ≤ prot < 2 ^ 10 →
  let pte := mk_pte (PA_TO_PFN pa) prot in
  PFN_TO_PA (PTE_TO_PFN pte) = pa ∧ pte_descend pte = pa ∧ PTE_TO_PROT pte = prot ∧
  pte_present pte = pte_present prot ∧ pte_leaf pte = pte_leaf prot.
Proof.
  intros [[q Hq] Hp] Hprot pte. change PHYSMAP_SIZE with (2 ^ 39) in Hp. rewrite PAGE_SIZE_eq in Hq. change (2 ^ 12) with 4096 in Hq.
  assert (pte = q * 2 ^ 10 + prot) as E.
  { unfold pte, mk_pte, PA_TO_PFN, ushr, ushl. change (PAGE_SHIFT mod 64) with 12. change (_PAGE_PFN_SHIFT mod 64) with 10.
    rewrite Z.shiftr_div_pow2, Z.shiftl_mul_pow2 by lia. change (2 ^ 12) with 4096. rewrite Hq, Z.div_mul by lia.
    rewrite usize_wrap_small by (unfold is_usize; lia). apply lor_add; lia. }
  assert (ushr pte 10 = q) as Eq.
  { unfold ushr. change (10 mod 64) with 10. rewrite Z.shiftr_div_pow2, E by lia.
    symmetry. apply (Z.div_unique _ _ _ prot); lia. }
  assert (ushl q 12 = pa) as Ep.
  { unfold ushl. change (12 mod 64) with 12. rewrite Z.shiftl_mul_pow2 by lia. change (2 ^ 12) with 4096.
    rewrite usize_wrap_small by (unfold is_usize; lia). lia. }
  assert (∀ m, 0 ≤ m < 2 ^ 10 → Z.land pte m = Z.land prot m) as Hlow.
  { intros m Hm. apply Z.bits_inj'. intros i Hi. rewrite !Z.land_spec. destruct (decide (i < 10)).
    - f_equal. rewrite E, <-(Z.mod_pow2_bits_low _ 10), <-(Z.mod_pow2_bits_low prot 10) by lia. f_equal.
      rewrite Z.add_comm, Z_mod_plus_full. done.
    - rewrite <-(Z.mod_small m (2 ^ 10)), Z.mod_pow2_bits_high by lia. by rewrite !andb_false_r. }
  unfold PFN_TO_PA, PTE_TO_PFN, pte_descend, PTE_TO_PROT, pte_leaf, pte_present.
  change PAGE_SHIFT with 12. change _PAGE_PFN_SHIFT with 10. rewrite Eq, Ep, !Hlow by done.
  split_and!; try done. change (Z.shiftl 1 10 - 1) with (Z.ones 10). rewrite Z.land_ones by lia. apply Z.mod_small. lia.
Qed.

(** ** The tree of tables *)

(** What the hardware (and [query_locked]) finds for [va] from the table [a]
    of a level on. *)
Fixpoint walk (tb : gmap Z (list Z)) (n : nat) (level a va : Z) : Result (Z * Z) :=
  match n with
  | O => Err BadState
  | S n =>
      match tb !! a ≫= (λ es, es !! Z.to_nat (vaddr_to_index va level)) with
      | None => Err BadState
      | Some pte =>
          if negb (pte_present pte) then Err NotFound
          else if pte_leaf pte then Ok (PFN_TO_PA (PTE_TO_PFN pte), PTE_TO_PROT pte)
          else walk tb n (level + 1) (paddr_to_physmap (PFN_TO_PA (PTE_TO_PFN pte))) va
      end
  end.

Definition path_of (va : Z) : list Z := vaddr_to_index va <$> [0; 1; 2; 3; 4].
Definition is_ptr (pte : Z) : bool := pte_present pte && negb (pte_leaf pte).

(** [T] gives the table reached by a path of entries from the root; no table
    is reached by two paths. *)
Record pt_inv (tb : gmap Z (list Z)) (root : Z) (T : gmap (list Z) Z) : Prop := {
  pt_root : T !! [] = Some root;
  pt_inj π π' a : T !! π = Some a → T !! π' = Some a → π = π';
  pt_prefix π i : is_Some (T !! (π ++ [i])) → is_Some (T !! π);
  pt_depth π a : T !! π = Some a → (length π ≤ 4)%nat;
  pt_table π a : T !! π = Some a → ∃ es, tb !! a = Some es ∧ length es = 512%nat ∧
    ∀ i pte, es !! i = Some pte →
      T !! (π ++ [Z.of_nat i]) = if is_ptr pte then Some (paddr_to_physmap (pte_descend pte)) else None;
}.

Lemma descend_pa pte : pte_descend pte = PFN_TO_PA (PTE_TO_PFN pte).
Proof. done. Qed.

Section tree.
Context (tb : gmap Z (list Z)) (root : Z) (T : gmap (list Z) Z) (Hinv : pt_inv tb root T).

(** The entry of [va] in the table at [π]. *)
Lemma entry_at π a va : T !! π = Some a → is_usize va →
  let i := vaddr_to_index va (Z.of_nat (length π)) in
  ∃ es pte, tb !! a = Some es ∧ length es = 512%nat ∧ es !! Z.to_nat i = Some pte ∧
    T !! (π ++ [i]) = if is_ptr pte then Some (paddr_to_physmap (pte_descend pte)) else None.
Proof.
  intros Ht Hva i. destruct (pt_table _ _ _ Hinv π a Ht) as (es & Hes & Hl & Hent).
  pose proof (index_range va (Z.of_nat (length π)) Hva) as Hi. fold i in Hi.
  destruct (lookup_lt_is_Some_2 es (Z.to_nat i)) as [pte Hp]; [lia|].
  exists es, pte. split_and!; [done|done|done|]. specialize (Hent _ _ Hp). by rewrite Z2Nat.id in Hent by lia.
Qed.

Lemma path_take va k : (k ≤ 4)%nat → take (S k) (path_of va) = take k (path_of va) ++ [vaddr_to_index va (Z.of_nat k)].
Proof.
  intros Hk. unfold path_of. destruct k as [|[|[|[|[|k]]]]]; try done. lia.
Qed.

(** A prefix of a path to a table leads to a table, and the entry there
    points on. *)
Lemma prefix_table π k : is_Some (T !! π) → is_Some (T !! take k π).
Proof.
  intros Hp. destruct (decide (k ≤ length π)%nat) as [Hk|Hk]; [|by rewrite take_ge by lia].
  revert Hp. induction π as [|x π IH] using rev_ind; intros Hp; [by rewrite take_nil|].
  rewrite length_app in Hk. simpl in Hk. destruct (decide (k = length π + 1)%nat) as [->|].
  - rewrite take_ge by (rewrite length_app; simpl; lia). done.
  - rewrite take_app_le by lia. apply IH; [lia|]. by eapply pt_prefix.
Qed.
End tree.

(** Changing one entry, [i0] of the table at [π0]. *)
Section update.
Context (tb : gmap Z (list Z)) (root : Z) (T : gmap (list Z) Z) (Hinv : pt_inv tb root T).
Context (tb' : gmap Z (list Z)) (π0 : list Z) (a0 i0 : Z) (Hπ0 : T !! π0 = Some a0) (R : Result (Z * Z)).
Hypothesis Hsame : ∀ π a es, T !! π = Some a → tb !! a = Some es →
  ∃ es', tb' !! a = Some es' ∧ ∀ j, 0 ≤ j → (π ≠ π0 ∨ j ≠ i0) → es' !! Z.to_nat j = es !! Z.to_nat j.
Hypothesis Hspecial : ∀ n va, is_usize va → (n + length π0 = 5)%nat →
  vaddr_to_index va (Z.of_nat (length π0)) = i0 → walk tb' n (Z.of_nat (length π0)) a0 va = R.

Definition through (va : Z) : Prop := take (S (length π0)) (path_of va) = π0 ++ [i0].

Lemma walk_update n π a va :
  T !! π = Some a → is_usize va → π = take (length π) (path_of va) → (n + length π = 5)%nat →
  walk tb' n (Z.of_nat (length π)) a va =
  if decide (through va ∧ (length π ≤ length π0)%nat) then R else walk tb n (Z.of_nat (length π)) a va.
Proof.
  revert π a. induction n as [|n IH]; intros π a Ht Hva Hpath Hn.
  { pose proof (pt_depth _ _ _ Hinv _ _ Ht). lia. }
  pose proof (pt_depth _ _ _ Hinv _ _ Hπ0) as Hd0. pose proof (pt_depth _ _ _ Hinv _ _ Ht) as Hd.
  destruct (entry_at tb root T Hinv π a va Ht Hva) as (es & pte & Hes & _ & Hpte & Hnext).
  set (j := vaddr_to_index va (Z.of_nat (length π))) in *. pose proof (index_range va (Z.of_nat (length π)) Hva) as Hj. fold j in Hj.
  assert (take (S (length π)) (path_of va) = π ++ [j]) as Hstep by (rewrite path_take by done; by rewrite <-Hpath).
  assert (length (path_of va) = 5%nat) as Hlp by done.
  destruct (decide (π = π0 ∧ j = i0)) as [[-> Ej]|Hne].
  { assert (a = a0) as -> by congruence. rewrite decide_True; [by apply Hspecial|]. split; [|done].
    unfold through. by rewrite Hstep, Ej. }
  assert (π ≠ π0 ∨ j ≠ i0) as Hor by (destruct (decide (π = π0)); [right; intros ?; by apply Hne|by left]).
  destruct (Hsame π a es Ht Hes) as (es' & Hes' & Hsm). specialize (Hsm j ltac:(lia) Hor).
  (* if the walk goes through the entry it has not come to it yet *)
  assert (through va → (length π ≤ length π0)%nat → (length π < length π0)%nat ∧ is_ptr pte = true) as Hahead.
  { intros Hth Hle. assert (take (length π0) (path_of va) = π0) as Hp0.
    { unfold through in Hth. rewrite path_take in Hth by done. by apply app_inj_tail in Hth as [? _]. }
    assert (length π < length π0)%nat as Hlt.
    { destruct (decide (length π = length π0)) as [E|]; [|lia]. exfalso. apply Hne.
      rewrite E in Hpath. assert (π = π0) as -> by congruence. split; [done|].
      unfold through in Hth. rewrite Hstep in Hth. by apply app_inj_tail in Hth as [_ ?]. }
    split; [done|]. assert (is_Some (T !! take (S (length π)) π0)) as Hs by (by apply (prefix_table tb root T Hinv); eexists).
    rewrite <-Hp0, take_take, Nat.min_l, Hstep, Hnext in Hs by lia. destruct (is_ptr pte); [done|by destruct Hs]. }
  cbn [walk]. rewrite Hes', Hes. cbn [mbind option_bind]. fold j. rewrite Hsm, Hpte. unfold is_ptr in Hahead, Hnext.
  destruct (pte_present pte) eqn:Epr; cbn [negb].
  2:{ rewrite decide_False; [done|]. intros [Hth Hle]. by destruct (Hahead Hth Hle). }
  destruct (pte_leaf pte) eqn:Elf.
  { rewrite decide_False; [done|]. intros [Hth Hle]. by destruct (Hahead Hth Hle). }
  simpl in Hnext. rewrite <-!descend_pa. specialize (IH (π ++ [j]) _ Hnext Hva).
  rewrite length_app in IH. simpl in IH. replace (Z.of_nat (length π + 1)) with (Z.of_nat (length π) + 1) in IH by lia.
  rewrite IH; [|by rewrite Nat.add_1_r, Hstep|lia].
  apply decide_ext. split; intros [Hth Hle]; (split; [done|]); [lia|]. destruct (Hahead Hth Hle). lia.
Qed.
End update.

Definition upd_entry (a : Z) (es : list Z) (i pte : Z) (tb : gmap Z (list Z)) : gmap Z (list Z) :=
  <[a := <[Z.to_nat i := pte]> es]> tb.

(** Hanging an empty table below an entry that is not present. *)
Section add_table.
Context (tb : gmap Z (list Z)) (root : Z) (T : gmap (list Z) Z) (Hinv : pt_inv tb root T).
Context (π : list Z) (a : Z) (es : list Z) (i pa pte0 : Z).
Context (Hπ : T !! π = Some a) (Hd : (length π < 4)%nat) (Hes : tb !! a = Some es) (Hi : 0 ≤ i < 512).
Context (Hpte0 : es !! Z.to_nat i = Some pte0) (Hnp : pte_present pte0 = false) (Hpa : frame_ok pa).
Hypothesis Hfresh : ∀ π' a', T !! π' = Some a' → a' ≠ paddr_to_physmap pa.

Let b := paddr_to_physmap pa.
Let pte' := mk_pte (PA_TO_PFN pa) PAGE_TABLE.
Let tb' := upd_entry a es i pte' (<[b := empty_table]> tb).
Let T' := <[π ++ [i] := b]> T.

Lemma table_pte : pte_descend pte' = pa ∧ is_ptr pte' = true.
Proof.
  destruct (mk_pte_fields pa PAGE_TABLE Hpa ltac:(done)) as (_ & Hdesc & _ & Hpres & Hleaf).
  split; [done|]. unfold is_ptr, pte'. by rewrite Hpres, Hleaf.
Qed.

Lemma add_table_none : T !! (π ++ [i]) = None.
Proof.
  destruct (pt_table _ _ _ Hinv π a Hπ) as (es0 & Hes0 & _ & Hent). rewrite Hes in Hes0. injection Hes0 as <-.
  specialize (Hent _ _ Hpte0). rewrite Z2Nat.id in Hent by lia. rewrite Hent. unfold is_ptr. by rewrite Hnp.
Qed.

Lemma add_table_lookup π' a' : T !! π' = Some a' → tb' !! a' = if decide (a' = a) then Some (<[Z.to_nat i := pte']> es) else tb !! a'.
Proof.
  intros Hp. unfold tb', upd_entry. case_decide as E; [subst; by rewrite lookup_insert_eq|].
  rewrite !lookup_insert_ne by (done || (intros <-; by apply (Hfresh π' b Hp))). done.
Qed.

Lemma add_table_new : tb' !! b = Some empty_table.
Proof. unfold tb', upd_entry. rewrite lookup_insert_ne, lookup_insert_eq by (by apply (Hfresh π)). done. Qed.

Lemma add_table_inv : pt_inv tb' root T'.
Proof.
  pose proof add_table_none as Hnone. destruct table_pte as [Hdesc Hptr]. split.
  - unfold T'. rewrite lookup_insert_ne by (by destruct π). apply (pt_root _ _ _ Hinv).
  - intros π1 π2 c. unfold T'. rewrite !lookup_insert. intros H1 H2.
    destruct (decide (π ++ [i] = π1)) as [E1|E1], (decide (π ++ [i] = π2)) as [E2|E2]; try congruence.
    + injection H1 as <-. by apply Hfresh in H2.
    + injection H2 as <-. by apply Hfresh in H1.
    + by apply (pt_inj _ _ _ Hinv _ _ _ H1).
  - intros π1 j. unfold T'. rewrite !lookup_insert. case_decide as E; intros Hs.
    + apply app_inj_tail in E as [<- _]. case_decide; [done|by eexists].
    + case_decide; [by eexists|]. by apply (pt_prefix _ _ _ Hinv) in Hs.
  - intros π1 c. unfold T'. rewrite lookup_insert. case_decide as E; [rewrite <-E; intros _; rewrite length_app; simpl; lia|].
    apply (pt_depth _ _ _ Hinv).
  - intros π1 c. unfold T' at 1. rewrite lookup_insert. case_decide as E.
    + subst π1. intros [= <-]. exists empty_table. split_and!; [apply add_table_new|done|].
      intros j pte [-> _]%lookup_replicate. unfold T'. rewrite lookup_insert_ne.
      * apply eq_None_not_Some. intros Hs%(pt_prefix _ _ _ Hinv). rewrite Hnone in Hs. by destruct Hs.
      * intros Hx. apply (f_equal length) in Hx. rewrite !length_app in Hx. simpl in Hx. lia.
    + intros Hc. rewrite (add_table_lookup _ _ Hc). destruct (pt_table _ _ _ Hinv π1 c Hc) as (es1 & He1 & Hl1 & Hent1).
      case_decide as Eca.
      * subst c. assert (π1 = π) as -> by (by apply (pt_inj _ _ _ Hinv _ _ _ Hc)). rewrite Hes in He1. injection He1 as <-.
        eexists. split_and!; [done|by rewrite length_insert|]. intros j pte. rewrite list_lookup_insert_Some.
        intros [(<- & -> & _)|[Hne Hj]]; unfold T'.
        -- by rewrite Z2Nat.id, lookup_insert_eq, Hptr, Hdesc by lia.
        -- rewrite lookup_insert_ne; [by apply Hent1|]. intros Hx%app_inj_tail. destruct Hx. lia.
      * eexists. split_and!; [done|done|]. intros j pte Hj. rewrite <-(Hent1 j pte Hj). unfold T'.
        apply lookup_insert_ne. intros [Hx _]%app_inj_tail. subst π1. congruence.
Qed.

Lemma add_table_walk va : is_usize va → walk tb' 5 0 root va = walk tb 5 0 root va.
Proof.
  intros Hva. pose proof (pt_root _ _ _ Hinv) as Hr. destruct table_pte as [Hdesc Hptr].
  assert (∀ π' a' es', T !! π' = Some a' → tb !! a' = Some es' →
    ∃ es'', tb' !! a' = Some es'' ∧ ∀ j, 0 ≤ j → (π' ≠ π ∨ j ≠ i) → es'' !! Z.to_nat j = es' !! Z.to_nat j) as Hsame.
  { intros π' a' es' Hp He. rewrite (add_table_lookup _ _ Hp), He. case_decide as E; [|by exists es'].
    subst a'. rewrite Hes in He. injection He as <-. eexists. split; [done|]. intros j Hj [Hne|Hne].
    - exfalso. apply Hne. by apply (pt_inj _ _ _ Hinv _ _ _ Hp).
    - apply list_lookup_insert_ne. lia. }
  destruct (pt_table _ _ _ Hinv π a Hπ) as (es0 & Hes0 & Hl & _). rewrite Hes in Hes0. injection Hes0 as <-.
  assert (∀ n va', is_usize va' → (n + length π = 5)%nat → vaddr_to_index va' (Z.of_nat (length π)) = i →
    walk tb' n (Z.of_nat (length π)) a va' = Err NotFound) as Hspec'.
  { intros n va' Hva' Hn Hidx. destruct n as [|[|n]]; [lia|lia|]. cbn [walk].
    rewrite (add_table_lookup π a Hπ), decide_True by done. cbn [mbind option_bind]. rewrite Hidx, list_lookup_insert_eq by lia.
    unfold is_ptr in Hptr. apply andb_prop in Hptr as [-> Hlf%negb_true_iff]. rewrite Hlf, <-descend_pa, Hdesc. fold b. cbn [negb].
    rewrite add_table_new. cbn [mbind option_bind]. pose proof (index_range va' (Z.of_nat (length π) + 1) Hva').
    unfold empty_table. rewrite lookup_replicate_2 by (change (Z.to_nat PAGE_TABLE_ENTRIES) with 512%nat; lia). done. }
  pose proof (walk_update tb root T Hinv tb' π a i Hπ (Err NotFound) Hsame Hspec' 5 [] root va Hr Hva eq_refl eq_refl) as Hw.
  change (Z.of_nat (length (@nil Z))) with 0 in Hw. rewrite Hw. case_decide as Hth; [|done]. destruct Hth as [Hth _].
  (* the old walk ended at the same entry *)
  assert (∀ n va', is_usize va' → (n + length π = 5)%nat → vaddr_to_index va' (Z.of_nat (length π)) = i →
    walk tb n (Z.of_nat (length π)) a va' = Err NotFound) as Hspec.
  { intros n va' Hva' Hn Hidx. destruct n as [|n]; [lia|]. cbn [walk]. rewrite Hes. cbn [mbind option_bind].
    by rewrite Hidx, Hpte0, Hnp. }
  pose proof (walk_update tb root T Hinv tb π a i Hπ (Err NotFound) ltac:(intros ? ? es' ? ?; by exists es') Hspec 5 [] root va Hr Hva eq_refl eq_refl) as Hw0.
  change (Z.of_nat (length (@nil Z))) with 0 in Hw0. rewrite Hw0, decide_True; [done|]. split; [done|simpl; lia].
Qed.
End add_table.

(** Writing a leaf into an entry of the last level that is not present. *)
Section add_leaf.
Context (tb : gmap Z (list Z)) (root : Z) (T : gmap (list Z) Z) (Hinv : pt_inv tb root T).
Context (π : list Z) (a : Z) (es : list Z) (i pa prot pte0 : Z).
Context (Hπ : T !! π = Some a) (Hd : length π = 4%nat) (Hes : tb !! a = Some es) (Hi : 0 ≤ i < 512).
Context (Hpte0 : es !! Z.to_nat i = Some pte0) (Hnp : pte_present pte0 = false).
Context (Hpa : frame_ok pa) (Hprot : 0 ≤ prot < 2 ^ 10) (Hpl : pte_leaf prot = true).

Let pte' := mk_pte (PA_TO_PFN pa) prot.
Let tb' := upd_entry a es i pte' tb.

Lemma leaf_pte : pte_present pte' = true ∧ pte_leaf pte' = true ∧ PFN_TO_PA (PTE_TO_PFN pte') = pa ∧ PTE_TO_PROT pte' = prot.
Proof.
  destruct (mk_pte_fields pa prot Hpa Hprot) as (? & _ & ? & Hpres & Hleaf). fold pte' in Hpres, Hleaf.
  rewrite Hpres, Hleaf. split_and!; [|done..]. unfold pte_leaf in Hpl. by apply andb_prop in Hpl as [? _].
Qed.

Lemma add_leaf_inv : pt_inv tb' root T.
Proof.
  destruct leaf_pte as (Hpres & Hleaf & _). destruct Hinv as [H1 H2 H3 H4 H5]. split; [done..|].
  intros π1 c Hc. destruct (H5 π1 c Hc) as (es1 & He1 & Hl1 & Hent1). unfold tb', upd_entry.
  destruct (decide (c = a)) as [->|Hne]; [|by rewrite lookup_insert_ne; [exists es1|]].
  rewrite lookup_insert_eq. rewrite Hes in He1. injection He1 as <-. eexists. split_and!; [done|by rewrite length_insert|].
  intros j pte. rewrite list_lookup_insert_Some. intros [(<- & -> & _)|[Hne Hj]]; [|by apply Hent1].
  rewrite (Hent1 _ _ Hpte0). unfold is_ptr. by rewrite Hnp, Hpres, Hleaf.
Qed.

Lemma add_leaf_walk va : is_usize va →
  walk tb' 5 0 root va = if decide (path_of va = π ++ [i]) then Ok (pa, prot) else walk tb 5 0 root va.
Proof.
  intros Hva. pose proof (pt_root _ _ _ Hinv) as Hr. destruct leaf_pte as (Hpres & Hleaf & Epa & Epr).
  assert (∀ π' a' es', T !! π' = Some a' → tb !! a' = Some es' →
    ∃ es'', tb' !! a' = Some es'' ∧ ∀ j, 0 ≤ j → (π' ≠ π ∨ j ≠ i) → es'' !! Z.to_nat j = es' !! Z.to_nat j) as Hsame.
  { intros π' a' es' Hp He. unfold tb', upd_entry. destruct (decide (a' = a)) as [->|Hne].
    - rewrite lookup_insert_eq. rewrite Hes in He. injection He as <-. eexists. split; [done|]. intros j Hj [Hne|Hne].
      + exfalso. apply Hne. by apply (pt_inj _ _ _ Hinv _ _ _ Hp).
      + apply list_lookup_insert_ne. lia.
    - exists es'. by rewrite lookup_insert_ne. }
  destruct (pt_table _ _ _ Hinv π a Hπ) as (es0 & Hes0 & Hl & _). rewrite Hes in Hes0. injection Hes0 as <-.
  assert (∀ n va', is_usize va' → (n + length π = 5)%nat → vaddr_to_index va' (Z.of_nat (length π)) = i →
    walk tb' n (Z.of_nat (length π)) a va' = Ok (pa, prot)) as Hspec.
  { intros n va' Hva' Hn Hidx. destruct n as [|n]; [lia|]. cbn [walk]. unfold tb', upd_entry. rewrite lookup_insert_eq.
    cbn [mbind option_bind]. rewrite Hidx, list_lookup_insert_eq by lia. fold pte'. by rewrite Hpres, Hleaf, Epa, Epr. }
  pose proof (walk_update tb root T Hinv tb' π a i Hπ (Ok (pa, prot)) Hsame Hspec 5 [] root va Hr Hva eq_refl eq_refl) as Hw.
  change (Z.of_nat (length (@nil Z))) with 0 in Hw. rewrite Hw. apply decide_ext. unfold through.
  rewrite Hd, take_ge by done. split; [by intros [? _]|]. intros ->. split; [done|simpl; lia].
Qed.
End add_leaf.

(** ** Mapping one page *)

(** The frames handed out are page aligned, covered by the physmap, and never
    handed out twice; [n] more can be had. *)
Class FrameAllocLaws (S : Type) `{FrameAlloc S} := {
  fa_ok : S → gset Z → nat → Prop;
  fa_alloc s own n : fa_ok s own (Datatypes.S n) →
    ∃ pa s', alloc_frame s = Ret (Ok pa, s') ∧ fa_ok s' ({[pa]} ∪ own) n ∧ pa ∉ own ∧ frame_ok pa;
  fa_frames s own n pa : fa_ok s own n → pa ∈ own → frame_ok pa;
}.

Lemma walk_reach tb root T π a va :
  pt_inv tb root T → T !! π = Some a → is_usize va → π = take (length π) (path_of va) →
  walk tb 5 0 root va = walk tb (5 - length π) (Z.of_nat (length π)) a va.
Proof.
  intros Hinv. revert a. induction π as [|i π IH] using rev_ind; intros a Ha Hva Hp.
  { rewrite (pt_root _ _ _ Hinv) in Ha. by injection Ha as ->. }
  pose proof (pt_depth _ _ _ Hinv _ _ Ha) as Hd. rewrite length_app in *. simpl in Hd. rewrite Nat.add_1_r in *.
  rewrite path_take in Hp by lia. apply app_inj_tail in Hp as [Hp ->].
  destruct (pt_prefix _ _ _ Hinv π _ ltac:(by eexists)) as [a0 Ha0]. rewrite (IH a0 Ha0 Hva Hp).
  destruct (entry_at tb root T Hinv π a0 va Ha0 Hva) as (es & pte & Hes & _ & Hpte & Hnext). rewrite Ha in Hnext.
  replace (5 - length π)%nat with (S (5 - S (length π))) by lia. cbn [walk]. rewrite Hes. cbn [mbind option_bind]. rewrite Hpte.
  unfold is_ptr in Hnext. destruct (pte_present pte); [|done]. destruct (pte_leaf pte); [done|]. simpl in Hnext.
  injection Hnext as ->. cbn [negb]. rewrite <-descend_pa. by replace (Z.of_nat (length π) + 1) with (Z.of_nat (S (length π))) by lia.
Qed.

(** Addresses with one path translate alike. *)
Lemma walk_ext tb n l a va va' :
  (∀ k, l ≤ k < l + Z.of_nat n → vaddr_to_index va k = vaddr_to_index va' k) → walk tb n l a va = walk tb n l a va'.
Proof.
  revert l a. induction n as [|n IH]; intros l a Hk; [done|]. cbn [walk]. rewrite (Hk l) by lia.
  destruct (tb !! a ≫= _) as [pte|]; [|done]. destruct (negb _); [done|]. destruct (pte_leaf pte); [done|].
  apply IH. intros k Hlt. apply Hk. lia.
Qed.

Lemma walk_path tb root va va' : path_of va = path_of va' → walk tb 5 0 root va = walk tb 5 0 root va'.
Proof.
  intros E. unfold path_of in E. cbn [fmap list_fmap] in E. injection E as E0 E1 E2 E3 E4. apply walk_ext.
  intros k Hk. assert (k = 0 ∨ k = 1 ∨ k = 2 ∨ k = 3 ∨ k = 4) as [->|[->|[->|[->| ->]]]] by lia; done.
Qed.

Section mapping.
Context {S : Type} `{FrameAllocLaws S} (root : Z) (Hroot : is_physmap_addr root = false).

Record mm (m : mmu S) (T : gmap (list Z) Z) (own : gset Z) (n : nat) : Prop := {
  mm_pt : pt_inv (tables m) root T;
  mm_fa : fa_ok (frames m) own n;
  mm_own π a : T !! π = Some a → a = root ∨ ∃ pa, pa ∈ own ∧ a = paddr_to_physmap pa;
}.

(** The walks from the root that two states have in common. *)
Definition same_walks (m m' : mmu S) : Prop :=
  ∀ va, is_usize va → walk (tables m') 5 0 root va = walk (tables m) 5 0 root va.

Lemma item_run (m : mmu S) a es i pte : tables m !! a = Some es → es !! Z.to_nat i = Some pte → item a i m = Ret (pte, m).
Proof. intros Ha Hi. unfold item. erewrite M_bind_run by (by apply deref_run). by rewrite Hi. Qed.

Lemma mk_item_run (m : mmu S) a es i pfn prot : tables m !! a = Some es → i < 512 →
  mk_item a i pfn prot m = Ret ((), mkMmu (upd_entry a es i (mk_pte pfn prot) (tables m)) (frames m)).
Proof.
  intros Ha Hi. unfold mk_item. erewrite M_bind_run by (by apply deref_run).
  by rewrite (proj2 (Z.ltb_lt i PAGE_TABLE_ENTRIES)) by done.
Qed.

Lemma fresh_table m T own n pa π a : mm m T own n → frame_ok pa → pa ∉ own → T !! π = Some a → a ≠ paddr_to_physmap pa.
Proof.
  intros Hm Hpa Hno Ha ->. destruct (physmap_frame pa Hpa) as [Ep Hphys].
  destruct (mm_own _ _ _ _ Hm _ _ Ha) as [E|(pa' & Hin & E)].
  - rewrite E, Ep in *. congruence.
  - pose proof (fa_frames _ _ _ _ (mm_fa _ _ _ _ Hm) Hin) as Hpa'. destruct (physmap_frame pa' Hpa') as [Ep' _].
    assert (pa = pa') by lia. congruence.
Qed.

Lemma next_table_spec m T own n π a va :
  mm m T own (Datatypes.S n) → T !! π = Some a → (length π < 4)%nat → is_usize va →
  π = take (length π) (path_of va) →
  let i := vaddr_to_index va (Z.of_nat (length π)) in
  ∃ r m' T' own' n', next_table a i m = Ret (r, m') ∧ mm m' T' own' n' ∧ (n ≤ n')%nat ∧ T ⊆ T' ∧ same_walks m m' ∧
    match r with
    | Ok b => T' !! (π ++ [i]) = Some b
    | Err e => e = AlreadyExists ∧ ∃ x, walk (tables m) 5 0 root va = Ok x
    end.
Proof.
  intros Hm Ha Hd Hva Hpath i. pose proof (mm_pt _ _ _ _ Hm) as Hpt.
  destruct (entry_at _ _ _ Hpt π a va Ha Hva) as (es & pte & Hes & Hl & Hpte & Hnext). fold i in Hpte, Hnext.
  pose proof (index_range va (Z.of_nat (length π)) Hva) as Hi. fold i in Hi.
  pose proof (item_run m a es i pte Hes Hpte) as Hitem.
  unfold next_table, item_present. rewrite (M_bind_run _ _ _ _ _ (M_bind_run _ _ _ _ _ Hitem)).
  destruct (pte_present pte) eqn:Epr.
  - unfold item_leaf. rewrite (M_bind_run _ _ _ _ _ (M_bind_run _ _ _ _ _ Hitem)). unfold is_ptr in Hnext. rewrite Epr in Hnext.
    destruct (pte_leaf pte) eqn:Elf.
    + eexists (Err AlreadyExists), m, T, own, _. split_and!; [done|done|lia|done|done|done|].
      rewrite (walk_reach _ _ _ _ _ _ Hpt Ha Hva Hpath). replace (5 - length π)%nat with (Datatypes.S (4 - length π)) by lia.
      cbn [walk]. rewrite Hes. cbn [mbind option_bind]. fold i. rewrite Hpte, Epr, Elf. by eexists.
    + unfold item_descend. rewrite (M_bind_run _ _ _ _ _ (M_bind_run _ _ _ _ _ Hitem)).
      eexists (Ok _), m, T, own, _. split_and!; [done|done|lia|done|done|]. simpl in Hnext. done.
  - destruct (fa_alloc _ _ _ (mm_fa _ _ _ _ Hm)) as (pa & f' & Halloc & Hfa & Hno & Hpa).
    assert (alloc_table m = Ret (Ok pa, mkMmu (tables m) f')) as Hrun by (unfold alloc_table, zoom; by rewrite Halloc).
    erewrite bindR_run by exact Hrun. set (b := paddr_to_physmap pa). cbv zeta.
    pose proof (λ π' a', fresh_table m T own _ pa π' a' Hm Hpa Hno) as Hfresh.
    erewrite M_bind_run by reflexivity. cbn [tables frames].
    erewrite M_bind_run by (apply mk_item_run; [cbn [tables]; rewrite lookup_insert_ne by (intros E; by apply (Hfresh π a Ha)); exact Hes|lia]).
    cbn [tables frames].
    eexists (Ok b), _, (<[π ++ [i] := b]> T), ({[pa]} ∪ own), n. split_and!; [reflexivity| |lia| | |by rewrite lookup_insert_eq].
    + split; cbn [tables frames]; [exact (add_table_inv _ _ _ Hpt π a es i pa pte Ha Hd Hes Hi Hpte Epr Hpa Hfresh)|exact Hfa|].
      intros π' a'. rewrite lookup_insert. case_decide as E.
      * intros Eb. injection Eb as <-. right. exists pa. split; [apply elem_of_union_l, elem_of_singleton_2|]; reflexivity.
      * intros Ha'. destruct (mm_own _ _ _ _ Hm _ _ Ha') as [Er|(pa' & Hin & Ep)]; [left; exact Er|right].
        exists pa'. split; [by apply elem_of_union_r|exact Ep].
    + apply insert_subseteq. eapply add_table_none; eassumption.
    + intros va' Hva'. exact (add_table_walk _ _ _ Hpt π a es i pa pte Ha Hd Hes Hi Hpte Epr Hpa Hfresh va' Hva').
Qed.

Lemma land_aligned x k : (2 ^ 12 | x) → 0 ≤ k ≤ 12 → Z.land x (2 ^ k - 1) = 0.
Proof.
  intros [q ->] Hk. replace (2 ^ k - 1) with (Z.ones k) by (rewrite Z.ones_equiv; lia). rewrite Z.land_ones by lia.
  replace 12 with ((12 - k) + k) by lia. rewrite Z.pow_add_r by lia. rewrite Z.mul_assoc. by apply Z_mod_mult.
Qed.

Lemma page_args_ok va pa : (PAGE_SIZE | va) → (PAGE_SIZE | pa) →
  (Z.land (Z.lor (Z.lor va pa) PAGE_SIZE) (unot PAGE_MASK) =? 0) = true ∧ Z.land (Z.lor va pa) (2 ^ 12 - 1) = 0.
Proof.
  rewrite PAGE_SIZE_eq. intros Hv Hp. change (unot PAGE_MASK) with (2 ^ 12 - 1).
  rewrite !Z.land_lor_distr_l, (land_aligned va 12), (land_aligned pa 12) by (done || lia). done.
Qed.

(** What mapping the page of [va] to [pa] does to the translations. *)
Definition mapped_page (m m' : mmu S) (va pa prot : Z) (r : Result Z) : Prop :=
  match r with
  | Ok n => n = PAGE_SIZE ∧ walk (tables m) 5 0 root va = Err NotFound ∧
      ∀ va', is_usize va' → walk (tables m') 5 0 root va' =
        if decide (path_of va' = path_of va) then Ok (pa, prot) else walk (tables m) 5 0 root va'
  | Err e => e = AlreadyExists ∧ (∃ x, walk (tables m) 5 0 root va = Ok x) ∧ same_walks m m'
  end.

Lemma mapped_page_trans m m1 m' va pa prot r : is_usize va →
  same_walks m m1 → mapped_page m1 m' va pa prot r → mapped_page m m' va pa prot r.
Proof.
  intros Hva Hs. unfold mapped_page. destruct r as [n|e].
  - intros (-> & Hnf & Hw). split_and!; [done|by rewrite <-Hs|]. intros va' Hva'. rewrite Hw by done. case_decide; [done|by apply Hs].
  - intros (-> & [x Hx] & Hw). split_and!; [done|exists x; by rewrite <-Hs|]. intros va' Hva'. by rewrite Hw, Hs.
Qed.

(** The entry of the last level. *)
Lemma map_leaf m T own n π a va pa prot fuel depth :
  mm m T own n → T !! π = Some a → length π = 4%nat → is_usize va → π = take 4 (path_of va) →
  (PAGE_SIZE | va) → frame_ok pa → 0 ≤ prot < 2 ^ 10 → pte_leaf prot = true →
  ∃ r m', map_page_table (Datatypes.S depth) (Datatypes.S (Datatypes.S fuel)) va pa PAGE_SIZE prot 4 a m = Ret (r, m') ∧
    mm m' T own n ∧ mapped_page m m' va pa prot r.
Proof.
  intros Hm Ha Hd Hva Hpath Hal Hpa Hprot Hpl. pose proof (mm_pt _ _ _ _ Hm) as Hpt.
  destruct (entry_at _ _ _ Hpt π a va Ha Hva) as (es & pte & Hes & Hl & Hpte & _). rewrite Hd in Hpte. change (Z.of_nat 4) with 4 in Hpte.
  pose proof (index_range va 4 Hva) as Hi. set (i := vaddr_to_index va 4) in *.
  pose proof (item_run m a es i pte Hes Hpte) as Hitem.
  assert (walk (tables m) 5 0 root va = if negb (pte_present pte) then Err NotFound
    else if pte_leaf pte then Ok (PFN_TO_PA (PTE_TO_PFN pte), PTE_TO_PROT pte) else Err BadState) as Hreach.
  { rewrite (walk_reach _ _ _ _ _ _ Hpt Ha Hva ltac:(by rewrite Hd)), Hd. change (5 - 4)%nat with 1%nat. change (Z.of_nat 4) with 4.
    cbn [walk]. rewrite Hes. cbn [mbind option_bind]. fold i. by rewrite Hpte. }
  destruct (page_args_ok va pa Hal (proj1 Hpa)) as [Hargs Hlor].
  cbn [map_page_table]. rewrite Hargs. cbn [negb]. cbn [map_loop]. change (0 <? PAGE_SIZE) with true. cbn [negb]. cbv zeta.
  destruct (levels_eq 4 ltac:(lia)) as [-> ->]. change (2 ^ (48 - 9 * 4)) with PAGE_SIZE. rewrite Z.min_id. fold i.
  rewrite (M_bind_run _ _ _ _ _ Hitem). rewrite (block_mask_eq 4) by lia. change (48 - 9 * 4) with 12. rewrite Hlor, Z.eqb_refl.
  change (MMU_PTE_DESCRIPTOR_LEAF_MAX_SHIFT <? 12) with false. rewrite Z.eqb_refl. cbn [negb orb]. unfold item_present.
  destruct (pte_present pte) eqn:Epr.
  - exists (Err AlreadyExists), m. split; [|split; [done|split; [done|split; [|done]]]].
    + erewrite bindR_err; [reflexivity|]. rewrite (M_bind_run _ _ _ _ _ (M_bind_run _ _ _ _ _ Hitem)), Epr. reflexivity.
    + rewrite Hreach. cbn [negb]. destruct (pte_leaf pte) eqn:Elf; [by eexists|].
      exfalso. destruct (entry_at _ _ _ Hpt π a va Ha Hva) as (es1 & pte1 & He1 & _ & Hp1 & Hn1).
      rewrite Hd in Hp1, Hn1. change (Z.of_nat 4) with 4 in *. fold i in Hp1, Hn1. rewrite Hes in He1. injection He1 as <-.
      rewrite Hpte in Hp1. injection Hp1 as <-. unfold is_ptr in Hn1. rewrite Epr, Elf in Hn1. simpl in Hn1.
      apply (pt_depth _ _ _ Hpt) in Hn1. rewrite length_app, Hd in Hn1. simpl in Hn1. lia.
  - eexists (Ok PAGE_SIZE), _. split; [|split].
    + erewrite bindR_run.
      2:{ rewrite (M_bind_run _ _ _ _ _ (M_bind_run _ _ _ _ _ Hitem)), Epr.
          rewrite (M_bind_run _ _ _ _ _ (mk_item_run m a es i _ _ Hes ltac:(lia))). reflexivity. }
      change (usub PAGE_SIZE PAGE_SIZE) with 0. change (0 <? 0) with false. cbn [negb]. change (uadd 0 PAGE_SIZE) with PAGE_SIZE. reflexivity.
    + split; cbn [tables frames]; [|exact (mm_fa _ _ _ _ Hm)|exact (mm_own _ _ _ _ Hm)].
      eapply add_leaf_inv; eassumption.
    + unfold mapped_page. cbn [tables]. split; [done|]. split; [by rewrite Hreach|]. intros va' Hva'.
      erewrite add_leaf_walk; try eassumption. apply decide_ext.
      replace (π ++ [i]) with (path_of va); [done|]. rewrite Hpath. by apply (path_take va 4).
Qed.

Lemma map_page_spec depth m T own n π a va pa prot fuel :
  mm m T own n → T !! π = Some a → (depth + length π = 4)%nat → (depth ≤ n)%nat → is_usize va →
  π = take (length π) (path_of va) → (PAGE_SIZE | va) → frame_ok pa → 0 ≤ prot < 2 ^ 10 → pte_leaf prot = true →
  ∃ r m' T' own' n', map_page_table (Datatypes.S depth) (Datatypes.S (Datatypes.S fuel)) va pa PAGE_SIZE prot (Z.of_nat (length π)) a m = Ret (r, m') ∧
    mm m' T' own' n' ∧ (n ≤ depth + n')%nat ∧ mapped_page m m' va pa prot r.
Proof.
  revert m T own n π a. induction depth as [|depth IH]; intros m T own n π a Hm Ha Hd Hn Hva Hpath Hal Hpa Hprot Hpl.
  { simpl in Hd. destruct (map_leaf m T own n π a va pa prot fuel 0 Hm Ha Hd Hva) as (r & m' & Hrun & Hm' & Hr); try done; [by rewrite Hd in Hpath|].
    rewrite Hd. exists r, m', T, own, n. split_and!; [exact Hrun|done|lia|done]. }
  destruct n as [|n]; [lia|]. pose proof (mm_pt _ _ _ _ Hm) as Hpt. set (l := Z.of_nat (length π)).
  destruct (entry_at _ _ _ Hpt π a va Ha Hva) as (es & pte & Hes & _ & Hpte & _). fold l in Hpte.
  destruct (next_table_spec m T own n π a va Hm Ha ltac:(lia) Hva Hpath) as (r & m1 & T1 & own1 & n1 & Hrun1 & Hm1 & Hn1 & Hsub & Hsame & Hres).
  fold l in Hrun1, Hres. destruct (page_args_ok va pa Hal (proj1 Hpa)) as [Hargs _].
  destruct (levels_eq l ltac:(lia)) as [Hsh Hsz].
  assert (2 ^ 21 ≤ 2 ^ (48 - 9 * l)) as Hbig by (apply Z.pow_le_mono_r; lia).
  change (map_page_table (Datatypes.S (Datatypes.S depth)) (Datatypes.S (Datatypes.S fuel)) va pa PAGE_SIZE prot l a m) with
    ((if negb (Z.land (Z.lor (Z.lor va pa) PAGE_SIZE) (unot PAGE_MASK) =? 0) then mret (Err InvalidArgs)
      else map_loop (λ va pa sz tbl, map_page_table (Datatypes.S depth) (Datatypes.S (Datatypes.S fuel)) va pa sz prot (l + 1) tbl)
             (Datatypes.S (Datatypes.S fuel)) va pa PAGE_SIZE prot l a 0) m).
  rewrite Hargs. cbn [negb map_loop]. change (0 <? PAGE_SIZE) with true. cbn [negb]. cbv zeta. rewrite Hsz.
  rewrite (Z.min_l PAGE_SIZE) by (change PAGE_SIZE with 4096; lia). rewrite (M_bind_run _ _ _ _ _ (item_run m a es _ pte Hes Hpte)).
  rewrite (proj2 (Z.eqb_neq PAGE_SIZE (2 ^ (48 - 9 * l)))) by (change PAGE_SIZE with 4096; lia). rewrite orb_true_r. cbn [orb].
  destruct r as [b|e].
  - destruct (IH m1 T1 own1 n1 (π ++ [vaddr_to_index va l]) b Hm1 Hres) as (r2 & m2 & T2 & own2 & n2 & Hrun2 & Hm2 & Hn2 & Hr2); try done.
    + rewrite length_app. simpl. lia.
    + lia.
    + rewrite length_app, Nat.add_1_r. rewrite path_take by lia. by rewrite <-Hpath.
    + replace (Z.of_nat (length (π ++ [vaddr_to_index va l]))) with (l + 1) in Hrun2 by (rewrite length_app; simpl; lia).
      exists r2, m2, T2, own2, n2. split; [|split; [done|split; [lia|by apply (mapped_page_trans m m1)]]].
      destruct r2 as [sz|e2].
      * erewrite bindR_run by (erewrite bindR_run by exact Hrun1; erewrite bindR_run by exact Hrun2; reflexivity).
        change (usub PAGE_SIZE PAGE_SIZE) with 0. change (0 <? 0) with false. cbn [negb]. change (uadd 0 PAGE_SIZE) with PAGE_SIZE.
        destruct Hr2 as (-> & _). reflexivity.
      * erewrite bindR_err; [reflexivity|]. erewrite bindR_run by exact Hrun1. by erewrite bindR_err by exact Hrun2.
  - destruct Hres as [-> [x Hx]]. exists (Err AlreadyExists), m1, T1, own1, n1. split; [|split; [done|split; [lia|split; [done|split; [by exists x|done]]]]].
    erewrite bindR_err; [reflexivity|]. by erewrite bindR_err by exact Hrun1.
Qed.

Lemma map_pages_spec m T own n va pa prot fuel :
  mm m T own n → (4 ≤ n)%nat → is_usize va → (PAGE_SIZE | va) → frame_ok pa → 0 ≤ prot < 2 ^ 10 → pte_leaf prot = true →
  (2 ≤ fuel)%nat →
  ∃ r m' T' own' n', map_pages fuel root va pa PAGE_SIZE prot m = Ret (r, m') ∧
    mm m' T' own' n' ∧ (n ≤ 4 + n')%nat ∧ mapped_page m m' va pa prot r.
Proof.
  intros Hm Hn Hva Hal Hpa Hprot Hpl Hf. destruct fuel as [|[|fuel]]; [lia|lia|].
  apply (map_page_spec 4 m T own n [] root va pa prot fuel Hm (pt_root _ _ _ (mm_pt _ _ _ _ Hm))); done.
Qed.
End mapping.

(** ** The physical memory manager keeps the laws *)

Section pmm_laws.
Context (free_list : Z).

#[global] Instance pmm_frame_alloc : FrameAlloc PmmNode := {| alloc_frame := alloc_page_table free_list |}.

Definition frame_of (s : PmmNode) (a : PmmArena) (i : Z) : Prop := a ∈ arenas s ∧ 0 ≤ i < arena_pages a.

(** The arenas lie in the physmap, the free list holds pages of arenas, and
    the pages of the frames in [own] are not on it. *)
Definition pmm_fa_ok (s : PmmNode) (own : gset Z) (n : nat) : Prop :=
  ∃ fl, pages_inv free_list s fl ∧ (n ≤ length fl)%nat ∧
    (∀ a, a ∈ arenas s → arena_base a + arena_size a ≤ PHYSMAP_SIZE) ∧
    (∀ p, p ∈ fl → ∃ a i, frame_of s a i ∧ p = arena_slot a i) ∧
    (∀ pa, pa ∈ own → ∃ a i, frame_of s a i ∧ pa = arena_base a + i * PAGE_SIZE ∧ arena_slot a i ∉ fl).

Lemma frame_of_ok s fl a i : pages_inv free_list s fl → (∀ a, a ∈ arenas s → arena_base a + arena_size a ≤ PHYSMAP_SIZE) →
  frame_of s a i → frame_ok (arena_base a + i * PAGE_SIZE) ∧
    arena_base a ≤ arena_base a + i * PAGE_SIZE < arena_base a + arena_size a.
Proof.
  intros (_ & _ & Hwf & _) Hphys [Ha Hi]. pose proof (proj1 (Forall_forall _ _) Hwf _ Ha) as (H0 & Hb & [k Hk] & Hpos & _).
  specialize (Hphys a Ha). unfold arena_pages in Hi. rewrite Hk, Z.div_mul in Hi by done. change PAGE_SIZE with 4096 in *.
  split; [split; [|lia]|lia]. apply Z.divide_add_r; [done|apply Z.divide_factor_r].
Qed.

(** One frame has one slot. *)
Lemma frame_slot s fl a i b j : pages_inv free_list s fl → (∀ a, a ∈ arenas s → arena_base a + arena_size a ≤ PHYSMAP_SIZE) →
  frame_of s a i → frame_of s b j → arena_base a + i * PAGE_SIZE = arena_base b + j * PAGE_SIZE → a = b ∧ i = j.
Proof.
  intros Hinv Hphys Ha Hb E. destruct (frame_of_ok s fl a i Hinv Hphys Ha) as [_ Hra].
  destruct (frame_of_ok s fl b j Hinv Hphys Hb) as [_ Hrb]. destruct Hinv as (_ & _ & Hwf & Hs & _).
  assert (a = b) as -> by (apply (sorted_disjoint (arenas s) a b (arena_base a + i * PAGE_SIZE)); [done|done|apply Ha|apply Hb|done|rewrite E; done]).
  change PAGE_SIZE with 4096 in E. split; [done|lia].
Qed.

(** Marking an allocated page keeps the invariant. *)
Lemma pages_inv_mark s fl p pg : pages_inv free_list s fl → p ∉ fl → vpages (mem s) !! p = Some pg → is_free pg = false →
  pages_inv free_list (with_mem (mkPmem (lists (mem s)) (alter (λ pg, mkPage (paddr pg) (object pg) MMU (loaned_state pg)) p (vpages (mem s)))) s) fl.
Proof.
  intros (Hd & Hfl & Hwf & Hs & Har) Hp Hpg Hnf. split_and!; try done; simpl.
  - intros q Hq. rewrite lookup_alter_ne by (intros ->; done). by apply Hfl.
  - intros a i Ha Hi. destruct (Har a i Ha Hi) as (pg' & Hpg' & Hpa & Hn & Hin).
    destruct (decide (p = arena_slot a i)) as [Heq|Hne].
    + rewrite Heq, lookup_alter_eq, Hpg'. eexists. by split_and!.
    + exists pg'. by rewrite lookup_alter_ne.
Qed.

Definition slots_ok (s : PmmNode) (fl : list Z) : Prop :=
  (∀ a, a ∈ arenas s → arena_base a + arena_size a ≤ PHYSMAP_SIZE) ∧ (∀ p, p ∈ fl → ∃ a i, frame_of s a i ∧ p = arena_slot a i).

(** A page table takes the first free page and marks it. *)
Lemma alloc_page_table_spec s p fl a i : pages_inv free_list s (p :: fl) → frame_of s a i → p = arena_slot a i →
  ∃ s', alloc_page_table free_list s = Ret (Ok (arena_base a + i * PAGE_SIZE), s') ∧ pages_inv free_list s' fl ∧
    arenas s' = arenas s ∧ frame (lists (mem s)) (lists (mem s')) (free_list :: p :: fl) ∧
    (∀ q, q ≠ p → vpages (mem s') !! q = vpages (mem s) !! q) ∧ p ∉ fl.
Proof.
  intros Hinv Hai Hp. destruct (alloc_page_spec free_list s PMM_ALLOC_FLAG_ANY p fl Hinv) as (m' & Hrun & Hinv1 & _ & Hfr).
  set (s1 := counted _ 1) in *. pose proof Hinv as (Hd & Hfl & _ & _ & Har).
  destruct (Har a i (proj1 Hai) (proj2 Hai)) as (pg & Hpg & Hpa & _). rewrite <-Hp in Hpg.
  assert (p ≠ null ∧ p ∉ fl) as [Hp0 Hpn].
  { destruct Hd as (_ & H0 & Hnd & _). split; [set_solver|]. apply NoDup_cons in Hnd as [_ Hnd]. by apply NoDup_cons in Hnd as [? _]. }
  assert (vpages (mem s1) !! p = Some (to_alloc pg)) as Hpg1 by (simpl; by rewrite lookup_alter_eq, Hpg).
  pose proof (pages_inv_mark s1 fl p _ Hinv1 Hpn Hpg1 eq_refl) as Hinv2.
  set (s2 := with_mem _ s1) in *. exists s2. split; [|split_and!; [exact Hinv2|done|exact Hfr| |done]].
  - unfold alloc_page_table, cache_alloc_page.
    erewrite bindR_run by (unfold pmm_alloc_page; rewrite (M_bind_run _ _ _ _ _ Hrun), (proj2 (Z.eqb_neq p null)) by done; reflexivity).
    rewrite (M_bind_run _ _ s1 () s2) by (unfold on_pages, zoom, set_state; by rewrite (update_page_run _ _ _ _ Hpg1)).
    rewrite (M_bind_run _ _ s2 (mkPage (paddr pg) (object pg) MMU (loaned_state pg)) s2).
    2:{ apply on_pages_at. simpl. rewrite !lookup_alter_eq, Hpg. done. }
    simpl. by rewrite Hpa.
  - intros q Hq. simpl. by rewrite !lookup_alter_ne.
Qed.

Lemma pmm_alloc_law s own n : pmm_fa_ok s own (S n) →
  ∃ pa s', alloc_page_table free_list s = Ret (Ok pa, s') ∧ pmm_fa_ok s' ({[pa]} ∪ own) n ∧ pa ∉ own ∧ frame_ok pa.
Proof.
  intros (fl & Hinv & Hn & Hphys & Hslots & Hown). destruct fl as [|p fl]; [simpl in Hn; lia|].
  destruct (Hslots p ltac:(set_solver)) as (a & i & Hai & Hp).
  destruct (alloc_page_table_spec s p fl a i Hinv Hai Hp) as (s' & Hrun & Hinv' & Har & _ & _ & Hpn).
  destruct (frame_of_ok s _ a i Hinv Hphys Hai) as [Hfr _]. exists (arena_base a + i * PAGE_SIZE), s'.
  unfold frame_of in *. rewrite <-Har in Hphys, Hslots, Hown, Hai. split_and!; [exact Hrun| | |apply Hfr..].
  - exists fl. unfold frame_of. split_and!; [done|simpl in Hn; lia|done| |].
    + intros q Hq. apply Hslots. set_solver.
    + intros pa [->%elem_of_singleton|Hin]%elem_of_union; [by exists a, i; rewrite <-Hp|].
      destruct (Hown pa Hin) as (b & j & Hbj & E & Hnin). exists b, j. split_and!; [apply Hbj..|done|set_solver].
  - intros Hin. destruct (Hown _ Hin) as (b & j & Hbj & E & Hnin). rewrite Har in *.
    destruct (frame_slot s _ a i b j Hinv Hphys Hai Hbj E) as [<- <-]. apply Hnin. rewrite <-Hp. set_solver.
Qed.

#[global] Instance pmm_frame_laws : FrameAllocLaws PmmNode.
Proof.
  refine {| fa_ok := pmm_fa_ok; fa_alloc := pmm_alloc_law |}.
  intros s own n pa (fl & Hinv & _ & Hphys & _ & Hown) Hin. destruct (Hown pa Hin) as (a & i & Hai & -> & _).
  by apply (frame_of_ok s fl a i).
Defined.
End pmm_laws.
