(* ===== verification/Aspace.v ===== *)
(** * aspace.rs: address spaces

    [VmAspace] with its [map], [query] and [protect], and the flags of
    vm/vm.rs it uses.  Mapping pages is related to querying them through the
    page-table tree of Mmu.v. *)

From Stdlib Require Import Sorted.
From S2P Require Import Prelude Defs LinkedList Page Pmm Vmar Mmu.

(** ** vm/vm.rs: mapping flags *)

Definition ARCH_MMU_FLAG_CACHED : Z := Z.shiftl 0 0.
Definition ARCH_MMU_FLAG_UNCACHED_DEVICE : Z := Z.shiftl 2 0.
Definition ARCH_MMU_FLAG_PERM_READ : Z := Z.shiftl 1 3.
Definition ARCH_MMU_FLAG_PERM_WRITE : Z := Z.shiftl 1 4.
Definition ARCH_MMU_FLAG_PERM_EXECUTE : Z := Z.shiftl 1 5.
Definition GAP_MMU_FLAGS : Z :=
  Z.lor (Z.lor ARCH_MMU_FLAG_PERM_READ ARCH_MMU_FLAG_PERM_WRITE) ARCH_MMU_FLAG_UNCACHED_DEVICE.

Definition mmu_prot_from_flags (mmu_flags : Z) : outcome Z :=
  let mask := Z.lor (Z.lor ARCH_MMU_FLAG_PERM_READ ARCH_MMU_FLAG_PERM_WRITE) ARCH_MMU_FLAG_UNCACHED_DEVICE in
  if negb (Z.land mmu_flags (unot mask) =? 0) then Panic
  else
    let prot := if negb (Z.land mmu_flags ARCH_MMU_FLAG_PERM_READ =? 0) then PAGE_READ else 0 in
    Ret (if negb (Z.land mmu_flags ARCH_MMU_FLAG_PERM_WRITE =? 0) then Z.lor prot PAGE_WRITE else prot).

(** ** VmAspace *)

Definition VMAR_FLAG_CAN_MAP_SPECIFIC : Z := Z.shiftl 1 3.
Definition VMAR_FLAG_CAN_MAP_READ : Z := Z.shiftl 1 4.
Definition VMAR_FLAG_CAN_MAP_WRITE : Z := Z.shiftl 1 5.
Definition VMAR_FLAG_CAN_MAP_EXECUTE : Z := Z.shiftl 1 6.
Definition VMAR_CAN_RWX_FLAGS : Z :=
  Z.lor (Z.lor VMAR_FLAG_CAN_MAP_READ VMAR_FLAG_CAN_MAP_WRITE) VMAR_FLAG_CAN_MAP_EXECUTE.

Inductive VmAspaceType := User | Kernel | LowKernel | GuestPhysical.
Inductive ExistingEntryAction := Skip | Error.

#[export] Instance action_eq_dec : EqDecision ExistingEntryAction.
Proof. solve_decision. Defined.

Record VmAspace := mkAspace {
  as_id : Z;
  as_type : VmAspaceType;
  as_base : Z;
  as_size : Z;
  as_root_vmar : option VmAddressRegion;
}.

(** [init]: the node of the address-space list is set up apart. *)
Definition VmAspace_init (id : Z) (ty : VmAspaceType) (base size : Z) : VmAspace := mkAspace id ty base size None.
Definition VmAspace_root_vmar (self : VmAspace) : outcome VmAddressRegion :=
  match as_root_vmar self with Some v => Ret v | None => Panic end.

Definition is_valid_vaddr (self : VmAspace) (vaddr : Z) : bool :=
  (as_base self <=? vaddr) && (vaddr <=? usub (uadd (as_base self) (as_size self)) 1).

Section ops.
Context {S : Type} {FA : FrameAlloc S}.
(** [_swapper_pgd]. *)
Context (swapper_pgd : Z).

(** [phys[i]]. *)
Definition phys_at (phys : list Z) (i : nat) : M (mmu S) Z :=
  match phys !! i with Some pa => mret pa | None => panic end.

(** [for i in 0..count]: the frames must be page aligned. *)
Fixpoint check_phys (phys : list Z) (n i : nat) : M (mmu S) (Result unit) :=
  match n with
  | O => mret (Ok ())
  | Datatypes.S n =>
      pa ← phys_at phys i;
      zx_assert (IS_PAGE_ALIGNED pa);;
      if negb (IS_PAGE_ALIGNED pa) then mret (Err InvalidArgs) else check_phys phys n (Datatypes.S i)
  end.

(** [for idx in 0..count]. *)
Fixpoint map_each (fuel : nat) (phys : list Z) (prot : Z) (action : ExistingEntryAction) (n i : nat) (v : Z) :
    M (mmu S) (Result unit) :=
  match n with
  | O => mret (Ok ())
  | Datatypes.S n =>
      pa ← phys_at phys i;
      zx_assert (IS_PAGE_ALIGNED pa);;
      r ← map_pages fuel swapper_pgd v pa PAGE_SIZE prot;
      match r with
      | Err e =>
          if negb (bool_decide (e = AlreadyExists)) || bool_decide (action = Error) then mret (Err e)
          else map_each fuel phys prot action n (Datatypes.S i) (uadd v PAGE_SIZE)
      | Ok _ => map_each fuel phys prot action n (Datatypes.S i) (uadd v PAGE_SIZE)
      end
  end.

Definition VmAspace_map (fuel : nat) (self : VmAspace) (vaddr : Z) (phys : list Z) (count mmu_flags : Z)
    (action : ExistingEntryAction) : M (mmu S) (Result Z) :=
  if negb (is_valid_vaddr self vaddr) then mret (Err OutOfRange)
  else
    _ ←? check_phys phys (Z.to_nat count) 0;
    if Z.land mmu_flags ARCH_MMU_FLAG_PERM_READ =? 0 then mret (Err InvalidArgs)
    else
      zx_assert (IS_PAGE_ALIGNED vaddr);;
      if negb (IS_PAGE_ALIGNED vaddr) then mret (Err InvalidArgs)
      else if count =? 0 then mret (Ok 0)
      else
        _ ←? map_each fuel phys PAGE_KERNEL action (Z.to_nat count) 0 vaddr;
        mret (Ok count).

(** [todo!]. *)
Definition VmAspace_unmap (self : VmAspace) (va count : Z) (enlarge : bool) : M (mmu S) (Result Z) := panic.

Definition VmAspace_protect (self : VmAspace) (vaddr count mmu_flags : Z) : M (mmu S) (Result unit) :=
  if negb (is_valid_vaddr self vaddr) then mret (Err InvalidArgs)
  else if negb (IS_PAGE_ALIGNED vaddr) then mret (Err InvalidArgs)
  else if Z.land mmu_flags ARCH_MMU_FLAG_PERM_READ =? 0 then mret (Err InvalidArgs)
  else if negb (Z.land mmu_flags ARCH_MMU_FLAG_PERM_EXECUTE =? 0) then panic
  else match mmu_prot_from_flags mmu_flags with
       | Ret prot => protect_pages vaddr (umul count PAGE_SIZE) prot
       | _ => panic
       end.

(** The [loop] of [query_locked]. *)
Fixpoint query_loop (fuel : nat) (va level page_table : Z) : M (mmu S) (Result (Z * Z)) :=
  match fuel with
  | O => spin
  | Datatypes.S fuel =>
      let index := vaddr_to_index va level in
      p ← item_present page_table index;
      if negb p then mret (Err NotFound)
      else
        pte ← item page_table index;
        let pa := PFN_TO_PA (PTE_TO_PFN pte) in
        l ← item_leaf page_table index;
        if (l : bool) then mret (Ok (pa, PTE_TO_PROT pte))
        else query_loop fuel va (level + 1) (paddr_to_physmap pa)
  end.
Definition query_locked (fuel : nat) (self : VmAspace) (va : Z) : M (mmu S) (Result (Z * Z)) :=
  if negb (is_valid_vaddr self va) then mret (Err OutOfRange) else query_loop fuel va 0 swapper_pgd.
Definition VmAspace_query := query_locked.
End ops.

(** ** vm/vm.rs: the physmap's gaps *)

Section physmap.
Context {S : Type}.

(** [physmap_for_each_gap]: the rest of the loop from [gap_base] on; [func]
    is called on each gap. *)
Fixpoint for_each_arena (func : Z → Z → M S unit) (l : list PmmArena) (gap_base : Z) : M S unit :=
  match l with
  | [] =>
      let physmap_end := uadd PHYSMAP_BASE PHYSMAP_SIZE in
      let gap_size := usub physmap_end gap_base in
      if 0 <? gap_size then func gap_base gap_size else mret ()
  | arena :: l =>
      let base := paddr_to_physmap (arena_base arena) in
      zx_assert ((gap_base <=? base) && (base mod PAGE_SIZE =? 0));;
      zx_assert ((0 <? arena_size arena) && (arena_size arena mod PAGE_SIZE =? 0));;
      let gap_size := usub base gap_base in
      (if 0 <? gap_size then func gap_base gap_size else mret ());;
      for_each_arena func l (uadd base (arena_size arena))
  end.
Definition physmap_for_each_gap (func : Z → Z → M S unit) (arenas : list PmmArena) : M S unit :=
  for_each_arena func arenas PHYSMAP_BASE.

Definition physmap_protect_region (kernel_aspace : VmAspace) (base size mmu_flags : Z) : M (mmu S) unit :=
  zx_assert (base mod PAGE_SIZE =? 0);;
  zx_assert (size mod PAGE_SIZE =? 0);;
  status ← VmAspace_protect kernel_aspace base (size / PAGE_SIZE) mmu_flags;
  match status with Ok _ => mret () | Err _ => panic end.
End physmap.

Definition physmap_protect_non_arena_regions {S} (kernel_aspace : VmAspace) (arenas : list PmmArena) : M (mmu S) unit :=
  physmap_for_each_gap (λ base size, physmap_protect_region kernel_aspace base size GAP_MMU_FLAGS) arenas.
(** [physmap_protect_arena_regions_noexecute] is empty. *)
Definition vm_init {S} (kernel_aspace : VmAspace) (arenas : list PmmArena) : M (mmu S) (Result unit) :=
  physmap_protect_non_arena_regions kernel_aspace arenas;; mret (Ok ()).

(** ** The kernel address space before the heap *)

(** [ASPACE_LIST] as the sequence it holds, and the heap's dimensions in
    [BOOT_CONTEXT]. *)
Record vm_boot := mkVmBoot { aspace_list : list VmAspace; kernel_heap_base : Z; kernel_heap_size : Z }.

Definition ALL_VMAR_FLAGS : Z := Z.lor VMAR_FLAG_CAN_MAP_SPECIFIC VMAR_CAN_RWX_FLAGS.

(** [let mut r = VmAddressRegion::new(); r.init(b, s, f)]. *)
Definition new_vmar (b s f : Z) : M vm_boot VmAddressRegion :=
  λ st, match VmAddressRegion_init b s f VmAddressRegion_new with
        | Ret (_, r) => Ret (r, st) | Panic => Panic | Fault => Fault | Spin => Spin end.

Definition kernel_aspace_init_preheap : M vm_boot (Result unit) :=
  root_vmar ← new_vmar KERNEL_ASPACE_BASE KERNEL_ASPACE_SIZE ALL_VMAR_FLAGS;
  let a := VmAspace_init 0 Kernel KERNEL_ASPACE_BASE KERNEL_ASPACE_SIZE in
  let kernel_aspace := mkAspace (as_id a) (as_type a) (as_base a) (as_size a) (Some root_vmar) in
  modifyS (λ st, mkVmBoot (kernel_aspace :: aspace_list st) (kernel_heap_base st) (kernel_heap_size st));;
  mret (Ok ()).

(** Code on the root region of [aspace_list.head()]. *)
Definition on_root_vmar {A} (f : M VmAddressRegion A) : M vm_boot A := λ st,
  match aspace_list st with
  | [] => Fault
  | a :: l =>
      match VmAspace_root_vmar a with
      | Ret v =>
          match f v with
          | Ret (x, v') =>
              Ret (x, mkVmBoot (mkAspace (as_id a) (as_type a) (as_base a) (as_size a) (Some v') :: l)
                        (kernel_heap_base st) (kernel_heap_size st))
          | Panic => Panic | Fault => Fault | Spin => Spin
          end
      | Panic => Panic | Fault => Fault | Spin => Spin
      end
  end.

Section preheap.
(** Linker symbols. *)
Context (_text_start _start _end : Z).

Definition kernel_size : Z := usub _end _start.
(** [KERNEL_REGIONS[0].base]. *)
Definition kernel_regions_base : Z := _text_start.

Definition vm_init_preheap_vmars : M vm_boot unit :=
  kernel_physmap_vmar ← new_vmar PHYSMAP_BASE PHYSMAP_SIZE ALL_VMAR_FLAGS;
  on_root_vmar (insert_child kernel_physmap_vmar);;
  kernel_image_vmar ← new_vmar kernel_regions_base kernel_size ALL_VMAR_FLAGS;
  on_root_vmar (insert_child kernel_image_vmar);;
  let heap_bytes := ROUNDUP (umul HEAP_MAX_SIZE_MB MB) (ushl 1 ARCH_HEAP_ALIGN_BITS) in
  heap_base ← on_root_vmar (λ v,
    match alloc_spot_locked v heap_bytes ARCH_HEAP_ALIGN_BITS
            (Z.lor ARCH_MMU_FLAG_PERM_READ ARCH_MMU_FLAG_PERM_WRITE) usize_max with
    | Ret s => Ret (s, v) | Panic => Panic | Fault => Fault | Spin => Spin end);
  kernel_heap_vmar ← new_vmar heap_base heap_bytes
    (Z.lor (Z.lor VMAR_FLAG_CAN_MAP_SPECIFIC VMAR_FLAG_CAN_MAP_READ) VMAR_FLAG_CAN_MAP_WRITE);
  on_root_vmar (insert_child kernel_heap_vmar);;
  modifyS (λ st, mkVmBoot (aspace_list st) heap_base heap_bytes).
End preheap.

Definition vm_get_kernel_heap_base (st : vm_boot) : Z := kernel_heap_base st.
Definition vm_get_kernel_heap_size (st : vm_boot) : Z := kernel_heap_size st.

(** The page that stays zero: allocated, wired and cleared. *)
Definition zero_page_init (free_list : Z) : M (mmu PmmNode) unit :=
  let on_pmm {A} (f : M PmmNode A) : M (mmu PmmNode) A := zoom frames (λ f m, mkMmu (tables m) f) f in
  page ← on_pmm (pmm_alloc_page free_list 0);
  if page =? null then panic
  else
    on_pmm (on_pages (set_state page WIRED));;
    pg ← on_pmm (on_pages (page_at page));
    let va := paddr_to_physmap (paddr pg) in
    zx_assert (negb (va =? 0));;
    arch_zero_page va.

Definition vm_init_preheap (_text_start _start _end free_list : Z) : M (vm_boot * mmu PmmNode) (Result unit) :=
  let on_vm {A} (f : M vm_boot A) : M (vm_boot * mmu PmmNode) A := zoom fst (λ v s, (v, s.2)) f in
  on_vm (modifyS (λ st, mkVmBoot [] (kernel_heap_base st) (kernel_heap_size st)));;
  _ ←? on_vm kernel_aspace_init_preheap;
  on_vm (vm_init_preheap_vmars _text_start _start _end);;
  zoom snd (λ m s, (s.1, m)) (zero_page_init free_list);;
  mret (Ok ()).

(** ** Queries *)

Lemma query_loop_walk {S} (m : mmu S) root T va fuel n π a :
  pt_inv (tables m) root T → is_usize va → T !! π = Some a → (n + length π = 5)%nat → (n ≤ fuel)%nat →
  query_loop fuel va (Z.of_nat (length π)) a m = Ret (walk (tables m) n (Z.of_nat (length π)) a va, m).
Proof.
  intros Hinv Hva. revert π a fuel. induction n as [|n IH]; intros π a fuel Ha Hn Hf.
  { pose proof (pt_depth _ _ _ Hinv _ _ Ha). lia. }
  destruct fuel as [|fuel]; [lia|].
  destruct (entry_at _ _ _ Hinv π a va Ha Hva) as (es & pte & Hes & _ & Hpte & Hnext).
  pose proof (item_run m a es _ pte Hes Hpte) as Hitem.
  cbn [query_loop walk]. rewrite Hes. cbn [mbind option_bind]. rewrite Hpte.
  unfold item_present, item_leaf. rewrite (M_bind_run _ _ _ _ _ (M_bind_run _ _ _ _ _ Hitem)).
  destruct (pte_present pte) eqn:Epr; cbn [negb]; [|done].
  rewrite (M_bind_run _ _ _ _ _ Hitem), (M_bind_run _ _ _ _ _ (M_bind_run _ _ _ _ _ Hitem)).
  destruct (pte_leaf pte) eqn:Elf; [done|]. unfold is_ptr in Hnext. rewrite Epr, Elf in Hnext. cbn [negb andb] in Hnext.
  rewrite descend_pa in Hnext. specialize (IH _ _ fuel Hnext). rewrite length_app in IH. cbn [length] in IH.
  replace (Z.of_nat (length π + 1)) with (Z.of_nat (length π) + 1) in IH by lia. apply IH; lia.
Qed.

Definition kernel_range (va : Z) : Prop := KERNEL_ASPACE_BASE ≤ va < 2 ^ 64.
Definition is_kernel_aspace (self : VmAspace) : Prop := as_base self = KERNEL_ASPACE_BASE ∧ as_size self = KERNEL_ASPACE_SIZE.

Lemma kernel_valid self va : is_kernel_aspace self → is_usize va → is_valid_vaddr self va = bool_decide (kernel_range va).
Proof.
  intros [Hb Hs] Hva. unfold is_valid_vaddr, kernel_range. rewrite Hb, Hs.
  change (usub (uadd KERNEL_ASPACE_BASE KERNEL_ASPACE_SIZE) 1) with (2 ^ 64 - 1). unfold is_usize in Hva.
  case_bool_decide; [apply andb_true_iff; rewrite !Z.leb_le; lia|apply andb_false_iff; rewrite !Z.leb_gt; lia].
Qed.

Lemma query_walk {S} (m : mmu S) root T self va fuel :
  is_kernel_aspace self → pt_inv (tables m) root T → kernel_range va → (5 ≤ fuel)%nat →
  VmAspace_query root fuel self va m = Ret (walk (tables m) 5 0 root va, m).
Proof.
  intros Hk Hinv Hva Hf. assert (is_usize va) by (destruct Hva; change KERNEL_ASPACE_BASE with (2 ^ 64 - 2 ^ 48) in *; unfold is_usize; lia).
  unfold VmAspace_query, query_locked. rewrite kernel_valid, bool_decide_true by done. cbn [negb].
  by apply (query_loop_walk m root T va fuel 5 [] root Hinv); [|apply (pt_root _ _ _ Hinv)| |].
Qed.

(** Two kernel addresses have one path exactly if they lie in one page. *)
Lemma path_page va va' : kernel_range va → kernel_range va' → path_of va = path_of va' ↔ va / 4096 = va' / 4096.
Proof.
  assert (∀ va, kernel_range va → path_of va = [511; (va / 4096) / 512 / 512 / 512 mod 512; (va / 4096) / 512 / 512 mod 512;
    (va / 4096) / 512 mod 512; (va / 4096) mod 512]) as Hp.
  { intros v Hv. unfold kernel_range in Hv. change KERNEL_ASPACE_BASE with (2 ^ 64 - 2 ^ 48) in Hv. unfold path_of.
    assert (∀ l, 0 ≤ l ≤ 4 → vaddr_to_index v l = v / 2 ^ (48 - 9 * l) mod 512) as Hi.
    { intros l Hl. unfold vaddr_to_index, ushr. destruct (levels_eq l Hl) as [-> _]. rewrite Z.mod_small by lia.
      rewrite Z.shiftr_div_pow2 by lia. change (PAGE_TABLE_ENTRIES - 1) with (Z.ones 9). by rewrite Z.land_ones by lia. }
    cbn [fmap list_fmap]. rewrite !Hi by lia.
    assert (v / 2 ^ (48 - 9 * 0) mod 512 = 511) as ->.
    { change (2 ^ (48 - 9 * 0)) with (2 ^ 48). rewrite <-(Z.div_unique v (2 ^ 48) 65535 (v - 65535 * 2 ^ 48)) by lia. reflexivity. }
    rewrite !Z.div_div by lia. reflexivity. }
  intros Hv Hv'. rewrite !Hp by done. split; [|by intros ->].
  intros E. injection E as E1 E2 E3 E4. unfold kernel_range in *. change KERNEL_ASPACE_BASE with (2 ^ 64 - 2 ^ 48) in *.
  assert (∀ v, 2 ^ 64 - 2 ^ 48 ≤ v < 2 ^ 64 → 2 ^ 52 - 2 ^ 36 ≤ v / 4096 < 2 ^ 52) as Hx.
  { intros v ?. split; [apply Z.div_le_lower_bound|apply Z.div_lt_upper_bound]; lia. }
  pose proof (Hx va Hv) as H1. pose proof (Hx va' Hv') as H2. clear Hv Hv' Hx Hp.
  revert E1 E2 E3 E4 H1 H2. generalize (va / 4096) (va' / 4096). clear. intros x y. Z.to_euclidean_division_equations. lia.
Qed.

(** ** Mapping a run of pages *)

Section mapping.
Context {S : Type} `{FrameAllocLaws S} (root : Z) (Hroot : is_physmap_addr root = false).
Context (action : ExistingEntryAction) (phys : list Z) (vaddr : Z) (Hal : (PAGE_SIZE | vaddr)).
Implicit Types m : mmu S.

Notation translate m va := (walk (tables m) 5 0 root va).

(** What [va] translates to once the first [j] pages from [vaddr] on are
    mapped: a page that was mapped keeps its frame. *)
Definition mapped_upto (old : Result (Z * Z)) (j : Z) (va : Z) : Result (Z * Z) :=
  let k := (va - vaddr) / PAGE_SIZE in
  if bool_decide (0 ≤ k < j) then
    match old, phys !! Z.to_nat k with
    | Err NotFound, Some pa => Ok (pa, PAGE_KERNEL)
    | r, _ => r
    end
  else old.

Lemma aligned_div : vaddr = vaddr / 4096 * 4096.
Proof. destruct Hal as [q ->]. change PAGE_SIZE with 4096. by rewrite Z.div_mul. Qed.

Lemma page_index va i : (va - vaddr) / PAGE_SIZE = i ↔ va / 4096 = (vaddr + i * PAGE_SIZE) / 4096.
Proof. rewrite aligned_div. change PAGE_SIZE with 4096. set (q := vaddr / 4096). clearbody q. Z.to_euclidean_division_equations. lia. Qed.

Lemma map_one m T own n i pa fuel : mm root m T own n → (4 ≤ n)%nat → (2 ≤ fuel)%nat → 0 ≤ i →
  KERNEL_ASPACE_BASE ≤ vaddr → vaddr + (i + 1) * PAGE_SIZE ≤ 2 ^ 64 → phys !! Z.to_nat i = Some pa → frame_ok pa →
  ∃ r m' T' own' n', map_pages fuel root (vaddr + i * PAGE_SIZE) pa PAGE_SIZE PAGE_KERNEL m = Ret (r, m') ∧
    mm root m' T' own' n' ∧ (n ≤ 4 + n')%nat ∧
    (match r with Ok _ => translate m (vaddr + i * PAGE_SIZE) = Err NotFound
     | Err e => e = AlreadyExists ∧ ∃ x, translate m (vaddr + i * PAGE_SIZE) = Ok x end) ∧
    ∀ va, kernel_range va → translate m' va =
      if bool_decide ((va - vaddr) / PAGE_SIZE = i) then
        match translate m va with Err NotFound => Ok (pa, PAGE_KERNEL) | r => r end
      else translate m va.
Proof.
  intros Hm Hn Hf Hi Hlo Hhi Hpa Hfr. set (v := vaddr + i * PAGE_SIZE).
  assert (kernel_range v) as Hv by (unfold kernel_range, v; change PAGE_SIZE with 4096 in *; change KERNEL_ASPACE_BASE with (2 ^ 64 - 2 ^ 48) in *; lia).
  assert (∀ va, kernel_range va → is_usize va) as Hus by (intros va [? ?]; change KERNEL_ASPACE_BASE with (2 ^ 64 - 2 ^ 48) in *; unfold is_usize; lia).
  destruct (map_pages_spec root Hroot m T own n v pa PAGE_KERNEL fuel Hm Hn) as (r & m' & T' & own' & n' & Hrun & Hm' & Hn' & Hres);
    [by apply Hus|apply Z.divide_add_r; [done|apply Z.divide_factor_r]|done|by_compute|reflexivity|done|].
  exists r, m', T', own', n'. split; [exact Hrun|]. split; [exact Hm'|]. split; [exact Hn'|].
  assert (∀ va, kernel_range va → path_of va = path_of v ↔ (va - vaddr) / PAGE_SIZE = i) as Hpath.
  { intros va Hva. rewrite path_page, page_index by done. done. }
  destruct r as [k|e]; destruct Hres as (E1 & E2 & Hw).
  - split; [done|]. intros va Hva. rewrite Hw by auto. case_bool_decide as E.
    + rewrite decide_True by (by apply Hpath). replace (translate m va) with (translate m v); [by rewrite E2|].
      symmetry. apply walk_path. by apply Hpath.
    + rewrite decide_False; [done|]. by rewrite Hpath.
  - split; [done|]. intros va Hva. rewrite Hw by auto. case_bool_decide as E; [|done].
    destruct E2 as [x Hx]. replace (translate m va) with (translate m v); [by rewrite Hx|].
    symmetry. apply walk_path. by apply Hpath.
Qed.

(** The state after the loop has dealt with the pages before [j]. *)
Definition mapped_state m m' (j : Z) : Prop :=
  ∀ va, kernel_range va → translate m' va = mapped_upto (translate m va) j va.

Lemma mapped_state_snoc m m1 m2 i pa : 0 ≤ i → phys !! Z.to_nat i = Some pa → mapped_state m m1 i →
  (∀ va, kernel_range va → translate m2 va =
      if bool_decide ((va - vaddr) / PAGE_SIZE = i) then
        match translate m1 va with Err NotFound => Ok (pa, PAGE_KERNEL) | r => r end
      else translate m1 va) →
  mapped_state m m2 (i + 1).
Proof.
  intros Hi Hpa H1 H2 va Hva. pose proof (H1 va Hva) as E1. rewrite H2, E1 by done. unfold mapped_upto. set (k := (va - vaddr) / PAGE_SIZE).
  destruct (decide (k = i)) as [E|Hne].
  - rewrite E, Hpa. rewrite !(bool_decide_true (i = i)), (bool_decide_false (0 ≤ i < i)), (bool_decide_true (0 ≤ i < i + 1)) by (done || lia).
    by destruct (translate m va) as [|[]].
  - rewrite (bool_decide_false (k = i)) by done. case_bool_decide; case_bool_decide; done || lia.
Qed.

Lemma mapped_state_page m m' i : 0 ≤ i → kernel_range (vaddr + i * PAGE_SIZE) → mapped_state m m' i →
  translate m' (vaddr + i * PAGE_SIZE) = translate m (vaddr + i * PAGE_SIZE).
Proof.
  intros Hi Hk Hm. rewrite (Hm _ Hk). unfold mapped_upto. rewrite bool_decide_false; [done|].
  rewrite (proj2 (page_index _ i) eq_refl). lia.
Qed.

(** How far the loop comes: to the end, or to the first mapped page. *)
Definition map_result m m' (count j : Z) (r : Result unit) : Prop :=
  mapped_state m m' j ∧ (action = Error → ∀ k, 0 ≤ k < j → translate m (vaddr + k * PAGE_SIZE) = Err NotFound) ∧
  match r with
  | Ok _ => j = count
  | Err e => e = AlreadyExists ∧ action = Error ∧ j < count ∧ ∃ x, translate m (vaddr + j * PAGE_SIZE) = Ok x
  end.

Lemma map_each_spec fuel k m0 m T own n i count :
  (2 ≤ fuel)%nat → KERNEL_ASPACE_BASE ≤ vaddr → vaddr + count * PAGE_SIZE ≤ 2 ^ 64 →
  (∀ j, 0 ≤ j < count → ∃ pa, phys !! Z.to_nat j = Some pa ∧ frame_ok pa) →
  mm root m T own n → (4 * k ≤ n)%nat → 0 ≤ i → i + Z.of_nat k = count →
  mapped_state m0 m i → (action = Error → ∀ k, 0 ≤ k < i → translate m0 (vaddr + k * PAGE_SIZE) = Err NotFound) →
  ∃ r m' T' own' n' j, map_each root fuel phys PAGE_KERNEL action k (Z.to_nat i) (usize_wrap (vaddr + i * PAGE_SIZE)) m = Ret (r, m') ∧
    mm root m' T' own' n' ∧ (n ≤ 4 * k + n')%nat ∧ 0 ≤ j ≤ count ∧ map_result m0 m' count j r.
Proof.
  intros Hf Hlo Hhi Hph. revert m T own n i. induction k as [|k IH]; intros m T own n i Hm Hn Hi Hk Hm0 Hold.
  { exists (Ok ()), m, T, own, n, i. split; [done|]. split; [done|]. split; [lia|]. split; [lia|]. split; [done|]. split; [done|lia]. }
  destruct (Hph i ltac:(lia)) as (pa & Hpa & Hfr). change PAGE_SIZE with 4096 in *.
  change KERNEL_ASPACE_BASE with (2 ^ 64 - 2 ^ 48) in *.
  rewrite usize_wrap_small by (unfold is_usize; lia).
  destruct (map_one m T own n i pa fuel Hm) as (r & m1 & T1 & own1 & n1 & Hrun & Hm1 & Hn1 & Hr & Hw); try (done || lia).
  { change PAGE_SIZE with 4096. lia. }
  change PAGE_SIZE with 4096 in Hrun.
  pose proof (mapped_state_snoc m0 m m1 i pa Hi Hpa Hm0 Hw) as Hs1.
  assert (kernel_range (vaddr + i * 4096)) as Hkr by (unfold kernel_range; change KERNEL_ASPACE_BASE with (2 ^ 64 - 2 ^ 48); lia).
  pose proof (mapped_state_page m0 m i Hi Hkr Hm0) as Hsame. change PAGE_SIZE with 4096 in Hsame, Hr.
  assert (IS_PAGE_ALIGNED pa = true) as Hpal by (apply IS_PAGE_ALIGNED_spec; apply Z.mod_divide; [lia|apply Hfr]).
  assert (map_each root fuel phys PAGE_KERNEL action (Datatypes.S k) (Z.to_nat i) (vaddr + i * 4096) m =
    match r with
    | Err e => if negb (bool_decide (e = AlreadyExists)) || bool_decide (action = Error) then mret (Err e)
               else map_each root fuel phys PAGE_KERNEL action k (Z.to_nat (i + 1)) (usize_wrap (vaddr + (i + 1) * 4096))
    | Ok _ => map_each root fuel phys PAGE_KERNEL action k (Z.to_nat (i + 1)) (usize_wrap (vaddr + (i + 1) * 4096))
    end m1) as Hstep.
  { cbn [map_each]. unfold phys_at. rewrite Hpa. erewrite M_bind_run by reflexivity.
    erewrite M_bind_run by (by apply zx_assert_true). change PAGE_SIZE with 4096. rewrite (M_bind_run _ _ _ _ _ Hrun).
    replace (Z.to_nat (i + 1)) with (Datatypes.S (Z.to_nat i)) by lia. unfold uadd.
    by replace (vaddr + (i + 1) * 4096) with (vaddr + i * 4096 + 4096) by lia. }
  rewrite Hstep. clear Hstep Hrun.
  assert (action = Error → (∀ x, translate m (vaddr + i * 4096) ≠ Ok x) → ∀ k, 0 ≤ k < i + 1 → translate m0 (vaddr + k * 4096) = Err NotFound) as Hall.
  { intros Ha Hno j Hj. destruct (decide (j = i)) as [->|]; [|apply Hold; [done|lia]]. rewrite <-Hsame.
    destruct r; [done|]. destruct Hr as [_ [x Hx]]. by destruct (Hno x). }
  assert ((action = Error → ∀ x, translate m (vaddr + i * 4096) ≠ Ok x) →
    ∃ r' m' T' own' n' j, map_each root fuel phys PAGE_KERNEL action k (Z.to_nat (i + 1)) (usize_wrap (vaddr + (i + 1) * 4096)) m1 = Ret (r', m') ∧
      mm root m' T' own' n' ∧ (n ≤ 4 * Datatypes.S k + n')%nat ∧ 0 ≤ j ≤ count ∧ map_result m0 m' count j r') as Hgo.
  { intros Hno. destruct (IH m1 T1 own1 n1 (i + 1) Hm1) as (r' & m' & T' & own' & n' & j & Hrun' & Hm' & Hn' & Hj & Hres); try (done || lia).
    - intros Ha. apply Hall; auto.
    - exists r', m', T', own', n', j. repeat (split; [done || lia|]). done. }
  destruct r as [sz|e].
  - apply Hgo. intros _ x. by rewrite Hr.
  - destruct Hr as [-> [x Hx]]. rewrite bool_decide_true by done. cbn [negb orb]. destruct (decide (action = Error)) as [Ha|Ha].
    + rewrite bool_decide_true by done. exists (Err AlreadyExists), m1, T1, own1, n1, i. split; [done|]. split; [done|]. split; [lia|].
      split; [lia|]. split; [|split; [done|split; [done|split; [done|split; [lia|exists x; change PAGE_SIZE with 4096; by rewrite <-Hsame]]]]].
      intros va Hva. rewrite <-(Hm0 va Hva), Hw by done. case_bool_decide as E; [|done].
      assert (translate m va = Ok x) as ->; [|done]. rewrite <-Hx. apply walk_path. apply path_page; [done|done|]. by apply page_index in E.
    + rewrite bool_decide_false by done. apply Hgo. by intros ?.
Qed.
End mapping.

Definition result_as {A B} (b : B) (r : Result A) : Result B := match r with Ok _ => Ok b | Err e => Err e end.

Lemma check_phys_ok {S} phys k i (m : mmu S) :
  (∀ j, (i ≤ j < i + k)%nat → ∃ pa, phys !! j = Some pa ∧ (PAGE_SIZE | pa)) → check_phys phys k i m = Ret (Ok (), m).
Proof.
  revert i. induction k as [|k IH]; intros i Hj; [done|]. cbn [check_phys]. unfold phys_at.
  destruct (Hj i ltac:(lia)) as (pa & Hpa & Hal). rewrite Hpa.
  assert (IS_PAGE_ALIGNED pa = true) as E by (apply IS_PAGE_ALIGNED_spec, Z.mod_divide; [lia|exact Hal]).
  rewrite (M_bind_run _ _ m pa m) by done. rewrite (M_bind_run _ _ m () m) by (by apply zx_assert_true). rewrite E. cbn [negb].
  apply IH. intros j ?. apply Hj. lia.
Qed.

(** Past the guards [map] is the loop. *)
Lemma map_unfold {S} `{FrameAlloc S} root self (m : mmu S) vaddr phys count mmu_flags action fuel :
  is_kernel_aspace self → KERNEL_ASPACE_BASE ≤ vaddr < 2 ^ 64 → (PAGE_SIZE | vaddr) → 0 ≤ count →
  (∀ j, 0 ≤ j < count → ∃ pa, phys !! Z.to_nat j = Some pa ∧ frame_ok pa) →
  Z.land mmu_flags ARCH_MMU_FLAG_PERM_READ ≠ 0 →
  VmAspace_map root fuel self vaddr phys count mmu_flags action m =
  (if count =? 0 then mret (Ok 0)
   else (_ ←? map_each root fuel phys PAGE_KERNEL action (Z.to_nat count) 0 vaddr; mret (Ok count))) m.
Proof.
  intros Hk Hv Hal Hc Hph Hrd. unfold VmAspace_map.
  rewrite kernel_valid, bool_decide_true; [|done|done|change KERNEL_ASPACE_BASE with (2 ^ 64 - 2 ^ 48) in Hv; unfold is_usize; lia].
  cbn [negb]. erewrite bindR_run; [|apply check_phys_ok]. 
  2:{ intros j Hj. destruct (Hph (Z.of_nat j) ltac:(lia)) as (pa & Hpa & [Hpal _]). rewrite Nat2Z.id in Hpa. by exists pa. }
  rewrite (proj2 (Z.eqb_neq _ 0)) by done.
  assert (IS_PAGE_ALIGNED vaddr = true) as E by (apply IS_PAGE_ALIGNED_spec, Z.mod_divide; [lia|exact Hal]).
  rewrite (M_bind_run _ _ m () m) by (by apply zx_assert_true). by rewrite E.
Qed.

(** [map] in terms of the translations. *)
Lemma VmAspace_map_spec {S} `{FrameAllocLaws S} root self (m : mmu S) T own n vaddr phys count mmu_flags action fuel :
  is_physmap_addr root = false → is_kernel_aspace self → mm root m T own n → (4 * Z.to_nat count ≤ n)%nat → (2 ≤ fuel)%nat →
  KERNEL_ASPACE_BASE ≤ vaddr < 2 ^ 64 → (PAGE_SIZE | vaddr) → 0 ≤ count → vaddr + count * PAGE_SIZE ≤ 2 ^ 64 →
  (∀ j, 0 ≤ j < count → ∃ pa, phys !! Z.to_nat j = Some pa ∧ frame_ok pa) →
  Z.land mmu_flags ARCH_MMU_FLAG_PERM_READ ≠ 0 →
  ∃ r m' T' own' n' j, VmAspace_map root fuel self vaddr phys count mmu_flags action m = Ret (result_as count r, m') ∧
    mm root m' T' own' n' ∧ (n ≤ 4 * Z.to_nat count + n')%nat ∧ 0 ≤ j ≤ count ∧ map_result root action phys vaddr m m' count j r.
Proof.
  intros Hroot Hk Hm Hn Hf Hv Hal Hc Hhi Hph Hrd.
  assert (is_usize vaddr) as Hus by (change KERNEL_ASPACE_BASE with (2 ^ 64 - 2 ^ 48) in Hv; unfold is_usize; lia).
  rewrite map_unfold by done. destruct (decide (count = 0)) as [->|Hc0].
  - exists (Ok ()), m, T, own, n, 0. split; [done|]. split; [done|]. split; [lia|]. split; [lia|]. split; [|split; [intros _ k ?; lia|done]].
    intros va _. unfold mapped_upto. by rewrite bool_decide_false by lia.
  - rewrite (proj2 (Z.eqb_neq count 0)) by done.
    destruct (map_each_spec root Hroot action phys vaddr Hal fuel (Z.to_nat count) m m T own n 0 count)
      as (r & m' & T' & own' & n' & j & Hrun & Hm' & Hn' & Hj & Hres); try (done || lia).
    + intros va _. unfold mapped_upto. by rewrite bool_decide_false by lia.
    + rewrite Z.mul_0_l, Z.add_0_r, usize_wrap_small in Hrun by done. change (Z.to_nat 0) with O in Hrun.
      exists r, m', T', own', n', j. split; [|done]. destruct r as [[]|e]; [by rewrite (bindR_run _ _ _ _ _ Hrun)|by rewrite (bindR_err _ _ _ _ _ Hrun)].
Qed.

(** ** A small frame allocator for the concrete states below *)

Module BumpFrames.
(** The state is the next frame. *)
Definition alloc : M Z (Result Z) := s ← getS; putS (s + PAGE_SIZE);; mret (Ok s).
#[export] Instance bump_frame : FrameAlloc Z := {| alloc_frame := alloc |}.

Definition bump_ok (s : Z) (own : gset Z) (n : nat) : Prop :=
  frame_ok s ∧ s + Z.of_nat n * PAGE_SIZE < PHYSMAP_SIZE ∧ ∀ pa, pa ∈ own → frame_ok pa ∧ pa < s.

#[export] Instance bump_laws : FrameAllocLaws Z.
Proof.
  refine {| fa_ok := bump_ok |}.
  - intros s own n ([Hal Hr] & Hn & Hown). exists s, (s + PAGE_SIZE). change PHYSMAP_SIZE with (2 ^ 39) in *. change PAGE_SIZE with 4096 in *.
    split; [done|]. split; [|split; [|split; [done|change PHYSMAP_SIZE with (2 ^ 39); lia]]].
    + split; [split; [apply Z.divide_add_r; [done|apply Z.divide_refl]|change PHYSMAP_SIZE with (2 ^ 39); lia]|].
      split; [change PAGE_SIZE with 4096; change PHYSMAP_SIZE with (2 ^ 39); lia|].
      intros pa [->%elem_of_singleton|Hin]%elem_of_union; [split; [split; [done|done]|lia]|]. destruct (Hown pa Hin). split; [done|lia].
    + intros Hin. destruct (Hown s Hin). lia.
  - intros s own n pa (_ & _ & Hown) Hin. apply Hown, Hin.
Defined.

(** An empty root table outside of the physmap. *)
Definition root : Z := KERNEL_BASE.
Definition start : mmu Z := mkMmu {[root := empty_table]} 0x100000.

Lemma start_inv : mm root start {[[] := root]} ∅ 1000.
Proof.
  split; cbn [tables frames start].
  - split.
    + reflexivity.
    + intros π π' a H1%lookup_singleton_Some H2%lookup_singleton_Some. destruct H1 as [<- _], H2 as [<- _]. reflexivity.
    + intros π i [a [E _]%lookup_singleton_Some]. symmetry in E. apply app_eq_nil in E as [_ E]. discriminate E.
    + intros π a [<- _]%lookup_singleton_Some. simpl. lia.
    + intros π a [<- <-]%lookup_singleton_Some. exists empty_table. split; [by rewrite lookup_singleton_eq|]. split; [reflexivity|].
      intros i pte Hi. unfold empty_table in Hi. apply lookup_replicate in Hi as [-> _].
      change (is_ptr 0) with false. cbv iota. by rewrite lookup_singleton_ne by (intros E; discriminate E).
  - split; [split; [by exists 256|by_compute]|]. split; [reflexivity|]. intros pa Hin. by apply elem_of_empty in Hin.
  - intros π a [_ <-]%lookup_singleton_Some. by left.
Qed.
End BumpFrames.
Import BumpFrames.

Definition demo_aspace : VmAspace := VmAspace_init 0 Kernel KERNEL_ASPACE_BASE KERNEL_ASPACE_SIZE.

(** ** The regions of the kernel address space *)

Definition kernel_vmar (l : list VmAddressRegion) : VmAddressRegion := mkVmar KERNEL_ASPACE_BASE KERNEL_ASPACE_SIZE ALL_VMAR_FLAGS l.
Definition physmap_vmar : VmAddressRegion := mkVmar PHYSMAP_BASE PHYSMAP_SIZE ALL_VMAR_FLAGS [].
Definition heap_vmar : VmAddressRegion :=
  mkVmar (KERNEL_ASPACE_BASE + PHYSMAP_SIZE) (HEAP_MAX_SIZE_MB * MB)
    (Z.lor (Z.lor VMAR_FLAG_CAN_MAP_SPECIFIC VMAR_FLAG_CAN_MAP_READ) VMAR_FLAG_CAN_MAP_WRITE) [].

Lemma on_root_run {A} (f : M VmAddressRegion A) id ty b s v l hb hs x v' :
  f v = Ret (x, v') →
  on_root_vmar f (mkVmBoot (mkAspace id ty b s (Some v) :: l) hb hs) = Ret (x, mkVmBoot (mkAspace id ty b s (Some v') :: l) hb hs).
Proof. intros Hf. unfold on_root_vmar. simpl. by rewrite Hf. Qed.

Lemma new_vmar_run b s f st : new_vmar b s f st = Ret (mkVmar b s f [], st).
Proof. reflexivity. Qed.

Lemma kernel_aspace_run hb hs : kernel_aspace_init_preheap (mkVmBoot [] hb hs) =
  Ret (Ok (), mkVmBoot [mkAspace 0 Kernel KERNEL_ASPACE_BASE KERNEL_ASPACE_SIZE (Some (kernel_vmar []))] hb hs).
Proof. reflexivity. Qed.

Lemma insert_physmap : insert_child physmap_vmar (kernel_vmar []) = Ret ((), kernel_vmar [physmap_vmar]).
Proof. reflexivity. Qed.

Section image.
Context (b s : Z) (Hlo : KERNEL_ASPACE_BASE + PHYSMAP_SIZE + HEAP_MAX_SIZE_MB * MB ≤ b) (Hs : 0 < s) (Hhi : b + s < 2 ^ 64).
Notation image := (mkVmar b s ALL_VMAR_FLAGS []).

Lemma image_bounds : 2 ^ 64 - 2 ^ 48 + 2 ^ 39 + 2 ^ 31 ≤ b.
Proof using Hlo.
  assert (KERNEL_ASPACE_BASE + PHYSMAP_SIZE + HEAP_MAX_SIZE_MB * MB = 2 ^ 64 - 2 ^ 48 + 2 ^ 39 + 2 ^ 31) as <- by (vm_compute; reflexivity).
  exact Hlo.
Qed.

Lemma insert_image : insert_child image (kernel_vmar [physmap_vmar]) = Ret ((), kernel_vmar [physmap_vmar; image]).
Proof using Hlo Hs Hhi.
  pose proof image_bounds as Hb. unfold insert_child. erewrite M_bind_run by reflexivity. erewrite M_bind_run.
  2:{ apply zx_assert_true. apply cover_range_spec; cbn [base size kernel_vmar];
      change KERNEL_ASPACE_BASE with (2 ^ 64 - 2 ^ 48); change KERNEL_ASPACE_SIZE with (2 ^ 48); unfold is_usize; lia. }
  cbv zeta. cbn [base size children kernel_vmar position physmap_vmar fmap option_fmap option_map].
  rewrite uadd_small by (unfold is_usize; lia). rewrite (proj2 (Z.leb_gt _ _)); [reflexivity|].
  change PHYSMAP_BASE with (2 ^ 64 - 2 ^ 48). lia.
Qed.

Lemma alloc_heap_spot fl : alloc_spot_locked (kernel_vmar [physmap_vmar; image]) (HEAP_MAX_SIZE_MB * MB) ARCH_HEAP_ALIGN_BITS fl usize_max =
  Ret (KERNEL_ASPACE_BASE + PHYSMAP_SIZE).
Proof using Hlo Hs Hhi.
  pose proof image_bounds as Hb. unfold alloc_spot_locked.
  vm_replace ((0 <? HEAP_MAX_SIZE_MB * MB) && IS_PAGE_ALIGNED (HEAP_MAX_SIZE_MB * MB)) true. cbv iota zeta.
  vm_replace (Z.max ARCH_HEAP_ALIGN_BITS PAGE_SHIFT) 21. vm_replace (HEAP_MAX_SIZE_MB * MB) (2 ^ 31).
  unfold get_alloc_spot, find_alloc_spot_in_gaps, for_each_gap. vm_replace (ushl 1 21) (2 ^ 21).
  cbn [base size children kernel_vmar physmap_vmar gaps_loop].
  vm_replace (ROUNDUP KERNEL_ASPACE_BASE (2 ^ 21)) (2 ^ 64 - 2 ^ 48).
  vm_replace (2 ^ 64 - 2 ^ 48 <? PHYSMAP_BASE) false. vm_replace (2 ^ 64 <=? PHYSMAP_BASE + PHYSMAP_SIZE) false. cbv iota.
  vm_replace (ROUNDUP (uadd PHYSMAP_BASE PHYSMAP_SIZE) (2 ^ 21)) (2 ^ 64 - 2 ^ 48 + 2 ^ 39).
  rewrite (proj2 (Z.ltb_lt _ b)) by lia. rewrite usub_small by (unfold is_usize; lia). unfold gap_func.
  vm_replace (IS_ALIGNED (2 ^ 64 - 2 ^ 48 + 2 ^ 39) (2 ^ 21)) true.
  vm_replace (usize_max <? uadd (2 ^ 64 - 2 ^ 48 + 2 ^ 39) (2 ^ 31)) false.
  rewrite (proj2 (Z.ltb_ge (b - (2 ^ 64 - 2 ^ 48 + 2 ^ 39)) (2 ^ 31))) by lia. vm_compute. reflexivity.
Qed.

Lemma insert_heap : insert_child heap_vmar (kernel_vmar [physmap_vmar; image]) = Ret ((), kernel_vmar [physmap_vmar; heap_vmar; image]) ∧
  vmar_wf (kernel_vmar [physmap_vmar; heap_vmar; image]).
Proof using Hlo Hs Hhi.
  pose proof image_bounds as Hb. split.
  - unfold insert_child. erewrite M_bind_run by reflexivity. erewrite M_bind_run by (apply zx_assert_true; reflexivity).
    cbv zeta. cbn [base size children kernel_vmar position physmap_vmar heap_vmar fmap option_fmap option_map].
    change (uadd (KERNEL_ASPACE_BASE + PHYSMAP_SIZE) (HEAP_MAX_SIZE_MB * MB)) with (2 ^ 64 - 2 ^ 48 + 2 ^ 39 + 2 ^ 31).
    change (2 ^ 64 - 2 ^ 48 + 2 ^ 39 + 2 ^ 31 <=? PHYSMAP_BASE) with false. cbv iota.
    rewrite (proj2 (Z.leb_le _ b)) by lia. reflexivity.
  - unfold vmar_wf, kernel_vmar, physmap_vmar, heap_vmar. cbn [base size children].
    change KERNEL_ASPACE_BASE with (2 ^ 64 - 2 ^ 48). change KERNEL_ASPACE_SIZE with (2 ^ 48). change PHYSMAP_BASE with (2 ^ 64 - 2 ^ 48).
    change PHYSMAP_SIZE with (2 ^ 39). change (HEAP_MAX_SIZE_MB * MB) with (2 ^ 31).
    vmar_conc; unfold inside, apart; cbn [base size]; lia.
Qed.
End image.

(** ** Gaps of the physmap *)

(** A closure that records the gaps it is called on. *)
Definition record_gap (b s : Z) : M (list (Z * Z)) unit := modifyS (λ l, l ++ [(b, s)]).

Definition in_range (x : Z) (g : Z * Z) : Prop := g.1 ≤ x < g.1 + g.2.
Definition arena_range (a : PmmArena) : Z * Z := (PHYSMAP_BASE + arena_base a, arena_size a).
Definition physmap_arena (a : PmmArena) : Prop :=
  0 ≤ arena_base a ∧ (PAGE_SIZE | arena_base a) ∧ (PAGE_SIZE | arena_size a) ∧ 0 < arena_size a ∧
  arena_base a + arena_size a ≤ PHYSMAP_SIZE.
Definition gap_wf (lo : Z) (g : Z * Z) : Prop := lo ≤ g.1 ∧ 0 < g.2 ∧ (PAGE_SIZE | g.1) ∧ (PAGE_SIZE | g.2).

(** The gap before an arena. *)
Definition gap_before (g b : Z) : list (Z * Z) := if 0 <? b - g then [(g, b - g)] else [].

Lemma gap_before_wf g b : g ≤ b → (PAGE_SIZE | g) → (PAGE_SIZE | b) → Forall (gap_wf g) (gap_before g b).
Proof.
  intros Hle Hg Hb. unfold gap_before, gap_wf. destruct (Z.ltb_spec 0 (b - g)); [|constructor].
  constructor; [|constructor]. cbn [fst snd]. split_and!; [lia|lia|done|by apply Z.divide_sub_r].
Qed.

Lemma gap_before_elem g b r : r ∈ gap_before g b ↔ g < b ∧ r = (g, b - g).
Proof.
  unfold gap_before. destruct (Z.ltb_spec 0 (b - g)).
  - rewrite list_elem_of_singleton. split; [intros ->; split; [lia|done]|by intros [_ ->]].
  - split; [by intros ?%not_elem_of_nil|intros [? _]; lia].
Qed.

(** The gaps of a list of arenas from those of its tail. *)
Lemma gaps_cons a l g gs x :
  let b := PHYSMAP_BASE + arena_base a in
  g ≤ b → 0 ≤ arena_size a → Forall (arena_below a) l → Forall (λ r, b + arena_size a ≤ r.1) gs →
  (b + arena_size a ≤ x → (∃ r, r ∈ gs ∧ in_range x r) ↔ ¬ ∃ a, a ∈ l ∧ in_range x (arena_range a)) →
  g ≤ x →
  (∃ r, r ∈ gap_before g b ++ gs ∧ in_range x r) ↔ ¬ ∃ c, c ∈ a :: l ∧ in_range x (arena_range c).
Proof.
  intros b Hgb Hs Hbelow Hlo Hx Hgx. unfold in_range, arena_range in *. cbn [fst snd] in *.
  pose proof (proj1 (Forall_forall _ _) Hbelow) as Hb. pose proof (proj1 (Forall_forall _ _) Hlo) as Hl. split.
  - intros (r & [Hr|Hr]%elem_of_app & Hin) (c & Hc & Hcx).
    + apply gap_before_elem in Hr as [_ ->]. cbn [fst snd] in Hin.
      apply elem_of_cons in Hc as [->|Hc%Hb]; [fold b in Hcx; lia|unfold arena_below in Hc; unfold b in *; lia].
    + pose proof (Hl _ Hr) as Hr'. cbn beta in Hr'. apply elem_of_cons in Hc as [->|Hc]; [fold b in Hcx; lia|].
      apply (Hx ltac:(lia)); [by exists r|by exists c].
  - intros Hno. destruct (decide (x < b)) as [Hlt|Hge].
    { exists (g, b - g). cbn [fst snd]. split; [|lia]. apply elem_of_app. left. apply gap_before_elem. split; [lia|done]. }
    destruct (decide (x < b + arena_size a)) as [Hin|Hge'].
    { destruct Hno. exists a. split; [apply elem_of_cons; by left|]. fold b. lia. }
    destruct (proj2 (Hx ltac:(lia))) as (r & Hr' & Hin); [|exists r; split; [apply elem_of_app; by right|done]].
    intros (c & Hc & Hcx). apply Hno. exists c. split; [apply elem_of_cons; by right|done].
Qed.

Lemma for_each_arena_spec l g acc :
  Forall physmap_arena l → StronglySorted arena_below l → Forall (λ a, g ≤ PHYSMAP_BASE + arena_base a) l →
  (PAGE_SIZE | g) → PHYSMAP_BASE ≤ g ≤ PHYSMAP_BASE + PHYSMAP_SIZE →
  ∃ gs, for_each_arena record_gap l g acc = Ret ((), acc ++ gs) ∧ Forall (gap_wf g) gs ∧
    ∀ x, g ≤ x < PHYSMAP_BASE + PHYSMAP_SIZE →
      (∃ r, r ∈ gs ∧ in_range x r) ↔ ¬ ∃ a, a ∈ l ∧ in_range x (arena_range a).
Proof.
  revert g acc. assert (PHYSMAP_BASE = 2 ^ 64 - 2 ^ 48 ∧ PHYSMAP_SIZE = 2 ^ 39 ∧ PAGE_SIZE = 4096) as (EB & ES & EP) by (by vm_compute).
  induction l as [|a l IH]; intros g acc Hok Hsort Hg Hal Hr.
  - unfold in_range, arena_range, gap_wf. cbn [fst snd]. cbn [for_each_arena]. cbv zeta. rewrite EB, ES in *. rewrite uadd_small, usub_small by (unfold is_usize; lia).
    destruct (0 <? _) eqn:E; [apply Z.ltb_lt in E|apply Z.ltb_ge in E].
    + eexists [_]. split; [reflexivity|]. cbn [fst snd]. split.
      * constructor; [|constructor]. cbn [fst snd]. split_and!; [lia|lia|done|]. rewrite EP in *.
        apply Z.divide_sub_r; [|done]. by exists (2 ^ 52 - 2 ^ 36 + 2 ^ 27).
      * intros x Hx. split; [intros _ [a [Ha _]]; by apply not_elem_of_nil in Ha|]. intros _. eexists.
        split; [by apply list_elem_of_singleton|]. cbn [fst snd]. lia.
    + exists []. rewrite app_nil_r. split; [done|]. split; [constructor|]. intros x Hx. lia.
  - apply Forall_cons in Hok as [Ha Hok], Hg as [Hga Hg]. apply StronglySorted_inv in Hsort as [Hsort Hbelow].
    destruct Ha as (Ha0 & Hab & Has & Hpos & Htop). cbn [for_each_arena]. cbv zeta.
    assert (paddr_to_physmap (arena_base a) = PHYSMAP_BASE + arena_base a) as ->.
    { apply physmap_frame. split; [done|lia]. }
    set (b := PHYSMAP_BASE + arena_base a) in *.
    assert ((PAGE_SIZE | b)) as Hbal.
    { apply Z.divide_add_r; [|done]. rewrite EB, EP. by exists (2 ^ 52 - 2 ^ 36). }
    rewrite (M_bind_run _ _ acc () acc).
    2:{ apply zx_assert_true, andb_true_iff. split; [by apply Z.leb_le|]. apply Z.eqb_eq, Z.mod_divide; [by rewrite EP|done]. }
    rewrite (M_bind_run _ _ acc () acc).
    2:{ apply zx_assert_true, andb_true_iff. split; [by apply Z.ltb_lt|]. apply Z.eqb_eq, Z.mod_divide; [by rewrite EP|done]. }
    rewrite usub_small by (unfold is_usize, b; rewrite EB, ES in *; lia).
    rewrite (uadd_small b) by (unfold is_usize, b; rewrite EB, ES in *; lia).
    rewrite (M_bind_run _ _ acc () (acc ++ gap_before g b)).
    2:{ unfold gap_before. destruct (0 <? b - g); [done|by rewrite app_nil_r]. }
    destruct (IH (b + arena_size a) (acc ++ gap_before g b)) as (gs & Hrun & Hwf & Hx); try done.
    { eapply Forall_impl; [exact Hbelow|]. intros c Hc. unfold arena_below in Hc. unfold b. lia. }
    { by apply Z.divide_add_r. }
    { unfold b. lia. }
    exists (gap_before g b ++ gs). rewrite app_assoc. split; [exact Hrun|]. split.
    + apply Forall_app. split; [by apply gap_before_wf|].
      eapply Forall_impl; [exact Hwf|]. intros r (? & ? & ? & ?). split_and!; [lia|done..].
    + intros x Hxr. apply (gaps_cons a l g gs x); [done|lia|done| |intros; apply Hx; lia|lia].
      eapply Forall_impl; [exact Hwf|]. by intros r (? & _).
Qed.

(** ** Claims *)

(** C4: for every page-aligned run of pages in the kernel address space that
    can be backed by tables (four frames per page suffice), [VmAspace::map]
    returns, keeps the tree of page tables well formed, and has mapped the
    pages in order up to some page [j]: after it, [query] answers with the
    new frame and [PAGE_KERNEL] for every address of the first [j] pages that
    was not mapped before, and as before everywhere else.  It reports success
    exactly when [j] is the whole count; it can only stop early with
    [AlreadyExists], under action [Error], at the first page that was mapped. *)
Theorem VmAspace_map_correct {S} `{FrameAllocLaws S} root self (m : mmu S) T own n vaddr phys count mmu_flags action fuel :
  is_physmap_addr root = false → is_kernel_aspace self → mm root m T own n → (4 * Z.to_nat count ≤ n)%nat → (5 ≤ fuel)%nat →
  KERNEL_ASPACE_BASE ≤ vaddr < 2 ^ 64 → (PAGE_SIZE | vaddr) → 0 ≤ count → vaddr + count * PAGE_SIZE ≤ 2 ^ 64 →
  (∀ j, 0 ≤ j < count → ∃ pa, phys !! Z.to_nat j = Some pa ∧ frame_ok pa) →
  Z.land mmu_flags ARCH_MMU_FLAG_PERM_READ ≠ 0 →
  ∃ r m' T' own' n' j, VmAspace_map root fuel self vaddr phys count mmu_flags action m = Ret (r, m') ∧
    mm root m' T' own' n' ∧ 0 ≤ j ≤ count ∧
    (∀ va, kernel_range va → ∃ old, VmAspace_query root fuel self va m = Ret (old, m) ∧
      VmAspace_query root fuel self va m' = Ret (mapped_upto phys vaddr old j va, m')) ∧
    (action = Error → ∀ k, 0 ≤ k < j → VmAspace_query root fuel self (vaddr + k * PAGE_SIZE) m = Ret (Err NotFound, m)) ∧
    match r with
    | Ok c => c = count ∧ j = count
    | Err e => e = AlreadyExists ∧ action = Error ∧ j < count ∧
        ∃ x, VmAspace_query root fuel self (vaddr + j * PAGE_SIZE) m = Ret (Ok x, m)
    end.
Proof.
  intros Hroot Hk Hm Hn Hf Hv Hal Hc Hhi Hph Hrd.
  assert (∀ va, kernel_range va → VmAspace_query root fuel self va m = Ret (walk (tables m) 5 0 root va, m)) as Hq
    by (intros va Hva; eapply query_walk; [done|apply (mm_pt _ _ _ _ _ Hm)|done|done]).
  assert (∀ k, 0 ≤ k < count → kernel_range (vaddr + k * PAGE_SIZE)) as Hkr.
  { intros k ?. unfold kernel_range. change PAGE_SIZE with 4096 in *. lia. }
  destruct (VmAspace_map_spec root self m T own n vaddr phys count mmu_flags action fuel)
    as (r & m' & T' & own' & n' & j & Hrun & Hm' & _ & Hj & Hst & Herr & Hres); try (done || lia).
  exists (result_as count r), m', T', own', n', j. split; [exact Hrun|]. split; [exact Hm'|]. split; [exact Hj|]. split; [|split].
  - intros va Hva. exists (walk (tables m) 5 0 root va). split; [by apply Hq|]. rewrite <-(Hst va Hva).
    eapply query_walk; [done|apply (mm_pt _ _ _ _ _ Hm')|done|done].
  - intros Ha k Hkj. rewrite Hq by (apply Hkr; lia). by rewrite Herr.
  - destruct r as [u|e]; [done|]. destruct Hres as (-> & Ha & Hlt & x & Hx). split; [done|]. split; [done|]. split; [done|].
    exists x. rewrite Hq by (apply Hkr; lia). by rewrite Hx.
Qed.

Definition demo_va : Z := KERNEL_ASPACE_BASE + 2 ^ 39.
Definition demo_phys : list Z := [0x80000000; 0x80001000].

Lemma demo_phys_ok j : 0 ≤ j < 2 → ∃ pa, demo_phys !! Z.to_nat j = Some pa ∧ frame_ok pa.
Proof.
  intros Hj. assert (j = 0 ∨ j = 1) as [->| ->] by lia; (eexists; split; [reflexivity|]).
  - split; [by exists 0x80000|by_compute].
  - split; [by exists 0x80001|by_compute].
Qed.

Lemma VmAspace_map_correct_witness :
  ∃ r m' T' own' n' j, VmAspace_map BumpFrames.root 5 demo_aspace demo_va demo_phys 2 ARCH_MMU_FLAG_PERM_READ Error start = Ret (r, m') ∧
    mm BumpFrames.root m' T' own' n' ∧ 0 ≤ j ≤ 2 ∧
    (∀ va, kernel_range va → ∃ old, VmAspace_query BumpFrames.root 5 demo_aspace va start = Ret (old, start) ∧
      VmAspace_query BumpFrames.root 5 demo_aspace va m' = Ret (mapped_upto demo_phys demo_va old j va, m')).
Proof.
  destruct (VmAspace_map_correct BumpFrames.root demo_aspace start {[[] := BumpFrames.root]} ∅ 1000 demo_va demo_phys 2
    ARCH_MMU_FLAG_PERM_READ Error 5) as (r & m' & T' & own' & n' & j & H1 & H2 & H3 & H4 & _).
  - reflexivity.
  - split; reflexivity.
  - exact start_inv.
  - change (Z.to_nat 2) with 2%nat. lia.
  - lia.
  - by_compute.
  - by exists (demo_va / 4096).
  - lia.
  - by_compute.
  - exact demo_phys_ok.
  - discriminate.
  - exists r, m', T', own', n', j. split; [exact H1|]. split; [exact H2|]. split; [exact H3|exact H4].
Defined.

(** C35: the address space before the heap.  For a kernel image anywhere above
    the physmap with room for the heap in between,
    [kernel_aspace_init_preheap] and [vm_init_preheap_vmars] leave one address
    space whose root region is well formed and holds exactly the physmap, the
    heap and the image, and record the heap's range: 2 GiB directly above the
    physmap. *)
Theorem vm_init_preheap_vmars_correct _text_start _start _end st :
  is_usize _start → is_usize _end → _start < _end →
  KERNEL_ASPACE_BASE + PHYSMAP_SIZE + HEAP_MAX_SIZE_MB * MB ≤ _text_start → _text_start + (_end - _start) < 2 ^ 64 →
  aspace_list st = [] →
  ∃ a r, (kernel_aspace_init_preheap;; vm_init_preheap_vmars _text_start _start _end) st =
      Ret ((), mkVmBoot [a] (KERNEL_ASPACE_BASE + PHYSMAP_SIZE) (HEAP_MAX_SIZE_MB * MB)) ∧
    is_kernel_aspace a ∧ as_root_vmar a = Some r ∧ vmar_wf r ∧
    ((λ c, (base c, size c)) <$> children r) =
      [(PHYSMAP_BASE, PHYSMAP_SIZE); (KERNEL_ASPACE_BASE + PHYSMAP_SIZE, HEAP_MAX_SIZE_MB * MB); (_text_start, _end - _start)].
Proof.
  intros Hs He Hlt Hlo Hhi Hst. set (isz := _end - _start).
  assert (kernel_size _start _end = isz) as Esz by (unfold kernel_size; apply usub_small; unfold is_usize in *; lia).
  set (image := mkVmar _text_start isz ALL_VMAR_FLAGS []).
  assert (0 < isz) as Hsz by (unfold isz; lia). fold isz in Hhi.
  pose proof (insert_image _text_start isz Hlo Hsz Hhi) as Hi. fold image in Hi.
  pose proof (alloc_heap_spot _text_start isz Hlo Hsz Hhi) as Ha. fold image in Ha.
  pose proof (insert_heap _text_start isz Hlo Hsz Hhi) as [Hh Hwf]. fold image in Hh, Hwf.
  eexists (mkAspace 0 Kernel KERNEL_ASPACE_BASE KERNEL_ASPACE_SIZE (Some (kernel_vmar [physmap_vmar; heap_vmar; image]))), _.
  split; [|split; [split; reflexivity|split; [reflexivity|split; [exact Hwf|reflexivity]]]].
  destruct st as [l hb hs]. simpl in Hst. subst l.
  rewrite (M_bind_run _ _ _ _ _ (kernel_aspace_run hb hs)). unfold vm_init_preheap_vmars, kernel_regions_base. rewrite Esz.
  rewrite (M_bind_run _ _ _ _ _ (new_vmar_run _ _ _ _)). erewrite M_bind_run by (apply on_root_run; apply insert_physmap).
  rewrite (M_bind_run _ _ _ _ _ (new_vmar_run _ _ _ _)). erewrite M_bind_run by (apply on_root_run; exact Hi).
  cbv zeta. vm_replace (ROUNDUP (umul HEAP_MAX_SIZE_MB MB) (ushl 1 ARCH_HEAP_ALIGN_BITS)) (HEAP_MAX_SIZE_MB * MB).
  erewrite M_bind_run by (apply on_root_run; rewrite Ha; reflexivity).
  rewrite (M_bind_run _ _ _ _ _ (new_vmar_run _ _ _ _)). erewrite M_bind_run by (apply on_root_run; exact Hh). reflexivity.
Qed.

Lemma vm_init_preheap_vmars_correct_witness :
  ∃ a r, (kernel_aspace_init_preheap;; vm_init_preheap_vmars KERNEL_BASE KERNEL_BASE (KERNEL_BASE + 0x180000)) (mkVmBoot [] 0 0) =
      Ret ((), mkVmBoot [a] (KERNEL_ASPACE_BASE + PHYSMAP_SIZE) (HEAP_MAX_SIZE_MB * MB)) ∧
    is_kernel_aspace a ∧ as_root_vmar a = Some r ∧ vmar_wf r ∧
    ((λ c, (base c, size c)) <$> children r) =
      [(PHYSMAP_BASE, PHYSMAP_SIZE); (KERNEL_ASPACE_BASE + PHYSMAP_SIZE, HEAP_MAX_SIZE_MB * MB); (KERNEL_BASE, KERNEL_BASE + 0x180000 - KERNEL_BASE)].
Proof.
  apply (vm_init_preheap_vmars_correct KERNEL_BASE KERNEL_BASE (KERNEL_BASE + 0x180000) (mkVmBoot [] 0 0)); [by_compute..|reflexivity].
Defined.

(** For arenas that lie in the physmap, page aligned, sorted and disjoint,
    [physmap_for_each_gap] passes its assertions and calls its closure on
    page-aligned, non-empty ranges that together are exactly the part of the
    physmap that no arena backs. *)
Theorem physmap_for_each_gap_exact arenas :
  Forall physmap_arena arenas → StronglySorted arena_below arenas →
  ∃ gs, physmap_for_each_gap record_gap arenas [] = Ret ((), gs) ∧ Forall (gap_wf PHYSMAP_BASE) gs ∧
    ∀ x, PHYSMAP_BASE ≤ x < PHYSMAP_BASE + PHYSMAP_SIZE →
      (∃ r, r ∈ gs ∧ in_range x r) ↔ ¬ ∃ a, a ∈ arenas ∧ in_range x (arena_range a).
Proof.
  intros Hok Hs. apply (for_each_arena_spec arenas PHYSMAP_BASE [] Hok Hs).
  - eapply Forall_impl; [exact Hok|]. intros a (? & _). lia.
  - by exists (2 ^ 52 - 2 ^ 36).
  - change PHYSMAP_SIZE with (2 ^ 39). lia.
Qed.

Lemma physmap_for_each_gap_exact_witness :
  physmap_for_each_gap record_gap (arenas demo_node) [] =
    Ret ((), [(PHYSMAP_BASE, 0x80000000); (PHYSMAP_BASE + 0x80004000, 2 ^ 39 - 0x80004000)]) ∧
  ∃ gs, physmap_for_each_gap record_gap (arenas demo_node) [] = Ret ((), gs) ∧ Forall (gap_wf PHYSMAP_BASE) gs ∧
    ∀ x, PHYSMAP_BASE ≤ x < PHYSMAP_BASE + PHYSMAP_SIZE →
      (∃ r, r ∈ gs ∧ in_range x r) ↔ ¬ ∃ a, a ∈ arenas demo_node ∧ in_range x (arena_range a).
Proof.
  split; [vm_compute; reflexivity|]. apply (physmap_for_each_gap_exact (arenas demo_node)).
  - constructor; [|constructor]. split; [by_compute|]. split; [by exists 0x80000|]. split; [by exists 4|]. split; by_compute.
  - constructor; constructor.
Defined.

(** ** Two pages across a 2 MiB boundary *)

(** [chunk_size] does not look at the offset of [vaddr] in its block, so the
    second page lands at entry 0 of the table of the first: it is not mapped
    where it was asked for, and an address 2 MiB below it is. *)
Lemma map_pages_misplaces :
  match map_pages 5 BumpFrames.root (demo_va + 0x1ff000) 0x80000000 0x2000 PAGE_KERNEL start with
  | Ret (r, m') =>
      r = Ok 0x2000 ∧
      walk (tables m') 5 0 BumpFrames.root (demo_va + 0x1ff000) = Ok (0x80000000, PAGE_KERNEL) ∧
      walk (tables m') 5 0 BumpFrames.root (demo_va + 0x200000) = Err NotFound ∧
      walk (tables m') 5 0 BumpFrames.root demo_va = Ok (0x80001000, PAGE_KERNEL)
  | _ => False
  end.
Proof. vm_compute. repeat split. Qed.

(** A kernel image of 2 MiB gets one large entry, with the frame number of a
    2 MiB frame in place of that of a page (the tables are addressed
    physically while they are built). *)
Definition boot_tables : mmu Z :=
  mkMmu (list_to_map ((λ i, (0x80400000 + i * PAGE_SIZE, empty_table)) <$> seqZ 0 5)) 0.

Lemma setup_vm_large_image :
  match setup_vm 0x80400000 0x80401000 0x80200000 0x80400000 600 boot_tables with
  | Ret (mode, m') =>
      let tb : gmap Z (list Z) := kmap paddr_to_physmap (tables m') in
      mode = SATP_MODE_57 ∧ walk tb 5 0 (paddr_to_physmap 0x80400000) KERNEL_BASE = Ok (0x401000, PAGE_KERNEL_EXEC) ∧
      walk tb 5 0 (paddr_to_physmap 0x80400000) (KERNEL_ASPACE_BASE + 0x12345678) = Ok (0, PAGE_KERNEL)
  | _ => False
  end.
Proof. vm_compute. repeat split. Qed.
