(* ===== verification/Allocator.v ===== *)
(** * allocator.rs: the boot allocator and the heap's pages

    [BumpAllocator], the stages of [GlobalAllocator], and [VirtualAlloc],
    which backs runs of virtual pages with pages of the physical memory
    manager through the page tables and tracks them in a bitmap. *)

From S2P Require Import Prelude Defs LinkedList Bitmap Page Pmm Cmpctmalloc Mmu Aspace.

Definition BATCH_PAGES : Z := 128.

(** [core::alloc::Layout]: a size and a power-of-two alignment. *)
Record Layout := mkLayout { l_size : Z; l_align : Z }.

(** ** BumpAllocator *)

Record BumpAllocator := mkBump { b_start : Z; b_end : Z; b_next : Z; allocations : Z }.

Definition BumpAllocator_new : BumpAllocator := mkBump 0 0 0 0.
Definition BumpAllocator_init (start size : Z) (self : BumpAllocator) : BumpAllocator :=
  mkBump start (uadd start size) start (allocations self).

Definition BumpAllocator_alloc (layout : Layout) (self : BumpAllocator) : Z * BumpAllocator :=
  let start := ALIGN (b_next self) (l_align layout) in
  let end_ := uadd start (l_size layout) in
  if b_end self <? end_ then (null, self)
  else (start, mkBump (b_start self) (b_end self) end_ (uadd (allocations self) 1)).

Definition BumpAllocator_dealloc (ptr : Z) (layout : Layout) (self : BumpAllocator) : BumpAllocator :=
  let n := usub (allocations self) 1 in
  mkBump (b_start self) (b_end self) (if n =? 0 then b_start self else b_next self) n.

(** ** GlobalAllocator *)

Inductive AllocatorStage := Early | Boot | _Normal.

Record GlobalAllocator := mkGlobal { stage : AllocatorStage; early_stage : BumpAllocator }.
Definition GlobalAllocator_new : GlobalAllocator := mkGlobal Early BumpAllocator_new.
Definition GlobalAllocator_init (start size : Z) (self : GlobalAllocator) : GlobalAllocator :=
  mkGlobal (stage self) (BumpAllocator_init start size (early_stage self)).
Definition switch_stage (st : AllocatorStage) (self : GlobalAllocator) : outcome GlobalAllocator :=
  match st with Early => Panic | _ => Ret (mkGlobal st (early_stage self)) end.

Definition boot_heap_earliest_init (_boot_heap _boot_heap_end : Z) (a : GlobalAllocator) : GlobalAllocator :=
  GlobalAllocator_init _boot_heap (usub _boot_heap_end _boot_heap) a.

(** The global allocator beside the heap it switches to. *)
Section global.
Context {S : Type} `{PageAllocator S} (free_lists : Z → Z).
Notation GS := (GlobalAllocator * HeapState S)%type.

(** [fuel] bounds the rounds of [cmpct_alloc]'s grow loop. *)
Definition GlobalAllocator_alloc (fuel : nat) (layout : Layout) : M GS Z := λ s,
  match stage s.1 with
  | Early => let '(p, b) := BumpAllocator_alloc layout (early_stage s.1) in Ret (p, (mkGlobal (stage s.1) b, s.2))
  | Boot => zoom snd (λ h s, (s.1, h)) (cmpct_memalign free_lists fuel (l_align layout) (l_size layout)) s
  | _Normal => Panic
  end.

Definition GlobalAllocator_dealloc (ptr : Z) (layout : Layout) : M GS unit := λ s,
  match stage s.1 with
  | Early => Ret ((), (mkGlobal (stage s.1) (BumpAllocator_dealloc ptr layout (early_stage s.1)), s.2))
  | Boot => zoom snd (λ h s, (s.1, h)) (cmpct_free free_lists ptr) s
  | _Normal => Panic
  end.
End global.

(** ** VirtualAlloc *)

Record VirtualAlloc := mkVA {
  allocated_page_state : Z;
  alloc_guard : Z;
  alloc_base : Z;
  next_search_start : Z;
  align_log2 : Z;
  bitmap : Bitmap;
}.

Definition VirtualAlloc_new (st : Z) : VirtualAlloc := mkVA st 0 0 0 0 Bitmap_new.
Definition with_bitmap (bm : Bitmap) (v : VirtualAlloc) : VirtualAlloc :=
  mkVA (allocated_page_state v) (alloc_guard v) (alloc_base v) (next_search_start v) (align_log2 v) bm.
Definition with_search (n : Z) (v : VirtualAlloc) : VirtualAlloc :=
  mkVA (allocated_page_state v) (alloc_guard v) (alloc_base v) n (align_log2 v) (bitmap v).

Definition on_bitmap {A} (m : M Bitmap A) : M VirtualAlloc A := zoom bitmap with_bitmap m.

(** *** The bitmap *)

Definition bitmap_pages (v : VirtualAlloc) : Z := umul (bm_storage_num (bitmap v)) BYTES_PER_USIZE / PAGE_SIZE.

Section bitmap_ops.
(** Bound on the rounds of [Bitmap::find]. *)
Context (fuel : nat).

Definition bitmap_alloc_range (num_pages start end_ : Z) : M VirtualAlloc (Result Z) :=
  zx_assert (start <=? end_);;
  zx_assert (0 <? num_pages);;
  self ← getS;
  let align_pages := ushl 1 (usub (align_log2 self) PAGE_SHIFT) in
  let find_pages := uadd num_pages (umul (alloc_guard self) 2) in
  if (align_pages <=? num_pages) && (1 <? align_pages) then panic
  else
    found ←? on_bitmap (Bitmap_find fuel false start end_ find_pages);
    let alloc_start := uadd found (alloc_guard self) in
    modifyS (with_search (uadd alloc_start num_pages));;
    _ ←? on_bitmap (Bitmap_set alloc_start (uadd alloc_start num_pages));
    mret (Ok alloc_start).

Definition bitmap_alloc (num_pages : Z) : M VirtualAlloc (Result Z) :=
  self ← getS;
  r ← bitmap_alloc_range num_pages (next_search_start self) (bm_size (bitmap self));
  match r with
  | Ok s => mret (Ok s)
  | Err _ =>
      self ← getS;
      bitmap_alloc_range num_pages (bitmap_pages self) (bm_size (bitmap self))
  end.
End bitmap_ops.

Definition bitmap_free (start num_pages : Z) : M VirtualAlloc (Result unit) :=
  self ← getS;
  zx_assert (bitmap_pages self <=? start);;
  p ← on_bitmap (Bitmap_scan start (uadd start num_pages) true 0);
  zx_assert p.1;;
  _ ←? on_bitmap (Bitmap_clear start (uadd start num_pages));
  self ← getS;
  if start <? next_search_start self then
    modifyS (with_search start);;
    if alloc_guard self <=? start then
      q ← on_bitmap (Bitmap_reverse_scan (usub start (alloc_guard self)) start false 0);
      modifyS (with_search (if q.1 : bool then usub start (alloc_guard self) else uadd q.2 1));;
      mret (Ok ())
    else mret (Ok ())
  else mret (Ok ()).

(** *** Pages *)

Section pages.
(** The addresses of [PMM_NODE.free_list], of the local lists and of
    [_swapper_pgd], and the head of [ASPACE_LIST]. *)
Context (free_list alloc_list contiguous_pages remaining_pages swapper_pgd : Z) (kernel_aspace : VmAspace).
#[local] Existing Instance pmm_frame_alloc.

Definition on_pmm {A} (f : M PmmNode A) : M (mmu PmmNode) A := zoom frames (λ f m, mkMmu (tables m) f) f.
Definition new_list (l : Z) : M (mmu PmmNode) unit := on_pmm (on_plist (List_new l));; on_pmm (on_plist (List_init l)).

(** [for i in 0..BATCH_PAGES]: the physical addresses gathered so far and the
    page the cursor is at. *)
Fixpoint fill_batch (n : nat) (st page : Z) (acc : list Z) : M (mmu PmmNode) (list Z * Z) :=
  match n with
  | O => mret (acc, page)
  | S n =>
      zx_assert (negb (page =? null));;
      on_pmm (on_pages (set_state page st));;
      pg ← on_pmm (on_pages (page_at page));
      page' ← on_pmm (on_plist (Linked_next page));
      head ← on_pmm (on_plist (List_node alloc_list));
      if page' =? head then mret (acc ++ [paddr pg], page') else fill_batch n st page' (acc ++ [paddr pg])
  end.

Definition HEAP_MMU_FLAGS : Z := Z.lor (Z.lor ARCH_MMU_FLAG_CACHED ARCH_MMU_FLAG_PERM_READ) ARCH_MMU_FLAG_PERM_WRITE.

(** [while mapped_count < num_pages]; every round maps a page, so
    [num_pages] rounds are enough.  [fuel] is that of the page tables. *)
Fixpoint map_batches (rounds fuel : nat) (st va num_pages page mapped_count : Z) : M (mmu PmmNode) (Result unit) :=
  match rounds with
  | O => spin
  | S rounds =>
      if negb (mapped_count <? num_pages) then mret (Ok ())
      else
        let map_pages := Z.min BATCH_PAGES (usub num_pages mapped_count) in
        zx_assert (0 <? map_pages);;
        b ← fill_batch (Z.to_nat BATCH_PAGES) st page [];
        let paddrs := b.1 ++ replicate (Z.to_nat BATCH_PAGES - length b.1) 0 in
        mapped ←? VmAspace_map (FA := pmm_frame_alloc free_list) swapper_pgd fuel kernel_aspace
                    (uadd va (umul mapped_count PAGE_SIZE)) paddrs map_pages HEAP_MMU_FLAGS Error;
        zx_assert (mapped =? map_pages);;
        map_batches rounds fuel st va num_pages b.2 (uadd mapped_count map_pages)
  end.

Definition alloc_map_pages (fuel : nat) (self : VirtualAlloc) (va num_pages : Z) : M (mmu PmmNode) (Result unit) :=
  zx_assert (0 <? num_pages);;
  let align_pages := ushl 1 (usub (align_log2 self) PAGE_SHIFT) in
  zx_assert (1 <? align_pages);;
  new_list alloc_list;;
  if uadd 0 align_pages <=? num_pages then
    new_list contiguous_pages;;
    _ ←? on_pmm (pmm_alloc_contiguous free_list align_pages 0 (align_log2 self) contiguous_pages);
    panic
  else if 0 =? num_pages then mret (Ok ())
  else
    new_list remaining_pages;;
    _ ←? on_pmm (pmm_alloc_pages free_list (usub num_pages 0) 0 remaining_pages);
    on_pmm (on_plist (List_splice alloc_list remaining_pages));;
    page ← on_pmm (on_plist (List_head alloc_list));
    map_batches (S (Z.to_nat num_pages)) fuel (allocated_page_state self) va num_pages page 0.

Record va_world := mkWorld { valloc : VirtualAlloc; vmmu : mmu PmmNode }.
Definition on_valloc {A} (f : M VirtualAlloc A) : M va_world A := zoom valloc (λ v w, mkWorld v (vmmu w)) f.
Definition on_mmu {A} (f : M (mmu PmmNode) A) : M va_world A := zoom vmmu (λ m w, mkWorld (valloc w) m) f.

(** [fresh]: what memory holds at the new bitmap's address. *)
Definition VirtualAlloc_init (fuel : nat) (fresh : list Z) (base size guard log2 : Z) : M va_world (Result unit) :=
  w ← getS;
  if negb (alloc_base (valloc w) =? 0) then mret (Err BadState)
  else if log2 <? PAGE_SHIFT then mret (Err InvalidArgs)
  else
    on_valloc (modifyS (λ v, mkVA (allocated_page_state v) (alloc_guard v) (alloc_base v) (next_search_start v) log2 (bitmap v)));;
    let vaddr_align := ushl 1 log2 in
    if (size =? 0) || negb (IS_ALIGNED size vaddr_align) || negb (IS_ALIGNED base vaddr_align) || (uadd base size <? base)
    then mret (Err InvalidArgs)
    else
      let total_pages := size / PAGE_SIZE in
      let bits_per_page := umul PAGE_SIZE BYTE_BITS in
      let bm_pages := ROUNDUP total_pages bits_per_page / bits_per_page in
      if total_pages <=? uadd bm_pages (umul guard 2) then mret (Err InvalidArgs)
      else
        w ← getS;
        _ ←? on_mmu (alloc_map_pages fuel (valloc w) base bm_pages);
        on_valloc (on_bitmap (modifyS (Bitmap_storage_init base (umul bm_pages PAGE_SIZE) fresh)));;
        on_valloc (modifyS (λ v, mkVA (allocated_page_state v) (alloc_guard v) base (next_search_start v) (align_log2 v) (bitmap v)));;
        on_valloc (on_bitmap (modifyS (Bitmap_init total_pages)));;
        _ ←? on_valloc (on_bitmap (Bitmap_set 0 bm_pages));
        on_valloc (modifyS (λ v, mkVA (allocated_page_state v) guard (alloc_base v) bm_pages (align_log2 v) (bitmap v)));;
        mret (Ok ()).

Definition VirtualAlloc_alloc_pages (fuel bfuel : nat) (pages : Z) : M va_world (Result Z) :=
  w ← getS;
  if alloc_base (valloc w) =? 0 then mret (Err BadState)
  else if pages =? 0 then mret (Err InvalidArgs)
  else
    start ←? on_valloc (bitmap_alloc bfuel pages);
    w ← getS;
    let vstart := uadd (alloc_base (valloc w)) (umul start PAGE_SIZE) in
    _ ←? on_mmu (alloc_map_pages fuel (valloc w) vstart pages);
    mret (Ok vstart).

(** [for i in 0..pages] of [unmap_free_pages]: the pages are gathered in the
    local list. *)
Fixpoint gather_pages (fuel : nat) (list va : Z) (n : nat) (i : Z) : M (mmu PmmNode) (Result unit) :=
  match n with
  | O => mret (Ok ())
  | S n =>
      q ←? VmAspace_query swapper_pgd fuel kernel_aspace (uadd va (umul i PAGE_SIZE));
      page ← on_pmm (paddr_to_vm_page q.1);
      on_pmm (on_plist (List_add_tail list page));;
      gather_pages fuel list va n (i + 1)
  end.

(** Past the loop [unmap], [pmm_free] and the end of the function are each a
    [todo!]. *)
Definition unmap_free_pages (fuel : nat) (va pages : Z) : M (mmu PmmNode) (Result unit) :=
  new_list remaining_pages;;
  _ ←? gather_pages fuel remaining_pages va (Z.to_nat pages) 0;
  unmapped ←? VmAspace_unmap kernel_aspace va pages false;
  zx_assert (unmapped =? pages);;
  on_pmm (pmm_free remaining_pages);;
  panic.

Definition VirtualAlloc_free_pages (fuel : nat) (vaddr pages : Z) : M va_world (Result unit) :=
  w ← getS;
  zx_assert (negb (alloc_base (valloc w) =? 0));;
  zx_assert (0 <? pages);;
  zx_assert (IS_PAGE_ALIGNED vaddr);;
  _ ←? on_valloc (bitmap_free (usub vaddr (alloc_base (valloc w)) / PAGE_SIZE) pages);
  on_mmu (unmap_free_pages fuel vaddr pages).

(** [VirtualAlloc] as the heap sees it; the ranges handed out are kept beside
    the state. *)
#[export] Instance virtual_alloc_pages (fuel bfuel : nat) : PageAllocator (va_world * list (Z * Z)) := {|
  va_alloc_pages n := λ s,
    match VirtualAlloc_alloc_pages fuel bfuel n s.1 with
    | Ret (Ok va, w) => Ret (Ok va, (w, (va, n * PAGE_SIZE) :: s.2))
    | Ret (Err e, w) => Ret (Err e, (w, s.2))
    | Panic => Panic | Fault => Fault | Spin => Spin
    end;
  va_free_pages va n := zoom fst (λ w s, (w, s.2)) (VirtualAlloc_free_pages fuel va n);
  mapped := snd |}.

Definition heap_init (fuel bfuel : nat) (free_lists : Z → Z) (fresh : list Z) (st : vm_boot) :
    M (GlobalAllocator * HeapState (va_world * list (Z * Z))) (Result unit) :=
  let on_heap_state {A} (f : M (HeapState (va_world * list (Z * Z))) A) := zoom snd (λ h (s : GlobalAllocator * _), (s.1, h)) f in
  let on_world {A} (f : M va_world A) : M (HeapState (va_world * list (Z * Z))) A :=
    on_os (zoom fst (λ w s, (w, s.2)) f) in
  on_heap_state (on_world (on_valloc (modifyS (λ _, VirtualAlloc_new HEAP))));;
  _ ←? on_heap_state (on_world (VirtualAlloc_init fuel fresh (vm_get_kernel_heap_base st) (vm_get_kernel_heap_size st)
                                  1 ARCH_HEAP_ALIGN_BITS));
  _ ←? on_heap_state (cmpct_init (PA := virtual_alloc_pages fuel bfuel) free_lists);
  s ← getS;
  match switch_stage Boot s.1 with
  | Ret g => putS (g, s.2);; mret (Ok ())
  | _ => panic
  end.
End pages.

(** ** The boot allocator *)

Record block := mkBlock { b_ptr : Z; b_len : Z }.
Definition apart (x y : block) : Prop := b_ptr x + b_len x ≤ b_ptr y ∨ b_ptr y + b_len y ≤ b_ptr x.

(** A request for which [ALIGN!] and [start + layout.size()] cannot wrap. *)
Definition layout_ok (b : BumpAllocator) (l : Layout) : Prop :=
  0 ≤ l_size l ∧ ∃ k, 0 ≤ k < 64 ∧ l_align l = 2 ^ k ∧ b_end b + l_size l + 2 ^ k ≤ 2 ^ 64.

(** The blocks alive, the live count and the bump pointer fit together. *)
Definition bump_inv (b : BumpAllocator) (live : list block) : Prop :=
  0 < b_start b ≤ b_next b ∧ b_next b ≤ b_end b ∧ b_end b < 2 ^ 64 ∧
  allocations b = Z.of_nat (length live) ∧ Z.of_nat (length live) < 2 ^ 64 ∧
  Forall (λ x, b_start b ≤ b_ptr x ∧ 0 ≤ b_len x ∧ b_ptr x + b_len x ≤ b_next b) live ∧
  ForallOrdPairs apart live.

(** Uses of the allocator: a block is freed once, with what it was asked for. *)
Inductive bump_step : BumpAllocator * list block → BumpAllocator * list block → Prop :=
  | bump_alloc b live l p b' :
      layout_ok b l → BumpAllocator_alloc l b = (p, b') → Z.of_nat (length live) + 1 < 2 ^ 64 →
      bump_step (b, live) (b', if decide (p = null) then live else mkBlock p (l_size l) :: live)
  | bump_dealloc b live1 x live2 l :
      l_size l = b_len x →
      bump_step (b, live1 ++ x :: live2) (BumpAllocator_dealloc (b_ptr x) l b, live1 ++ live2).

Lemma ForallOrdPairs_remove {A} (R : A → A → Prop) l1 x l2 :
  ForallOrdPairs R (l1 ++ x :: l2) → ForallOrdPairs R (l1 ++ l2).
Proof.
  induction l1 as [|y l1 IH]; simpl; intros Hf; inversion_clear Hf as [|? ? Hy Hl]; [done|].
  constructor; [|auto]. rewrite Forall_app in *. destruct Hy as [Hy1 Hy2]. inversion_clear Hy2. done.
Qed.

Lemma bump_alloc_spec b live l : bump_inv b live → layout_ok b l → Z.of_nat (length live) + 1 < 2 ^ 64 →
  let p := ALIGN (b_next b) (l_align l) in
  p mod l_align l = 0 ∧ b_next b ≤ p < b_next b + l_align l ∧
  if decide (p + l_size l ≤ b_end b)
  then ∃ b', BumpAllocator_alloc l b = (p, b') ∧ bump_inv b' (mkBlock p (l_size l) :: live)
  else BumpAllocator_alloc l b = (null, b).
Proof.
  intros (Hs & Hn & He & Hc & Hlen & Hin & Hap) [Hsz (k & Hk & Hal & Hfit)] Hlt p.
  assert (0 < 2 ^ k) as Hpos by lia.
  assert (p = (b_next b + (2 ^ k - 1)) - (b_next b + (2 ^ k - 1)) mod 2 ^ k) as Ep.
  { unfold p, ALIGN. rewrite Hal. apply ROUNDUP_spec; lia. }
  pose proof (Z.mod_pos_bound (b_next b + (2 ^ k - 1)) (2 ^ k) Hpos) as Hmod.
  split; [|split; [rewrite Hal; lia|]].
  { rewrite Hal, Ep. rewrite Zminus_mod_idemp_r, Z.sub_diag. apply Z.mod_0_l. lia. }
  unfold BumpAllocator_alloc. fold p. cbv zeta.
  rewrite uadd_small by (unfold is_usize; lia). case_decide as E.
  - rewrite (proj2 (Z.ltb_ge (b_end b) (p + l_size l))) by lia. eexists. split; [reflexivity|].
    rewrite uadd_small by (unfold is_usize; lia).
    split_and!; cbn [b_start b_end b_next allocations]; try lia; [simpl; lia|simpl; lia| |].
    + constructor; cbn [b_ptr b_len]; [lia|]. eapply Forall_impl; [exact Hin|]. intros x (? & ? & ?). lia.
    + constructor; [|done]. eapply Forall_impl; [exact Hin|]. intros x (? & ? & ?). right. cbn [b_ptr]. lia.
  - by rewrite (proj2 (Z.ltb_lt (b_end b) (p + l_size l))) by lia.
Qed.

Lemma bump_dealloc_spec b live1 x live2 l : bump_inv b (live1 ++ x :: live2) → bump_inv (BumpAllocator_dealloc (b_ptr x) l b) (live1 ++ live2).
Proof.
  intros (Hs & Hn & He & Hc & Hlen & Hin & Hap). unfold BumpAllocator_dealloc. rewrite length_app in *. cbn [length] in *.
  rewrite usub_small by (unfold is_usize; lia). assert (allocations b - 1 = Z.of_nat (length (live1 ++ live2))) as Ec by (rewrite length_app; lia).
  destruct (allocations b - 1 =? 0) eqn:E; [apply Z.eqb_eq in E|apply Z.eqb_neq in E].
  - assert (live1 ++ live2 = []) as -> by (apply length_zero_iff_nil; lia).
    split_and!; cbn [b_start b_end b_next allocations length]; try lia; constructor.
  - split_and!; cbn [b_start b_end b_next allocations]; try lia; [|by eapply ForallOrdPairs_remove].
    rewrite Forall_app in *. destruct Hin as [H1 H2]. inversion_clear H2. done.
Qed.

Lemma bump_reach start size s :
  0 < start → 0 ≤ size → start + size < 2 ^ 64 →
  rtc bump_step (BumpAllocator_init start size BumpAllocator_new, []) s →
  bump_inv s.1 s.2 ∧ b_start s.1 = start ∧ b_end s.1 = start + size.
Proof.
  intros Hs Hz Hfit. revert s. apply (rtc_ind_r (λ s, bump_inv s.1 s.2 ∧ b_start s.1 = start ∧ b_end s.1 = start + size)).
  - cbn [fst snd]. unfold BumpAllocator_init. rewrite uadd_small by (unfold is_usize; lia).
    split; [|done]. split_and!; cbn [b_start b_end b_next allocations BumpAllocator_new length]; (lia || constructor).
  - intros y z _ Hstep (Hinv & Es & Ee). destruct Hstep as [b live l p b' Hl Hrun Hlen|b live1 x live2 l Hl]; cbn [fst snd] in *.
    + pose proof (bump_alloc_spec b live l Hinv Hl Hlen) as (_ & Hp & Hcase). destruct Hinv as ((Hb0 & Hb1) & Hinv).
      case_decide as E.
      * destruct Hcase as (b2 & Hrun2 & Hinv2). rewrite Hrun2 in Hrun. injection Hrun as <- <-.
        rewrite decide_False by (unfold null; lia). split; [exact Hinv2|].
        unfold BumpAllocator_alloc in Hrun2. cbv zeta in Hrun2. destruct (b_end b <? _); [injection Hrun2 as E2 _; unfold null in E2; lia|by injection Hrun2 as <-].
      * rewrite Hcase in Hrun. injection Hrun as <- <-. rewrite decide_True by done. split; [|done]. split; [lia|done].
    + split; [by apply bump_dealloc_spec|done].
Qed.

(** *** Claims *)

(** C36: however the boot allocator is used, from its initialisation on, by
    requests that do not wrap and by freeing blocks once each, the live
    blocks stay inside its range and never overlap, and a request is answered
    with an aligned block above all live ones exactly when it fits, with null
    otherwise. *)
Theorem BumpAllocator_safe start size b live :
  0 < start → 0 ≤ size → start + size < 2 ^ 64 →
  rtc bump_step (BumpAllocator_init start size BumpAllocator_new, []) (b, live) →
  (Forall (λ x, start ≤ b_ptr x ∧ b_ptr x + b_len x ≤ start + size) live ∧ ForallOrdPairs apart live) ∧
  ∀ l, layout_ok b l → Z.of_nat (length live) + 1 < 2 ^ 64 →
    let p := ALIGN (b_next b) (l_align l) in
    p mod l_align l = 0 ∧ b_next b ≤ p < b_next b + l_align l ∧ Forall (λ x, b_ptr x + b_len x ≤ b_next b) live ∧
    (BumpAllocator_alloc l b).1 = if decide (p + l_size l ≤ start + size) then p else null.
Proof.
  intros Hs Hz Hfit Hrtc.
  destruct (bump_reach start size (b, live) Hs Hz Hfit Hrtc) as (Hinv & Es & Ee). cbn [fst snd] in Hinv, Es, Ee.
  pose proof Hinv as (_ & Hn & _ & _ & _ & Hin & Hap). split; [split; [|exact Hap]|].
  - eapply Forall_impl; [exact Hin|]. intros x (? & ? & ?). lia.
  - intros l Hl Hlen p. destruct (bump_alloc_spec b live l Hinv Hl Hlen) as (H1 & H2 & H3). fold p in H1, H2, H3.
    split; [exact H1|]. split; [exact H2|]. split; [eapply Forall_impl; [exact Hin|]; intros x (? & ? & ?); lia|].
    rewrite Ee in H3. case_decide; [by destruct H3 as (b' & -> & _)|by rewrite H3].
Qed.

Lemma BumpAllocator_safe_witness :
  let b := mkBump 0x1008 0x1108 0x1025 2 in
  rtc bump_step (BumpAllocator_init 0x1008 0x100 BumpAllocator_new, []) (b, [mkBlock 0x1020 5; mkBlock 0x1008 8]) ∧
  ForallOrdPairs apart [mkBlock 0x1020 5; mkBlock 0x1008 8].
Proof.
  intros b.
  assert (rtc bump_step (BumpAllocator_init 0x1008 0x100 BumpAllocator_new, []) (b, [mkBlock 0x1020 5; mkBlock 0x1008 8])) as Hr.
  { apply (rtc_l _ _ (mkBump 0x1008 0x1108 0x1010 1, [mkBlock 0x1008 8])).
    - apply (bump_alloc (mkBump 0x1008 0x1108 0x1008 0) [] (mkLayout 8 8) 0x1008 (mkBump 0x1008 0x1108 0x1010 1));
        [split; [by_compute|exists 3; by_compute]|reflexivity|by_compute].
    - apply rtc_once.
      apply (bump_alloc (mkBump 0x1008 0x1108 0x1010 1) [mkBlock 0x1008 8] (mkLayout 5 32) 0x1020 b);
        [split; [by_compute|exists 5; by_compute]|reflexivity|by_compute]. }
  split; [exact Hr|].
  apply (proj1 (BumpAllocator_safe 0x1008 0x100 b _ ltac:(lia) ltac:(lia) ltac:(lia) Hr)).
Defined.

(** ** The heap's bitmap *)

(** [VirtualAlloc] as [heap_init] leaves it when the bitmap's pages hold
    zeros: 16 of the 524288 pages of the heap hold the bitmap. *)
Definition heap_va : VirtualAlloc :=
  let base := KERNEL_ASPACE_BASE + PHYSMAP_SIZE in
  mkVA HEAP 1 base 16 ARCH_HEAP_ALIGN_BITS (mkBitmap 524288 8192 base (0xffff :: replicate (Z.to_nat 8191) 0)).

(** Two requests for [n] pages in a row get overlapping ranges. *)
Definition second_inside_first (n : Z) : bool :=
  match bitmap_alloc 1 n heap_va with
  | Ret (Ok s1, v1) =>
      match bitmap_alloc 1 n v1 with
      | Ret (Ok s2, _) => (s1 =? 17) && (17 <=? s2) && (s2 <? 17 + n)
      | _ => false
      end
  | _ => false
  end.

Lemma second_inside_first_all : forallb second_inside_first (seqZ 48 393) = true.
Proof. vm_compute. reflexivity. Qed.



(** ** Backing virtual pages with physical ones *)

(** The page tables' frames come from the free list while the pages [held] on
    a local list [L] stay as they are. *)
Section held.
Context (free_list L : Z) (held : list Z) (V : Z → option vm_page).

Definition held_ok (s : PmmNode) (own : gset Z) (n : nat) : Prop :=
  ∃ fl, owned free_list L s fl held ∧ (n ≤ length fl)%nat ∧ slots_ok s fl ∧
    (∀ pa, pa ∈ own → ∃ a i, frame_of s a i ∧ pa = arena_base a + i * PAGE_SIZE ∧ arena_slot a i ∉ fl ++ held) ∧
    (∀ p, p ∈ held → vpages (mem s) !! p = V p).

Lemma held_alloc s own n : held_ok s own (S n) →
  ∃ pa s', alloc_page_table free_list s = Ret (Ok pa, s') ∧ held_ok s' ({[pa]} ∪ own) n ∧ pa ∉ own ∧ frame_ok pa.
Proof.
  intros (fl & (Hinv & Hd & Hdis) & Hn & [Hphys Hslots] & Hown & HV). destruct fl as [|p fl]; [simpl in Hn; lia|].
  destruct (Hslots p ltac:(set_solver)) as (a & i & Hai & Hp).
  destruct (alloc_page_table_spec free_list s p fl a i Hinv Hai Hp) as (s' & Hrun & Hinv' & Har & Hfr & Hv & Hpn).
  destruct (frame_of_ok free_list s _ a i Hinv Hphys Hai) as [Hfo _]. exists (arena_base a + i * PAGE_SIZE), s'.
  assert (p ∉ L :: held) as HpL by (intros Hin; apply (Hdis p); [done|set_solver]).
  unfold frame_of in *. rewrite <-Har in Hphys, Hslots, Hown, Hai. split_and!; [exact Hrun| | |apply Hfo..].
  - exists fl. unfold slots_ok, frame_of. split_and!; [|simpl in Hn; lia|done| | |].
    + split_and!; [done| |set_solver]. apply (dll_frame _ _ _ _ _ Hd Hfr). intros q Hq Hin. by apply (Hdis q).
    + intros q Hq. apply Hslots. set_solver.
    + intros pa [->%elem_of_singleton|Hin]%elem_of_union.
      * exists a, i. split_and!; [apply Hai..|done|]. rewrite <-Hp. set_solver.
      * destruct (Hown pa Hin) as (b & j & Hbj & E & Hnin). exists b, j. split_and!; [apply Hbj..|done|set_solver].
    + intros q Hq. rewrite Hv by (intros ->; set_solver). by apply HV.
  - intros Hin. destruct (Hown _ Hin) as (b & j & Hbj & E & Hnin). rewrite Har in *.
    destruct (frame_slot free_list s _ a i b j Hinv Hphys Hai Hbj E) as [<- <-]. apply Hnin. rewrite <-Hp. set_solver.
Qed.

Lemma held_frames s own n pa : held_ok s own n → pa ∈ own → frame_ok pa.
Proof.
  intros (fl & (Hinv & _) & _ & [Hphys _] & Hown & _) Hin. destruct (Hown pa Hin) as (a & i & Hai & -> & _).
  by apply (frame_of_ok free_list s fl a i).
Qed.

Definition held_laws : @FrameAllocLaws PmmNode (pmm_frame_alloc free_list) :=
  @Build_FrameAllocLaws PmmNode (pmm_frame_alloc free_list) held_ok held_alloc held_frames.
End held.

(** The first page of the rest of a list, its head at the end. *)
Definition first_of (h : Z) (l : list Z) : Z := match l with [] => h | x :: _ => x end.

Lemma dll_next m h l1 x l2 : dll m h (l1 ++ x :: l2) → nx m x = Some (first_of h l2).
Proof.
  intros (_ & _ & _ & Hp). destruct l2 as [|y l2]; simpl.
  - replace (h :: (l1 ++ [x]) ++ [h]) with (((h :: l1) ++ [x]) ++ h :: []) in Hp by (simpl; by rewrite <-app_assoc).
    apply path_app in Hp as (_ & [? _] & _). done.
  - replace (h :: (l1 ++ x :: y :: l2) ++ [h]) with (((h :: l1) ++ [x]) ++ y :: l2 ++ [h]) in Hp by (simpl; by rewrite <-!app_assoc).
    apply path_app in Hp as (_ & [? _] & _). done.
Qed.

Definition set_st (st : Z) (pg : vm_page) : vm_page := mkPage (paddr pg) (object pg) st (loaned_state pg).
(** The physical addresses of pages. *)
Definition paddrs_of (vp : gmap Z vm_page) (ps : list Z) : list Z := (λ p, default 0 (paddr <$> vp !! p)) <$> ps.

Definition with_pages (vp : gmap Z vm_page) (m : mmu PmmNode) : mmu PmmNode :=
  mkMmu (tables m) (with_mem (mkPmem (lists (mem (frames m))) vp) (frames m)).

(** [vp'] has the pages [ps] of [vp] in state [st]. *)
Definition marked (st : Z) (ps : list Z) (vp vp' : gmap Z vm_page) : Prop :=
  ∀ q, vp' !! q = if decide (q ∈ ps) then set_st st <$> vp !! q else vp !! q.

Lemma Linked_next_run m p x : nx m p = Some x → Linked_next p m = Ret (x, m).
Proof.
  intros Hn. unfold nx in Hn. apply fmap_Some in Hn as (nd & Hnd & ->). unfold Linked_next.
  erewrite M_bind_run by (apply (deref_run (λ m, nodes m !! into_node p)); rewrite vm_page_into_node; exact Hnd).
  by rewrite vm_page_from_node.
Qed.

Lemma List_node_run m h : refs m !! h = Some h → List_node h m = Ret (h, m).
Proof.
  intros Hr. unfold List_node. erewrite M_bind_run by (by apply (deref_run (λ m, refs m !! h))). by rewrite vm_page_from_node.
Qed.

Lemma fill_batch_spec L st k acc l1 p rest (m : mmu PmmNode) :
  let s := frames m in
  dll (lists (mem s)) L (l1 ++ p :: rest) → (∀ q, q ∈ p :: rest → is_Some (vpages (mem s) !! q)) →
  ∃ vp', fill_batch L k st p acc m =
      Ret ((acc ++ paddrs_of (vpages (mem s)) (take k (p :: rest)), first_of L (drop k (p :: rest))), with_pages vp' m) ∧
    marked st (take k (p :: rest)) (vpages (mem s)) vp'.
Proof.
  revert acc l1 p rest m. induction k as [|k IH]; intros acc l1 p rest m s Hd Hpg.
  { exists (vpages (mem s)). split; [|intros q; rewrite decide_False; [done|apply not_elem_of_nil]].
    cbn [fill_batch take drop first_of]. unfold paddrs_of. cbn [fmap list_fmap]. rewrite app_nil_r. unfold with_pages.
    fold s. rewrite with_mem_id. by destruct m. }
  destruct (Hpg p) as [pg Hp]; [set_solver|]. pose proof (dll_next _ _ _ _ _ Hd) as Hnx.
  pose proof Hd as (Href & Hnull & Hnd & _).
  set (vp1 := alter (set_st st) p (vpages (mem s))). set (m1 := with_pages vp1 m).
  assert (vp1 !! p = Some (set_st st pg)) as Hp1 by (unfold vp1; by rewrite lookup_alter_eq, Hp).
  assert (fill_batch L (S k) st p acc m =
    (if first_of L rest =? L then mret (acc ++ [paddr pg], first_of L rest) else fill_batch L k st (first_of L rest) (acc ++ [paddr pg])) m1) as ->.
  { cbn [fill_batch]. rewrite (proj2 (Z.eqb_neq p null)) by set_solver. erewrite M_bind_run by reflexivity.
    rewrite (M_bind_run _ _ m () m1).
    2:{ unfold on_pmm, zoom, on_pages, zoom, set_state. fold s. rewrite (update_page_run _ _ _ _ Hp). reflexivity. }
    rewrite (M_bind_run _ _ m1 (set_st st pg) m1).
    2:{ unfold on_pmm, zoom. rewrite (on_pages_at (frames m1) p (set_st st pg) Hp1). reflexivity. }
    assert (∀ A (f : M lmem A) a, f (lists (mem s)) = Ret (a, lists (mem s)) → on_pmm (on_plist f) m1 = Ret (a, m1)) as Hro.
    { intros A f a Hf. unfold on_pmm, zoom. rewrite (on_plist_run f (frames m1) a (lists (mem s)) Hf). reflexivity. }
    rewrite (M_bind_run _ _ _ _ _ (Hro _ (Linked_next p) (first_of L rest) ltac:(by apply Linked_next_run))).
    rewrite (M_bind_run _ _ _ _ _ (Hro _ (List_node L) L ltac:(by apply List_node_run))). reflexivity. }
  assert (∀ vp' ps, marked st ps vp1 vp' → p ∉ ps → marked st (p :: ps) (vpages (mem s)) vp') as Hmark.
  { intros vp' ps Hm Hnin q. rewrite Hm. unfold vp1. rewrite lookup_alter. destruct (decide (q = p)) as [->|Hne].
    - rewrite decide_False by done. rewrite !decide_True by (done || set_solver). done.
    - rewrite (decide_False (P := p = q)) by done. repeat case_decide; set_solver. }
  assert (p ∉ rest) as Hpr.
  { apply NoDup_cons in Hnd as [_ Hnd]. apply NoDup_app in Hnd as (_ & _ & Hnd). by apply NoDup_cons in Hnd as [? _]. }
  assert (∀ ps, paddrs_of (vpages (mem s)) (p :: ps) = paddr pg :: paddrs_of vp1 ps) as Hpas.
  { intros ps. unfold paddrs_of. cbn [fmap list_fmap]. rewrite Hp. cbn [fmap option_fmap option_map default]. f_equal.
    apply list_fmap_ext. intros _ q _. unfold vp1. rewrite lookup_alter. case_decide; [subst q|done]. by destruct (vpages (mem s) !! p). }
  cbn [take drop]. rewrite Hpas. destruct rest as [|p2 rest].
  - cbn [first_of]. rewrite Z.eqb_refl, take_nil, drop_nil. exists vp1. split; [done|]. apply Hmark; [|apply not_elem_of_nil].
    intros q. by rewrite decide_False by apply not_elem_of_nil.
  - cbn [first_of]. rewrite (proj2 (Z.eqb_neq p2 L)) by (apply NoDup_cons in Hnd as [Hnd _]; set_solver).
    destruct (IH (acc ++ [paddr pg]) (l1 ++ [p]) p2 rest m1) as (vp' & Hrun & Hm).
    + cbn [m1 with_pages frames with_mem mem lists]. fold s. by rewrite <-app_assoc.
    + intros q Hq. cbn [m1 with_pages frames with_mem mem vpages]. unfold vp1. rewrite lookup_alter.
      destruct (Hpg q ltac:(set_solver)) as [y Hy]. case_decide; [subst q; rewrite Hp|rewrite Hy]; by eexists.
    + rewrite Hrun. exists vp'. split; [|apply Hmark; [exact Hm|]].
      * cbn [m1 with_pages frames with_mem mem vpages]. by rewrite <-app_assoc.
      * intros (i & Hi%list_elem_of_lookup_2 & _)%elem_of_take. done.
Qed.

Lemma pages_inv_marked free_list s fl vp' st ps :
  pages_inv free_list s fl → marked st ps (vpages (mem s)) vp' → (∀ q, q ∈ ps → q ∉ fl) → st ≠ FREE →
  pages_inv free_list (with_mem (mkPmem (lists (mem s)) vp') s) fl.
Proof.
  intros (Hd & Hfl & Hwf & Hs & Har) Hm Hps Hst. split_and!; try done; cbn [with_mem mem lists vpages arenas].
  - intros q Hq. rewrite Hm, decide_False by (intros Hin; by apply (Hps q)). by apply Hfl.
  - intros a i Ha Hi. destruct (Har a i Ha Hi) as (pg & Hpg & Hpa & Hn & Hin). rewrite Hm, Hpg. case_decide as E.
    + exists (set_st st pg). split_and!; [done|done|done|]. unfold is_free. cbn [state set_st]. by intros ?%Z.eqb_eq.
    + exists pg. by split_and!.
Qed.

Lemma paddrs_marked st ps vp vp' l : marked st ps vp vp' → paddrs_of vp' l = paddrs_of vp l.
Proof.
  intros Hm. apply list_fmap_ext. intros _ q _. rewrite Hm. case_decide; [|done]. by destruct (vp !! q).
Qed.

Lemma paddrs_ext vp vp' l : (∀ q, q ∈ l → vp' !! q = vp !! q) → paddrs_of vp' l = paddrs_of vp l.
Proof. intros He. apply list_fmap_ext. intros i q Hq. rewrite He; [done|]. by apply list_elem_of_lookup_2 in Hq. Qed.

(** Mapping [c] pages and then [d] more is mapping [c + d]. *)
Lemma mapped_upto_app PA PA2 va old c d x : (PAGE_SIZE | va) → 0 ≤ c → 0 ≤ d →
  (∀ j, 0 ≤ j < d → PA2 !! Z.to_nat j = PA !! Z.to_nat (c + j)) →
  mapped_upto PA2 (va + c * PAGE_SIZE) (mapped_upto PA va old c x) d x = mapped_upto PA va old (c + d) x.
Proof.
  intros Hal Hc Hd HP. unfold mapped_upto.
  assert ((x - (va + c * PAGE_SIZE)) / PAGE_SIZE = (x - va) / PAGE_SIZE - c) as ->.
  { replace (x - (va + c * PAGE_SIZE)) with (x - va + (- c) * PAGE_SIZE) by lia. rewrite Z.div_add by done. lia. }
  set (k := (x - va) / PAGE_SIZE). destruct (decide (0 ≤ k < c)) as [H1|H1].
  - rewrite (bool_decide_false (0 ≤ k - c < d)), (bool_decide_true (0 ≤ k < c)), (bool_decide_true (0 ≤ k < c + d)) by lia. done.
  - rewrite (bool_decide_false (0 ≤ k < c)) by lia. destruct (decide (c ≤ k < c + d)) as [H2|H2].
    + rewrite (bool_decide_true (0 ≤ k - c < d)), (bool_decide_true (0 ≤ k < c + d)) by lia.
      rewrite HP by lia. by replace (c + (k - c)) with k by lia.
    + by rewrite (bool_decide_false (0 ≤ k - c < d)), (bool_decide_false (0 ≤ k < c + d)) by lia.
Qed.

Section batches.
Context (free_list L root : Z) (ka : VmAspace) (held PA : list Z) (st va : Z) (fuel : nat) (m0 : mmu PmmNode).
Context (Hroot : is_physmap_addr root = false) (Hka : is_kernel_aspace ka) (Hst : st ≠ FREE) (Hfuel : (2 ≤ fuel)%nat).
Let N : Z := Z.of_nat (length held).
Context (Hal : (PAGE_SIZE | va)) (Hlo : KERNEL_ASPACE_BASE ≤ va) (Hhi : va + N * PAGE_SIZE ≤ 2 ^ 64).
Context (HPA : length PA = length held) (Hfr : ∀ j pa, PA !! j = Some pa → frame_ok pa).
Context (Hfresh : ∀ k, 0 ≤ k < N → walk (tables m0) 5 0 root (va + k * PAGE_SIZE) = Err NotFound).
#[local] Instance FAi : FrameAlloc PmmNode := pmm_frame_alloc free_list.

Definition held_mm (m : mmu PmmNode) T own n : Prop :=
  @mm PmmNode FAi (held_laws free_list L held (λ q, vpages (mem (frames m)) !! q)) root m T own n.

Definition backed_state (m : mmu PmmNode) : Prop :=
  paddrs_of (vpages (mem (frames m))) held = PA ∧ ∀ q, q ∈ held → is_Some (vpages (mem (frames m)) !! q).

(** Filling a batch: its pages are marked and the cursor is after them. *)
Lemma fill_held m T own n done p rest :
  held = done ++ p :: rest → held_mm m T own n → backed_state m →
  let b := take 128 (p :: rest) in
  ∃ vp', fill_batch L 128 st p [] m =
           Ret ((paddrs_of (vpages (mem (frames m))) b, first_of L (drop 128 (p :: rest))), with_pages vp' m) ∧
    marked st b (vpages (mem (frames m))) vp' ∧ held_mm (with_pages vp' m) T own n.
Proof.
  intros Eh Hm [_ Hsome] b.
  destruct Hm as [Hpt (fl & Hown & Hlen & Hslots & Howned & HV) Hmown]. pose proof Hown as (Hinv & Hd & Hdis).
  destruct (fill_batch_spec L st 128 [] done p rest m) as (vp' & Hfill & Hmk); [by rewrite <-Eh| |].
  { intros q Hq. apply Hsome. rewrite Eh. apply elem_of_app. by right. }
  exists vp'. split; [exact Hfill|]. split; [exact Hmk|]. split; [exact Hpt| |exact Hmown].
  exists fl. split; [|split; [done|split; [exact Hslots|split; [exact Howned|done]]]].
  split; [|split; [exact Hd|exact Hdis]]. apply (pages_inv_marked free_list (frames m) fl vp' st b Hinv Hmk); [|done].
  intros q Hq Hin. apply (Hdis q); [|apply elem_of_cons; by right]. apply elem_of_cons. right. rewrite Eh. apply elem_of_app. right.
  by apply (subseteq_take 128).
Qed.

(** A page that was not mapped at first and is beyond the first [c] is not
    mapped yet. *)
Lemma beyond_unmapped m c j :
  mapped_state root PA va m0 m c → 0 ≤ c → 0 ≤ j → c + j < N →
  walk (tables m) 5 0 root (va + c * PAGE_SIZE + j * PAGE_SIZE) = Err NotFound.
Proof.
  intros Hms Hc Hj Hlt. assert (KERNEL_ASPACE_BASE = 2 ^ 64 - 2 ^ 48) as EB by reflexivity. assert (PAGE_SIZE = 4096) as EP by reflexivity.
  assert (kernel_range (va + c * PAGE_SIZE + j * PAGE_SIZE)) as Hkr by (unfold kernel_range; rewrite EB, EP in *; lia).
  rewrite (Hms _ Hkr). unfold mapped_upto.
  replace (va + c * PAGE_SIZE + j * PAGE_SIZE) with (va + (c + j) * PAGE_SIZE) by lia.
  rewrite (Hfresh (c + j)) by lia. rewrite bool_decide_false; [done|].
  replace (va + (c + j) * PAGE_SIZE - va) with ((c + j) * PAGE_SIZE) by lia. rewrite Z.div_mul by done. lia.
Qed.

(** One batch. *)
Lemma batch_spec m T own n done p rest :
  held = done ++ p :: rest → held_mm m T own n → (4 * length (p :: rest) ≤ n)%nat → backed_state m →
  let c := Z.of_nat (length done) in
  let b := take 128 (p :: rest) in
  mapped_state root PA va m0 m c →
  ∃ m' T' own' n', (∀ rounds, map_batches free_list L root ka (S rounds) fuel st va N p c m =
        map_batches free_list L root ka rounds fuel st va N (first_of L (drop 128 (p :: rest))) (c + Z.of_nat (length b)) m') ∧
    held_mm m' T' own' n' ∧ (n ≤ 4 * length b + n')%nat ∧ backed_state m' ∧ mapped_state root PA va m0 m' (c + Z.of_nat (length b)) ∧
    ∀ q, q ∈ held → vpages (mem (frames m')) !! q = if decide (q ∈ b) then set_st st <$> vpages (mem (frames m)) !! q else vpages (mem (frames m)) !! q.
Proof.
  intros Eh Hm Hn Hb c b Hms. destruct (fill_held m T own n done p rest Eh Hm Hb) as (vp' & Hfill & Hmk & Hm1).
  fold b in Hfill, Hmk. destruct Hb as [Hpa Hsome].
  set (m1 := with_pages vp' m) in *. set (PA2 := paddrs_of (vpages (mem (frames m))) b ++ replicate (Z.to_nat BATCH_PAGES - length (paddrs_of (vpages (mem (frames m))) b)) 0).
  assert (Z.of_nat (length b) = Z.min 128 (N - c)) as Hlb.
  { unfold b, N, c. rewrite Eh, length_take, !length_app. cbn [length]. lia. }
  assert (0 < Z.of_nat (length b)) as Hpos by (unfold b; cbn [take length]; lia).
  assert (∀ j, 0 ≤ j < Z.of_nat (length b) → PA2 !! Z.to_nat j = PA !! Z.to_nat (c + j)) as HP2.
  { intros j Hj. unfold PA2, paddrs_of. rewrite lookup_app_l by (rewrite length_fmap; lia). rewrite <-Hpa. unfold paddrs_of.
    rewrite !list_lookup_fmap. f_equal. unfold b. rewrite lookup_take_lt by lia. rewrite Eh.
    replace (Z.to_nat (c + j)) with (length done + Z.to_nat j)%nat by (unfold c; lia). rewrite lookup_app_r by lia. f_equal. lia. }
  assert (c + Z.of_nat (length b) ≤ N) as HcN by lia. assert (0 ≤ c) as Hc0 by (unfold c; lia).
  assert (KERNEL_ASPACE_BASE = 2 ^ 64 - 2 ^ 48) as EB by reflexivity. assert (PAGE_SIZE = 4096) as EP by reflexivity.
  destruct (@VmAspace_map_spec PmmNode FAi (held_laws free_list L held (λ q, vp' !! q)) root ka m1 T own n
    (va + c * PAGE_SIZE) PA2 (Z.of_nat (length b)) HEAP_MMU_FLAGS Error fuel Hroot Hka Hm1)
    as (r & m' & T' & own' & n' & j & Hrun & Hm' & Hn' & Hj & Hst' & _ & Hres).
  { rewrite Nat2Z.id. unfold b. rewrite length_take. lia. }
  { exact Hfuel. }
  { rewrite EB, EP in *. lia. }
  { apply Z.divide_add_r; [exact Hal|apply Z.divide_factor_r]. }
  { lia. }
  { rewrite EP in *. lia. }
  { intros j Hj. rewrite HP2 by done. destruct (lookup_lt_is_Some_2 PA (Z.to_nat (c + j))) as [pa Hpa']; [rewrite HPA; unfold N in *; lia|].
    exists pa. split; [exact Hpa'|by apply (Hfr _ _ Hpa')]. }
  { discriminate. }
  destruct r as [[]|e].
  2:{ exfalso. destruct Hres as (_ & _ & Hlt & x & Hx). change (tables m1) with (tables m) in Hx.
      rewrite (beyond_unmapped m c j Hms) in Hx by lia. discriminate Hx. }
  subst j. rewrite Nat2Z.id in Hn'. destruct Hm' as [Hpt' (fl' & Hown' & Hlen' & Hslots' & Howned' & HV') Hmown'].
  assert (∀ q, q ∈ held → vpages (mem (frames m')) !! q = vp' !! q) as HV2 by exact HV'.
  exists m', T', own', n'. split; [|split; [|split; [exact Hn'|split; [|split]]]].
  - intros rounds. cbn [map_batches]. rewrite (proj2 (Z.ltb_lt c N)) by lia. cbn [negb]. cbv zeta.
    rewrite usub_small by (unfold is_usize; rewrite EB, EP in *; lia). change BATCH_PAGES with 128. rewrite <-Hlb.
    rewrite (proj2 (Z.ltb_lt 0 _)) by lia. erewrite M_bind_run by reflexivity. rewrite (M_bind_run _ _ _ _ _ Hfill). cbn [fst snd].
    change (Z.to_nat 128) with (Z.to_nat BATCH_PAGES). fold PA2.
    rewrite umul_small by (unfold is_usize; rewrite EB, EP in *; lia). rewrite (uadd_small va) by (unfold is_usize; rewrite EB, EP in *; lia).
    erewrite bindR_run by exact Hrun. rewrite Z.eqb_refl. erewrite M_bind_run by reflexivity.
    by rewrite uadd_small by (unfold is_usize; rewrite EB, EP in *; lia).
  - split; [exact Hpt'| |exact Hmown']. exists fl'. split; [exact Hown'|split; [exact Hlen'|split; [exact Hslots'|split; [exact Howned'|done]]]].
  - split.
    + rewrite (paddrs_ext vp' _ held HV2). by rewrite (paddrs_marked st b _ _ held Hmk).
    + intros q Hq. rewrite HV2, Hmk by done. destruct (Hsome q Hq) as [pg ->]. case_decide; by eexists.
  - intros x Hx. rewrite (Hst' x Hx). change (tables m1) with (tables m). rewrite (Hms x Hx).
    apply mapped_upto_app; [exact Hal|lia|lia|exact HP2].
  - intros q Hq. rewrite HV2 by done. apply Hmk.
Qed.

(** All the batches. *)
Lemma map_batches_spec rounds m T own n done rest :
  held = done ++ rest → (length rest < rounds)%nat → held_mm m T own n → (4 * length rest ≤ n)%nat → backed_state m →
  mapped_state root PA va m0 m (Z.of_nat (length done)) →
  (∀ q, q ∈ done → state <$> vpages (mem (frames m)) !! q = Some st) →
  ∃ m' T' own' n', map_batches free_list L root ka rounds fuel st va N (first_of L rest) (Z.of_nat (length done)) m = Ret (Ok (), m') ∧
    held_mm m' T' own' n' ∧ (n ≤ 4 * length rest + n')%nat ∧ backed_state m' ∧ mapped_state root PA va m0 m' N ∧
    (∀ q, q ∈ held → state <$> vpages (mem (frames m')) !! q = Some st).
Proof.
  revert m T own n done rest. induction rounds as [|rounds IH]; intros m T own n done rest Eh Hr Hm Hn Hb Hms Hdone; [lia|].
  destruct rest as [|p rest].
  - rewrite app_nil_r in Eh. exists m, T, own, n. cbn [map_batches].
    assert (Z.of_nat (length done) = N) as E by (unfold N; by rewrite Eh). rewrite E in *. rewrite Z.ltb_irrefl. cbn [negb].
    split; [done|]. split; [done|]. split; [lia|]. split; [done|]. split; [done|]. by rewrite Eh.
  - destruct (batch_spec m T own n done p rest Eh Hm Hn Hb Hms) as (m1 & T1 & own1 & n1 & Hstep & Hm1 & Hn1 & Hb1 & Hms1 & Hv1).
    cbn [first_of]. rewrite Hstep. set (b := take 128 (p :: rest)) in *.
    assert (p :: rest = b ++ drop 128 (p :: rest)) as Esplit by (symmetry; apply take_drop).
    assert (length (p :: rest) = length b + length (drop 128 (p :: rest)))%nat as Elen by (rewrite <-length_app, <-Esplit; done).
    assert (0 < length b)%nat as Hpos by (unfold b; simpl; lia).
    assert (held = (done ++ b) ++ drop 128 (p :: rest)) as Eh1 by (rewrite <-app_assoc, <-Esplit; exact Eh).
    destruct (IH m1 T1 own1 n1 (done ++ b) (drop 128 (p :: rest)) Eh1) as (m' & T' & own' & n' & Hrun & Hm' & Hn' & Hb' & Hms' & Hst').
    + lia.
    + exact Hm1.
    + lia.
    + exact Hb1.
    + rewrite length_app, Nat2Z.inj_add. exact Hms1.
    + intros q Hq. assert (q ∈ held) as Hqh by (rewrite Eh1; apply elem_of_app; by left). rewrite (Hv1 q Hqh). case_decide as E.
      * destruct Hb as [_ Hsome]. destruct (Hsome q Hqh) as [pg ->]. done.
      * apply Hdone. apply elem_of_app in Hq as [?|?]; done.
    + exists m', T', own', n'. rewrite length_app, Nat2Z.inj_add in Hrun. split; [exact Hrun|]. split; [exact Hm'|]. split; [lia|]. by split.
Qed.
End batches.

(** *** Preparing the list of pages *)

Definition with_lists (l : lmem) (m : mmu PmmNode) : mmu PmmNode :=
  mkMmu (tables m) (with_mem (mkPmem l (vpages (mem (frames m)))) (frames m)).

Lemma on_plist_mmu {A} (f : M lmem A) (m : mmu PmmNode) a l :
  f (lists (mem (frames m))) = Ret (a, l) → on_pmm (on_plist f) m = Ret (a, with_lists l m).
Proof. intros Hf. unfold on_pmm, zoom. by rewrite (on_plist_run f _ a l Hf). Qed.

Lemma new_list_spec h (m : mmu PmmNode) : h ≠ null →
  ∃ l, new_list h m = Ret ((), with_lists l m) ∧ dll l h [] ∧ frame (lists (mem (frames m))) l [h] ∧
    (∀ q, is_Some (nodes (lists (mem (frames m))) !! q) → is_Some (nodes l !! q)).
Proof.
  intros Hh. set (l0 := lists (mem (frames m))).
  set (l1 := mkMem (<[h := ListNode_new]> (nodes l0)) (<[h := null]> (refs l0))).
  destruct (List_init_spec l1 h Hh) as (l & Hrun & Hd & Hf); [by simpl; rewrite lookup_insert_eq; eexists..|].
  exists l. assert (frame l0 l [h]) as Hfr.
  { intros q Hq. destruct (Hf q Hq) as [-> ->]. simpl. by rewrite !lookup_insert_ne by set_solver. }
  split; [|split; [exact Hd|split; [exact Hfr|]]].
  - unfold new_list. rewrite (M_bind_run _ _ m () (with_lists l1 m)) by (by apply on_plist_mmu).
    by rewrite (on_plist_mmu (List_init h) (with_lists l1 m) () l Hrun).
  - intros q. apply (frame_is_some _ _ _ _ _ _ Hfr Hd). intros r ->%list_elem_of_singleton. left. set_solver.
Qed.

Lemma List_head_run m h l : dll m h l → List_head h m = Ret (first_of h l, m).
Proof.
  intros Hd. pose proof Hd as (Hr & H0 & _ & Hp). unfold List_head.
  rewrite (M_bind_run _ _ _ _ _ (assert_initialized_run _ _ _ Hd)).
  assert (nx m h = Some (first_of h l)) as Hn by (destruct l as [|x l]; simpl in Hp; unfold link in Hp; tauto).
  unfold nx in Hn. apply fmap_Some in Hn as (nd & Hnd & E).
  erewrite M_bind_run by (by apply (deref_run (λ m, nodes m !! h))). rewrite <-E. by rewrite vm_page_from_node.
Qed.

(** After the lists are set up and the pages taken, the list holds the first
    [num] free pages, and nothing else of the state has changed. *)
Lemma take_pages_spec free_list L R (m : mmu PmmNode) fl num :
  pages_inv free_list (frames m) fl → L ≠ null → R ≠ null → L ≠ R → L ∉ free_list :: fl → R ∉ free_list :: fl →
  1 ≤ num ≤ Z.of_nat (length fl) →
  let ps := take (Z.to_nat num) fl in
  ∃ ma mb mc m3, new_list L m = Ret ((), ma) ∧ new_list R ma = Ret ((), mb) ∧
    on_pmm (pmm_alloc_pages free_list num 0 R) mb = Ret (Ok (), mc) ∧ on_pmm (on_plist (List_splice L R)) mc = Ret ((), m3) ∧
    tables m3 = tables m ∧ arenas (frames m3) = arenas (frames m) ∧ owned free_list L (frames m3) (drop (Z.to_nat num) fl) ps ∧
    (∀ q, q ∉ ps → vpages (mem (frames m3)) !! q = vpages (mem (frames m)) !! q) ∧
    (∀ q, q ∈ ps → ∃ pg, vpages (mem (frames m)) !! q = Some pg ∧ vpages (mem (frames m3)) !! q = Some (to_alloc pg)).
Proof.
  intros Hinv HL HR HLR HLn HRn Hnum ps.
  destruct (new_list_spec L m HL) as (l1 & Hr1 & Hd1 & Hf1 & Hk1). set (m1 := with_lists l1 m) in *.
  assert (pages_inv free_list (frames m1) fl) as Hinv1.
  { apply (pages_inv_lists _ _ _ _ [L] Hinv Hf1); [by intros q ->%list_elem_of_singleton|exact Hk1]. }
  destruct (new_list_spec R m1 HR) as (l2 & Hr2 & Hd2 & Hf2 & Hk2). set (m2 := with_lists l2 m1) in *.
  assert (pages_inv free_list (frames m2) fl) as Hinv2.
  { apply (pages_inv_lists _ (frames m1) _ _ [R] Hinv1 Hf2); [by intros q ->%list_elem_of_singleton|exact Hk2]. }
  assert (dll l2 L []) as HdL2 by (apply (dll_frame _ _ _ _ _ Hd1 Hf2); intros q ->%list_elem_of_singleton; set_solver).
  destruct (alloc_pages_spec free_list R num 0 (frames m2) fl []) as (s3 & Hr3 & (Hinv3 & Hd3 & Hdis3) & Har3 & Hv3 & Hp3 & Hf3); [|done|].
  { split; [exact Hinv2|]. split; [exact Hd2|]. intros q ->%list_elem_of_singleton Hin. by apply HRn. }
  rewrite app_nil_l in *. rewrite app_nil_r in Hf3. fold ps in Hd3, Hdis3, Hv3, Hp3. set (m3 := mkMmu (tables m) s3).
  assert (∀ q, q ∈ ps → q ∈ fl) as Hps by (intros q; apply (subseteq_take (Z.to_nat num) fl)).
  assert (dll (lists (mem s3)) L []) as HdL3.
  { apply (dll_frame _ _ _ _ _ HdL2 Hf3). intros q ->%list_elem_of_singleton. intros Hin. apply HLn.
    repeat apply elem_of_cons in Hin as [?|Hin]; [apply elem_of_cons; by left|done|apply elem_of_cons; by right]. }
  assert (∀ q, q ∈ ps → q ≠ L) as HpsL by (intros q Hq ->; apply HLn, elem_of_cons; right; by apply Hps).
  assert (∀ q, q ∈ L :: R :: ps → q ∉ free_list :: drop (Z.to_nat num) fl) as Hclear.
  { intros q [->|Hq]%elem_of_cons Hin; [|by apply (Hdis3 q)]. apply HLn. apply elem_of_cons in Hin as [?|Hin]; apply elem_of_cons; [by left|right].
    by apply (subseteq_drop (Z.to_nat num) fl). }
  destruct (List_splice_spec (lists (mem s3)) L [] R ps HdL3 Hd3) as (l4 & Hr4 & Hd4 & Hd4' & Hf4).
  { intros q ->%list_elem_of_singleton [E|Hq]%elem_of_cons; [done|]. by apply (HpsL L). }
  rewrite app_nil_l in *. exists m1, m2, m3, (with_lists l4 m3). split; [exact Hr1|]. split; [exact Hr2|].
  split; [unfold on_pmm, zoom, pmm_alloc_pages; by rewrite Hr3|]. split; [exact (on_plist_mmu (List_splice L R) m3 _ _ Hr4)|].
  split; [done|]. split; [exact Har3|]. split; [|split; [exact Hv3|exact Hp3]].
  - split; [|split; [exact Hd4|]].
    + apply (pages_inv_lists _ s3 _ _ _ Hinv3 Hf4).
      * exact Hclear.
      * intros q. apply (frame_is_some _ _ _ _ _ _ Hf4 Hd4). intros r Hr.
        apply elem_of_cons in Hr as [->|Hr]; [left; apply elem_of_cons; by left|]. apply elem_of_cons in Hr as [->|Hr]; [right|left; apply elem_of_cons; by right].
        destruct (dll_in _ _ _ R Hd4' ltac:(apply elem_of_cons; by left)) as (x & y & Hx & _). unfold nx in Hx. apply fmap_Some in Hx as (nd & -> & _). by eexists.
    + intros q Hq. apply Hclear. apply elem_of_cons in Hq as [->|Hq]; apply elem_of_cons; [by left|right]. apply elem_of_cons. by right.
Qed.

Lemma Ret_fst {A B} (a b : A) (s t : B) : Ret (a, s) = Ret (b, t) → a = b.
Proof. congruence. Qed.

(** Page tables and physical pages fit together: the tables' frames are pages
    of arenas that are not free. *)
Record va_inv (free_list root : Z) (m : mmu PmmNode) (T : gmap (list Z) Z) (own : gset Z) (fl : list Z) : Prop := {
  vi_pt : pt_inv (tables m) root T;
  vi_pages : pages_inv free_list (frames m) fl;
  vi_slots : slots_ok (frames m) fl;
  vi_own pa : pa ∈ own → ∃ a i, frame_of (frames m) a i ∧ pa = arena_base a + i * PAGE_SIZE ∧ arena_slot a i ∉ fl;
  vi_tables π a : T !! π = Some a → a = root ∨ ∃ pa, pa ∈ own ∧ a = paddr_to_physmap pa;
}.

(** The frames of free pages are good frames, all different. *)
Lemma free_frames free_list s fl : pages_inv free_list s fl → slots_ok s fl →
  (∀ p, p ∈ fl → ∃ pg, vpages (mem s) !! p = Some pg ∧ frame_ok (paddr pg)) ∧ NoDup (paddrs_of (vpages (mem s)) fl).
Proof.
  intros Hinv [Hphys Hslots]. pose proof Hinv as ((_ & _ & Hnd & _) & _ & _ & _ & Har). apply NoDup_cons in Hnd as [_ Hnd].
  assert (∀ p, p ∈ fl → ∃ a i pg, frame_of s a i ∧ p = arena_slot a i ∧ vpages (mem s) !! p = Some pg ∧ paddr pg = arena_base a + i * PAGE_SIZE) as Hp.
  { intros p Hin. destruct (Hslots p Hin) as (a & i & Hai & ->). destruct (Har a i (proj1 Hai) (proj2 Hai)) as (pg & Hpg & Hpa & _). by exists a, i, pg. }
  split.
  - intros p Hin. destruct (Hp p Hin) as (a & i & pg & Hai & _ & Hpg & Hpa). exists pg. split; [done|]. rewrite Hpa.
    by apply (frame_of_ok free_list s fl a i).
  - apply NoDup_fmap_2_strong; [|done]. intros p q Hpin Hqin E.
    destruct (Hp p Hpin) as (a & i & pg & Hai & -> & Hpg & Hpa), (Hp q Hqin) as (b & j & qg & Hbj & -> & Hqg & Hqa).
    rewrite Hpg, Hqg in E. cbn [fmap option_fmap option_map default] in E. rewrite Hpa, Hqa in E.
    by destruct (frame_slot free_list s fl a i b j Hinv Hphys Hai Hbj E) as [-> ->].
Qed.

(** The pages taken off the free list are held by the caller, with the frames
    they had. *)
Lemma taken_held free_list L root (m m3 : mmu PmmNode) T own fl n :
  let ps := take n fl in
  va_inv free_list root m T own fl → tables m3 = tables m → arenas (frames m3) = arenas (frames m) →
  owned free_list L (frames m3) (drop n fl) ps →
  (∀ q, q ∈ ps → ∃ pg, vpages (mem (frames m)) !! q = Some pg ∧ vpages (mem (frames m3)) !! q = Some (to_alloc pg)) →
  held_mm free_list L root ps m3 T own (length (drop n fl)) ∧
  backed_state ps (paddrs_of (vpages (mem (frames m))) ps) m3.
Proof.
  intros ps [Hpt Hinv Hslots Hown Htab] Et Ea Hown3 Hp3. split.
  - split; [by rewrite Et| |exact Htab]. exists (drop n fl). split; [exact Hown3|]. split; [done|].
    unfold slots_ok, frame_of in *. rewrite Ea. split; [|split; [|done]].
    + split; [apply Hslots|]. intros p Hp. apply Hslots. by apply (subseteq_drop n fl).
    + intros pa Hpa. destruct (Hown pa Hpa) as (a & i & Hai & E & Hn). exists a, i. split; [exact Hai|]. split; [exact E|].
      intros Hin. apply Hn. apply elem_of_app in Hin as [Hin|Hin]; [by apply (subseteq_drop n fl)|by apply (subseteq_take n fl)].
  - split.
    + apply list_fmap_ext. intros i q Hqi. apply list_elem_of_lookup_2 in Hqi. by destruct (Hp3 q Hqi) as (pg & -> & ->).
    + intros q Hqi. destruct (Hp3 q Hqi) as (pg & _ & ->). by eexists.
Qed.

(** The control flow of [alloc_map_pages] once the pages are on its list. *)
Lemma alloc_map_pages_run free_list L C R root ka fuel self va num (m ma mb mc m3 : mmu PmmNode) ps r :
  12 < align_log2 self < 76 → 0 < num < 2 ^ (align_log2 self - 12) → num < 2 ^ 64 →
  new_list L m = Ret ((), ma) → new_list R ma = Ret ((), mb) →
  on_pmm (pmm_alloc_pages free_list num 0 R) mb = Ret (Ok (), mc) →
  on_pmm (on_plist (List_splice L R)) mc = Ret ((), m3) → dll (lists (mem (frames m3))) L ps →
  map_batches free_list L root ka (S (Z.to_nat num)) fuel (allocated_page_state self) va num (first_of L ps) 0 m3 = r →
  alloc_map_pages free_list L C R root ka fuel self va num m = r.
Proof.
  intros Hlog Hnum Hn64 Hra Hrb Hrc Hr3 Hd <-.
  unfold alloc_map_pages. rewrite (proj2 (Z.ltb_lt 0 num)) by lia. erewrite M_bind_run by reflexivity.
  assert (is_usize (2 ^ (align_log2 self - 12))) as Hu
    by (unfold is_usize; split; [lia|]; apply Z.pow_lt_mono_r; lia).
  assert (ushl 1 (usub (align_log2 self) PAGE_SHIFT) = 2 ^ (align_log2 self - 12)) as Eal.
  { change PAGE_SHIFT with 12. rewrite usub_small by (unfold is_usize; lia). unfold ushl.
    rewrite Z.mod_small, Z.shiftl_mul_pow2, Z.mul_1_l by lia. by apply usize_wrap_small. }
  cbv zeta. rewrite Eal. rewrite (proj2 (Z.ltb_lt 1 _)) by lia. erewrite M_bind_run by reflexivity.
  rewrite (M_bind_run _ _ _ _ _ Hra). unfold uadd. rewrite Z.add_0_l, usize_wrap_small by exact Hu.
  rewrite (proj2 (Z.leb_gt _ num)), (proj2 (Z.eqb_neq 0 num)) by lia. rewrite (M_bind_run _ _ _ _ _ Hrb).
  rewrite usub_small, Z.sub_0_r by (unfold is_usize; lia).
  rewrite (bindR_run _ _ _ _ _ Hrc), (M_bind_run _ _ _ _ _ Hr3).
  rewrite (M_bind_run _ _ _ _ _ (on_plist_mmu (List_head L) m3 _ _ (List_head_run _ _ _ Hd))).
  assert (with_lists (lists (mem (frames m3))) m3 = m3) as -> by (unfold with_lists; rewrite with_mem_id; by destruct m3).
  reflexivity.
Qed.

(** The translation after the run of pages, read as a query answers it. *)
Lemma mapped_upto_query va num (PA : list Z) x (old : Result (Z * Z)) :
  (PAGE_SIZE | va) → length PA = Z.to_nat num → 0 < num →
  (0 ≤ (x - va) / PAGE_SIZE < num → old = Err NotFound) →
  mapped_upto PA va old num x =
  match PA !! Z.to_nat ((x - va) / PAGE_SIZE) with
  | Some pa => if va <=? x then Ok (pa, PAGE_KERNEL) else old | None => old end.
Proof.
  intros Hal HlPA Hnum Hold. assert (PAGE_SIZE = 4096) as EP by reflexivity. unfold mapped_upto.
  set (k := (x - va) / PAGE_SIZE) in *. destruct (decide (0 ≤ k < num)) as [Hk|Hk].
  - rewrite bool_decide_true by done. destruct (lookup_lt_is_Some_2 PA (Z.to_nat k)) as [pa Hpa]; [lia|]. rewrite Hpa.
    rewrite (Hold Hk), (proj2 (Z.leb_le va x)); [exact eq_refl|]. destruct (decide (va ≤ x)) as [|Hgt]; [done|].
    exfalso. assert (k < 0); [|lia]. apply Z.div_lt_upper_bound; [rewrite EP; lia|lia].
  - rewrite bool_decide_false by done. destruct (PA !! Z.to_nat k) as [pa|] eqn:E; [|exact eq_refl].
    apply lookup_lt_Some in E. rewrite (proj2 (Z.leb_gt va x)); [exact eq_refl|].
    destruct (decide (x < va)) as [|Hge]; [done|]. exfalso. assert (0 ≤ k) by (apply Z.div_pos; [lia|rewrite EP; lia]). lia.
Qed.

(** C6: [VirtualAlloc::alloc_map_pages] for a run of unmapped kernel pages
    shorter than the alignment, when five times as many pages are free:
    it succeeds, takes the first [num] free pages off the free list, gives
    them the allocator's page state and maps them in order at [va] (all with
    different frames), changes the translation of no other address, and keeps
    the page tables and the physical memory manager consistent. *)
Theorem alloc_map_pages_correct free_list L C R root ka self (m : mmu PmmNode) T own fl va num fuel :
  is_physmap_addr root = false → is_kernel_aspace ka → va_inv free_list root m T own fl → (5 ≤ fuel)%nat →
  L ≠ null → R ≠ null → L ≠ R → L ∉ free_list :: fl → R ∉ free_list :: fl →
  12 < align_log2 self < 76 → 0 < num < 2 ^ (align_log2 self - 12) → 5 * num ≤ Z.of_nat (length fl) →
  (PAGE_SIZE | va) → KERNEL_ASPACE_BASE ≤ va → va + num * PAGE_SIZE ≤ 2 ^ 64 → allocated_page_state self ≠ FREE →
  (∀ k, 0 ≤ k < num → VmAspace_query root fuel ka (va + k * PAGE_SIZE) m = Ret (Err NotFound, m)) →
  let ps := take (Z.to_nat num) fl in
  let PA := paddrs_of (vpages (mem (frames m))) ps in
  ∃ m' T' own' fl', alloc_map_pages free_list L C R root ka fuel self va num m = Ret (Ok (), m') ∧
    va_inv free_list root m' T' own' fl' ∧ Z.of_nat (length fl) ≤ 5 * num + Z.of_nat (length fl') ∧ NoDup PA ∧
    (∀ x, kernel_range x → ∃ old, VmAspace_query root fuel ka x m = Ret (old, m) ∧
      VmAspace_query root fuel ka x m' = Ret (match PA !! Z.to_nat ((x - va) / PAGE_SIZE) with
        | Some pa => if va <=? x then Ok (pa, PAGE_KERNEL) else old | None => old end, m')) ∧
    (∀ q, q ∈ ps → state <$> vpages (mem (frames m')) !! q = Some (allocated_page_state self)).
Proof.
  intros Hroot Hka Hvi Hf HL HR HLR HLn HRn Hlog Hnum Hlen Hal Hlo Hhi Hst Hfresh ps PA.
  pose proof Hvi as [Hpt Hinv Hslots Hown Htab].
  destruct (free_frames free_list (frames m) fl Hinv Hslots) as [Hframes HND].
  destruct (take_pages_spec free_list L R m fl num Hinv HL HR HLR HLn HRn ltac:(lia)) as
    (ma & mb & mc & m3 & Hra & Hrb & Hrc & Hr3 & Et & Ea & Hown3 & Hv3 & Hp3). fold ps in Hown3, Hv3, Hp3.
  assert (length ps = Z.to_nat num) as Hlps by (unfold ps; rewrite length_take; lia).
  assert (PAGE_SIZE = 4096 ∧ KERNEL_ASPACE_BASE = 2 ^ 64 - 2 ^ 48) as [EP EB] by (split; reflexivity).
  assert (∀ x, kernel_range x → VmAspace_query root fuel ka x m = Ret (walk (tables m) 5 0 root x, m)) as Hq
    by (intros x Hx; eapply query_walk; [exact Hka|exact Hpt|exact Hx|exact Hf]).
  assert (∀ k, 0 ≤ k < num → kernel_range (va + k * PAGE_SIZE)) as Hkr by (intros k ?; unfold kernel_range; rewrite EP in *; lia).
  assert (∀ k, 0 ≤ k < num → walk (tables m) 5 0 root (va + k * PAGE_SIZE) = Err NotFound) as Hnf.
  { intros k Hk. specialize (Hfresh k Hk). rewrite Hq in Hfresh by (by apply Hkr). exact (Ret_fst _ _ _ _ Hfresh). }
  assert (∀ q, q ∈ ps → q ∈ fl) as Hps by (intros q; apply (subseteq_take (Z.to_nat num) fl)).
  destruct (taken_held free_list L root m m3 T own fl (Z.to_nat num) Hvi Et Ea Hown3 Hp3) as [Hm3 Hb3].
  destruct (map_batches_spec free_list L root ka ps PA (allocated_page_state self) va fuel m3 Hroot Hka Hst ltac:(lia) Hal Hlo)
    with (rounds := S (Z.to_nat num)) (m := m3) (T := T) (own := own) (n := length (drop (Z.to_nat num) fl)) (done := @nil Z) (rest := ps)
    as (m' & T' & own' & n' & Hrun & Hm' & Hn' & Hb' & Hms' & Hst').
  { rewrite Hlps. lia. }
  { unfold PA, paddrs_of. by rewrite length_fmap. }
  { intros j pa Hpa. unfold PA, paddrs_of in Hpa. rewrite list_lookup_fmap in Hpa. apply fmap_Some in Hpa as (q & Hqj & ->).
    apply list_elem_of_lookup_2, Hps in Hqj. by destruct (Hframes q Hqj) as (pg & -> & ?). }
  { intros k Hk. rewrite Et. apply Hnf. lia. }
  { done. }
  { rewrite Hlps. lia. }
  { exact Hm3. }
  { rewrite length_drop. lia. }
  { exact Hb3. }
  { intros x _. unfold mapped_upto. rewrite bool_decide_false; [exact eq_refl|]. cbn [length]. lia. }
  { intros q Hqn. by apply not_elem_of_nil in Hqn. }
  exists m', T', own'. destruct Hm' as [Hpt' (fl' & Hown' & Hlen' & Hslots' & Howned' & _) Hmown']. exists fl'.
  split; [|split; [|split; [rewrite length_drop in Hn'; lia|split; [|split; [|exact Hst']]]]].
  - eapply alloc_map_pages_run; [exact Hlog|exact Hnum| |exact Hra|exact Hrb|exact Hrc|exact Hr3|apply Hown3|].
    + rewrite EP, EB in *. lia.
    + rewrite Hlps, Z2Nat.id in Hrun by lia. exact Hrun.
  - split; [exact Hpt'|apply Hown'|exact Hslots'| |exact Hmown'].
    intros pa Hpa. destruct (Howned' pa Hpa) as (a & i & Hai & E & Hn). exists a, i. split; [exact Hai|]. split; [exact E|].
    intros Hin. apply Hn, elem_of_app. by left.
  - unfold PA, ps, paddrs_of. unfold paddrs_of in HND. rewrite <-(take_drop (Z.to_nat num) fl), fmap_app in HND.
    by apply NoDup_app in HND as [? _].
  - intros x Hx. exists (walk (tables m) 5 0 root x). split; [by apply Hq|].
    rewrite (query_walk m' root T' ka x fuel Hka Hpt' Hx Hf). apply (f_equal (λ r, Ret (r, m'))). rewrite (Hms' x Hx), Et.
    rewrite Hlps, Z2Nat.id by lia. apply mapped_upto_query; [done|unfold PA, paddrs_of; by rewrite length_fmap|lia|].
    intros Hk. rewrite <-(Hnf _ Hk). apply walk_path. apply path_page; [done|by apply Hkr|]. by apply page_index.
Qed.

(** A node with one arena of seven pages, the last of them wired. *)
Definition node7_info : ArenaInfo := mkInfo (Pmm.name demo_info) 0 0x80000000 0x7000.
Definition slot7 : Z → Z := arena_slot (arena_at node7_info 0x80006000).
Definition free7 : list Z := slot7 <$> [0; 1; 2; 3; 4; 5].
Definition node7 : PmmNode :=
  mkPmm (mkPmem (mkMem (list_to_map
                   [(8, mkNode (slot7 0) (slot7 5));
                    (slot7 0, mkNode (slot7 1) 8); (slot7 1, mkNode (slot7 2) (slot7 0)); (slot7 2, mkNode (slot7 3) (slot7 1));
                    (slot7 3, mkNode (slot7 4) (slot7 2)); (slot7 4, mkNode (slot7 5) (slot7 3)); (slot7 5, mkNode 8 (slot7 4));
                    (slot7 6, mkNode 0 0)]) {[8 := 8]})
                (list_to_map (zip_with (λ i st, (slot7 i, mkPage (0x80000000 + i * 0x1000) vm_page_object_new st 0))
                   (seqZ 0 7) [FREE; FREE; FREE; FREE; FREE; FREE; WIRED])))
    [arena_at node7_info 0x80006000] 0x7000 6.

Lemma index7 i : 0 ≤ i < 7 → i = 0 ∨ i = 1 ∨ i = 2 ∨ i = 3 ∨ i = 4 ∨ i = 5 ∨ i = 6.
Proof. lia. Qed.

Lemma node7_inv : pages_inv 8 node7 free7.
Proof.
  split_and!.
  - split_and!; [reflexivity|by_compute|by_compute|]. repeat split; reflexivity.
  - intros p Hp. repeat apply elem_of_cons in Hp as [->|Hp]; [..|by apply not_elem_of_nil in Hp]; (eexists; split_and!; reflexivity).
  - constructor; [|constructor]. apply arena_at_wf; [split_and!; try done; [by exists 0x80000|by exists 7]|done|done].
  - repeat constructor.
  - intros a i ->%list_elem_of_singleton Hi.
    destruct (index7 i Hi) as [->|[->|[->|[->|[->|[->| ->]]]]]];
      (eexists; split_and!; [reflexivity|reflexivity|by eexists|]);
      intros Hf; try (vm_compute in Hf; discriminate Hf); by_compute.
Qed.

Definition mmu7 : mmu PmmNode := mkMmu {[BumpFrames.root := empty_table]} node7.

Lemma mmu7_inv : va_inv 8 BumpFrames.root mmu7 {[[] := BumpFrames.root]} ∅ free7.
Proof.
  split.
  - exact (mm_pt _ _ _ _ _ BumpFrames.start_inv).
  - exact node7_inv.
  - split; [intros a ->%list_elem_of_singleton; by_compute|]. intros p Hp. exists (arena_at node7_info 0x80006000).
    repeat apply elem_of_cons in Hp as [->|Hp]; [..|by apply not_elem_of_nil in Hp];
      (eexists; split; [split; [apply list_elem_of_singleton; reflexivity|]|reflexivity]; by_compute).
  - intros pa Hpa. by apply elem_of_empty in Hpa.
  - intros π a [_ <-]%lookup_singleton_Some. by left.
Qed.

Definition va7 : VirtualAlloc := mkVA HEAP 1 0 0 ARCH_HEAP_ALIGN_BITS Bitmap_new.

Lemma alloc_map_pages_correct_witness :
  ∃ m' T' own' fl', alloc_map_pages 8 16 24 32 BumpFrames.root demo_aspace 5 va7 demo_va 1 mmu7 = Ret (Ok (), m') ∧
    va_inv 8 BumpFrames.root m' T' own' fl' ∧ VmAspace_query BumpFrames.root 5 demo_aspace demo_va m' = Ret (Ok (0x80000000, PAGE_KERNEL), m').
Proof.
  destruct (alloc_map_pages_correct 8 16 24 32 BumpFrames.root demo_aspace va7 mmu7 {[[] := BumpFrames.root]} ∅ free7 demo_va 1 5)
    as (m' & T' & own' & fl' & H1 & H2 & _ & _ & H3 & _).
  - reflexivity.
  - split; reflexivity.
  - exact mmu7_inv.
  - lia.
  - discriminate.
  - discriminate.
  - discriminate.
  - by_compute.
  - by_compute.
  - by_compute.
  - by_compute.
  - by_compute.
  - by exists (demo_va / 4096).
  - by_compute.
  - by_compute.
  - discriminate.
  - intros k Hk. assert (k = 0) as -> by lia.
    rewrite (query_walk mmu7 BumpFrames.root {[[] := BumpFrames.root]} demo_aspace (demo_va + 0 * PAGE_SIZE) 5);
      [|split; reflexivity|exact (vi_pt _ _ _ _ _ _ mmu7_inv)|unfold kernel_range; by_compute|lia].
    apply (f_equal (λ r, Ret (r, mmu7))). vm_compute. reflexivity.
  - exists m', T', own', fl'. split; [exact H1|]. split; [exact H2|].
    destruct (H3 demo_va) as (old & _ & Hq); [unfold kernel_range; by_compute|]. rewrite Hq.
    apply (f_equal (λ r, Ret (r, m'))). vm_compute. reflexivity.
Defined.
