(* ===== verification/DeviceTree.v ===== *)
(** * device_tree: the flattened device tree parser

    Models device_tree/src/util.rs and lib.rs.  A buffer and a string are
    lists of bytes; indexing out of range panics, as slices do.  [Node_load]
    is proved to return on every buffer, and to invert a reference encoder of
    nodes; [Node_find] is proved to follow the names of a path. *)

From S2P Require Import Prelude.

(** ** util.rs *)

(** Rust's [Result<A, E>] for the error types of this crate. *)
Inductive RResult (A E : Type) :=
  | rOk (a : A)
  | rErr (e : E).
Arguments rOk {A E} a.
Arguments rErr {A E} e.

(** [?]. *)
Definition bindE {A B E} (m : outcome (RResult A E)) (k : A → outcome (RResult B E)) : outcome (RResult B E) :=
  r ← m; match r with rOk a => k a | rErr e => Ret (rErr e) end.
Notation "x ←! m ; k" := (bindE m (λ x, k))
  (at level 20, m at level 100, k at level 200, only parsing) : stdpp_scope.

(** [?] through a [From] instance. *)
Definition map_err {A E F} (f : E → F) (m : outcome (RResult A E)) : outcome (RResult A F) :=
  r ← m; Ret (match r with rOk a => rOk a | rErr e => rErr (f e) end).

Notation bytes := (list Z) (only parsing).
Definition byte_ok (b : Z) : Prop := 0 ≤ b < 256.
Definition len {A} (l : list A) : Z := Z.of_nat (length l).

Definition align (val to : Z) : Z := uadd val ((usub to (val mod to)) mod to).

Inductive SliceReadError := UnexpectedEndOfInput.

(** [self[i]] and [&self[s..e]]. *)
Definition index (buf : bytes) (i : Z) : outcome Z :=
  match buf !! Z.to_nat i with Some b => Ret b | None => Panic end.
Definition slice (buf : bytes) (s e : Z) : outcome bytes :=
  if (s <=? e) && (e <=? len buf) then Ret (take (Z.to_nat (e - s)) (drop (Z.to_nat s) buf)) else Panic.

Definition read_be_u32 (buf : bytes) (pos : Z) : outcome (RResult Z SliceReadError) :=
  if negb (uadd pos 4 <=? len buf) then Ret (rErr UnexpectedEndOfInput)
  else
    a ← index buf pos; b ← index buf (uadd pos 1); c ← index buf (uadd pos 2); d ← index buf (uadd pos 3);
    Ret (rOk (Z.lor (Z.lor (Z.lor (Z.shiftl a 24) (Z.shiftl b 16)) (Z.shiftl c 8)) d)).

Definition read_be_u64 (buf : bytes) (pos : Z) : outcome (RResult Z SliceReadError) :=
  if negb (uadd pos 8 <=? len buf) then Ret (rErr UnexpectedEndOfInput)
  else
    a ← index buf pos; b ← index buf (uadd pos 1); c ← index buf (uadd pos 2); d ← index buf (uadd pos 3);
    e ← index buf (uadd pos 4); f ← index buf (uadd pos 5); g ← index buf (uadd pos 6); h ← index buf (uadd pos 7);
    Ret (rOk (Z.lor (Z.lor (Z.lor (Z.lor (Z.lor (Z.lor (Z.lor (Z.shiftl a 56) (Z.shiftl b 48)) (Z.shiftl c 40))
      (Z.shiftl d 32)) (Z.shiftl e 24)) (Z.shiftl f 16)) (Z.shiftl g 8)) h)).

(** [while cur < self.len()]: [n] is what is left of the buffer. *)
Fixpoint bstring0_loop (n : nat) (buf : bytes) (pos cur : Z) : outcome (RResult bytes SliceReadError) :=
  match n with
  | O => Ret (rErr UnexpectedEndOfInput)
  | S n =>
      b ← index buf cur;
      if b =? 0 then s ← slice buf pos cur; Ret (rOk s) else bstring0_loop n buf pos (uadd cur 1)
  end.
Definition read_bstring0 (buf : bytes) (pos : Z) : outcome (RResult bytes SliceReadError) :=
  bstring0_loop (Z.to_nat (len buf - pos)) buf pos pos.

Definition subslice (buf : bytes) (start end_ : Z) : outcome (RResult bytes SliceReadError) :=
  if negb (end_ <? len buf) then Ret (rErr UnexpectedEndOfInput)
  else s ← slice buf start end_; Ret (rOk s).

(** ** [str::from_utf8] *)

Definition cont (b : Z) : bool := (128 <=? b) && (b <=? 191).
(** The well-formed sequences of RFC 3629: no overlong form, no surrogate,
    nothing beyond U+10FFFF. *)
Fixpoint utf8 (n : nat) (l : bytes) : bool :=
  match n, l with
  | _, [] => true
  | O, _ => false
  | S n, a :: l =>
      if a <? 128 then utf8 n l
      else if (194 <=? a) && (a <=? 223) then
        match l with b :: l => cont b && utf8 n l | _ => false end
      else if (224 <=? a) && (a <=? 239) then
        match l with
        | b :: c :: l =>
            (if a =? 224 then (160 <=? b) && (b <=? 191)
             else if a =? 237 then (128 <=? b) && (b <=? 159) else cont b) && cont c && utf8 n l
        | _ => false
        end
      else if (240 <=? a) && (a <=? 244) then
        match l with
        | b :: c :: d :: l =>
            (if a =? 240 then (144 <=? b) && (b <=? 191)
             else if a =? 244 then (128 <=? b) && (b <=? 143) else cont b) && cont c && cont d && utf8 n l
        | _ => false
        end
      else false
  end.
Definition is_utf8 (l : bytes) : bool := utf8 (length l) l.
Inductive Utf8Error := BadUtf8.
Definition from_utf8 (l : bytes) : outcome (RResult bytes Utf8Error) :=
  Ret (if is_utf8 l then rOk l else rErr BadUtf8).

(** ** lib.rs: data *)

Definition MAGIC_NUMBER : Z := 0xd00dfeed.
Definition SUPPORTED_VERSION : Z := 17.
Definition OF_DT_BEGIN_NODE : Z := 1.
Definition OF_DT_END_NODE : Z := 2.
Definition OF_DT_PROP : Z := 3.

Inductive DeviceTreeError :=
  | InvalidMagicNumber
  | SizeMismatch
  | DT_SliceReadError (e : SliceReadError)
  | ParseError (pos : Z)
  | DT_Utf8Error
  | VersionNotSupported.

Inductive Node := mkDTNode {
  name : bytes;
  props : list (bytes * bytes);
  children : list Node;
}.

Record DeviceTree := mkDT {
  version : Z;
  boot_cpuid_phys : Z;
  reserved : list (Z * Z);
  root : Node;
}.

Inductive PropError :=
  | P_NotFound
  | P_Utf8Error
  | P_Missing0
  | P_SliceReadError (e : SliceReadError).

(** ** Loading *)

Definition dt_slice {A} (m : outcome (RResult A SliceReadError)) := map_err DT_SliceReadError m.
Definition dt_utf8 {A} (m : outcome (RResult A Utf8Error)) := map_err (λ _, DT_Utf8Error) m.
Notation DTR A := (outcome (RResult A DeviceTreeError)).

(** [while buffer.read_be_u32(pos)? == OF_DT_PROP]. *)
Fixpoint props_loop (fuel : nat) (buf : bytes) (off_dt_strings pos : Z) (acc : list (bytes * bytes)) :
    DTR (Z * list (bytes * bytes)) :=
  match fuel with
  | O => Spin
  | S fuel =>
      tok ←! dt_slice (read_be_u32 buf pos);
      if negb (tok =? OF_DT_PROP) then Ret (rOk (pos, acc))
      else
        val_size ←! dt_slice (read_be_u32 buf (uadd pos 4));
        name_offset ←! dt_slice (read_be_u32 buf (uadd pos 8));
        let val_start := uadd pos 12 in
        let val_end := uadd val_start val_size in
        val ←! dt_slice (subslice buf val_start val_end);
        prop_name ←! dt_slice (read_bstring0 buf (uadd off_dt_strings name_offset));
        s ←! dt_utf8 (from_utf8 prop_name);
        props_loop fuel buf off_dt_strings (align val_end 4) (acc ++ [(s, val)])
  end.

(** [while buffer.read_be_u32(pos)? == OF_DT_BEGIN_NODE]. *)
Fixpoint children_loop (load : Z → DTR (Z * Node)) (fuel : nat) (buf : bytes) (pos : Z) (acc : list Node) :
    DTR (Z * list Node) :=
  match fuel with
  | O => Spin
  | S fuel =>
      tok ←! dt_slice (read_be_u32 buf pos);
      if negb (tok =? OF_DT_BEGIN_NODE) then Ret (rOk (pos, acc))
      else
        c ←! load pos;
        children_loop load fuel buf c.1 (acc ++ [c.2])
  end.

(** [Node::load]; the result holds the position after the node. *)
Fixpoint Node_load (fuel : nat) (buf : bytes) (start off_dt_strings : Z) : DTR (Z * Node) :=
  match fuel with
  | O => Spin
  | S fuel =>
      tok ←! dt_slice (read_be_u32 buf start);
      if negb (tok =? OF_DT_BEGIN_NODE) then Ret (rErr (ParseError start))
      else
        raw_name ←! dt_slice (read_bstring0 buf (uadd start 4));
        let pos := align (uadd (uadd (uadd start 4) (len raw_name)) 1) 4 in
        p ←! props_loop fuel buf off_dt_strings pos [];
        c ←! children_loop (λ pos, Node_load fuel buf pos off_dt_strings) fuel buf p.1 [];
        tok ←! dt_slice (read_be_u32 buf c.1);
        if negb (tok =? OF_DT_END_NODE) then Ret (rErr (ParseError c.1))
        else
          s ←! dt_utf8 (from_utf8 raw_name);
          Ret (rOk (uadd c.1 4, mkDTNode s p.2 c.2))
  end.

(** The [loop] that reads the memory reservations. *)
Fixpoint rsvmap_loop (fuel : nat) (buf : bytes) (pos : Z) (acc : list (Z * Z)) : DTR (list (Z * Z)) :=
  match fuel with
  | O => Spin
  | S fuel =>
      offset ←! dt_slice (read_be_u64 buf pos);
      let pos := uadd pos 8 in
      size ←! dt_slice (read_be_u64 buf pos);
      let pos := uadd pos 8 in
      let acc := acc ++ [(offset, size)] in
      if size =? 0 then Ret (rOk acc) else rsvmap_loop fuel buf pos acc
  end.

Definition DeviceTree_load (fuel : nat) (buf : bytes) : DTR DeviceTree :=
  magic ←! dt_slice (read_be_u32 buf 0);
  if negb (magic =? MAGIC_NUMBER) then Ret (rErr InvalidMagicNumber)
  else
    totalsize ←! dt_slice (read_be_u32 buf 4);
    if negb (totalsize =? len buf) then Ret (rErr SizeMismatch)
    else
      version ←! dt_slice (read_be_u32 buf 20);
      if negb (version =? SUPPORTED_VERSION) then Ret (rErr VersionNotSupported)
      else
        off_dt_struct ←! dt_slice (read_be_u32 buf 8);
        off_dt_strings ←! dt_slice (read_be_u32 buf 12);
        off_mem_rsvmap ←! dt_slice (read_be_u32 buf 16);
        boot_cpuid_phys ←! dt_slice (read_be_u32 buf 28);
        reserved ←! rsvmap_loop fuel buf off_mem_rsvmap [];
        r ←! Node_load fuel buf off_dt_struct off_dt_strings;
        Ret (rOk (mkDT version boot_cpuid_phys reserved r.2)).

(** ** Look-up *)

Definition SLASH : Z := 47.
(** [str::find('/')]. *)
Fixpoint find_slash (l : bytes) : option nat :=
  match l with
  | [] => None
  | b :: l => if b =? SLASH then Some 0%nat else S <$> find_slash l
  end.

Fixpoint Node_find (fuel : nat) (n : Node) (path : bytes) : outcome (option Node) :=
  match fuel with
  | O => Spin
  | S fuel =>
      if bool_decide (path = []) then Ret (Some n)
      else
        match find_slash path with
        | Some idx =>
            let l := take idx path in
            let subpath := drop (S idx) path in
            match List.find (λ c, bool_decide (name c = l)) (children n) with
            | Some c => Node_find fuel c subpath
            | None => Ret None
            end
        | None => Ret (List.find (λ c, bool_decide (name c = path)) (children n))
        end
  end.

Definition DeviceTree_find (fuel : nat) (t : DeviceTree) (path : bytes) : outcome (option Node) :=
  match path with
  | b :: path => if b =? SLASH then Node_find fuel (root t) path else Ret None
  | [] => Ret None
  end.

(** ** Properties of a node *)

Definition prop_raw (n : Node) (nm : bytes) : option bytes :=
  snd <$> List.find (λ kv, bool_decide (kv.1 = nm)) (props n).
Definition has_prop (n : Node) (nm : bytes) : bool :=
  match prop_raw n nm with Some _ => true | None => false end.
Definition prop_len (n : Node) (nm : bytes) : Z :=
  match prop_raw n nm with Some v => len v | None => 0 end.

Notation PR A := (outcome (RResult A PropError)).
Definition ok_or {A} (o : option A) : PR A := Ret (match o with Some a => rOk a | None => rErr P_NotFound end).

Definition prop_str (n : Node) (nm : bytes) : PR bytes :=
  raw ←! ok_or (prop_raw n nm);
  let l := len raw in
  missing ← (if l <? 1 then Ret true else b ← index raw (usub l 1); Ret (negb (b =? 0)));
  if (missing : bool) then Ret (rErr P_Missing0)
  else s ← slice raw 0 (usub l 1); map_err (λ _, P_Utf8Error) (from_utf8 s).

Definition prop_u64_at (n : Node) (nm : bytes) (pos : Z) : PR Z :=
  raw ←! ok_or (prop_raw n nm); map_err P_SliceReadError (read_be_u64 raw pos).
Definition prop_u64 (n : Node) (nm : bytes) : PR Z := prop_u64_at n nm 0.
Definition prop_u32_at (n : Node) (nm : bytes) (pos : Z) : PR Z :=
  raw ←! ok_or (prop_raw n nm); map_err P_SliceReadError (read_be_u32 raw pos).
Definition prop_u32 (n : Node) (nm : bytes) : PR Z := prop_u32_at n nm 0.

(** ** Reading bytes at a position *)

(** Big-endian value of a byte list. *)
Definition be (l : bytes) : Z := fold_left (λ acc b, acc * 256 + b) l 0.

(** The buffer holds [l] at [pos]. *)
Definition at_pos (buf : bytes) (pos : Z) (l : bytes) : Prop :=
  ∃ pre post, buf = pre ++ l ++ post ∧ len pre = pos.

Lemma len_app {A} (l k : list A) : len (l ++ k) = len l + len k.
Proof. unfold len. rewrite length_app. lia. Qed.
Lemma len_cons {A} (x : A) l : len (x :: l) = 1 + len l.
Proof. unfold len. simpl. lia. Qed.
Lemma len_nonneg {A} (l : list A) : 0 ≤ len l.
Proof. unfold len. lia. Qed.

Lemma at_pos_app buf pos l k : at_pos buf pos (l ++ k) → at_pos buf pos l ∧ at_pos buf (pos + len l) k.
Proof.
  intros (pre & post & -> & <-). split.
  - exists pre, (k ++ post). by rewrite <-app_assoc.
  - exists (pre ++ l), post. rewrite <-!app_assoc, len_app. done.
Qed.

Lemma at_pos_bounds buf pos l : at_pos buf pos l → 0 ≤ pos ∧ pos + len l ≤ len buf.
Proof. intros (pre & post & -> & <-). rewrite !len_app. pose proof (len_nonneg pre). pose proof (len_nonneg post). lia. Qed.

Lemma at_pos_exists buf pos n : 0 ≤ pos → pos + Z.of_nat n ≤ len buf →
  at_pos buf pos (take n (drop (Z.to_nat pos) buf)) ∧ length (take n (drop (Z.to_nat pos) buf)) = n.
Proof.
  intros Hp Hn. unfold len in Hn. split; [|rewrite length_take, length_drop; lia].
  exists (take (Z.to_nat pos) buf), (drop n (drop (Z.to_nat pos) buf)).
  rewrite take_drop, take_drop. split; [done|]. unfold len. rewrite length_take. lia.
Qed.

Lemma index_at buf pos b l : at_pos buf pos (b :: l) → index buf pos = Ret b.
Proof.
  intros (pre & post & -> & <-). unfold index, len. rewrite Nat2Z.id.
  by rewrite lookup_app_r, Nat.sub_diag by lia.
Qed.

Lemma at_pos_cons buf pos b l : at_pos buf pos (b :: l) → at_pos buf (pos + 1) l.
Proof. intros H. by apply (at_pos_app buf pos [b] l) in H as [_ ?]. Qed.

Lemma slice_at buf pos l : at_pos buf pos l → slice buf pos (pos + len l) = Ret l.
Proof.
  intros H. pose proof (at_pos_bounds _ _ _ H) as [H0 H1]. pose proof (len_nonneg l). unfold slice.
  rewrite (proj2 (Z.leb_le _ _)), (proj2 (Z.leb_le (pos + len l) _)) by lia. cbn [andb].
  destruct H as (pre & post & -> & <-). f_equal. unfold len. rewrite Nat2Z.id, drop_app_length.
  replace (Z.to_nat _) with (length l) by lia. apply take_app_length.
Qed.

Ltac byte_reads :=
  repeat match goal with
    | H : at_pos ?b ?p (?x :: ?l) |- context [index ?b ?p] =>
        rewrite (index_at b p x l H); cbn [mbind outcome_bind]; apply at_pos_cons in H
    end.

Lemma shift_lor a b n k : 0 ≤ k → 0 ≤ n → 0 ≤ b < 2 ^ n → Z.lor (a * 2 ^ (n + k)) (b * 2 ^ k) = (a * 2 ^ n + b) * 2 ^ k.
Proof.
  intros Hk Hn Hb. rewrite lor_add; [|lia|].
  - rewrite Z.pow_add_r by lia. lia.
  - rewrite Z.pow_add_r by lia. split; [nia|]. apply Z.mul_lt_mono_pos_r; lia.
Qed.

Lemma read_be_u32_at buf pos l :
  at_pos buf pos l → length l = 4%nat → Forall byte_ok l → pos + 4 < 2 ^ 64 →
  read_be_u32 buf pos = Ret (rOk (be l)).
Proof.
  intros H Hl Hb Hp. pose proof (at_pos_bounds _ _ _ H) as [H0 H1].
  destruct l as [|a [|b [|c [|d [|]]]]]; try discriminate. repeat (apply Forall_cons in Hb as [? Hb]). unfold byte_ok in *.
  change (len [a; b; c; d]) with 4 in H1. unfold read_be_u32. rewrite !uadd_small by (unfold is_usize; lia).
  rewrite (proj2 (Z.leb_le _ _)) by lia. cbn [negb].
  replace (pos + 2) with (pos + 1 + 1) by lia. replace (pos + 3) with (pos + 1 + 1 + 1) by lia.
  byte_reads. do 2 f_equal. rewrite !Z.shiftl_mul_pow2 by lia.
  change (2 ^ 24) with (2 ^ (8 + 16)). rewrite (shift_lor a b 8 16) by lia.
  change (2 ^ 16) with (2 ^ (8 + 8)). rewrite (shift_lor _ c 8 8), (lor_add _ d 8) by lia.
  change (2 ^ 8) with 256. done.
Qed.

Lemma read_be_u64_at buf pos l :
  at_pos buf pos l → length l = 8%nat → Forall byte_ok l → pos + 8 < 2 ^ 64 →
  read_be_u64 buf pos = Ret (rOk (be l)).
Proof.
  intros H Hl Hb Hp. pose proof (at_pos_bounds _ _ _ H) as [H0 H1].
  destruct l as [|a [|b [|c [|d [|e [|f [|g [|h [|]]]]]]]]]; try discriminate.
  repeat (apply Forall_cons in Hb as [? Hb]). unfold byte_ok in *.
  change (len [a; b; c; d; e; f; g; h]) with 8 in H1. unfold read_be_u64. rewrite !uadd_small by (unfold is_usize; lia).
  rewrite (proj2 (Z.leb_le _ _)) by lia. cbn [negb].
  replace (pos + 2) with (pos + 1 + 1) by lia. replace (pos + 3) with (pos + 1 + 1 + 1) by lia.
  replace (pos + 4) with (pos + 1 + 1 + 1 + 1) by lia. replace (pos + 5) with (pos + 1 + 1 + 1 + 1 + 1) by lia.
  replace (pos + 6) with (pos + 1 + 1 + 1 + 1 + 1 + 1) by lia.
  replace (pos + 7) with (pos + 1 + 1 + 1 + 1 + 1 + 1 + 1) by lia.
  byte_reads. do 2 f_equal. rewrite !Z.shiftl_mul_pow2 by lia.
  change (2 ^ 56) with (2 ^ (8 + 48)). rewrite (shift_lor a b 8 48) by lia.
  change (2 ^ 48) with (2 ^ (8 + 40)). rewrite (shift_lor _ c 8 40) by lia.
  change (2 ^ 40) with (2 ^ (8 + 32)). rewrite (shift_lor _ d 8 32) by lia.
  change (2 ^ 32) with (2 ^ (8 + 24)). rewrite (shift_lor _ e 8 24) by lia.
  change (2 ^ 24) with (2 ^ (8 + 16)). rewrite (shift_lor _ f 8 16) by lia.
  change (2 ^ 16) with (2 ^ (8 + 8)). rewrite (shift_lor _ g 8 8), (lor_add _ h 8) by lia.
  change (2 ^ 8) with 256. done.
Qed.

Lemma read_short buf pos : 0 ≤ pos → pos + 8 < 2 ^ 64 →
  (len buf < pos + 4 → read_be_u32 buf pos = Ret (rErr UnexpectedEndOfInput)) ∧
  (len buf < pos + 8 → read_be_u64 buf pos = Ret (rErr UnexpectedEndOfInput)).
Proof.
  intros H0 Hp. unfold read_be_u32, read_be_u64. rewrite !uadd_small by (unfold is_usize; lia).
  split; intros Hl; by rewrite (proj2 (Z.leb_gt _ _)) by lia.
Qed.

(** ** Every buffer is parsed or refused *)

Lemma be_app l b : be (l ++ [b]) = be l * 256 + b.
Proof. unfold be. by rewrite fold_left_app. Qed.

Lemma be_bound l : Forall byte_ok l → 0 ≤ be l < 2 ^ (8 * len l).
Proof.
  induction l as [|b l IH] using rev_ind; intros Hb; [done|].
  apply Forall_app in Hb as [Hl [Hb _]%Forall_cons]. specialize (IH Hl). rewrite be_app, len_app.
  change (len [b]) with 1. unfold byte_ok in Hb. pose proof (len_nonneg l).
  replace (8 * (len l + 1)) with (8 * len l + 8) by lia. rewrite Z.pow_add_r by lia. change (2 ^ 8) with 256. nia.
Qed.

Lemma align4 v : 0 ≤ v < 2 ^ 63 → align v 4 = v + (4 - v mod 4) mod 4 ∧ v ≤ align v 4 ≤ v + 3 ∧ (4 | align v 4).
Proof.
  intros Hv. pose proof (Z.mod_pos_bound v 4 ltac:(lia)). pose proof (Z.mod_pos_bound (4 - v mod 4) 4 ltac:(lia)).
  unfold align. rewrite usub_small, uadd_small by (unfold is_usize; rewrite ?usub_small by (unfold is_usize; lia); lia).
  split_and!; [done|lia|lia|]. pose proof (Z.div_mod v 4 ltac:(lia)).
  destruct (decide (v mod 4 = 0)) as [E|E].
  - rewrite E. change ((4 - 0) mod 4) with 0. exists (v / 4). lia.
  - rewrite (Z.mod_small (4 - v mod 4)) by lia. exists (v / 4 + 1). lia.
Qed.

(** A run that returns, with what its success says. *)
Definition returns {A E} (m : outcome (RResult A E)) (P : A → Prop) : Prop :=
  ∃ r, m = Ret r ∧ match r with rOk a => P a | rErr _ => True end.

Lemma returns_bind {A B E} (m : outcome (RResult A E)) (k : A → outcome (RResult B E)) P Q :
  returns m P → (∀ a, P a → returns (k a) Q) → returns (bindE m k) Q.
Proof.
  intros (r & -> & Hr) Hk. unfold bindE. cbn [mbind outcome_bind].
  destruct r as [a|e]; [by apply Hk|by exists (rErr e)].
Qed.
Lemma returns_map {A E F} (f : E → F) (m : outcome (RResult A E)) P : returns m P → returns (map_err f m) P.
Proof. intros (r & -> & Hr). destruct r as [a|e]; [by exists (rOk a)|by exists (rErr (f e))]. Qed.
Lemma returns_ok {A E} (a : A) (P : A → Prop) : P a → returns (E:=E) (Ret (rOk a)) P.
Proof. intros HP. by exists (rOk a). Qed.
Lemma returns_err {A E} (e : E) (P : A → Prop) : returns (Ret (rErr e)) P.
Proof. by exists (rErr e). Qed.
#[local] Hint Resolve returns_map returns_err : dt.

Section total.
Context (buf : bytes) (Hbytes : Forall byte_ok buf) (Hlen : len buf < 2 ^ 61).

Lemma read_u32_returns pos : 0 ≤ pos < 2 ^ 63 → returns (read_be_u32 buf pos) (λ v, 0 ≤ v < 2 ^ 32 ∧ pos + 4 ≤ len buf).
Proof.
  intros Hp. destruct (decide (pos + 4 ≤ len buf)) as [Hle|Hgt].
  - destruct (at_pos_exists buf pos 4) as [Hat Hl]; [lia|lia|].
    assert (Forall byte_ok (take 4 (drop (Z.to_nat pos) buf))) as Hb by (by apply Forall_take, Forall_drop).
    rewrite (read_be_u32_at buf pos _ Hat Hl Hb) by lia. apply returns_ok. split; [|done].
    pose proof (be_bound _ Hb) as Hv. unfold len in Hv. rewrite Hl in Hv. done.
  - rewrite (proj1 (read_short buf pos ltac:(lia) ltac:(lia))) by lia. apply returns_err.
Qed.

Lemma read_u64_returns pos : 0 ≤ pos < 2 ^ 63 → returns (read_be_u64 buf pos) (λ v, 0 ≤ v < 2 ^ 64 ∧ pos + 8 ≤ len buf).
Proof.
  intros Hp. destruct (decide (pos + 8 ≤ len buf)) as [Hle|Hgt].
  - destruct (at_pos_exists buf pos 8) as [Hat Hl]; [lia|lia|].
    assert (Forall byte_ok (take 8 (drop (Z.to_nat pos) buf))) as Hb by (by apply Forall_take, Forall_drop).
    rewrite (read_be_u64_at buf pos _ Hat Hl Hb) by lia. apply returns_ok. split; [|done].
    pose proof (be_bound _ Hb) as Hv. unfold len in Hv. rewrite Hl in Hv. done.
  - rewrite (proj2 (read_short buf pos ltac:(lia) ltac:(lia))) by lia. apply returns_err.
Qed.

Lemma index_ok i : 0 ≤ i < len buf → ∃ b, index buf i = Ret b ∧ buf !! Z.to_nat i = Some b.
Proof.
  intros Hi. unfold index, len in *. destruct (lookup_lt_is_Some_2 buf (Z.to_nat i)) as [b Hb]; [lia|].
  exists b. by rewrite Hb.
Qed.

Lemma slice_ok s e : 0 ≤ s ≤ e → e ≤ len buf → ∃ l, slice buf s e = Ret l ∧ len l = e - s.
Proof.
  intros Hs He. unfold slice. rewrite (proj2 (Z.leb_le s e)), (proj2 (Z.leb_le e _)) by lia. cbn [andb].
  eexists. split; [done|]. unfold len in *. rewrite length_take, length_drop. lia.
Qed.

Lemma bstring0_returns n pos cur : 0 ≤ pos ≤ cur → Z.of_nat n = len buf - cur →
  returns (bstring0_loop n buf pos cur) (λ s, pos + len s < len buf).
Proof.
  revert cur. induction n as [|n IH]; intros cur Hp Hn; cbn [bstring0_loop]; [apply returns_err|].
  destruct (index_ok cur ltac:(lia)) as (b & -> & _). cbn [mbind outcome_bind]. case_match.
  - destruct (slice_ok pos cur ltac:(lia) ltac:(lia)) as (l & -> & Hl). apply returns_ok. lia.
  - rewrite uadd_small by (unfold is_usize; lia). apply IH; lia.
Qed.

Lemma read_bstring0_returns pos : 0 ≤ pos → returns (read_bstring0 buf pos) (λ s, pos + len s < len buf).
Proof.
  intros Hp. unfold read_bstring0. destruct (decide (pos ≤ len buf)).
  - apply bstring0_returns; lia.
  - replace (Z.to_nat (len buf - pos)) with 0%nat by lia. apply returns_err.
Qed.

Lemma subslice_returns s e : 0 ≤ s ≤ e → returns (subslice buf s e) (λ _, e < len buf).
Proof.
  intros Hs. unfold subslice. destruct (Z.ltb_spec e (len buf)); cbn [negb]; [|apply returns_err].
  destruct (slice_ok s e Hs ltac:(lia)) as (l & -> & _). by apply returns_ok.
Qed.

Context (offs : Z) (Hoffs : 0 ≤ offs < 2 ^ 32).

Lemma props_returns fuel pos acc : 0 ≤ pos < 2 ^ 62 → (Z.to_nat (len buf - pos) < fuel)%nat →
  returns (props_loop fuel buf offs pos acc) (λ p, pos ≤ p.1 ∧ p.1 + 4 ≤ len buf).
Proof.
  revert pos acc. induction fuel as [|fuel IH]; intros pos acc Hp Hf; [lia|]. cbn [props_loop].
  eapply returns_bind; [apply returns_map, read_u32_returns; lia|]. intros tok [_ Htok].
  case_match; [apply returns_ok; simpl; lia|]. rewrite !(uadd_small pos) by (unfold is_usize; lia).
  eapply returns_bind; [apply returns_map, read_u32_returns; lia|]. intros vs [Hvs _].
  eapply returns_bind; [apply returns_map, read_u32_returns; lia|]. intros no [Hno _].
  cbv zeta. rewrite !uadd_small by (unfold is_usize; lia).
  eapply returns_bind; [apply returns_map, (subslice_returns (pos + 12) (pos + 12 + vs)); lia|]. intros val Hval. cbv beta in Hval.
  eapply returns_bind; [apply returns_map, (read_bstring0_returns (offs + no)); lia|]. intros pn _.
  eapply (returns_bind _ _ (λ _, True)).
  { apply returns_map. unfold from_utf8. destruct (is_utf8 pn); [by apply returns_ok|apply returns_err]. }
  intros s _. destruct (align4 (pos + 12 + vs) ltac:(lia)) as (_ & Ha & _).
  destruct (IH (align (pos + 12 + vs) 4) (acc ++ [(s, val)])) as (r & -> & Hr); [lia|lia|].
  exists r. split; [done|]. destruct r; [lia|done].
Qed.

Lemma children_returns load fuel pos acc :
  (∀ q, pos ≤ q < 2 ^ 62 → returns (load q) (λ c, q < c.1 ∧ c.1 ≤ len buf)) →
  0 ≤ pos < 2 ^ 62 → (Z.to_nat (len buf - pos) < fuel)%nat →
  returns (children_loop load fuel buf pos acc) (λ c, pos ≤ c.1 ∧ c.1 + 4 ≤ len buf).
Proof.
  revert pos acc. induction fuel as [|fuel IH]; intros pos acc Hload Hp Hf; [lia|]. cbn [children_loop].
  eapply returns_bind; [apply returns_map, read_u32_returns; lia|]. intros tok [_ Htok].
  case_match; [apply returns_ok; simpl; lia|].
  eapply returns_bind; [apply Hload; lia|]. intros c [Hc1 Hc2].
  destruct (IH c.1 (acc ++ [c.2])) as (r & -> & Hr); [intros q Hq; apply Hload; lia|lia|lia|].
  exists r. split; [done|]. destruct r; [lia|done].
Qed.

Lemma node_returns fuel start : 0 ≤ start < 2 ^ 62 → (Z.to_nat (len buf - start) < fuel)%nat →
  returns (Node_load fuel buf start offs) (λ c, start < c.1 ∧ c.1 ≤ len buf).
Proof.
  revert start. induction fuel as [|fuel IH]; intros start Hs Hf; [lia|]. cbn [Node_load].
  eapply returns_bind; [apply returns_map, read_u32_returns; lia|]. intros tok [_ Htok].
  case_match; [apply returns_err|]. rewrite (uadd_small start) by (unfold is_usize; lia).
  eapply returns_bind; [apply returns_map, read_bstring0_returns; lia|]. intros nm Hnm. cbv beta in Hnm. pose proof (len_nonneg nm).
  rewrite (uadd_small _ (len nm)), (uadd_small _ 1) by (unfold is_usize; lia).
  destruct (align4 (start + 4 + len nm + 1) ltac:(lia)) as (_ & Ha & _). set (pos := align _ 4) in *.
  eapply returns_bind; [apply props_returns; lia|]. intros p [Hp1 Hp2].
  eapply returns_bind.
  { apply (children_returns _ _ p.1); [|lia|lia]. intros q Hq. apply IH; lia. }
  intros c [Hc1 Hc2]. eapply returns_bind; [apply returns_map, read_u32_returns; lia|]. intros tok' [_ Htok'].
  case_match; [apply returns_err|].
  eapply (returns_bind _ _ (λ _, True)).
  { apply returns_map. unfold from_utf8. destruct (is_utf8 nm); [by apply returns_ok|apply returns_err]. }
  intros s _. rewrite uadd_small by (unfold is_usize; lia). apply returns_ok. simpl. lia.
Qed.

Lemma rsvmap_returns fuel pos acc : 0 ≤ pos < 2 ^ 62 → (Z.to_nat (len buf - pos) < fuel)%nat →
  returns (rsvmap_loop fuel buf pos acc) (λ _, True).
Proof.
  revert pos acc. induction fuel as [|fuel IH]; intros pos acc Hp Hf; [lia|]. cbn [rsvmap_loop].
  eapply returns_bind; [apply returns_map, read_u64_returns; lia|]. intros o [_ Ho]. cbv zeta.
  rewrite (uadd_small pos) by (unfold is_usize; lia).
  eapply returns_bind; [apply returns_map, read_u64_returns; lia|]. intros sz [_ Hsz].
  rewrite uadd_small by (unfold is_usize; lia). case_match; [by apply returns_ok|].
  destruct (IH (pos + 8 + 8) (acc ++ [(o, sz)])) as (r & -> & Hr); [lia|lia|]. by exists r.
Qed.
End total.

Lemma load_returns fuel buf :
  Forall byte_ok buf → len buf < 2 ^ 61 → (length buf < fuel)%nat →
  returns (DeviceTree_load fuel buf) (λ t, version t = SUPPORTED_VERSION ∧ 0 ≤ boot_cpuid_phys t < 2 ^ 32).
Proof.
  intros Hb Hl Hf. unfold DeviceTree_load.
  assert (∀ pos, 0 ≤ pos < 2 ^ 63 → returns (dt_slice (read_be_u32 buf pos)) (λ v, 0 ≤ v < 2 ^ 32)) as Hrd.
  { intros pos Hp. apply returns_map. destruct (read_u32_returns buf Hb pos Hp) as (r & -> & Hr).
    exists r. split; [done|]. destruct r; [lia|done]. }
  unfold len in *.
  eapply returns_bind; [apply Hrd; lia|]. intros magic _. case_match; [apply returns_err|].
  eapply returns_bind; [apply Hrd; lia|]. intros total _. case_match; [apply returns_err|].
  eapply returns_bind; [apply Hrd; lia|]. intros v _. destruct (Z.eqb_spec v SUPPORTED_VERSION) as [->|]; cbn [negb]; [|apply returns_err].
  eapply returns_bind; [apply Hrd; lia|]. intros ost Host. eapply returns_bind; [apply Hrd; lia|]. intros ostr Hostr.
  eapply returns_bind; [apply Hrd; lia|]. intros orsv Horsv. eapply returns_bind; [apply Hrd; lia|]. intros cpu Hcpu.
  cbv beta in *.
  eapply returns_bind; [apply rsvmap_returns; solve [done|lia|unfold len; lia]|]. intros rsv _.
  eapply returns_bind; [apply node_returns; solve [done|lia|unfold len; lia]|]. intros rt _.
  by apply returns_ok.
Qed.

(** C16: on every byte buffer [DeviceTree::load] returns a tree of the
    supported version or an error: it never indexes out of range, panics or
    runs on (fuel beyond the length of the buffer is enough for every
    loop and for the recursion). *)
Theorem DeviceTree_load_total fuel buf :
  Forall byte_ok buf → len buf < 2 ^ 61 → (length buf < fuel)%nat →
  ∃ r, DeviceTree_load fuel buf = Ret r ∧
    match r with rOk t => version t = SUPPORTED_VERSION | rErr _ => True end.
Proof.
  intros Hb Hl Hf. destruct (load_returns fuel buf Hb Hl Hf) as (r & Hr & Hres). exists r. split; [done|].
  destruct r; [by destruct Hres|done].
Qed.

(** ** A reference encoder *)

Definition be32 (v : Z) : bytes := [v / 2 ^ 24 mod 256; v / 2 ^ 16 mod 256; v / 2 ^ 8 mod 256; v mod 256].
Definition be64 (v : Z) : bytes := be32 (v / 2 ^ 32) ++ be32 (v mod 2 ^ 32).
(** Zeros up to a multiple of four. *)
Definition pad (n : nat) : bytes := replicate ((4 - n mod 4) mod 4) 0.

Definition enc_name (s : bytes) : bytes := (s ++ [0]) ++ pad (length s + 1).
Definition enc_prop (off : bytes → Z) (kv : bytes * bytes) : bytes :=
  be32 OF_DT_PROP ++ be32 (len kv.2) ++ be32 (off kv.1) ++ kv.2 ++ pad (length kv.2).
Fixpoint enc_node (off : bytes → Z) (n : Node) : bytes :=
  match n with
  | mkDTNode nm ps cs =>
      be32 OF_DT_BEGIN_NODE ++ enc_name nm ++ concat (map (enc_prop off) ps) ++
      concat (map (enc_node off) cs) ++ be32 OF_DT_END_NODE
  end.

(** The strings block and where a string is in it. *)
Definition strings (tbl : list bytes) : bytes := concat (map (λ s, s ++ [0]) tbl).
Fixpoint string_off (tbl : list bytes) (s : bytes) : Z :=
  match tbl with
  | [] => 0
  | k :: tbl => if bool_decide (k = s) then 0 else len k + 1 + string_off tbl s
  end.

Definition str_ok (s : bytes) : bool :=
  forallb (λ b, (1 <=? b) && (b <? 256)) s && is_utf8 s.
Fixpoint node_ok (tbl : list bytes) (n : Node) : bool :=
  match n with
  | mkDTNode nm ps cs =>
      str_ok nm &&
      forallb (λ kv : bytes * bytes, str_ok kv.1 && bool_decide (kv.1 ∈ tbl) && (len kv.2 <? 2 ^ 32) &&
                 forallb (λ b, (0 <=? b) && (b <? 256)) kv.2) ps &&
      forallb (node_ok tbl) cs
  end.

Definition enc_rsv (r : Z * Z) : bytes := be64 r.1 ++ be64 r.2.
Definition HEADER_SIZE : Z := 40.
Definition FDT_END : Z := 9.

(** A blob of version 17: header, reservations, structure, strings. *)
Definition flatten (tbl : list bytes) (t : DeviceTree) : bytes :=
  let rsv := concat (map enc_rsv (reserved t)) in
  let str := enc_node (string_off tbl) (root t) ++ be32 FDT_END in
  let off_struct := HEADER_SIZE + len rsv in
  let off_strings := off_struct + len str in
  (be32 MAGIC_NUMBER ++ be32 (off_strings + len (strings tbl)) ++ be32 off_struct ++ be32 off_strings ++
   be32 HEADER_SIZE ++ be32 (version t) ++ be32 16 ++ be32 (boot_cpuid_phys t) ++
   be32 (len (strings tbl)) ++ be32 (len str)) ++
  rsv ++ str ++ strings tbl.

(** The reservations end with the first entry of size zero. *)
Fixpoint rsv_ok (l : list (Z * Z)) : bool :=
  match l with
  | [] => false
  | [r] => (0 <=? r.1) && (r.1 <? 2 ^ 64) && (r.2 =? 0)
  | r :: l => (0 <=? r.1) && (r.1 <? 2 ^ 64) && (0 <? r.2) && (r.2 <? 2 ^ 64) && rsv_ok l
  end.
Definition tree_ok (tbl : list bytes) (t : DeviceTree) : bool :=
  (version t =? SUPPORTED_VERSION) && (0 <=? boot_cpuid_phys t) && (boot_cpuid_phys t <? 2 ^ 32) &&
  rsv_ok (reserved t) && node_ok tbl (root t).

(** ** Loading what the encoder wrote *)

Lemma be32_spec v : 0 ≤ v < 2 ^ 32 → be (be32 v) = v ∧ Forall byte_ok (be32 v).
Proof.
  intros Hv. split.
  - unfold be, be32. cbn [fold_left].
    assert (∀ k, 0 ≤ k → v / 2 ^ (k + 8) = v / 2 ^ k / 256) as Hd.
    { intros k Hk. rewrite Z.pow_add_r, Z.div_div by lia. done. }
    change 24 with (16 + 8). rewrite (Hd 16) by lia. change 16 with (8 + 8). rewrite (Hd 8) by lia.
    change (2 ^ 8) with 256. rewrite (Z.mod_small (v / 256 / 256 / 256)).
    2:{ split; [apply Z.div_pos; [apply Z.div_pos; [apply Z.div_pos|]|]; lia|].
        repeat (apply Z.div_lt_upper_bound; [lia|]). lia. }
    pose proof (Z.div_mod v 256 ltac:(lia)). pose proof (Z.div_mod (v / 256) 256 ltac:(lia)).
    pose proof (Z.div_mod (v / 256 / 256) 256 ltac:(lia)). lia.
  - unfold be32, byte_ok. repeat constructor; apply Z.mod_pos_bound; lia.
Qed.

Lemma be64_spec v : 0 ≤ v < 2 ^ 64 → be (be64 v) = v ∧ Forall byte_ok (be64 v).
Proof.
  intros Hv. pose proof (Z.mod_pos_bound v (2 ^ 32) ltac:(lia)).
  assert (0 ≤ v / 2 ^ 32 < 2 ^ 32) by (split; [apply Z.div_pos; lia|apply Z.div_lt_upper_bound; lia]).
  destruct (be32_spec (v / 2 ^ 32)) as [E1 B1]; [done|]. destruct (be32_spec (v mod 2 ^ 32)) as [E2 B2]; [done|].
  split; [|by apply Forall_app]. unfold be64.
  assert (∀ l a b c d, be (l ++ [a; b; c; d]) = be l * 2 ^ 32 + be [a; b; c; d]) as Hsplit.
  { intros l a b c d. unfold be. rewrite fold_left_app. cbn [fold_left]. lia. }
  unfold be32 at 2. rewrite Hsplit. fold (be32 (v mod 2 ^ 32)). rewrite E1, E2.
  pose proof (Z.div_mod v (2 ^ 32) ltac:(lia)). lia.
Qed.

Lemma read32 buf pos v : at_pos buf pos (be32 v) → 0 ≤ v < 2 ^ 32 → pos + 4 < 2 ^ 64 →
  dt_slice (read_be_u32 buf pos) = Ret (rOk v).
Proof.
  intros Hat Hv Hp. destruct (be32_spec v Hv) as [E B]. unfold dt_slice, map_err.
  rewrite (read_be_u32_at buf pos _ Hat eq_refl B Hp), E. done.
Qed.
Lemma read64 buf pos v : at_pos buf pos (be64 v) → 0 ≤ v < 2 ^ 64 → pos + 8 < 2 ^ 64 →
  dt_slice (read_be_u64 buf pos) = Ret (rOk v).
Proof.
  intros Hat Hv Hp. destruct (be64_spec v Hv) as [E B]. unfold dt_slice, map_err.
  rewrite (read_be_u64_at buf pos _ Hat eq_refl B Hp), E. done.
Qed.

Lemma bstring0_at n buf pos s1 s2 :
  at_pos buf pos (s1 ++ s2 ++ [0]) → Forall (λ b, b ≠ 0) s2 → (length s2 < n)%nat → len buf < 2 ^ 61 →
  bstring0_loop n buf pos (pos + len s1) = Ret (rOk (s1 ++ s2)).
Proof.
  revert s1 n. induction s2 as [|b s2 IH]; intros s1 n Hat Hnz Hn Hl; (destruct n as [|n]; [simpl in Hn; lia|]); cbn [bstring0_loop].
  - pose proof (at_pos_app _ _ _ _ Hat) as [H1 H2]. rewrite (index_at _ _ _ _ H2). cbn [mbind outcome_bind].
    rewrite (slice_at _ _ _ H1). cbn [mbind outcome_bind]. by rewrite app_nil_r.
  - apply Forall_cons in Hnz as [Hb Hnz]. pose proof (at_pos_app _ _ _ _ Hat) as [H1 H2].
    rewrite (index_at _ _ _ _ H2). cbn [mbind outcome_bind]. rewrite (proj2 (Z.eqb_neq b 0)) by done.
    pose proof (at_pos_bounds _ _ _ H2) as [? ?]. pose proof (len_nonneg (b :: (s2 ++ [0]))).
    pose proof (at_pos_bounds _ _ _ H1) as [? ?]. pose proof (len_nonneg s1).
    rewrite uadd_small by (unfold is_usize in *; simpl app in *; lia).
    replace (pos + len s1 + 1) with (pos + len (s1 ++ [b])) by (rewrite len_app; change (len [b]) with 1; lia).
    rewrite IH; [by rewrite <-app_assoc| |done|simpl in Hn; lia|done]. by rewrite <-app_assoc.
Qed.

Lemma str_ok_nz s : str_ok s = true → Forall (λ b, b ≠ 0) s ∧ is_utf8 s = true.
Proof.
  intros [Hf Hu]%andb_prop. split; [|done]. rewrite forallb_forall in Hf. apply Forall_forall.
  intros b Hb%list_elem_of_In. specialize (Hf b Hb). lia.
Qed.

Lemma read_string buf pos s : at_pos buf pos (s ++ [0]) → str_ok s = true → len buf < 2 ^ 61 →
  dt_slice (read_bstring0 buf pos) = Ret (rOk s).
Proof.
  intros Hat [Hnz _]%str_ok_nz Hl. pose proof (at_pos_bounds _ _ _ Hat) as [H0 H1]. rewrite len_app in H1.
  change (len [0]) with 1 in H1. unfold dt_slice, map_err, read_bstring0.
  pose proof (bstring0_at (Z.to_nat (len buf - pos)) buf pos [] s Hat Hnz) as Hr.
  change (len (@nil Z)) with 0 in Hr. rewrite Z.add_0_r in Hr. rewrite Hr; [done| |done]. unfold len in *. lia.
Qed.

Lemma pad_div n : (4 | Z.of_nat n + len (pad n)).
Proof.
  unfold pad, len. rewrite length_replicate.
  pose proof (Nat.div_mod_eq n 4). pose proof (Nat.mod_upper_bound n 4 ltac:(lia)).
  destruct (decide (n mod 4 = 0)%nat) as [E|E].
  - rewrite E. simpl. exists (Z.of_nat (n / 4)). lia.
  - rewrite (Nat.mod_small (4 - n mod 4) 4) by lia. exists (Z.of_nat (n / 4) + 1). lia.
Qed.

Lemma align_pad p n : (4 | p) → 0 ≤ p → p + Z.of_nat n < 2 ^ 63 → align (p + Z.of_nat n) 4 = p + Z.of_nat n + len (pad n).
Proof.
  intros [k ->] H0 Hb. destruct (align4 (k * 4 + Z.of_nat n) ltac:(lia)) as (-> & _ & _). f_equal.
  assert ((k * 4 + Z.of_nat n) mod 4 = Z.of_nat (n mod 4)) as ->.
  { rewrite Z.add_comm, Z_mod_plus_full. by rewrite Nat2Z.inj_mod. }
  unfold len, pad. rewrite length_replicate, (Nat2Z.inj_mod (4 - n mod 4)), Nat2Z.inj_sub; [done|].
  pose proof (Nat.mod_upper_bound n 4 ltac:(lia)). lia.
Qed.

Lemma string_off_spec tbl s : s ∈ tbl →
  ∃ pre post, strings tbl = pre ++ (s ++ [0]) ++ post ∧ len pre = string_off tbl s.
Proof.
  induction tbl as [|k tbl IH]; [by intros ?%not_elem_of_nil|]. intros Hin. simpl.
  case_bool_decide as E; [subst; exists [], (strings tbl); done|].
  destruct IH as (pre & post & Hs & Hl); [set_solver|]. exists ((k ++ [0]) ++ pre), post.
  unfold strings in *. simpl. rewrite Hs. split; [by rewrite <-!app_assoc|].
  rewrite !len_app. change (len [0]) with 1. lia.
Qed.

Lemma bindE_ok {A B E} (m : outcome (RResult A E)) (k : A → outcome (RResult B E)) a :
  m = Ret (rOk a) → bindE m k = k a.
Proof. by intros ->. Qed.

Lemma concat_len {A} (f : A → bytes) l : (∀ x, x ∈ l → (0 < length (f x))%nat) → (length l ≤ length (concat (map f l)))%nat.
Proof.
  induction l as [|x l IH]; intros Hf; simpl; [done|]. rewrite length_app. pose proof (Hf x ltac:(set_solver)).
  assert (length l ≤ length (concat (map f l)))%nat by (apply IH; set_solver). lia.
Qed.
Lemma concat_elem {A} (f : A → bytes) l x : x ∈ l → (length (f x) ≤ length (concat (map f l)))%nat.
Proof.
  induction l as [|y l IH]; [by intros ?%not_elem_of_nil|]. simpl. rewrite length_app.
  intros [->|Hx]%elem_of_cons; [lia|]. specialize (IH Hx). lia.
Qed.

Section decode.
Context (buf : bytes) (Hlen : len buf < 2 ^ 32) (tbl : list bytes) (offs : Z).
Context (Htbl : at_pos buf offs (strings tbl)).
Notation off := (string_off tbl).

Lemma string_at k : k ∈ tbl → 0 ≤ off k < 2 ^ 32 ∧ at_pos buf (offs + off k) (k ++ [0]).
Proof.
  intros Hk. destruct (string_off_spec tbl k Hk) as (pre & post & E & Hl). pose proof Htbl as Ht. rewrite E in Ht.
  apply at_pos_app in Ht as [H1 H2]. apply at_pos_app in H2 as [H2 _]. rewrite <-Hl. split; [|done].
  pose proof (at_pos_bounds _ _ _ H1). pose proof (len_nonneg pre). lia.
Qed.

(** The token that follows decides whether a loop goes on. *)
Definition token_at (pos tok : Z) : Prop := at_pos buf pos (be32 tok) ∧ 0 ≤ tok < 2 ^ 32.

Lemma token_read pos tok : token_at pos tok → dt_slice (read_be_u32 buf pos) = Ret (rOk tok).
Proof.
  intros [Hat Ht]. pose proof (at_pos_bounds _ _ _ Hat) as [? Hb]. change (len (be32 tok)) with 4 in Hb.
  apply read32; [done|done|lia].
Qed.

Definition prop_ok (kv : bytes * bytes) : bool :=
  str_ok kv.1 && bool_decide (kv.1 ∈ tbl) && (len kv.2 <? 2 ^ 32) && forallb (λ b, (0 <=? b) && (b <? 256)) kv.2.

Lemma props_loop_done fuel pos acc tok : token_at pos tok → tok ≠ OF_DT_PROP →
  props_loop (S fuel) buf offs pos acc = Ret (rOk (pos, acc)).
Proof.
  intros Ht Hne. cbn [props_loop]. rewrite (bindE_ok _ _ tok) by (by apply token_read).
  by rewrite (proj2 (Z.eqb_neq _ _)) by done.
Qed.

Lemma enc_prop_div kv : (4 | len (enc_prop off kv)).
Proof.
  destruct kv as [k v]. unfold enc_prop. rewrite !len_app. cbn [fst snd].
  change (len (be32 _)) with 4. rewrite !(Z.add_assoc 4 4), !Z.add_assoc.
  destruct (pad_div (length v)) as [q Hq]. unfold len in *. exists (q + 3). lia.
Qed.

Lemma enc_props_div ps : (4 | len (concat (map (enc_prop off) ps))).
Proof.
  induction ps as [|kv ps IHp]; [by exists 0|]. cbn [map concat]. rewrite len_app.
  apply Z.divide_add_r; [apply enc_prop_div|done].
Qed.

Lemma props_loop_step fuel pos acc k v rest :
  at_pos buf pos (enc_prop off (k, v) ++ rest) → rest ≠ [] → (4 | pos) → prop_ok (k, v) = true →
  props_loop (S fuel) buf offs pos acc =
  props_loop fuel buf offs (pos + len (enc_prop off (k, v))) (acc ++ [(k, v)]).
Proof.
  intros Hat Hrest Hal Hok. unfold prop_ok in Hok. cbn [fst snd] in Hok.
  apply andb_prop in Hok as [Hok _]. apply andb_prop in Hok as [Hok Hv]. apply andb_prop in Hok as [Hs Hin].
  apply bool_decide_eq_true in Hin. destruct (string_at k Hin) as [Hoff Hstr].
  pose proof (at_pos_bounds _ _ _ Hat) as [H0 Hb]. rewrite len_app in Hb.
  pose proof (len_nonneg (enc_prop off (k, v))).
  assert (0 < len rest) by (destruct rest; [done|rewrite len_cons; pose proof (len_nonneg rest); lia]).
  assert (len (enc_prop off (k, v)) = 12 + len v + len (pad (length v))) as El.
  { unfold enc_prop. rewrite !len_app. change (len (be32 _)) with 4. cbn [snd]. lia. }
  apply at_pos_app in Hat as [Hat _]. unfold enc_prop in Hat. cbn [fst snd] in Hat.
  apply at_pos_app in Hat as [Htok Hat]. apply at_pos_app in Hat as [Hvs Hat]. apply at_pos_app in Hat as [Hno Hat].
  apply at_pos_app in Hat as [Hval _]. change (len (be32 _)) with 4 in *.
  pose proof (len_nonneg v). pose proof (len_nonneg (pad (length v))). cbn [props_loop].
  rewrite (bindE_ok _ _ OF_DT_PROP) by (apply token_read; split; [done|unfold OF_DT_PROP; lia]).
  rewrite Z.eqb_refl. cbn [negb]. rewrite !(uadd_small pos) by (unfold is_usize; lia).
  rewrite (bindE_ok _ _ (len v)) by (apply read32; [done|lia|lia]).
  replace (pos + 8) with (pos + 4 + 4) by lia.
  rewrite (bindE_ok _ _ (off k)) by (apply read32; [done|lia|lia]).
  cbv zeta. replace (pos + 12) with (pos + 4 + 4 + 4) by lia.
  rewrite (uadd_small _ (len v)) by (unfold is_usize; lia).
  rewrite (bindE_ok _ _ v).
  2:{ unfold dt_slice, map_err, subslice. rewrite (proj2 (Z.ltb_lt _ _)) by lia. cbn [negb].
      by rewrite (slice_at _ _ _ Hval). }
  pose proof (at_pos_bounds _ _ _ Hstr) as [? ?]. pose proof (at_pos_bounds _ _ _ Htbl) as [? ?].
  pose proof (len_nonneg (k ++ [0])). pose proof (len_nonneg (strings tbl)).
  rewrite (uadd_small offs) by (unfold is_usize; lia).
  rewrite (bindE_ok _ _ k) by (apply read_string; [done|done|lia]).
  rewrite (bindE_ok _ _ k) by (unfold dt_utf8, map_err, from_utf8; by rewrite (proj2 (str_ok_nz k Hs))).
  f_equal. assert (4 | pos + 4 + 4 + 4) as Hal' by (destruct Hal as [q ->]; exists (q + 3); lia).
  pose proof (align_pad (pos + 4 + 4 + 4) (length v) Hal' ltac:(lia) ltac:(unfold len in *; lia)) as E.
  fold (len v) in E. rewrite E, El. lia.
Qed.

Lemma props_loop_all ps fuel pos acc tok rest :
  at_pos buf pos (concat (map (enc_prop off) ps) ++ be32 tok ++ rest) → 0 ≤ tok < 2 ^ 32 → tok ≠ OF_DT_PROP →
  (4 | pos) → forallb prop_ok ps = true → (length ps < fuel)%nat →
  props_loop fuel buf offs pos acc = Ret (rOk (pos + len (concat (map (enc_prop off) ps)), acc ++ ps)).
Proof.
  revert fuel pos acc. induction ps as [|[k v] ps IH]; intros fuel pos acc Hat Htok Hne Hal Hok Hf; (destruct fuel as [|fuel]; [simpl in Hf; lia|]).
  - change (len (concat (map (enc_prop off) []))) with 0. rewrite Z.add_0_r, app_nil_r. cbn [map concat] in Hat. rewrite app_nil_l in Hat.
    apply at_pos_app in Hat as [Hat _]. apply (props_loop_done _ _ _ tok); [by split|done].
  - cbn [forallb] in Hok. apply andb_prop in Hok as [Hkv Hok].
    change (map (enc_prop off) ((k, v) :: ps)) with (enc_prop off (k, v) :: map (enc_prop off) ps) in *.
    cbn [concat] in *. rewrite <-!app_assoc in Hat.
    rewrite (props_loop_step _ _ _ _ _ _ Hat) by (done || by destruct (concat (map (enc_prop off) ps))).
    pose proof (at_pos_app _ _ _ _ Hat) as [_ Hat'].
    rewrite (IH fuel _ (acc ++ [(k, v)]) Hat'); [|done|done|apply Z.divide_add_r; [done|apply enc_prop_div]|done|simpl in Hf; lia].
    rewrite len_app, <-app_assoc. do 3 f_equal. lia.
Qed.

Notation enc := (enc_node off).

Lemma enc_node_head n : ∃ rest, enc n = be32 OF_DT_BEGIN_NODE ++ rest.
Proof. destruct n. cbn [enc_node]. by eexists. Qed.

Lemma children_loop_all load cs fuel pos acc rest :
  (∀ c q, c ∈ cs → at_pos buf q (enc c) → (4 | q) →
     load q = Ret (rOk (q + len (enc c), c)) ∧ (4 | len (enc c))) →
  at_pos buf pos (concat (map enc cs) ++ be32 OF_DT_END_NODE ++ rest) → (4 | pos) → (length cs < fuel)%nat →
  children_loop load fuel buf pos acc = Ret (rOk (pos + len (concat (map enc cs)), acc ++ cs)) ∧
  (4 | len (concat (map enc cs))).
Proof.
  revert fuel pos acc. induction cs as [|c cs IH]; intros fuel pos acc Hload Hat Hal Hf; (destruct fuel as [|fuel]; [simpl in Hf; lia|]).
  - cbn [map concat] in *. rewrite app_nil_l in Hat. change (len []) with 0. rewrite Z.add_0_r, app_nil_r.
    split; [|by exists 0]. apply at_pos_app in Hat as [Hat _]. cbn [children_loop].
    rewrite (bindE_ok _ _ OF_DT_END_NODE) by (apply token_read; split; [done|unfold OF_DT_END_NODE; lia]). done.
  - cbn [map concat] in *. rewrite <-app_assoc in Hat. pose proof (at_pos_app _ _ _ _ Hat) as [Hc Hat'].
    destruct (Hload c pos) as [Hl Hd]; [set_solver|done|done|].
    destruct (IH fuel (pos + len (enc c)) (acc ++ [c])) as [Hrest Hdiv];
      [intros c' q Hc'; apply Hload; set_solver|done|by apply Z.divide_add_r|simpl in Hf; lia|].
    split; [|rewrite len_app; by apply Z.divide_add_r]. cbn [children_loop].
    destruct (enc_node_head c) as [tl Ec]. rewrite Ec in Hc. apply at_pos_app in Hc as [Hc _].
    rewrite (bindE_ok _ _ OF_DT_BEGIN_NODE) by (apply token_read; split; [done|unfold OF_DT_BEGIN_NODE; lia]).
    rewrite Z.eqb_refl. cbn [negb]. rewrite (bindE_ok _ _ _ Hl). cbn [fst snd]. rewrite Hrest, len_app, <-app_assoc.
    do 3 f_equal. lia.
Qed.

(** What follows the properties: the first child or the end of the node. *)
Lemma after_props cs rest : ∃ tok tl,
  concat (map enc cs) ++ be32 OF_DT_END_NODE ++ rest = be32 tok ++ tl ∧ 0 ≤ tok < 2 ^ 32 ∧ tok ≠ OF_DT_PROP.
Proof.
  destruct cs as [|c cs]; cbn [map concat]; [by exists OF_DT_END_NODE, rest|].
  destruct (enc_node_head c) as [tl ->]. exists OF_DT_BEGIN_NODE. rewrite <-!app_assoc. by eexists.
Qed.

Lemma node_load_enc fuel n start :
  at_pos buf start (enc n) → (4 | start) → node_ok tbl n = true → (length (enc n) < fuel)%nat →
  Node_load fuel buf start offs = Ret (rOk (start + len (enc n), n)) ∧ (4 | len (enc n)).
Proof.
  revert n start. induction fuel as [|fuel IH]; intros [nm ps cs] start Hat Hal Hok Hf; [lia|].
  cbn [node_ok] in Hok. apply andb_prop in Hok as [Hok Hcs]. apply andb_prop in Hok as [Hnm Hps].
  pose proof (at_pos_bounds _ _ _ Hat) as [H0 Hb].
  cbn [enc_node] in *. rewrite !length_app in Hf. change (length (be32 _)) with 4%nat in Hf.
  rewrite !len_app in *. change (len (be32 _)) with 4 in *.
  set (E := concat (map (enc_prop off) ps)) in *. set (C := concat (map enc cs)) in *.
  assert (len (enc_name nm) = len nm + 1 + len (pad (length nm + 1))) as En.
  { unfold enc_name. rewrite !len_app. done. }
  pose proof (len_nonneg nm). pose proof (len_nonneg (pad (length nm + 1))). pose proof (len_nonneg E). pose proof (len_nonneg C).
  apply at_pos_app in Hat as [Hbegin Hat]. change (len (be32 _)) with 4 in Hat.
  apply at_pos_app in Hat as [Hname Hat]. unfold enc_name in Hname. apply at_pos_app in Hname as [Hname _].
  set (pos := start + 4 + len (enc_name nm)) in *.
  assert (4 | pos) as Hpos.
  { destruct (pad_div (length nm + 1)) as [q Hq]. destruct Hal as [r ->]. exists (r + 1 + q). unfold pos. rewrite En. unfold len in *. lia. }
  assert (align (start + 4 + len nm + 1) 4 = pos) as Hpe.
  { unfold pos. rewrite En. assert (4 | start + 4) as H4 by (destruct Hal as [q ->]; exists (q + 1); lia).
    pose proof (align_pad (start + 4) (length nm + 1) H4 ltac:(lia) ltac:(unfold len in *; lia)) as Ea.
    rewrite Nat2Z.inj_add in Ea. change (Z.of_nat 1) with 1 in Ea. unfold len in *. rewrite !Z.add_assoc in Ea. rewrite Ea. lia. }
  destruct (after_props cs []) as (tok & tl & Etok & Htok & Hnp). rewrite app_nil_r in Etok. fold C in Etok.
  assert (props_loop fuel buf offs pos [] = Ret (rOk (pos + len E, ps))) as Hprops.
  { apply (props_loop_all ps fuel pos [] tok tl); [fold E; by rewrite <-Etok|done|done|done|done|].
    assert (length ps ≤ length E)%nat; [|lia]. apply concat_len. intros [k v] _. unfold enc_prop. rewrite !length_app.
    change (length (be32 _)) with 4%nat. lia. }
  apply at_pos_app in Hat as [_ Hat].
  assert (4 | len E) as HdE by apply enc_props_div.
  destruct (children_loop_all (λ pos, Node_load fuel buf pos offs) cs fuel (pos + len E) [] []) as [Hch HdC].
  { intros c q Hc Hq Hqal. apply IH; [done|done| |].
    - rewrite forallb_forall in Hcs. apply Hcs, list_elem_of_In, Hc.
    - pose proof (concat_elem enc cs c Hc) as Hce. fold C in Hce. lia. }
  { by rewrite app_nil_r. }
  { by apply Z.divide_add_r. }
  { assert (length cs ≤ length C)%nat; [|lia]. apply concat_len. intros c _. destruct (enc_node_head c) as [tl' ->].
    rewrite length_app. change (length (be32 _)) with 4%nat. lia. }
  fold C in Hch, HdC. apply at_pos_app in Hat as [_ Hend]. split.
  2:{ destruct Hpos as [p Hp], Hal as [q Hq], HdE as [e He], HdC as [c Hc]. exists (p - q + e + c + 1). unfold pos in Hp. lia. }
  cbn [Node_load]. rewrite (bindE_ok _ _ OF_DT_BEGIN_NODE) by (apply token_read; split; [done|unfold OF_DT_BEGIN_NODE; lia]).
  rewrite Z.eqb_refl. cbn [negb]. rewrite (uadd_small start) by (unfold is_usize; lia).
  rewrite (bindE_ok _ _ nm) by (apply read_string; [done|done|lia]). cbv zeta.
  rewrite (uadd_small _ (len nm)), (uadd_small _ 1) by (unfold is_usize; lia). rewrite Hpe, (bindE_ok _ _ _ Hprops).
  cbn [fst snd]. rewrite (bindE_ok _ _ _ Hch). cbn [fst snd].
  rewrite (bindE_ok _ _ OF_DT_END_NODE) by (apply token_read; split; [done|unfold OF_DT_END_NODE; lia]).
  rewrite Z.eqb_refl. cbn [negb]. rewrite app_nil_l.
  rewrite (bindE_ok _ _ nm) by (unfold dt_utf8, map_err, from_utf8; by rewrite (proj2 (str_ok_nz nm Hnm))).
  rewrite uadd_small by (unfold is_usize, pos; lia). do 3 f_equal. unfold pos. lia.
Qed.
End decode.

Lemma rsv_load buf l fuel pos acc : len buf < 2 ^ 32 →
  at_pos buf pos (concat (map enc_rsv l)) → rsv_ok l = true → (length l < fuel)%nat →
  rsvmap_loop fuel buf pos acc = Ret (rOk (acc ++ l)).
Proof.
  intros Hlen. revert fuel pos acc. induction l as [|[o sz] l IH]; intros fuel pos acc Hat Hok Hf; [done|].
  destruct fuel as [|fuel]; [simpl in Hf; lia|]. cbn [map concat] in Hat.
  pose proof (at_pos_bounds _ _ _ Hat) as [H0 Hb]. rewrite len_app in Hb. unfold enc_rsv in Hat at 1. cbn [fst snd] in Hat.
  rewrite <-app_assoc in Hat. apply at_pos_app in Hat as [Ho Hat]. apply at_pos_app in Hat as [Hs Hat].
  change (len (be64 _)) with 8 in *. change (len (enc_rsv (o, sz))) with 16 in Hb.
  pose proof (len_nonneg (concat (map enc_rsv l))).
  assert (0 ≤ o < 2 ^ 64 ∧ 0 ≤ sz < 2 ^ 64 ∧ (sz = 0 ↔ l = []) ∧ (l ≠ [] → rsv_ok l = true)) as (Hov & Hsv & Hz & Hl).
  { destruct l; cbn [rsv_ok fst snd] in Hok; repeat (apply andb_prop in Hok as [Hok ?]); (split_and!; [lia|lia|lia|lia| |done]).
    - split; [done|lia].
    - split; [lia|done]. }
  cbn [rsvmap_loop]. rewrite (bindE_ok _ _ o) by (apply read64; [done|lia|lia]). cbv zeta.
  rewrite (uadd_small pos) by (unfold is_usize; lia). rewrite (bindE_ok _ _ sz) by (apply read64; [done|lia|lia]).
  rewrite uadd_small by (unfold is_usize; lia). destruct (Z.eqb_spec sz 0) as [E|E].
  - rewrite (proj1 Hz E). done.
  - assert (l ≠ []) by tauto. rewrite (IH fuel _ _ Hat); [by rewrite <-app_assoc|auto|simpl in Hf; lia].
Qed.

Ltac peel H F := apply at_pos_app in H as [F H]; change (len (be32 _)) with 4 in H.

Lemma DeviceTree_load_flatten tbl t fuel :
  tree_ok tbl t = true → len (flatten tbl t) < 2 ^ 32 → (length (flatten tbl t) < fuel)%nat →
  DeviceTree_load fuel (flatten tbl t) = Ret (rOk t).
Proof.
  intros Hok Hlen Hf. apply andb_prop in Hok as [Hok Hroot]. apply andb_prop in Hok as [Hok Hrsv].
  apply andb_prop in Hok as [Hok Hcpu2]. apply andb_prop in Hok as [Hver Hcpu1]. apply Z.eqb_eq in Hver.
  assert (at_pos (flatten tbl t) 0 (flatten tbl t)) as Hat by (exists [], []; by rewrite app_nil_r).
  set (buf := flatten tbl t) in *. unfold buf in Hat at 2. unfold flatten in Hat. cbv zeta in Hat.
  set (rsv := concat (map enc_rsv (reserved t))) in *.
  set (str := enc_node (string_off tbl) (root t) ++ be32 FDT_END) in *. rewrite Hver in Hat.
  pose proof (len_nonneg rsv). pose proof (len_nonneg str). pose proof (len_nonneg (strings tbl)).
  assert (len buf = HEADER_SIZE + len rsv + len str + len (strings tbl)) as El.
  { unfold buf, flatten. cbv zeta. fold rsv. fold str. rewrite !len_app. change (len (be32 _)) with 4.
    unfold HEADER_SIZE. lia. }
  unfold HEADER_SIZE in *. rewrite <-!app_assoc in Hat.
  peel Hat F0. peel Hat F4. peel Hat F8. peel Hat F12. peel Hat F16. peel Hat F20. peel Hat F24. peel Hat F28.
  peel Hat F32. peel Hat F36. apply at_pos_app in Hat as [Hr Hat]. pose proof Hat as Hstr. apply at_pos_app in Hstr as [_ Hstr].
  apply at_pos_app in Hat as [Hat _]. unfold str in Hat. apply at_pos_app in Hat as [Hnode _].
  assert (4 | len rsv) as Hd.
  { unfold rsv. clear. induction (reserved t) as [|r l IH]; [by exists 0|]. cbn [map concat]. rewrite len_app.
    apply Z.divide_add_r; [by exists 4|done]. }
  assert (length (reserved t) ≤ length rsv)%nat by (apply concat_len; intros; simpl; lia).
  unfold len in El. unfold DeviceTree_load.
  rewrite (bindE_ok _ _ MAGIC_NUMBER) by (apply read32; [exact F0|done|done]). rewrite Z.eqb_refl. cbn [negb].
  rewrite (bindE_ok _ _ _ (read32 _ 4 _ F4 ltac:(unfold len in *; lia) ltac:(lia))).
  rewrite (proj2 (Z.eqb_eq _ _)) by (unfold len in *; lia). cbn [negb].
  rewrite (bindE_ok _ _ _ (read32 _ 20 _ F20 ltac:(done) ltac:(lia))). rewrite Z.eqb_refl. cbn [negb].
  rewrite (bindE_ok _ _ _ (read32 _ 8 _ F8 ltac:(unfold len in *; lia) ltac:(lia))).
  rewrite (bindE_ok _ _ _ (read32 _ 12 _ F12 ltac:(unfold len in *; lia) ltac:(lia))).
  rewrite (bindE_ok _ _ _ (read32 _ 16 _ F16 ltac:(done) ltac:(lia))).
  rewrite (bindE_ok _ _ _ (read32 _ 28 _ F28 ltac:(lia) ltac:(lia))).
  rewrite (bindE_ok _ _ (reserved t)).
  2:{ rewrite (rsv_load buf (reserved t) fuel 40 [] Hlen Hr Hrsv); [done|]. unfold len in *. lia. }
  destruct (node_load_enc buf Hlen tbl (40 + len rsv + len str) Hstr fuel (root t) (40 + len rsv) Hnode) as [Hn _].
  { apply Z.divide_add_r; [by exists 10|done]. }
  { done. }
  { assert (length (enc_node (string_off tbl) (root t)) ≤ length str)%nat by (unfold str; rewrite length_app; lia).
    unfold len in *. lia. }
  rewrite (bindE_ok _ _ _ Hn). cbn [snd]. destruct t; simpl in *. by subst.
Qed.

(** C9: round trip: loading the blob that the reference encoder produces for
    a well-formed tree (names and keys without zero bytes and valid UTF-8,
    every key in the string table, a blob below 4 GiB) gives back exactly
    that tree, reservations, boot CPU, properties and children included. *)
Theorem DeviceTree_roundtrip tbl t fuel :
  tree_ok tbl t = true → len (flatten tbl t) < 2 ^ 32 → (length (flatten tbl t) < fuel)%nat →
  DeviceTree_load fuel (flatten tbl t) = Ret (rOk t).
Proof. apply DeviceTree_load_flatten. Qed.

(** ** Paths *)

(** The node reached by taking the first child of each name in turn. *)
Fixpoint walk (n : Node) (names : list bytes) : option Node :=
  match names with
  | [] => Some n
  | s :: names =>
      match List.find (λ c, bool_decide (name c = s)) (children n) with
      | Some c => walk c names
      | None => None
      end
  end.
Fixpoint join (names : list bytes) : bytes :=
  match names with
  | [] => []
  | [s] => s
  | s :: names => s ++ SLASH :: join names
  end.
Definition component (s : bytes) : Prop := s ≠ [] ∧ SLASH ∉ s.

Lemma find_slash_None s : SLASH ∉ s → find_slash s = None.
Proof.
  induction s as [|b s IH]; [done|]. intros [Hb Hs]%not_elem_of_cons. simpl.
  rewrite (proj2 (Z.eqb_neq b SLASH)) by congruence. by rewrite IH.
Qed.
Lemma find_slash_app s r : SLASH ∉ s → find_slash (s ++ SLASH :: r) = Some (length s).
Proof.
  induction s as [|b s IH]; [done|]. intros [Hb Hs]%not_elem_of_cons. simpl.
  rewrite (proj2 (Z.eqb_neq b SLASH)) by congruence. by rewrite IH.
Qed.
Lemma find_slash_bound s i : find_slash s = Some i → (i < length s)%nat.
Proof.
  revert i. induction s as [|b s IH]; intros i; simpl; [done|]. case_match; [intros [= <-]; lia|].
  destruct (find_slash s) as [j|]; [|done]. intros [= <-]. specialize (IH j eq_refl). lia.
Qed.

Lemma Node_find_returns fuel n path : (length path < fuel)%nat → ∃ r, Node_find fuel n path = Ret r.
Proof.
  revert n path. induction fuel as [|fuel IH]; intros n path Hf; [lia|]. cbn [Node_find].
  case_bool_decide; [by eexists|]. destruct (find_slash path) as [i|] eqn:E; [|by eexists].
  apply find_slash_bound in E. case_match; [|by eexists]. apply IH. rewrite length_drop. lia.
Qed.

Lemma Node_find_walk fuel n names :
  Forall component names → (length (join names) < fuel)%nat → Node_find fuel n (join names) = Ret (walk n names).
Proof.
  revert n names. induction fuel as [|fuel IH]; intros n names Hc Hf; [lia|].
  destruct names as [|s names]; [done|]. apply Forall_cons in Hc as [[Hne Hs] Hc].
  destruct names as [|s' names].
  - cbn [Node_find walk join]. rewrite bool_decide_false, find_slash_None by done. by case_match.
  - change (join (s :: s' :: names)) with (s ++ SLASH :: join (s' :: names)) in *.
    set (rest := join (s' :: names)) in *. cbn [Node_find]. rewrite bool_decide_false by (by destruct s).
    rewrite find_slash_app by done. rewrite take_app_length.
    replace (drop (S (length s)) (s ++ SLASH :: rest)) with rest
      by (rewrite drop_app_ge by lia; by replace (S (length s) - length s)%nat with 1%nat by lia).
    change (walk n (s :: s' :: names)) with (match List.find (λ c, bool_decide (name c = s)) (children n) with
      | Some c => walk c (s' :: names) | None => None end).
    destruct (List.find _ (children n)) as [c|]; [|done]. apply IH; [done|]. rewrite length_app in Hf. simpl in Hf. fold rest. lia.
Qed.

(** [DeviceTree::find] returns for every path (fuel beyond its length is
    enough), gives [None] unless the path starts with '/', and for '/' and
    the names of a chain of nodes joined by '/' gives the node reached by
    taking the first child of each name in turn. *)
Theorem DeviceTree_find_correct t path names fuel :
  (length path < fuel)%nat → (length (join names) < fuel)%nat → Forall component names →
  (∃ r, DeviceTree_find fuel t path = Ret r) ∧
  (head path ≠ Some SLASH → DeviceTree_find fuel t path = Ret None) ∧
  DeviceTree_find fuel t (SLASH :: join names) = Ret (walk (root t) names).
Proof.
  intros Hp Hj Hc. split_and!.
  - destruct path as [|b path]; cbn [DeviceTree_find]; [by eexists|]. case_match; [|by eexists].
    apply Node_find_returns. simpl in Hp. lia.
  - destruct path as [|b path]; [done|]. simpl. intros Hne. rewrite (proj2 (Z.eqb_neq b SLASH)); [done|congruence].
  - cbn [DeviceTree_find]. rewrite Z.eqb_refl. by apply Node_find_walk.
Qed.

(** ** Property values *)

(** The typed accessors read back what the encodings wrote: a missing
    property is [NotFound]; a value that begins with a big-endian word is
    that word for [prop_u32]/[prop_u64], a shorter one a read error; a
    zero-terminated UTF-8 value is its string for [prop_str], and an
    unterminated one [Missing0]. *)
Theorem prop_access_correct n k :
  (prop_raw n k = None → has_prop n k = false ∧ prop_len n k = 0 ∧
     prop_u32 n k = Ret (rErr P_NotFound) ∧ prop_u64 n k = Ret (rErr P_NotFound) ∧ prop_str n k = Ret (rErr P_NotFound)) ∧
  (∀ v r, prop_raw n k = Some (be32 v ++ r) → 0 ≤ v < 2 ^ 32 → prop_u32 n k = Ret (rOk v)) ∧
  (∀ v r, prop_raw n k = Some (be64 v ++ r) → 0 ≤ v < 2 ^ 64 → prop_u64 n k = Ret (rOk v)) ∧
  (∀ raw, prop_raw n k = Some raw → len raw < 4 → prop_u32 n k = Ret (rErr (P_SliceReadError UnexpectedEndOfInput))) ∧
  (∀ s, prop_raw n k = Some (s ++ [0]) → is_utf8 s = true → len s < 2 ^ 62 → prop_str n k = Ret (rOk s)) ∧
  (∀ s b, prop_raw n k = Some (s ++ [b]) → b ≠ 0 → len s < 2 ^ 62 → prop_str n k = Ret (rErr P_Missing0)).
Proof.
  assert (∀ l r, at_pos (l ++ r) 0 l) as Hfst by (intros l r; by exists [], r).
  unfold has_prop, prop_len, prop_u32, prop_u32_at, prop_u64, prop_u64_at, prop_str, map_err.
  split_and!; intros *.
  - by intros ->.
  - intros -> Hv. destruct (be32_spec v Hv) as [E B]. cbn [ok_or bindE mbind outcome_bind].
    rewrite (read_be_u32_at _ 0 (be32 v) (Hfst _ r) eq_refl B), E by lia. done.
  - intros -> Hv. destruct (be64_spec v Hv) as [E B]. cbn [ok_or bindE mbind outcome_bind].
    rewrite (read_be_u64_at _ 0 (be64 v) (Hfst _ r) eq_refl B), E by lia. done.
  - intros -> Hl. cbn [ok_or bindE mbind outcome_bind]. by rewrite (proj1 (read_short raw 0 ltac:(lia) ltac:(lia))) by lia.
  - intros -> Hu Hs. cbn [ok_or bindE mbind outcome_bind]. rewrite len_app. change (len [0]) with 1. pose proof (len_nonneg s).
    rewrite (proj2 (Z.ltb_ge _ _)), usub_small by (unfold is_usize; lia). replace (len s + 1 - 1) with (0 + len s) by lia.
    destruct (at_pos_app (s ++ [0]) 0 s [0] ltac:(by exists [], []; rewrite app_nil_r)) as [H1 H2].
    rewrite (index_at _ _ _ _ H2). cbn [mbind outcome_bind negb Z.eqb]. rewrite (slice_at _ _ _ H1). cbn [mbind outcome_bind].
    unfold from_utf8. by rewrite Hu.
  - intros -> Hb Hs. cbn [ok_or bindE mbind outcome_bind]. rewrite len_app. change (len [b]) with 1. pose proof (len_nonneg s).
    rewrite (proj2 (Z.ltb_ge _ _)), usub_small by (unfold is_usize; lia). replace (len s + 1 - 1) with (0 + len s) by lia.
    destruct (at_pos_app (s ++ [b]) 0 s [b] ltac:(by exists [], []; rewrite app_nil_r)) as [H1 H2].
    rewrite (index_at _ _ _ _ H2). cbn [mbind outcome_bind]. by rewrite (proj2 (Z.eqb_neq b 0)) by done.
Qed.

(** ** Witnesses *)

(** "cpus" with a child "cpu@0" that has the property "reg". *)
Definition demo_tbl : list bytes := [[114; 101; 103]; [97]].
Definition demo_cpu : Node := mkDTNode [99; 112; 117; 64; 48] [([114; 101; 103], be32 7); ([97], [104; 105; 0])] [].
Definition demo_tree : DeviceTree :=
  mkDT 17 0 [(2 ^ 31, 4096); (0, 0)] (mkDTNode [] [] [mkDTNode [99; 112; 117; 115] [] [demo_cpu]]).

Lemma DeviceTree_load_total_witness : ∃ r, DeviceTree_load 50 (replicate 48 208) = Ret r.
Proof.
  destruct (DeviceTree_load_total 50 (replicate 48 208)) as (r & Hr & _); [|done|simpl; lia|by exists r].
  apply Forall_replicate. unfold byte_ok. lia.
Defined.

Lemma DeviceTree_roundtrip_witness : DeviceTree_load 300 (flatten demo_tbl demo_tree) = Ret (rOk demo_tree).
Proof. apply DeviceTree_roundtrip; [vm_compute; reflexivity..|]. apply Nat.ltb_lt. vm_compute. reflexivity. Defined.

Lemma DeviceTree_find_correct_witness :
  DeviceTree_find 20 demo_tree (SLASH :: join [[99; 112; 117; 115]; [99; 112; 117; 64; 48]]) = Ret (Some demo_cpu).
Proof.
  apply (DeviceTree_find_correct demo_tree [] [[99; 112; 117; 115]; [99; 112; 117; 64; 48]] 20); [simpl; lia|simpl; lia|].
  repeat constructor; (done || by_compute).
Defined.

Lemma prop_access_correct_witness : prop_u32 demo_cpu [114; 101; 103] = Ret (rOk 7).
Proof. by apply (proj1 (proj2 (prop_access_correct demo_cpu [114; 101; 103])) 7 []). Defined.
