(* ===== verification/Console.v ===== *)
(** * arch/riscv64/sbi.rs, stdio.rs, debug.rs, panic.rs and klib/memory.rs

    What the kernel asks of the firmware is a sequence of calls, the state
    [sbi_calls]; the firmware's answers are a parameter.  A character is its
    code point.  [put_u64] prints a word in hexadecimal. *)

From S2P Require Import Prelude.

(** ** sbi.rs *)

Definition SBI_SET_TIMER : Z := 0x0.
Definition SBI_CONSOLE_PUTCHAR : Z := 0x1.
Definition SBI_CONSOLE_GETCHAR : Z := 0x2.
Definition SBI_CLEAR_IPI : Z := 0x3.
Definition SBI_SEND_IPI : Z := 0x4.
Definition SBI_REMOTE_FENCE_I : Z := 0x5.
Definition SBI_REMOTE_SFENCE_VMA : Z := 0x6.
Definition SBI_REMOTE_SFENCE_VMA_ASID : Z := 0x7.
Definition SBI_SHUTDOWN : Z := 0x8.
Definition SBI_HSM : Z := 0x48534D.
Definition SBI_EXT_SRST : Z := 0x53525354.
Definition SBI_EXT_SRST_RESET : Z := 0.
Definition SBI_SRST_RESET_TYPE_SHUTDOWN : Z := 0.
Definition SBI_SRST_RESET_TYPE_COLD_REBOOT : Z := 1.
Definition SBI_SRST_RESET_TYPE_WARM_REBOOT : Z := 2.
Definition SBI_SRST_RESET_REASON_NONE : Z := 0.
Definition SBI_SRST_RESET_REASON_SYS_FAILURE : Z := 1.

(** The registers a7, a6, a0, a1, a2 at an [ecall]. *)
Record SbiCall := mkCall { eid : Z; fid : Z; arg0 : Z; arg1 : Z; arg2 : Z }.

Section console.
(** What the firmware answers, by the calls made so far. *)
Context (firmware : list SbiCall → SbiCall → Z * Z).

Definition sbi_call (e f a0 a1 a2 : Z) : M (list SbiCall) (Z * Z) := λ calls,
  let c := mkCall e f a0 a1 a2 in Ret (firmware calls c, calls ++ [c]).

Definition console_putchar (ch : Z) : M (list SbiCall) unit :=
  _ ← sbi_call SBI_CONSOLE_PUTCHAR 0 ch 0 0; mret ().
Definition sbi_srst_reset (tid reason : Z) : M (list SbiCall) unit :=
  _ ← sbi_call SBI_EXT_SRST SBI_EXT_SRST_RESET tid reason 0; mret ().
Definition sbi_srst_power_off : M (list SbiCall) unit :=
  sbi_srst_reset SBI_SRST_RESET_TYPE_SHUTDOWN SBI_SRST_RESET_REASON_NONE.
Definition machine_power_off : M (list SbiCall) unit := sbi_srst_power_off.

(** ** stdio.rs *)

Fixpoint StdOut_puts (s : list Z) : M (list SbiCall) unit :=
  match s with
  | [] => mret ()
  | c :: s => console_putchar c;; StdOut_puts s
  end.

(** The body of the loop of [put_u64]; [c] is a [u8]. *)
Definition hex_digit (n i : Z) : Z :=
  let c := Z.land (ushr n ((16 - i) * 4)) 0xF mod 256 in
  if 10 <=? c then ((c - 10) mod 256 + 65) mod 256 else (c + 48) mod 256.

(** [for i in 1..=16]. *)
Fixpoint put_u64_loop (n : Z) (k : nat) (i : Z) : M (list SbiCall) unit :=
  match k with
  | O => mret ()
  | S k => console_putchar (hex_digit n i);; put_u64_loop n k (i + 1)
  end.
Definition put_u64 (n : Z) : M (list SbiCall) unit := put_u64_loop n 16 1.

Definition write_str : list Z → M (list SbiCall) unit := StdOut_puts.

(** ** debug.rs *)

Definition CRITICAL : Z := 0.
Definition ALWAYS : Z := 0.
Definition WARN : Z := 1.
Definition INFO : Z := 2.
Definition SPEW : Z := 3.
Definition DEBUG_PRINT_LEVEL : Z := INFO.

(** [args]: the formatted text. *)
Definition dprintf (level : Z) (args : list Z) : M (list SbiCall) unit :=
  if level <=? DEBUG_PRINT_LEVEL then write_str args else mret ().

(** ** panic.rs *)

(** What the handler does before its endless loop. *)
Definition panic_actions (info : list Z) : M (list SbiCall) unit :=
  write_str (info ++ [10]);; machine_power_off.
Definition panic_handler (info : list Z) : M (list SbiCall) unit := panic_actions info;; spin.

(** ** Console output *)

(** The characters sent to the console, in order. *)
Definition console_text (calls : list SbiCall) : list Z :=
  arg0 <$> filter (λ c, eid c = SBI_CONSOLE_PUTCHAR) calls.

Definition putchar_call (ch : Z) : SbiCall := mkCall SBI_CONSOLE_PUTCHAR 0 ch 0 0.

Lemma StdOut_puts_run s calls : StdOut_puts s calls = Ret ((), calls ++ (putchar_call <$> s)).
Proof.
  revert calls. induction s as [|c s IH]; intros calls; cbn [StdOut_puts]; [by rewrite app_nil_r|].
  erewrite M_bind_run by reflexivity. rewrite IH. by rewrite <-app_assoc.
Qed.

Lemma console_text_app l1 l2 : console_text (l1 ++ l2) = console_text l1 ++ console_text l2.
Proof. unfold console_text. by rewrite filter_app, fmap_app. Qed.

Lemma console_text_puts s : console_text (putchar_call <$> s) = s.
Proof. induction s as [|c s IH]; [done|]. unfold console_text in *.
  by rewrite fmap_cons, filter_cons_True, fmap_cons, IH by done. Qed.

(** *** Hexadecimal *)

(** The value of a digit and of a sequence of digits. *)
Definition digit_value (c : Z) : Z := if c <? 65 then c - 48 else c - 55.
Definition is_hex_digit (c : Z) : Prop := 48 ≤ c ≤ 57 ∨ 65 ≤ c ≤ 70.
Definition parse_hex (s : list Z) : Z := foldl (λ acc c, acc * 16 + digit_value c) 0 s.

(** The digits from the [i]-th on, [k] of them. *)
Fixpoint digits (n : Z) (k : nat) (i : Z) : list Z :=
  match k with O => [] | S k => hex_digit n i :: digits n k (i + 1) end.

Lemma put_u64_loop_run n k i calls :
  put_u64_loop n k i calls = Ret ((), calls ++ (putchar_call <$> digits n k i)).
Proof.
  revert i calls. induction k as [|k IH]; intros i calls.
  { cbn. by rewrite app_nil_r. }
  cbn [put_u64_loop]. erewrite M_bind_run by reflexivity. rewrite IH. cbn [digits].
  by rewrite <-app_assoc.
Qed.

Lemma hex_digit_spec n i : is_usize n → 1 ≤ i ≤ 16 →
  is_hex_digit (hex_digit n i) ∧ digit_value (hex_digit n i) = n / 2 ^ ((16 - i) * 4) mod 16.
Proof.
  intros Hn Hi. unfold hex_digit, ushr. rewrite (Z.mod_small ((16 - i) * 4)) by lia.
  rewrite Z.shiftr_div_pow2 by lia. change 0xF with (Z.ones 4). rewrite Z.land_ones by lia.
  change (2 ^ 4) with 16. set (d := n / _ mod 16).
  assert (0 ≤ d < 16) as Hd by (apply Z.mod_pos_bound; lia).
  rewrite (Z.mod_small d) by lia. unfold digit_value, is_hex_digit.
  destruct (Z.leb_spec 10 d).
  - rewrite (Z.mod_small (d - 10)), Z.mod_small by lia.
    rewrite (proj2 (Z.ltb_ge _ _)) by lia. lia.
  - rewrite Z.mod_small by lia. rewrite (proj2 (Z.ltb_lt _ _)) by lia. lia.
Qed.

Lemma parse_digits n k i acc : is_usize n → 1 ≤ i → i + Z.of_nat k = 17 →
  acc = n / 2 ^ ((17 - i) * 4) →
  foldl (λ acc c, acc * 16 + digit_value c) acc (digits n k i) = n ∧
  Forall is_hex_digit (digits n k i).
Proof.
  intros Hn. revert i acc. induction k as [|k IH]; intros i acc Hi Hk ->.
  { cbn. replace i with 17 by lia. change (2 ^ ((17 - 17) * 4)) with 1. by rewrite Z.div_1_r. }
  cbn [digits foldl].
  destruct (hex_digit_spec n i) as [Hd Hv]; [done|lia|].
  destruct (IH (i + 1) (n / 2 ^ ((17 - i) * 4) * 16 + digit_value (hex_digit n i))) as [H1 H2]; [lia|lia| |].
  - rewrite Hv. replace (17 - (i + 1)) with (16 - i) by lia. set (x := 2 ^ ((16 - i) * 4)).
    replace (2 ^ ((17 - i) * 4)) with (x * 16) by (unfold x; rewrite <-(Z.pow_add_r 2 _ 4) by lia; f_equal; lia).
    rewrite <-Z.div_div by (unfold x; lia). pose proof (Z.div_mod (n / x) 16 ltac:(lia)). lia.
  - split; [done|]. by constructor.
Qed.

(** [put_u64] prints a word as 16 upper-case hexadecimal digits that denote
    it: reading them back gives the word, nothing else is sent to the console,
    and words that print alike are equal. *)
Theorem put_u64_roundtrip n calls :
  is_usize n →
  ∃ s, put_u64 n calls = Ret ((), calls ++ (putchar_call <$> s)) ∧
    console_text (calls ++ (putchar_call <$> s)) = console_text calls ++ s ∧
    length s = 16%nat ∧ Forall is_hex_digit s ∧ parse_hex s = n.
Proof.
  intros Hn. exists (digits n 16 1). destruct (parse_digits n 16 1 0 Hn) as [Hv Hd]; [lia|lia| |].
  { change ((17 - 1) * 4) with 64. symmetry. by apply Z.div_small. }
  split_and!; [apply put_u64_loop_run| | |done|done].
  - by rewrite console_text_app, console_text_puts.
  - done.
Qed.

(** The handler prints its message and asks for power off, then spins. *)
Lemma panic_actions_run info calls :
  ∃ c, panic_actions info calls = Ret ((), calls ++ (putchar_call <$> info ++ [10]) ++ [c]) ∧
    eid c = SBI_EXT_SRST ∧ arg0 c = SBI_SRST_RESET_TYPE_SHUTDOWN ∧ panic_handler info calls = Spin.
Proof.
  eexists. unfold panic_handler.
  assert (panic_actions info calls = Ret ((), calls ++ (putchar_call <$> info ++ [10]) ++
    [mkCall SBI_EXT_SRST SBI_EXT_SRST_RESET SBI_SRST_RESET_TYPE_SHUTDOWN SBI_SRST_RESET_REASON_NONE 0])) as H.
  { unfold panic_actions, write_str. rewrite (M_bind_run _ _ _ _ _ (StdOut_puts_run _ _)).
    by rewrite app_assoc. }
  split_and!; [exact H|done|done|]. by rewrite (M_bind_run _ _ _ _ _ H).
Qed.
End console.

Lemma put_u64_roundtrip_witness :
  parse_hex (console_text [putchar_call 48; putchar_call 65]) = 10 ∧
  ∃ s, put_u64 (λ _ _, (0, 0)) 0xDEADBEEF [] = Ret ((), putchar_call <$> s) ∧
    parse_hex s = 0xDEADBEEF ∧ length s = 16%nat.
Proof.
  split; [reflexivity|].
  destruct (put_u64_roundtrip (λ _ _, (0, 0)) 0xDEADBEEF []) as (s & H1 & _ & H2 & _ & H3); [by_compute|].
  exists s. done.
Defined.

(** ** klib/memory.rs *)

(** Memory by bytes. *)
Fixpoint memset_loop (k : nat) (va value : Z) : M (gmap Z Z) unit :=
  match k with
  | O => mret ()
  | S k => m ← getS;
           (if decide (is_Some (m !! va)) then putS (<[va := value]> m) else fault);;
           memset_loop k va value
  end.
Definition memset (va value size : Z) : M (gmap Z Z) unit := memset_loop (Z.to_nat size) va value.

(** Whatever the size, only the first byte is written. *)
Lemma memset_writes_one_byte va value sz m :
  is_Some (m !! va) → 0 < sz → memset va value sz m = Ret ((), <[va := value]> m).
Proof.
  intros Hm Hs. unfold memset. destruct (Z.to_nat sz) as [|k] eqn:Ek; [lia|]. clear Ek Hs.
  assert (∀ k m, m !! va = Some value → memset_loop k va value m = Ret ((), m)) as Hsame.
  { clear. intros k. induction k as [|k IH]; intros m Hm; [done|]. cbn [memset_loop].
    erewrite M_bind_run by reflexivity. rewrite decide_True by (by eexists).
    erewrite M_bind_run by reflexivity. rewrite insert_id by done. by apply IH. }
  cbn [memset_loop]. erewrite M_bind_run by reflexivity. rewrite decide_True by done.
  erewrite M_bind_run by reflexivity. apply Hsame. apply lookup_insert_eq.
Qed.
