(* ===== verification/Mutex.v ===== *)
(** * locking/mutex.rs and locking/spinlock.rs

    A mutex is a word that holds the id of the owning thread ([tp], the
    address of its [Thread]) and the data.  The operations are translated for
    a caller whose id is [cur].  [mstep] interleaves any number of contexts,
    each with its own id, that lock, read and write the data through a guard
    and drop the guard; the compare-and-exchange of [lock] and of [unlock] is
    one atomic step, and so is each access to the data.  The invariant
    [mutex_inv] of that system gives mutual exclusion and serialisability. *)

From stdpp Require Import functions relations.
From S2P Require Import Prelude.

(** ** spinlock.rs *)

Definition ARCH_SPIN_LOCK_UNLOCKED : Z := 0.
Record RawSpinLock := mkRawSpinLock { _lock : Z }.
Definition RawSpinLock_new : RawSpinLock := mkRawSpinLock ARCH_SPIN_LOCK_UNLOCKED.

(** ** mutex.rs *)

(** [AtomicUsize::compare_exchange]: the old value, as [Ok] or as [Err], and
    the new content. *)
Definition compare_exchange (content expected new : Z) : (Z + Z) * Z :=
  if content =? expected then (inl content, new) else (inr content, content).

Record Mutex (T : Type) := mkMutex {
  owner : Z;
  _wait_lock : RawSpinLock;
  _wait_list : list Z;
  data : T;
}.
Arguments mkMutex {T} _ _ _ _.
Arguments owner {T} _.
Arguments _wait_lock {T} _.
Arguments _wait_list {T} _.
Arguments data {T} _.

Section mutex.
Context {T : Type}.

Definition Mutex_new (t : T) : Mutex T := mkMutex 0 RawSpinLock_new [] t.

Definition set_owner (o : Z) (m : Mutex T) : Mutex T :=
  mkMutex o (_wait_lock m) (_wait_list m) (data m).
Definition set_data (d : T) (m : Mutex T) : Mutex T :=
  mkMutex (owner m) (_wait_lock m) (_wait_list m) d.

(** The atomic access to the [owner] word. *)
Definition owner_compare_exchange (expected new : Z) : M (Mutex T) (Z + Z) := λ m,
  let '(r, o) := compare_exchange (owner m) expected new in Ret (r, set_owner o m).

Definition try_lock_fast (cur : Z) : M (Mutex T) bool :=
  ret ← owner_compare_exchange 0 cur;
  match ret with
  | inl _ => mret true
  | inr val => if val =? cur then panic else mret false
  end.

(** The guard that [lock] returns only carries the lock. *)
Definition Mutex_lock (cur : Z) : M (Mutex T) unit :=
  b ← try_lock_fast cur;
  if negb b then panic else mret ().

Definition unlock_fast (cur : Z) : M (Mutex T) bool :=
  ret ← owner_compare_exchange cur 0;
  match ret with
  | inl _ => mret true
  | inr val => if val =? 0 then panic else mret false
  end.

Definition MutexGuard_unlock (cur : Z) : M (Mutex T) unit :=
  b ← unlock_fast cur;
  if b : bool then mret () else panic.

Definition MutexGuard_deref : M (Mutex T) T := m ← getS; mret (data m).
(** An assignment through [deref_mut]. *)
Definition MutexGuard_deref_mut (d : T) : M (Mutex T) unit := modifyS (set_data d).

Definition MutexGuard_drop (cur : Z) : M (Mutex T) unit := MutexGuard_unlock cur.

(** What the two operations on [owner] come to. *)
Lemma Mutex_lock_run cur m :
  Mutex_lock cur m = if owner m =? 0 then Ret ((), set_owner cur m) else Panic.
Proof.
  unfold Mutex_lock, try_lock_fast, owner_compare_exchange, compare_exchange, mbind, M_bind.
  destruct (owner m =? 0); simpl; [done|]. by destruct (owner m =? cur).
Qed.

Lemma MutexGuard_drop_run cur m :
  MutexGuard_drop cur m = if owner m =? cur then Ret ((), set_owner 0 m) else Panic.
Proof.
  unfold MutexGuard_drop, MutexGuard_unlock, unlock_fast, owner_compare_exchange,
    compare_exchange, mbind, M_bind.
  destruct (owner m =? cur); simpl; [done|]. by destruct (owner m =? 0).
Qed.
End mutex.

(** Run a critical section: lock, the body on the data, drop of the guard. *)
Definition with_lock {S T A} (get : S → Mutex T) (put : Mutex T → S → S) (cur : M S Z)
    (body : M S A) : M S A :=
  c ← cur; zoom get put (Mutex_lock c);;
  a ← body;
  c ← cur; zoom get put (MutexGuard_drop c);; mret a.

Lemma with_lock_run {S T A} (get : S → Mutex T) (put : Mutex T → S → S) (cur : M S Z) (body : M S A)
    s s1 a c c1 :
  cur s = Ret (c, s) → owner (get s) = 0 → body (put (set_owner c (get s)) s) = Ret (a, s1) →
  cur s1 = Ret (c1, s1) → owner (get s1) = c1 →
  with_lock get put cur body s = Ret (a, put (set_owner 0 (get s1)) s1).
Proof.
  intros Hc Ho Hb Hc1 Ho1. unfold with_lock. rewrite (M_bind_run _ _ _ _ _ Hc).
  assert (zoom get put (Mutex_lock c) s = Ret ((), put (set_owner c (get s)) s)) as H1
    by (unfold zoom; by rewrite Mutex_lock_run, Ho).
  rewrite (M_bind_run _ _ _ _ _ H1), (M_bind_run _ _ _ _ _ Hb), (M_bind_run _ _ _ _ _ Hc1).
  assert (zoom get put (MutexGuard_drop c1) s1 = Ret ((), put (set_owner 0 (get s1)) s1)) as H2
    by (unfold zoom; by rewrite MutexGuard_drop_run, Ho1, Z.eqb_refl).
  by rewrite (M_bind_run _ _ _ _ _ H2).
Qed.

(** ** Interleavings *)

Section interleaving.
Context {T : Type} (id : nat → Z).

(** What a context is doing: it holds no guard, or it holds one and may have
    read the data into a local. *)
Inductive pc :=
  | Idle
  | Held (local : option T).

Definition held (p : pc) : bool := if p is Held _ then true else false.

(** [log] collects the updates written so far, the latest first. *)
Record msys := mkSys { mtx : Mutex T; pcs : nat → pc; log : list (T → T) }.

Inductive mstep : msys → msys → Prop :=
  | step_lock c s m' :
      pcs s c = Idle → Mutex_lock (id c) (mtx s) = Ret ((), m') →
      mstep s (mkSys m' (<[c := Held None]> (pcs s)) (log s))
  | step_read c s l v m' :
      pcs s c = Held l → MutexGuard_deref (mtx s) = Ret (v, m') →
      mstep s (mkSys m' (<[c := Held (Some v)]> (pcs s)) (log s))
  | step_write c s v f m' :
      pcs s c = Held (Some v) → MutexGuard_deref_mut (f v) (mtx s) = Ret ((), m') →
      mstep s (mkSys m' (<[c := Held (Some (f v))]> (pcs s)) (f :: log s))
  | step_drop c s l m' :
      pcs s c = Held l → MutexGuard_drop (id c) (mtx s) = Ret ((), m') →
      mstep s (mkSys m' (<[c := Idle]> (pcs s)) (log s)).

Definition msys_init (t : T) : msys := mkSys (Mutex_new t) (λ _, Idle) [].

Definition mreach (t : T) (s : msys) : Prop := rtc mstep (msys_init t) s.

(** At most one context holds a guard; [owner] is its id, or 0; the data is
    what the updates in [log] make of the initial value, and the local copy of
    the holder is up to date. *)
Definition mutex_inv (t : T) (s : msys) : Prop :=
  ∃ o : option nat,
    (∀ c, held (pcs s c) = true ↔ o = Some c) ∧
    owner (mtx s) = from_option id 0 o ∧
    data (mtx s) = foldr (λ f d, f d) t (log s) ∧
    ∀ c v, pcs s c = Held (Some v) → v = data (mtx s).

Lemma held_insert_None (p : nat → pc) c q o :
  (∀ c', held (p c') = true ↔ o = Some c') → o = None → held q = true →
  ∀ c', held (<[c := q]> p c') = true ↔ Some c = Some c'.
Proof.
  intros Ho -> Hq c'. destruct (decide (c' = c)) as [->|Hne].
  - rewrite fn_lookup_insert. naive_solver.
  - rewrite fn_lookup_insert_ne by done. rewrite Ho. naive_solver.
Qed.

Lemma held_insert_Some (p : nat → pc) c q :
  (∀ c', held (p c') = true ↔ Some c = Some c') → held q = true →
  ∀ c', held (<[c := q]> p c') = true ↔ Some c = Some c'.
Proof.
  intros Ho Hq c'. destruct (decide (c' = c)) as [->|Hne].
  - rewrite fn_lookup_insert. naive_solver.
  - by rewrite fn_lookup_insert_ne.
Qed.

Lemma mutex_inv_init t : mutex_inv t (msys_init t).
Proof. exists None. split_and!; [naive_solver|done..]. Qed.

Hypothesis id_nonzero : ∀ c, id c ≠ 0.

Lemma mutex_inv_step t s s' : mutex_inv t s → mstep s s' → mutex_inv t s'.
Proof.
  intros (o & Ho & Hw & Hd & Hl) Hs.
  assert (∀ c, held (pcs s c) = true → o = Some c) as Hh by (intros; by apply Ho).
  destruct Hs as [c s m' Hc E|c s l v m' Hc E|c s v f m' Hc E|c s l m' Hc E].
  - rewrite Mutex_lock_run in E. destruct (Z.eqb_spec (owner (mtx s)) 0) as [H0|]; [|done].
    simplify_eq. destruct o as [c'|]; [by destruct (id_nonzero c'); rewrite Hw in H0|].
    exists (Some c). split_and!; [by eapply held_insert_None|done|done|].
    intros c' v. cbn [pcs]. destruct (decide (c' = c)) as [->|]; [by rewrite fn_lookup_insert|].
    rewrite fn_lookup_insert_ne by done. apply Hl.
  - unfold MutexGuard_deref, getS, mbind, M_bind, mret, M_ret in E. simplify_eq.
    specialize (Hh c). rewrite Hc in Hh. specialize (Hh eq_refl) as ->.
    exists (Some c). split_and!; [by apply held_insert_Some|done|done|].
    intros c' v. cbn [pcs]. destruct (decide (c' = c)) as [->|].
    + rewrite fn_lookup_insert. simpl. congruence.
    + rewrite fn_lookup_insert_ne by done. apply Hl.
  - unfold MutexGuard_deref_mut, modifyS in E. simplify_eq.
    specialize (Hh c). rewrite Hc in Hh. specialize (Hh eq_refl) as ->.
    apply Hl in Hc. subst v.
    exists (Some c). split_and!; [by apply held_insert_Some|done|simpl; by rewrite <-Hd|].
    intros c' v. cbn [pcs]. destruct (decide (c' = c)) as [->|Hne].
    + rewrite fn_lookup_insert. simpl. congruence.
    + rewrite fn_lookup_insert_ne by done. intros Hv.
      destruct (Ho c') as [Hx _]. rewrite Hv in Hx. naive_solver.
  - rewrite MutexGuard_drop_run in E. destruct (owner (mtx s) =? id c); [|done]. simplify_eq.
    specialize (Hh c). rewrite Hc in Hh. specialize (Hh eq_refl) as ->.
    exists None. split_and!; [|done|done|].
    + intros c'. cbn [pcs]. destruct (decide (c' = c)) as [->|]; [by rewrite fn_lookup_insert|].
      rewrite fn_lookup_insert_ne, Ho by done. naive_solver.
    + intros c' v. cbn [pcs]. destruct (decide (c' = c)) as [->|]; [by rewrite fn_lookup_insert|].
      rewrite fn_lookup_insert_ne by done. apply Hl.
Qed.

Lemma mutex_inv_reach t s : mreach t s → mutex_inv t s.
Proof.
  unfold mreach. generalize (mutex_inv_init t). generalize (msys_init t).
  intros s0 H0 Hr. induction Hr as [|s1 s2 s3 Hs _ IH]; [done|].
  apply IH. by eapply mutex_inv_step.
Qed.
End interleaving.
Arguments pc : clear implicits.
Arguments msys : clear implicits.

(** C5: Mutual exclusion.  However contexts with ids other than 0 interleave
    their steps, at most one holds a guard; while one does, [lock] panics for
    every caller, the holder included (there is no waiting), and the holder's
    [drop] succeeds and frees the mutex. *)
Theorem Mutex_mutual_exclusion {T} (id : nat → Z) (t : T) s c :
  (∀ c, id c ≠ 0) → mreach id t s → held (pcs s c) = true →
  (∀ c', held (pcs s c') = true → c' = c) ∧
  (∀ c', Mutex_lock (id c') (mtx s) = Panic) ∧
  MutexGuard_drop (id c) (mtx s) = Ret ((), set_owner 0 (mtx s)).
Proof.
  intros Hid Hr Hc. destruct (mutex_inv_reach id Hid t s Hr) as (o & Ho & Hw & _ & _).
  apply Ho in Hc as ->. split_and!.
  - intros c' Hc'. apply Ho in Hc'. by simplify_eq.
  - intros c'. rewrite Mutex_lock_run, Hw. simpl.
    destruct (Z.eqb_spec (id c) 0); [by destruct (Hid c)|done].
  - rewrite MutexGuard_drop_run, Hw. by rewrite Z.eqb_refl.
Qed.

(** C24: Serialisability.  Whatever the interleaving, the data of a mutex is the
    initial value after the updates written so far, one after the other: no
    update is lost, although a context reads and writes in separate steps. *)
Theorem Mutex_serialisable {T} (id : nat → Z) (t : T) s :
  (∀ c, id c ≠ 0) → mreach id t s →
  data (mtx s) = foldr (λ f d, f d) t (log s).
Proof. intros Hid Hr. by destruct (mutex_inv_reach id Hid t s Hr) as (o & _ & _ & Hd & _). Qed.

(** C25: Progress.  In every reachable state any context gets the lock within two
    steps of some run: the holder, if there is one, can always release (its
    [drop] never panics), and a free mutex can be locked at once.  No state is
    a deadlock. *)
Theorem Mutex_progress {T} (id : nat → Z) (t : T) s c :
  (∀ c, id c ≠ 0) → mreach id t s →
  ∃ n s', (n ≤ 2)%nat ∧ nsteps (mstep id) n s s' ∧ held (pcs s' c) = true ∧ owner (mtx s') = id c.
Proof.
  intros Hid Hr. destruct (mutex_inv_reach id Hid t s Hr) as (o & Ho & Hw & _ & _).
  assert (∀ s1 : msys T, pcs s1 c = Idle → owner (mtx s1) = 0 →
    ∃ s2, mstep id s1 s2 ∧ held (pcs s2 c) = true ∧ owner (mtx s2) = id c) as Hlock.
  { intros s1 Hc H0. eexists. split; [apply (step_lock id c); [done|by rewrite Mutex_lock_run, H0]|].
    cbn [pcs mtx]. by rewrite fn_lookup_insert. }
  destruct o as [h|]; cbn in Hw.
  - destruct (decide (h = c)) as [->|Hne].
    + exists 0%nat, s. split_and!; [lia|constructor|by apply Ho|done].
    + destruct (pcs s h) as [|l] eqn:Eh; [by destruct (Ho h) as [_ ?]; rewrite Eh in *; naive_solver|].
      assert (pcs s c = Idle) as Ec.
      { destruct (Ho c) as [Hx _]. destruct (pcs s c); [done|naive_solver]. }
      destruct (Hlock (mkSys (set_owner 0 (mtx s)) (<[h := Idle]> (pcs s)) (log s)))
        as (s2 & Hs2 & Hh & Hown); [cbn; by rewrite fn_lookup_insert_ne|done|].
      exists 2%nat, s2. split_and!; [lia| |done|done].
      econstructor; [|by apply nsteps_once].
      eapply step_drop; [done|]. by rewrite MutexGuard_drop_run, Hw, Z.eqb_refl.
  - assert (pcs s c = Idle) as Ec by (destruct (Ho c) as [Hx _]; destruct (pcs s c); naive_solver).
    destruct (Hlock s) as (s2 & Hs2 & Hh & Hown); [done|done|].
    exists 1%nat, s2. split_and!; [lia|by apply nsteps_once|done|done].
Qed.

(** ** A run of two contexts *)

Definition two_ids (c : nat) : Z := Z.of_nat c + 4096.

Definition two_pcs : nat → pc Z :=
  <[1%nat := Held None]> (<[0%nat := Idle]> (<[0%nat := Held (Some 6)]>
    (<[0%nat := Held (Some 5)]> (<[0%nat := Held None]> (λ _, Idle))))).

Definition two_state : msys Z :=
  mkSys (mkMutex 4097 RawSpinLock_new [] 6) two_pcs [Z.add 1].

(** Context 0 adds 1 to a counter and releases; context 1 locks. *)
Lemma two_reach : mreach two_ids 5 two_state.
Proof.
  eapply rtc_l; [by apply (step_lock _ 0%nat)|].
  eapply rtc_l; [by apply (step_read _ 0%nat _ None)|].
  eapply rtc_l; [by apply (step_write _ 0%nat _ 5 (Z.add 1))|].
  eapply rtc_l; [by apply (step_drop _ 0%nat _ (Some 6))|].
  eapply rtc_l; [by apply (step_lock _ 1%nat)|]. apply rtc_refl.
Qed.

Lemma two_ids_nonzero c : two_ids c ≠ 0.
Proof. unfold two_ids. lia. Qed.

Lemma Mutex_mutual_exclusion_witness :
  held (pcs two_state 1%nat) = true ∧
  (∀ c', held (pcs two_state c') = true → c' = 1%nat) ∧
  (∀ c', Mutex_lock (two_ids c') (mtx two_state) = Panic) ∧
  MutexGuard_drop 4097 (mtx two_state) = Ret ((), set_owner 0 (mtx two_state)).
Proof.
  split; [reflexivity|].
  apply (Mutex_mutual_exclusion two_ids 5 two_state 1%nat);
    [exact two_ids_nonzero|exact two_reach|reflexivity].
Defined.

Lemma Mutex_serialisable_witness : data (mtx two_state) = 1 + 5.
Proof.
  apply (Mutex_serialisable two_ids 5 two_state); [exact two_ids_nonzero|exact two_reach].
Defined.

Lemma Mutex_progress_witness :
  ∃ n s', (n ≤ 2)%nat ∧ nsteps (mstep two_ids) n two_state s' ∧ held (pcs s' 0%nat) = true ∧
    owner (mtx s') = 4096.
Proof.
  apply (Mutex_progress two_ids 5 two_state 0%nat); [exact two_ids_nonzero|exact two_reach].
Defined.

(** Thread id 0.  Before the first [thread_set_current] the id is 0 (start.S
    clears [tp]); then taking the lock leaves [owner] at 0, so that two
    contexts can hold guards at once and an update can be lost. *)
Theorem Mutex_thread_zero :
  ∃ s, mreach (λ _, 0) 5 s ∧
    held (pcs s 0%nat) = true ∧ held (pcs s 1%nat) = true ∧
    data (mtx s) = 6 ∧ foldr (λ f d, f d) 5 (log s) = 7.
Proof.
  eexists. split_and!.
  - eapply rtc_l; [by apply (step_lock _ 0%nat)|].
    eapply rtc_l; [by apply (step_lock _ 1%nat)|].
    eapply rtc_l; [by apply (step_read _ 0%nat _ None)|].
    eapply rtc_l; [by apply (step_read _ 1%nat _ None)|].
    eapply rtc_l; [by apply (step_write _ 0%nat _ 5 (Z.add 1))|].
    eapply rtc_l; [by apply (step_write _ 1%nat _ 5 (Z.add 1))|]. apply rtc_refl.
  - reflexivity.
  - reflexivity.
  - reflexivity.
  - reflexivity.
Qed.
