(* ===== verification/VmCow.v ===== *)
(** * vm/vm_cow_pages.rs, vm/vm_object_paged.rs and vm/page_source.rs

    A paged memory object ([VmObjectPaged]) owns a [VmCowPages], which keeps
    its pages in a page list (VmPageList.v) and places them in the page queues
    (PageQueues.v).  The state of the operations, [vmo_world], has the page
    memory and the page tables, the counts of the page queues, the objects
    behind [Arc]s by address, and the global list of objects.  The theorems
    say exactly which pages [pin_range] pins and what it counts and answers,
    and when [create] succeeds. *)

From Stdlib Require Import Sorted String.
From S2P Require Import Prelude Defs LinkedList Page PageQueues Pmm RBTree VmPageList Mmu Mutex.

#[local] Open Scope Z_scope.

(** ** page_source.rs *)

Record PageSource := mkPageSource {}.
Definition PageSource_new : PageSource := mkPageSource.

(** ** Data of vm_cow_pages.rs *)

Inductive CanOverwriteContent := CO_None | CO_Zero | CO_NonZero.

(** References ([Arc]) are addresses. *)
Record VmCowPages := mkCow {
  cow_base : Z;
  cow_size : Z;
  cow_options : Z;
  cow_pmm_alloc_flags : Z;
  page_list : Mutex VmPageList;
  page_source : Mutex PageSource;
  pinned_page_count : Z;
  paged_ref : Z;
}.

Definition K_NONE : Z := 0.
Definition K_CANNOT_DECOMMIT_ZERO_PAGES : Z := Z.shiftl 1 0.
Definition K_HIDDEN : Z := Z.shiftl 1 1.
Definition K_SLICE : Z := Z.shiftl 1 2.
Definition K_UNPIN_ON_DELETE : Z := Z.shiftl 1 3.
Definition K_INTERNAL_ONLY_MASK : Z := Z.lor K_HIDDEN K_SLICE.

(** ** Data of vm_object_paged.rs *)

Record VmObjectPaged := mkVmo {
  vmo_name : string;
  vmo_options : Z;
  cow_pages : option VmCowPages;
}.

Definition K_RESIZABLE : Z := Z.shiftl 1 0.
Definition K_CONTIGUOUS : Z := Z.shiftl 1 1.
Definition VMO_K_SLICE : Z := Z.shiftl 1 3.
Definition K_DISCARDABLE : Z := Z.shiftl 1 4.
Definition K_ALWAYS_PINNED : Z := Z.shiftl 1 5.
Definition K_CAN_BLOCK_ON_PAGE_REQUESTS : Z := Z.shiftl 1 31.

Definition VmObjectPaged_new (options : Z) : VmObjectPaged := mkVmo EmptyString options None.

Record vmo_world := mkVW {
  vm : mmu PmmNode;
  queue_counts : list Z;
  vmos : gmap Z (Mutex VmObjectPaged);
  ALL_VMOS : Mutex (list Z);
}.

Definition with_vm (m : mmu PmmNode) (w : vmo_world) : vmo_world :=
  mkVW m (queue_counts w) (vmos w) (ALL_VMOS w).
Definition with_vmos (v : gmap Z (Mutex VmObjectPaged)) (w : vmo_world) : vmo_world :=
  mkVW (vm w) (queue_counts w) v (ALL_VMOS w).
Definition with_ALL_VMOS (l : Mutex (list Z)) (w : vmo_world) : vmo_world :=
  mkVW (vm w) (queue_counts w) (vmos w) l.

(** The page queues of [PMM_NODE] link the pages of its memory. *)
Definition pq (w : vmo_world) : PageQueues := mkPQ (mem (frames (vm w))) (queue_counts w).
Definition with_pq (q : PageQueues) (w : vmo_world) : vmo_world :=
  mkVW (mkMmu (tables (vm w)) (with_mem (pq_mem q) (frames (vm w)))) (page_queue_counts q)
    (vmos w) (ALL_VMOS w).

(** A [&mut VmCowPages] that the caller owns goes beside the world. *)
Definition cow_state : Type := VmCowPages * vmo_world.

Definition on_world {A} (m : M vmo_world A) : M cow_state A := zoom snd (λ w s, (s.1, w)) m.
Definition on_queues {A} (m : M PageQueues A) : M cow_state A := on_world (zoom pq with_pq m).
Definition on_page {A} (m : M pmem A) : M cow_state A := on_queues (on_mem m).

Definition cow_with_list (l : Mutex VmPageList) (c : VmCowPages) : VmCowPages :=
  mkCow (cow_base c) (cow_size c) (cow_options c) (cow_pmm_alloc_flags c) l (page_source c)
    (pinned_page_count c) (paged_ref c).
Definition cow_with_pinned (n : Z) (c : VmCowPages) : VmCowPages :=
  mkCow (cow_base c) (cow_size c) (cow_options c) (cow_pmm_alloc_flags c) (page_list c) (page_source c)
    n (paged_ref c).
Definition cow_with_ref (r : Z) (c : VmCowPages) : VmCowPages :=
  mkCow (cow_base c) (cow_size c) (cow_options c) (cow_pmm_alloc_flags c) (page_list c) (page_source c)
    (pinned_page_count c) r.

Definition list_mutex (s : cow_state) : Mutex VmPageList := page_list s.1.
Definition with_list_mutex (l : Mutex VmPageList) (s : cow_state) : cow_state := (cow_with_list l s.1, s.2).
(** Access to the list through a guard. *)
Definition on_page_list {A} (m : M VmPageList A) : M cow_state A :=
  zoom (λ s, data (list_mutex s)) (λ l s, with_list_mutex (set_data l (list_mutex s)) s) m.

Section cow.
(** The caller's thread id; the addresses of the queues' list objects. *)
Context (cur : Z) (queue_addr : Z → Z).

(** ** vm_cow_pages.rs *)

(** [arc]: where the [Arc] of the placeholder object is. *)
Definition VmCowPages_new (arc options pmm_alloc_flags size : Z) : M vmo_world VmCowPages :=
  modifyS (λ w, with_vmos (<[arc := Mutex_new (VmObjectPaged_new options)]> (vmos w)) w);;
  mret (mkCow 0 size options pmm_alloc_flags (Mutex_new VmPageList_new) (Mutex_new PageSource_new) 0 arc).

Definition VmCowPages_create (arc options pmm_alloc_flags size : Z) : M vmo_world (Result VmCowPages) :=
  zx_assert (Z.land options K_INTERNAL_ONLY_MASK =? 0);;
  cow ← VmCowPages_new arc options pmm_alloc_flags size;
  mret (Ok cow).

Definition cow_zero_page (page : Z) : M cow_state unit :=
  pg ← on_page (page_at page);
  let va := paddr_to_physmap (paddr pg) in
  zx_assert (negb (va =? 0));;
  on_world (zoom vm with_vm (arch_zero_page va)).

(** Replace the object part of a page by what a setter makes of it. *)
Definition update_object (page : Z) (f : vm_page_object → outcome vm_page_object) : M cow_state unit :=
  pg ← on_page (page_at page);
  match f (object pg) with
  | Ret o => on_page (update_page (set_obj o) page)
  | _ => panic
  end.

Definition init_vm_page (p : Z) : M cow_state unit :=
  pg ← on_page (page_at p);
  zx_assert (state pg =? ALLOC);;
  on_page (set_state p OBJECT);;
  update_object p (set_pin_count 0);;
  update_object p (λ o, Ret (set_cow_left_split false o));;
  update_object p (λ o, Ret (set_cow_right_split false o));;
  update_object p (λ o, Ret (set_always_need false o));;
  update_object p (set_dirty_state DIRTY_STATE_UNTRACKED).

(** [todo!], both. *)
Definition is_user_pager_backed : M cow_state bool := panic.
Definition is_source_preserving_page_content : M cow_state bool := panic.

(** [this]: the address of the [VmCowPages]. *)
Definition set_not_wired_locked (this page offset : Z) : M cow_state unit :=
  b ← is_source_preserving_page_content;
  if (b : bool) then panic else on_queues (set_anonymous queue_addr page this offset).

(** [box]: where the box of a new node of the page list would be.  The
    [released_page] argument is [None] in every call. *)
Definition add_page (this box : Z) (p : VmPageOrMarker) (offset : Z) (overwrite : CanOverwriteContent)
    (do_range_update : bool) : M cow_state (Result unit) :=
  (if is_page p then
     match PoM_page p with Ret ptr => _ ← on_page (page_at ptr); mret () | _ => panic end
   else if is_reference p then panic
   else zx_assert (is_marker p));;
  s ← getS;
  if cow_size s.1 <=? offset then mret (Err OutOfRange)
  else
    with_lock list_mutex with_list_mutex (mret cur) (
      page ←? on_page_list (lookup_or_allocate box offset);
      if (match overwrite with CO_None => true | _ => false end) then panic
      else
        old ← on_page_list (slot_read page);
        if (match overwrite with CO_Zero => true | _ => false end) && is_page_or_ref old then panic
        else if is_page_or_ref old then panic
        else
          (if is_page p then
             match PoM_page p with
             | Ret low_level_page =>
                 pg ← on_page (page_at low_level_page);
                 zx_assert (state pg =? OBJECT);;
                 zx_assert (pin_count (object pg) =? 0);;
                 set_not_wired_locked this low_level_page offset
             | _ => panic
             end
           else mret ());;
          match PoM_set p with
          | Ret v =>
              on_page_list (slot_write page v);;
              if do_range_update then panic else mret (Ok ())
          | _ => panic
          end).

Definition add_new_page (this box offset page : Z) (overwrite : CanOverwriteContent)
    (zero do_range_update : bool) : M cow_state (Result unit) :=
  zx_assert (IS_PAGE_ALIGNED offset);;
  init_vm_page page;;
  (if zero then cow_zero_page page else mret ());;
  b ← is_source_preserving_page_content;
  if (b : bool) then panic
  else match as_page page with
       | Ret p => add_page this box p offset overwrite do_range_update
       | _ => panic
       end.

(** [boxes]: the addresses for new nodes, one per page. *)
Fixpoint add_new_pages_loop (this : Z) (boxes : list Z) (pages : Z) (overwrite : CanOverwriteContent)
    (zero : bool) (fuel : nat) (offset : Z) : M cow_state (Result Z) :=
  match fuel with
  | O => spin
  | S fuel =>
      p ← on_page (on_lists (List_pop_head pages));
      if p =? null then mret (Ok offset)
      else
        _ ←? add_new_page this (hd null boxes) offset p overwrite zero false;
        add_new_pages_loop this (tail boxes) pages overwrite zero fuel (uadd offset PAGE_SIZE)
  end.

Definition add_new_pages (this : Z) (boxes : list Z) (fuel : nat) (start_offset pages : Z)
    (overwrite : CanOverwriteContent) (zero do_range_update : bool) : M cow_state (Result unit) :=
  zx_assert (match overwrite with CO_NonZero => false | _ => true end);;
  zx_assert (IS_PAGE_ALIGNED start_offset);;
  _ ←? add_new_pages_loop this boxes pages overwrite zero fuel start_offset;
  if do_range_update then panic else mret (Ok ()).

Definition is_slice_locked (c : VmCowPages) : bool := negb (Z.land (cow_options c) K_SLICE =? 0).

Definition move_to_wired_locked (page _offset : Z) : M PageQueues unit := move_to_wired queue_addr page.

(** The closure of [pin_range] with the [next_offset] it captures. *)
Definition pin_func (p : VmPageOrMarker) (page_offset : Z) : M (Z * PageQueues) (Result unit) :=
  let on_q {A} (m : M PageQueues A) : M (Z * PageQueues) A := zoom snd (λ q s, (s.1, q)) m in
  s ← getS;
  if negb (page_offset =? s.1) || negb (is_page p) then mret (Err BadState)
  else
    match PoM_page p with
    | Ret page =>
        pg ← on_q (on_mem (page_at page));
        zx_assert (state pg =? OBJECT);;
        zx_assert (negb (is_loaned pg));;
        if pin_byte (object pg) =? VM_PAGE_OBJECT_MAX_PIN_COUNT then mret (Err BadState)
        else
          let c := (pin_byte (object pg) + 1) mod 256 in
          on_q (on_mem (update_page (set_obj (with_pin c (object pg))) page));;
          (if c =? 1 then on_q (move_to_wired_locked page page_offset) else mret ());;
          modifyS (λ s, (uadd s.1 PAGE_SIZE, s.2));;
          mret (Ok ())
    | _ => panic
    end.

(** The walk of [pin_range]: the page list is the guarded one, the closure's
    state is [next_offset] and the page queues; the result is the answer and
    the final [next_offset]. *)
Definition pin_walk (fuel : nat) (offset end_ : Z) : M cow_state (Result unit * Z) := λ s,
  match for_every_page_in_range pin_func fuel offset end_ (data (list_mutex s), (offset, pq s.2)) with
  | Ret (r, (l, (next_offset, q))) =>
      Ret ((r, next_offset),
           (cow_with_list (set_data l (list_mutex s)) s.1, with_pq q s.2))
  | Panic => Panic | Fault => Fault | Spin => Spin
  end.

Definition pin_range (fuel : nat) (offset len : Z) : M cow_state (Result unit) :=
  s ← getS;
  zx_assert (IS_PAGE_ALIGNED offset);;
  zx_assert (IS_PAGE_ALIGNED len);;
  zx_assert (is_in_range offset len 0 (cow_size s.1));;
  if is_slice_locked s.1 then panic
  else
    with_lock list_mutex with_list_mutex (mret cur) (
      r ← pin_walk fuel offset (uadd offset len);
      match r with
      | (Err e, _) => mret (Err e)
      | (Ok _, next_offset) =>
          let actual := usub next_offset offset / PAGE_SIZE in
          modifyS (λ s, (cow_with_pinned (uadd (pinned_page_count s.1) actual) s.1, s.2));;
          let expected := len / PAGE_SIZE in
          if negb (actual =? expected) then mret (Err BadState) else mret (Ok ())
      end).

Definition set_paged_backlink_locked (r : Z) (c : VmCowPages) : VmCowPages := cow_with_ref r c.

(** ** vm_object_paged.rs *)

Definition check_bits (options refval : Z) : bool := negb (Z.land options refval =? 0).

(** [set_name] calls itself. *)
Fixpoint VmObjectPaged_set_name (fuel : nat) (nm : string) : M VmObjectPaged unit :=
  match fuel with
  | O => spin
  | S fuel => VmObjectPaged_set_name fuel nm
  end.

Section create.
(** The free list of the physical memory manager, the address of the local
    list, the addresses of the two [Arc]s, of the local [VmCowPages] and of
    the boxes of the page list. *)
Context (free_list prealloc_pages arc vmo_ref this : Z) (boxes : list Z).

Definition on_pmm_node {A} (m : M PmmNode A) : M vmo_world A :=
  zoom (λ w, frames (vm w)) (λ f w, with_vm (mkMmu (tables (vm w)) f) w) m.

(** Allocate, add and pin the pages of an object that is always pinned. *)
Definition commit_pinned (fuel : nat) (pmm_alloc_flags size : Z) : M cow_state (Result unit) :=
  on_world (on_pmm_node (on_plist (List_new prealloc_pages)));;
  on_world (on_pmm_node (on_plist (List_init prealloc_pages)));;
  _ ←? on_world (on_pmm_node (pmm_alloc_pages free_list (size / PAGE_SIZE) pmm_alloc_flags prealloc_pages));
  _ ←? add_new_pages this boxes fuel 0 prealloc_pages CO_Zero true false;
  pin_range fuel 0 size.

Definition vmo_at (a : Z) : M vmo_world (Mutex VmObjectPaged) := deref (λ w, vmos w !! a).

(** Run code on the object behind an [Arc]. *)
Definition on_vmo {A} (a : Z) (m : M (Mutex VmObjectPaged) A) : M vmo_world A :=
  x ← vmo_at a;
  match m x with
  | Ret (r, x') => modifyS (λ w, with_vmos (<[a := x']> (vmos w)) w);; mret r
  | Panic => panic | Fault => fault | Spin => spin
  end.

Definition create_common (fuel : nat) (pmm_alloc_flags options size : Z) : M vmo_world (Result Z) :=
  let refval := Z.lor K_CONTIGUOUS K_CAN_BLOCK_ON_PAGE_REQUESTS in
  zx_assert (negb (check_bits options refval));;
  if check_bits options K_RESIZABLE && check_bits options K_ALWAYS_PINNED then mret (Err InvalidArgs)
  else
    let options := if check_bits pmm_alloc_flags PMM_ALLOC_FLAG_CAN_WAIT
                   then Z.lor options K_CAN_BLOCK_ON_PAGE_REQUESTS else options in
    let size := ROUNDUP_PAGE_SIZE size in
    cow ←? VmCowPages_create arc K_NONE pmm_alloc_flags size;
    r ← (λ w, if check_bits options K_ALWAYS_PINNED then
                match commit_pinned fuel pmm_alloc_flags size (cow, w) with
                | Ret (Ok _, (cow, w)) => Ret (Ok cow, w)
                | Ret (Err e, (_, w)) => Ret (Err e, w)
                | Panic => Panic | Fault => Fault | Spin => Spin
                end
              else Ret (Ok cow, w));
    match r with
    | Err e =>
        (* [cow] and its reference to the placeholder are dropped *)
        modifyS (λ w, with_vmos (delete arc (vmos w)) w);;
        mret (Err e)
    | Ok cow =>
        modifyS (λ w, with_vmos (<[vmo_ref := Mutex_new (VmObjectPaged_new options)]> (vmos w)) w);;
        let cow := set_paged_backlink_locked vmo_ref cow in
        (* the last reference to the placeholder is gone *)
        modifyS (λ w, with_vmos (delete arc (vmos w)) w);;
        on_vmo vmo_ref (Mutex_lock cur;;
          v ← MutexGuard_deref;
          MutexGuard_deref_mut (mkVmo (vmo_name v) (vmo_options v) (Some cow));;
          MutexGuard_drop cur);;
        with_lock ALL_VMOS with_ALL_VMOS (mret cur)
          (zoom ALL_VMOS with_ALL_VMOS (l ← MutexGuard_deref; MutexGuard_deref_mut (l ++ [vmo_ref])));;
        mret (Ok vmo_ref)
    end.

Definition VmObjectPaged_create (fuel : nat) (pmm_alloc_flags options size : Z) : M vmo_world (Result Z) :=
  let refval := Z.lor K_CONTIGUOUS K_CAN_BLOCK_ON_PAGE_REQUESTS in
  if check_bits options refval then mret (Err InvalidArgs)
  else create_common fuel pmm_alloc_flags options size.
End create.
End cow.

(** ** Pinning *)

Section pin.
Context (queue_addr : Z → Z).

(** A page that [pin_range] may meet: in its queue, with a pin count and no
    flags in its byte. *)
Definition pinnable (s : PageQueues) (ql : Z → list Z) (x : Z) : Prop :=
  ∃ pg, vpages (pq_mem s) !! x = Some pg ∧ is_loaned pg = false ∧ 0 ≤ pin_byte (object pg) ≤ 31 ∧
    is_queue (page_queue (object pg)) ∧ x ∈ ql (page_queue (object pg)).

(** What pinning does to a page: its count goes up, and with the first pin it
    goes to the wired queue. *)
Definition pinned (pg : vm_page) : vm_page :=
  set_obj (with_queue (if pin_byte (object pg) =? 0 then PAGE_QUEUE_WIRED else page_queue (object pg))
             (with_pin (pin_byte (object pg) + 1) (object pg))) pg.

Definition pin_of (vp : gmap Z vm_page) (x : Z) : Z := from_option (λ pg, pin_byte (object pg)) 0 (vp !! x).

(** The entries of a walk from [next] on that [pin_range] pins: pages at
    consecutive offsets, up to a gap, a marker or a page with 31 pins. *)
Fixpoint pin_prefix (vp : gmap Z vm_page) (next : Z) (l : list (Z * VmPageOrMarker)) :
    list (Z * VmPageOrMarker) :=
  match l with
  | [] => []
  | (off, p) :: l =>
      if (off =? next) && is_page p && negb (pin_of vp (raw p) =? 31)
      then (off, p) :: pin_prefix vp (next + 4096) l else []
  end.

Definition page_ptrs (l : list (Z * VmPageOrMarker)) : list Z :=
  raw <$> filter (λ p, is_page p = true) l.*2.

(** The step from [s] to [s'] pins the pages [ps] and leaves the others where
    they are. *)
Definition pins (ps : list Z) (s : PageQueues) (ql : Z → list Z) (s' : PageQueues) (ql' : Z → list Z) : Prop :=
  queues_inv queue_addr s' ql' ∧
  (∀ x, vpages (pq_mem s') !! x =
        if decide (x ∈ ps) then pinned <$> vpages (pq_mem s) !! x else vpages (pq_mem s) !! x) ∧
  (∀ x q, x ∉ ps → x ∈ ql' q ↔ x ∈ ql q) ∧
  (∀ x, x ∈ ps → ∃ pg, vpages (pq_mem s') !! x = Some pg ∧ x ∈ ql' (page_queue (object pg))).

Lemma pins_nil s ql : queues_inv queue_addr s ql → pins [] s ql s ql.
Proof. intros Hq. split_and!; [done|done|done|]. intros x []%not_elem_of_nil. Qed.

Lemma pins_trans ps ps' s1 q1 s2 q2 s3 q3 :
  ps ## ps' → pins ps s1 q1 s2 q2 → pins ps' s2 q2 s3 q3 → pins (ps ++ ps') s1 q1 s3 q3.
Proof.
  intros Hd (H1 & V1 & O1 & P1) (H2 & V2 & O2 & P2). split_and!; [done| | |].
  - intros x. rewrite V2, V1. repeat case_decide; set_solver.
  - intros x q Hx. rewrite O2, O1 by set_solver. done.
  - intros x [Hx|Hx]%elem_of_app; [|by apply P2].
    destruct (P1 x Hx) as (pg & Hpg & Hin). exists pg. assert (x ∉ ps') by set_solver.
    rewrite V2, decide_False, O2 by done. done.
Qed.

Lemma pinnable_other ps s ql s' ql' x : pins ps s ql s' ql' → x ∉ ps → pinnable s ql x → pinnable s' ql' x.
Proof.
  intros (_ & V & O & _) Hx (pg & Hpg & ?). exists pg. rewrite V, decide_False, O by done. done.
Qed.

(** Changing a page's byte keeps the queues. *)
Lemma queues_inv_pin s ql x pg c :
  queues_inv queue_addr s ql → vpages (pq_mem s) !! x = Some pg →
  queues_inv queue_addr
    (mkPQ (mkPmem (lists (pq_mem s)) (alter (set_obj (with_pin c (object pg))) x (vpages (pq_mem s))))
       (page_queue_counts s)) ql.
Proof.
  intros (Hlen & H0 & Hq & Hd) Hpg. split_and!; [done|done| |done].
  intros q Hiq. destruct (Hq q Hiq) as (Hdll & Hc & Hps). split_and!; [done|done|].
  intros y Hy. destruct (Hps y Hy) as (pg' & Hpg' & ? & ? & ?). unfold queued. cbn [pq_mem vpages].
  destruct (decide (y = x)) as [->|Hne].
  - rewrite lookup_alter_eq, Hpg. eexists. split; [reflexivity|]. simplify_eq.
    by destruct pg as [? [] ? ?].
  - rewrite lookup_alter_ne by done. by exists pg'.
Qed.

Lemma queue_unique s ql q q' x :
  queues_inv queue_addr s ql → is_queue q → is_queue q' → x ∈ ql q → x ∈ ql q' → q = q'.
Proof.
  intros (_ & _ & _ & Hd) Hq Hq' Hx Hx'. destruct (decide (q = q')) as [|Hne]; [done|].
  destruct (Hd q q' Hq Hq' Hne x); set_solver.
Qed.

(** Moving the page [x] to the wired queue, in the lists. *)
Lemma rewired_elem ql old l1 x l2 y q :
  ql old = l1 ++ x :: l2 → y ≠ x →
  let ql1 := upd_q old (l1 ++ l2) ql in
  y ∈ upd_q PAGE_QUEUE_WIRED (x :: ql1 PAGE_QUEUE_WIRED) ql1 q ↔ y ∈ ql q.
Proof.
  intros Hl Hne ql1. subst ql1. unfold upd_q.
  repeat case_decide; subst; rewrite ?Hl; rewrite ?elem_of_cons, ?elem_of_app, ?elem_of_cons; naive_solver.
Qed.

Lemma on_q_run {A} (m : M PageQueues A) o s a s' :
  m s = Ret (a, s') → zoom snd (λ q (t : Z * PageQueues), (t.1, q)) m (o, s) = Ret (a, (o, s')).
Proof. intros Hm. unfold zoom. cbn [snd]. by rewrite Hm. Qed.

Lemma on_mem_page_at s x pg : vpages (pq_mem s) !! x = Some pg → on_mem (page_at x) s = Ret (pg, s).
Proof. intros Hpg. rewrite (on_mem_run _ _ _ _ (page_at_run _ _ _ Hpg)). by destruct s. Qed.

Lemma pin_func_ok s ql p off :
  queues_inv queue_addr s ql → is_page p = true → pinnable s ql (raw p) →
  pin_of (vpages (pq_mem s)) (raw p) ≠ 31 →
  ∃ s' ql', pin_func queue_addr p off (off, s) = Ret (Ok (), (uadd off PAGE_SIZE, s')) ∧
    pins [raw p] s ql s' ql'.
Proof.
  intros Hinv Hp (pg & Hpg & Hln & Hb & Hiq & Hin) H31. unfold pin_of in H31. rewrite Hpg in H31. simpl in H31.
  pose proof Hinv as (_ & _ & Hqs & _). destruct (Hqs _ Hiq) as (_ & _ & Hqd).
  destruct (Hqd _ Hin) as (pg' & Hpg' & _ & Hst & Hobj). rewrite Hpg in Hpg'. injection Hpg' as <-.
  set (c := pin_byte (object pg) + 1). assert (c mod 256 = c) as Ec by (apply Z.mod_small; lia).
  set (s1 := mkPQ (mkPmem (lists (pq_mem s)) (alter (set_obj (with_pin c (object pg))) (raw p) (vpages (pq_mem s))))
               (page_queue_counts s)).
  assert (queues_inv queue_addr s1 ql) as Hinv1 by (by apply queues_inv_pin).
  assert (vpages (pq_mem s1) !! raw p = Some (set_obj (with_pin c (object pg)) pg)) as Hpg1
    by (cbn; by rewrite lookup_alter_eq, Hpg).
  assert (pin_func queue_addr p off (off, s) =
    ((if c =? 1 then zoom snd (λ q (s : Z * PageQueues), (s.1, q)) (move_to_wired_locked queue_addr (raw p) off)
      else mret ());; modifyS (λ s, (uadd s.1 PAGE_SIZE, s.2));; mret (Ok ())) (off, s1)) as Hrun.
  { unfold pin_func. erewrite (M_bind_run getS) by reflexivity. cbn [fst].
    rewrite Z.eqb_refl, Hp. cbn [negb orb]. unfold PoM_page. rewrite Hp.
    rewrite (M_bind_run _ _ _ _ _ (on_q_run _ off _ _ _ (on_mem_page_at _ _ _ Hpg))).
    rewrite Hst, (M_bind_run _ _ _ _ _ eq_refl), Hln, (M_bind_run _ _ _ _ _ eq_refl).
    rewrite (proj2 (Z.eqb_neq _ VM_PAGE_OBJECT_MAX_PIN_COUNT)) by exact H31. cbv zeta. fold c. rewrite Ec.
    rewrite (M_bind_run _ _ _ _ _ (on_q_run _ off _ _ _ (on_mem_run _ _ _ _ (update_page_run _ _ _ _ Hpg)))).
    reflexivity. }
  rewrite Hrun. clear Hrun. destruct (Z.eqb_spec c 1) as [E1|E1].
  - destruct (list_elem_of_split _ _ Hin) as (l1 & l2 & Hl).
    destruct (move_to_queue_spec queue_addr s1 ql (raw p) _ PAGE_QUEUE_WIRED l1 l2 Hinv1 Hiq)
      as (s2 & pg1 & Hmv & Hpg1' & Hvp & Hinv2); [done|done|done|].
    rewrite Hpg1 in Hpg1'. injection Hpg1' as <-.
    assert (vpages (pq_mem s2) !! raw p = Some (pinned pg)) as Hpg2.
    { rewrite Hvp, lookup_alter_eq, Hpg1. unfold pinned. cbn.
      rewrite (proj2 (Z.eqb_eq (pin_byte (object pg)) 0)) by lia. done. }
    exists s2. eexists. split; [|split_and!; [exact Hinv2| | |]].
    + by rewrite (M_bind_run _ _ _ _ _ (on_q_run _ off _ _ _ Hmv)).
    + intros x. case_decide as Hx; [apply list_elem_of_singleton in Hx as ->; by rewrite Hpg|].
      rewrite Hvp, lookup_alter_ne by set_solver. cbn. rewrite lookup_alter_ne by set_solver. done.
    + intros x q Hx. apply rewired_elem; set_solver.
    + intros x ->%list_elem_of_singleton. exists (pinned pg). split; [done|]. unfold pinned. cbn.
      rewrite (proj2 (Z.eqb_eq (pin_byte (object pg)) 0)) by lia. unfold upd_q. rewrite decide_True by done.
      set_solver.
  - assert (set_obj (with_pin c (object pg)) pg = pinned pg) as Ep.
    { unfold pinned. rewrite (proj2 (Z.eqb_neq (pin_byte (object pg)) 0)) by lia. fold c.
      by destruct pg as [? [] ? ?]. }
    exists s1, ql. split; [done|]. split_and!; [done| |done|].
    + intros x. case_decide as Hx; [apply list_elem_of_singleton in Hx as ->; by rewrite Hpg1, Hpg, Ep|].
      cbn. rewrite lookup_alter_ne by set_solver. done.
    + intros x ->%list_elem_of_singleton. eexists. split; [exact Hpg1|]. exact Hin.
Qed.

Lemma pin_func_err s ql p off next :
  queues_inv queue_addr s ql → (is_page p = true → pinnable s ql (raw p)) →
  (off =? next) && is_page p && negb (pin_of (vpages (pq_mem s)) (raw p) =? 31) = false →
  pin_func queue_addr p off (next, s) = Ret (Err BadState, (next, s)).
Proof.
  intros Hinv Hpin Hbad. unfold pin_func. erewrite (M_bind_run getS) by reflexivity. cbn [fst].
  destruct (off =? next); cbn [negb orb andb] in *; [|done].
  destruct (is_page p) eqn:Hp; cbn [negb orb andb] in *; [|done].
  destruct (Hpin eq_refl) as (pg & Hpg & Hln & _ & Hiq & Hin).
  pose proof Hinv as (_ & _ & Hqs & _). destruct (Hqs _ Hiq) as (_ & _ & Hqd).
  destruct (Hqd _ Hin) as (pg' & Hpg' & _ & Hst & _). rewrite Hpg in Hpg'. injection Hpg' as <-.
  unfold pin_of in Hbad. rewrite Hpg in Hbad. simpl in Hbad. apply negb_false_iff in Hbad.
  unfold PoM_page. rewrite Hp.
  rewrite (M_bind_run _ _ _ _ _ (on_q_run _ next _ _ _ (on_mem_page_at _ _ _ Hpg))).
  rewrite Hst, (M_bind_run _ _ _ _ _ eq_refl), Hln, (M_bind_run _ _ _ _ _ eq_refl).
  change VM_PAGE_OBJECT_MAX_PIN_COUNT with 31. by rewrite Hbad.
Qed.

Lemma page_ptrs_cons off p l :
  page_ptrs ((off, p) :: l) = if is_page p then raw p :: page_ptrs l else page_ptrs l.
Proof.
  unfold page_ptrs. rewrite fmap_cons, filter_cons. cbn [snd].
  case_decide as Hp; [by rewrite Hp|]. by destruct (is_page p).
Qed.

Lemma pin_prefix_ptrs vp next l : page_ptrs (pin_prefix vp next l) ⊆ page_ptrs l.
Proof.
  revert next. induction l as [|[off p] l IH]; intros next; [done|]. cbn [pin_prefix].
  destruct (_ && _ && _); [|by intros x []%not_elem_of_nil].
  rewrite !page_ptrs_cons. specialize (IH (next + 4096)). destruct (is_page p); set_solver.
Qed.

(** Pinned pages are at consecutive offsets. *)
Lemma pin_prefix_lookup vp next l i e :
  pin_prefix vp next l !! i = Some e → e.1 = next + 4096 * Z.of_nat i ∧ e ∈ l.
Proof.
  revert next i. induction l as [|[off p] l IH]; intros next i; [done|]. cbn [pin_prefix].
  destruct (Z.eqb_spec off next) as [->|]; [|done].
  destruct (true && is_page p && _); [|done]. destruct i as [|i]; cbn.
  - intros [= <-]. split; [simpl; lia|set_solver +].
  - intros [He Hin]%IH. split; [lia|set_solver + Hin].
Qed.

Lemma pin_prefix_ext vp vp' next l :
  (∀ x, x ∈ page_ptrs l → vp' !! x = vp !! x) → pin_prefix vp' next l = pin_prefix vp next l.
Proof.
  revert next. induction l as [|[off p] l IH]; intros next Hx; [done|]. cbn [pin_prefix].
  rewrite page_ptrs_cons in Hx. destruct (is_page p) eqn:Hp; [|by rewrite !andb_false_r].
  unfold pin_of. rewrite (Hx (raw p)) by set_solver. rewrite IH; [done|].
  intros x Hin. apply Hx. set_solver.
Qed.

Lemma visit_pin l next s ql :
  queues_inv queue_addr s ql → (∀ x, x ∈ page_ptrs l → pinnable s ql x) → NoDup (page_ptrs l) →
  (∀ e, e ∈ l → 0 ≤ e.1 < 2 ^ 64 - 4096) → 
  let done := pin_prefix (vpages (pq_mem s)) next l in
  ∃ s' ql', visit (pin_func queue_addr) 0 l (next, s) =
      Ret (if decide (length done = length l) then Ok () else Err BadState,
           (next + 4096 * Z.of_nat (length done), s')) ∧
    pins (page_ptrs done) s ql s' ql'.
Proof.
  revert next s ql. induction l as [|[off p] l IH]; intros next s ql Hinv Hpin Hnd Hoff.
  { exists s, ql. split; [|by apply pins_nil]. cbn. by rewrite Z.add_0_r. }
  rewrite page_ptrs_cons in Hpin, Hnd. cbn [pin_prefix]. rewrite visit_cons.
  pose proof (Hoff (off, p) ltac:(set_solver +)) as Ho. cbn in Ho.
  rewrite usub_small, Z.sub_0_r by (unfold is_usize; lia).
  destruct ((off =? next) && is_page p && negb (pin_of (vpages (pq_mem s)) (raw p) =? 31)) eqn:Eg.
  - apply andb_true_iff in Eg as [[->%Z.eqb_eq Hp]%andb_true_iff H31%negb_true_iff%Z.eqb_neq].
    rewrite Hp in Hpin, Hnd. apply NoDup_cons in Hnd as [Hni Hnd].
    destruct (pin_func_ok s ql p next Hinv Hp) as (s1 & ql1 & Hrun & Hpins); [apply Hpin; set_solver +|done|].
    rewrite Hrun. cbn [then_ok]. rewrite uadd_small by (unfold is_usize; change PAGE_SIZE with 4096; lia).
    destruct (IH (next + PAGE_SIZE) s1 ql1) as (s2 & ql2 & Hv & Hpins2).
    { apply Hpins. }
    { intros x Hx. apply (pinnable_other _ _ _ _ _ _ Hpins); [set_solver|]. apply Hpin. set_solver + Hx. }
    { done. } { intros e He. apply Hoff. set_solver + He. }
    change PAGE_SIZE with 4096 in *.
    rewrite (pin_prefix_ext (vpages (pq_mem s))) in Hv, Hpins2
      by (intros x Hx; destruct Hpins as (_ & V & _); rewrite V, decide_False by set_solver; done).
    exists s2, ql2. split.
    + rewrite Hv. cbn [length]. f_equal. f_equal; [|f_equal; lia].
      repeat case_decide; congruence.
    + rewrite page_ptrs_cons, Hp. apply (pins_trans [raw p] _ s ql s1 ql1); [|done|done].
      intros x ->%list_elem_of_singleton Hx. by apply pin_prefix_ptrs in Hx.
  - rewrite (pin_func_err s ql p off next Hinv); [|intros Hp; rewrite Hp in Hpin; apply Hpin; set_solver +|done].
    exists s, ql. split; [|by apply pins_nil]. cbn. by rewrite Z.add_0_r.
Qed.

End pin.

(** ** Claims *)

(** The page list of an object between operations: well formed, not skewed,
    not locked. *)
Definition cow_inv (c : VmCowPages) (t : tree) : Prop :=
  vpl_inv (data (page_list c)) t ∧ list_skew (data (page_list c)) = 0 ∧ owner (page_list c) = 0 ∧
  is_usize (cow_size c).

Definition entries_in (t : tree) (lo hi : Z) : list (Z * VmPageOrMarker) :=
  filter (in_range lo hi) (list_pages (elems t)).

Lemma list_pages_bounds s t e : vpl_inv s t → e ∈ list_pages (elems t) → 0 ≤ e.1 < 2 ^ 64 - 65536.
Proof.
  intros (_ & Hok & _) He. apply list_elem_of_In, in_concat in He as (es & Hin & He).
  apply in_map_iff in Hin as (n & <- & Hn). apply list_elem_of_In in Hn, He.
  rewrite Forall_forall in Hok. destruct (Hok n Hn) as (Ho & Hm & Hb & H16).
  apply enum_slots_bounds in He. rewrite H16, Ho in He. rewrite MAX_SIZE_eq in Hb. lia.
Qed.

Lemma with_list_lock {A} cur (body : M cow_state A) c w a c1 w1 :
  owner (page_list c) = 0 →
  body (cow_with_list (set_owner cur (page_list c)) c, w) = Ret (a, (c1, w1)) →
  owner (page_list c1) = cur →
  with_lock list_mutex with_list_mutex (mret cur) body (c, w) =
  Ret (a, (cow_with_list (set_owner 0 (page_list c1)) c1, w1)).
Proof.
  intros Ho Hb Hc.
  by apply (with_lock_run list_mutex with_list_mutex (mret cur) body (c, w) (c1, w1) a cur cur).
Qed.

(** The walk of [pin_range] is the visit of the entries of the range. *)
Lemma pin_walk_run queue_addr cur c w t offset len fuel r :
  vpl_inv (data (page_list c)) t → list_skew (data (page_list c)) = 0 →
  0 ≤ offset → 0 ≤ len → offset + len < 2 ^ 64 → offset mod 4096 = 0 → len mod 4096 = 0 →
  (length (elems t) < fuel)%nat →
  visit (pin_func queue_addr) 0 (entries_in t offset (offset + len)) (offset, pq w) = Ret r →
  pin_walk queue_addr fuel offset (uadd offset len) (cow_with_list (set_owner cur (page_list c)) c, w) =
  Ret ((r.1, r.2.1), (cow_with_list (set_owner cur (page_list c)) c, with_pq r.2.2 w)).
Proof.
  intros Hl Hsk Ho Hlen Hlt Hao Hal Hfuel Hv. unfold pin_walk. cbn [fst snd]. unfold list_mutex at 1.
  cbn [fst cow_with_list page_list set_owner data]. rewrite uadd_small by (unfold is_usize; lia).
  assert ((offset + len) mod 4096 = 0) as Hah by (rewrite Z.add_mod, Hao, Hal by lia; done).
  rewrite (for_every_page_spec (pin_func queue_addr) (data (page_list c)) t)
    by (rewrite ?Hsk, ?Z.add_0_r; first [done|lia]).
  rewrite Hsk, !Z.add_0_r. fold (entries_in t offset (offset + len)). rewrite Hv.
  by destruct r as [? [? ?]].
Qed.

Lemma pin_prefix_bound s t vp lo hi :
  vpl_inv s t → let n := Z.of_nat (length (pin_prefix vp lo (entries_in t lo hi))) in
  lo + 4096 * n < 2 ^ 64 - 4096 ∨ n = 0.
Proof.
  intros Hl n. subst n. set (done := pin_prefix _ _ _). destruct (length done) as [|k] eqn:E; [right; lia|left].
  destruct (lookup_lt_is_Some_2 done k ltac:(lia)) as [e He].
  apply pin_prefix_lookup in He as [He Hine]. apply list_elem_of_filter in Hine as [_ Hine].
  pose proof (list_pages_bounds _ _ _ Hl Hine). lia.
Qed.

(** C10: Pinning a range of an object.  [pin_range] walks over the committed
    entries of the range and pins the pages up to the first gap, marker or
    page with 31 pins: their counts go up by one, pages pinned for the first
    time move to the wired queue, all other pages and queues stay as they
    are, the queue invariant is kept and the lock is released.  It answers
    [Ok] exactly when that is every page of the range; it counts the pages it
    pinned, except when the walk stops early: then they stay pinned but
    [pinned_page_count] is as before. *)
Theorem pin_range_exact cur queue_addr c w t ql offset len fuel :
  cow_inv c t → is_slice_locked c = false → queues_inv queue_addr (pq w) ql →
  0 ≤ offset → 0 ≤ len → offset mod 4096 = 0 → len mod 4096 = 0 → offset + len ≤ cow_size c →
  let entries := entries_in t offset (offset + len) in
  (∀ x, x ∈ page_ptrs entries → pinnable (pq w) ql x) → NoDup (page_ptrs entries) →
  (length (elems t) < fuel)%nat →
  let done := pin_prefix (vpages (pq_mem (pq w))) offset entries in
  let n := Z.of_nat (length done) in
  ∃ q' ql', pins queue_addr (page_ptrs done) (pq w) ql q' ql' ∧
    pin_range cur queue_addr fuel offset len (c, w) =
    if decide (length done = length entries)
    then Ret (if n =? len / 4096 then Ok () else Err BadState,
              (cow_with_pinned (uadd (pinned_page_count c) n) c, with_pq q' w))
    else Ret (Err BadState, (c, with_pq q' w)).
Proof.
  intros (Hl & Hsk & Hown & Hsz) Hsl Hq Ho Hlen Hao Hal Hin entries Hpin Hnd Hfuel done n.
  unfold is_usize in Hsz.
  destruct (visit_pin queue_addr entries offset (pq w) ql Hq Hpin Hnd) as (q' & ql' & Hv & Hpins).
  { intros e [_ He]%list_elem_of_filter. pose proof (list_pages_bounds _ _ _ Hl He). lia. }
  fold done in Hv, Hpins. exists q', ql'. split; [done|].
  set (c1 := cow_with_list (set_owner cur (page_list c)) c).
  pose proof (pin_walk_run queue_addr cur c w t offset len fuel _ Hl Hsk Ho Hlen ltac:(lia) Hao Hal Hfuel Hv) as Hw.
  fold c1 in Hw. cbn [fst snd] in Hw. fold n in Hw.
  unfold pin_range. erewrite (M_bind_run getS) by reflexivity.
  rewrite (proj2 (IS_PAGE_ALIGNED_spec offset)), (M_bind_run _ _ _ _ _ eq_refl) by done.
  rewrite (proj2 (IS_PAGE_ALIGNED_spec len)), (M_bind_run _ _ _ _ _ eq_refl) by done.
  cbn [fst]. assert (is_in_range offset len 0 (cow_size c) = true) as ->
    by (apply is_in_range_spec; unfold is_usize; lia). rewrite (M_bind_run _ _ _ _ _ eq_refl), Hsl.
  assert (∀ k, cow_with_list (set_owner 0 (page_list (cow_with_pinned k c1))) (cow_with_pinned k c1) =
               cow_with_pinned k c) as Ek.
  { intros k. destruct c as [? ? ? ? [] ? ? ?]. cbn in *. by rewrite Hown. }
  assert (cow_with_list (set_owner 0 (page_list c1)) c1 = c) as Ec
    by (destruct c as [? ? ? ? [] ? ? ?]; cbn in *; by rewrite Hown).
  assert (usub (offset + 4096 * n) offset / PAGE_SIZE = n) as En.
  { pose proof (pin_prefix_bound _ t (vpages (pq_mem (pq w))) offset (offset + len) Hl) as Hn.
    cbv zeta in Hn. fold entries in Hn. fold done in Hn. fold n in Hn.
    rewrite usub_small by (unfold is_usize; lia). change PAGE_SIZE with 4096.
    replace (offset + 4096 * n - offset) with (n * 4096) by lia. apply Z.div_mul. lia. }
  case_decide as Hd.
  - rewrite <-Ek. eapply with_list_lock; [done| |done]. fold c1.
    rewrite (M_bind_run _ _ _ _ _ Hw). cbv beta iota zeta. rewrite En.
    erewrite (M_bind_run (modifyS _)) by reflexivity. cbn [fst snd].
    change PAGE_SIZE with 4096. by destruct (n =? len / 4096).
  - rewrite <-Ec at 2. eapply with_list_lock; [done| |done]. fold c1.
    rewrite (M_bind_run _ _ _ _ _ Hw). reflexivity.
Qed.

(** A page list with page 64 (of the demo queues) at offset 0 and a marker at
    0x1000. *)
Definition demo_cow_node : VmPageListNode :=
  mkPLN 0 ([mkPoM 64; PoM_marker] ++ replicate 14 PoM_empty).
Definition demo_cow_tree : tree := Node Black 8 0 demo_cow_node Leaf Leaf.
Definition demo_cow : VmCowPages :=
  mkCow 0 0x4000 K_NONE 0
    (Mutex_new (mkVPL (mkRBTree {[8 := mkRBNode Black 0 0 0 0 demo_cow_node]} 8 1) 0))
    (Mutex_new PageSource_new) 0 0.
Definition demo_vw : vmo_world :=
  mkVW (mkMmu ∅ (mkPmm (pq_mem demo_pq) [] 0 0)) (page_queue_counts demo_pq) ∅ (Mutex_new []).

Lemma demo_cow_inv : cow_inv demo_cow demo_cow_tree.
Proof.
  split_and!; [|reflexivity|reflexivity|by_compute]. split_and!.
  - split_and!; try reflexivity.
    + split_and!; [repeat split; reflexivity|reflexivity|by apply (bool_decide_unpack _)..].
    + repeat constructor.
    + exists 1%nat. repeat split; reflexivity.
  - repeat constructor; vm_compute; intros [=].
  - repeat constructor.
  - by_compute.
Qed.

(** The walk stops at the marker: the page before it stays pinned, the count
    of pinned pages is still 0. *)
Lemma pin_range_exact_witness :
  ∃ q' ql', pins demo_queue_addr [64] demo_pq demo_ql q' ql' ∧
    pin_range 7 demo_queue_addr 5 0 0x2000 (demo_cow, demo_vw) =
    Ret (Err BadState, (demo_cow, with_pq q' demo_vw)) ∧ pinned_page_count demo_cow = 0.
Proof.
  destruct (pin_range_exact 7 demo_queue_addr demo_cow demo_vw demo_cow_tree demo_ql 0 0x2000 5)
    as (q' & ql' & Hp & Hr).
  - exact demo_cow_inv.
  - reflexivity.
  - exact demo_pq_inv.
  - lia.
  - lia.
  - reflexivity.
  - reflexivity.
  - vm_compute. discriminate.
  - intros x. vm_replace (page_ptrs (entries_in demo_cow_tree 0 (0 + 0x2000))) [64]. intros Hx.
    apply list_elem_of_singleton in Hx as ->.
    eexists. split; [reflexivity|]. split; [reflexivity|]. split; [split; vm_compute; discriminate|].
    split; [split; [vm_compute; discriminate|reflexivity]|]. vm_compute. constructor.
  - vm_replace (page_ptrs (entries_in demo_cow_tree 0 (0 + 0x2000))) [64]. repeat constructor.
    intros []%not_elem_of_nil.
  - vm_compute. lia.
  - exists q', ql'. split; [exact Hp|]. split; [exact Hr|reflexivity].
Defined.

(** ** Creating an object *)

(** The object [create] makes, with its back link. *)
Definition created_vmo (vmo_ref pmm_alloc_flags options size : Z) : VmObjectPaged :=
  mkVmo EmptyString options
    (Some (mkCow 0 (ROUNDUP_PAGE_SIZE size) K_NONE pmm_alloc_flags (Mutex_new VmPageList_new)
             (Mutex_new PageSource_new) 0 vmo_ref)).

Lemma ROUNDUP_page_overflow x : x < 2 ^ 64 → 2 ^ 64 ≤ x + 4095 → ROUNDUP_PAGE_SIZE x = 0.
Proof.
  intros H1 H2. unfold ROUNDUP_PAGE_SIZE, ROUNDUP. rewrite PAGE_SIZE_eq, usub_pow2_1 by lia.
  unfold uadd, usize_wrap. rewrite <-(Z.mod_add _ (-1)), Z.mod_small by lia.
  set (y := x + _ + _). assert (0 ≤ y < 4096) as Hy by lia. clearbody y.
  replace (unot (2 ^ 12 - 1)) with (Z.ldiff (Z.ones 64) (Z.ones 12)) by reflexivity.
  apply Z.bits_inj'. intros i Hi. rewrite Z.land_spec, Z.ldiff_spec, Z.bits_0.
  destruct (decide (i < 12)).
  - rewrite (Z.ones_spec_low 12) by lia. by rewrite andb_false_r, andb_false_r.
  - rewrite <-(Z.mod_small y (2 ^ 12)), Z.mod_pow2_bits_high by lia. done.
Qed.

Section creating.
Context (cur : Z) (queue_addr : Z → Z) (free_list prealloc_pages arc vmo_ref this : Z) (boxes : list Z).

Lemma vmos_created (m : gmap Z (Mutex VmObjectPaged)) x y z :
  arc ≠ vmo_ref → m !! arc = None →
  <[vmo_ref := z]> (delete arc (<[vmo_ref := y]> (<[arc := x]> m))) = <[vmo_ref := z]> m.
Proof.
  intros Hne Hm. apply map_eq. intros k. destruct (decide (k = vmo_ref)) as [->|].
  { by rewrite !lookup_insert_eq. }
  rewrite !lookup_insert_ne by done. destruct (decide (k = arc)) as [->|].
  { by rewrite lookup_delete_eq. }
  by rewrite lookup_delete_ne, !lookup_insert_ne by done.
Qed.

Lemma check_bits_lor a b c : check_bits (Z.lor a b) c = check_bits a c || check_bits b c.
Proof.
  unfold check_bits. rewrite Z.land_lor_distr_l.
  destruct (Z.eqb_spec (Z.land a c) 0) as [->|Ha]; [by rewrite Z.lor_0_l|].
  destruct (Z.eqb_spec (Z.lor (Z.land a c) (Z.land b c)) 0) as [E|]; [|done].
  by apply Z.lor_eq_0_iff in E as [].
Qed.

(** Storing the pages in the new object, and registering it. *)
Lemma store_cow_run a v cow w :
  vmos w !! a = Some (Mutex_new v) →
  on_vmo a (Mutex_lock cur;; x ← MutexGuard_deref;
            MutexGuard_deref_mut (mkVmo (vmo_name x) (vmo_options x) (Some cow));; MutexGuard_drop cur) w =
  Ret ((), with_vmos (<[a := Mutex_new (mkVmo (vmo_name v) (vmo_options v) (Some cow))]> (vmos w)) w).
Proof.
  intros Hv. unfold on_vmo, vmo_at. rewrite (M_bind_run _ _ _ _ _ (deref_run (λ w, vmos w !! a) _ _ Hv)).
  assert (Mutex_lock cur (Mutex_new v) = Ret ((), set_owner cur (Mutex_new v))) as Hl
    by (by rewrite Mutex_lock_run).
  rewrite (M_bind_run _ _ _ _ _ Hl). erewrite (M_bind_run MutexGuard_deref) by reflexivity.
  erewrite (M_bind_run (MutexGuard_deref_mut _)) by reflexivity.
  rewrite MutexGuard_drop_run. cbn [owner set_data set_owner]. rewrite Z.eqb_refl. reflexivity.
Qed.

Lemma register_run w :
  owner (ALL_VMOS w) = 0 →
  with_lock ALL_VMOS with_ALL_VMOS (mret cur)
    (zoom ALL_VMOS with_ALL_VMOS (l ← MutexGuard_deref; MutexGuard_deref_mut (l ++ [vmo_ref]))) w =
  Ret ((), with_ALL_VMOS (set_data (data (ALL_VMOS w) ++ [vmo_ref]) (ALL_VMOS w)) w).
Proof.
  intros Ho. erewrite (with_lock_run ALL_VMOS with_ALL_VMOS (mret cur) _ w) by reflexivity || exact Ho.
  destruct w as [? ? ? []]. cbn in *. by rewrite Ho.
Qed.

(** C29: Creating an object that is not always pinned.  [create] refuses the
    options it must not be called with and changes nothing then; otherwise it
    registers exactly one new object, unlocked, with an empty page list, the
    options asked for (plus the flag for waiting), and a size rounded up to
    pages; a size within a page of 2^64 is rounded to 0.  The pages refer back
    to the object that owns them. *)
Theorem VmObjectPaged_create_exact fuel pmm_alloc_flags options size w :
  owner (ALL_VMOS w) = 0 → arc ≠ vmo_ref → vmos w !! arc = None → is_usize size →
  check_bits options K_ALWAYS_PINNED = false →
  VmObjectPaged_create cur queue_addr free_list prealloc_pages arc vmo_ref this boxes fuel
    pmm_alloc_flags options size w =
  (if check_bits options (Z.lor K_CONTIGUOUS K_CAN_BLOCK_ON_PAGE_REQUESTS) then Ret (Err InvalidArgs, w)
   else
     let options := if check_bits pmm_alloc_flags PMM_ALLOC_FLAG_CAN_WAIT
                    then Z.lor options K_CAN_BLOCK_ON_PAGE_REQUESTS else options in
     Ret (Ok vmo_ref,
          mkVW (vm w) (queue_counts w)
            (<[vmo_ref := Mutex_new (created_vmo vmo_ref pmm_alloc_flags options size)]> (vmos w))
            (set_data (data (ALL_VMOS w) ++ [vmo_ref]) (ALL_VMOS w)))) ∧
  (size + 4095 < 2 ^ 64 → (4096 | ROUNDUP_PAGE_SIZE size) ∧ size ≤ ROUNDUP_PAGE_SIZE size < size + 4096) ∧
  (2 ^ 64 ≤ size + 4095 → ROUNDUP_PAGE_SIZE size = 0).
Proof.
  intros Hall Hne Hfr Hsz Hpin. split_and!.
  - unfold VmObjectPaged_create. destruct (check_bits options (Z.lor _ _)) eqn:Ecb; [done|].
    unfold create_common. rewrite Ecb, (M_bind_run _ _ _ _ _ eq_refl), Hpin, andb_false_r. cbv zeta.
    set (opts := if check_bits pmm_alloc_flags _ then _ else options).
    assert (check_bits opts K_ALWAYS_PINNED = false) as Hopts
      by (subst opts; destruct (check_bits pmm_alloc_flags _); [by rewrite check_bits_lor, Hpin|done]).
    erewrite bindR_run by reflexivity. erewrite M_bind_run by (rewrite Hopts; reflexivity).
    cbv beta iota.
    erewrite (M_bind_run (modifyS _)) by reflexivity.
    erewrite (M_bind_run (modifyS _)) by reflexivity.
    erewrite M_bind_run.
    2:{ apply (store_cow_run vmo_ref (VmObjectPaged_new opts)). cbn.
        by rewrite lookup_delete_ne, lookup_insert_eq by done. }
    erewrite M_bind_run by (apply register_run; exact Hall). cbn. rewrite vmos_created by done. reflexivity.
  - intros Hs. exact (ROUNDUP_bounds size 12 ltac:(lia) (proj1 Hsz) ltac:(lia)).
  - intros Hs. apply ROUNDUP_page_overflow; [apply Hsz|done].
Qed.
End creating.

Lemma VmObjectPaged_create_exact_witness :
  VmObjectPaged_create 7 demo_queue_addr 100 200 300 400 500 [] 5 0 K_RESIZABLE 0x1001 demo_vw =
  Ret (Ok 400, mkVW (vm demo_vw) (queue_counts demo_vw)
                 {[400 := Mutex_new (created_vmo 400 0 K_RESIZABLE 0x1001)]} (Mutex_new [400])) ∧
  ROUNDUP_PAGE_SIZE 0x1001 = 0x2000.
Proof.
  split; [|reflexivity].
  refine (proj1 (VmObjectPaged_create_exact 7 demo_queue_addr 100 200 300 400 500 [] 5 0 K_RESIZABLE 0x1001
    demo_vw _ _ _ _ _)); [reflexivity|discriminate|reflexivity|by_compute|reflexivity].
Defined.
