(* ===== verification/Thread.v ===== *)
(** * sched.rs, thread.rs, percpu.rs, vm/kstack.rs and arch/riscv64/smp.rs, irq.rs

    The state [tworld] has the [tp] register, the interrupt flags, the
    [Thread] and [Scheduler] objects by address, the list nodes, and the two
    locked globals [PERCPU_ARRAY] and [THREAD_LIST].  A [PerCPU] object at [p]
    is its idle thread at [p + idle_off] and its scheduler at [p + sched_off];
    the offsets of fields, which the compiler chooses, are parameters.  The
    main theorem says what [thread_init_early] leaves behind: the boot thread
    running on cpu 0 with the bookkeeping of its scheduler in order. *)

From Stdlib Require Import String.
From S2P Require Import Prelude Defs LinkedList Pmm RBTree VmPageList Vmar Mmu Aspace Mutex VmCow.

#[local] Open Scope Z_scope.

(** ** sched.rs: data *)

Definition sched_ms (milliseconds : Z) : Z := umul 1000000 milliseconds.
Definition K_DEFAULT_MINIMUM_GRANULARITY : Z := sched_ms 1.

Definition K_PRIORITY_TO_WEIGHT_TABLE : list Z :=
  [121;   149;   182;   223;   273;   335;   410;   503;   616;   754;  924;
   1132;  1386;  1698;  2080;  2549;  3122;  3825;  4685;  5739;  7030; 8612;
   10550; 12924; 15832; 19394; 23757; 29103; 35651; 43672; 53499; 65536].

(** An index out of range panics. *)
Definition priority_to_weight (priority : Z) : outcome Z :=
  match K_PRIORITY_TO_WEIGHT_TABLE !! Z.to_nat priority with Some w => Ret w | None => Panic end.

Record SchedFairParams := mkFair { fair_weight : Z }.
Record SchedDeadlineParams := mkDeadline {}.
Inductive SchedDiscipline :=
  | Discipline_None
  | Fair (p : SchedFairParams)
  | _Deadline (p : SchedDeadlineParams).

Inductive ThreadState :=
  | ThreadInitial | _ThreadReady | ThreadRunning | _ThreadBlocked
  | _ThreadBlockedReadLock | _ThreadSleeping | _ThreadSuspended | _ThreadDeath.

Record SchedulerState := mkSS {
  base_priority : Z;
  effective_priority : Z;
  inherited_priority : Z;
  expected_runtime_ns : Z;
  discipline : SchedDiscipline;
  active : bool;
  ss_state : ThreadState;
  curr_cpu : Z;
  last_cpu : Z;
  next_cpu : Z;
  hard_affinity : Z;
}.

Definition SchedulerState_new : SchedulerState :=
  mkSS 0 0 0 0 Discipline_None false ThreadInitial INVALID_CPU INVALID_CPU INVALID_CPU CPU_MASK_ALL.

Definition set_discipline (d : SchedDiscipline) (s : SchedulerState) : SchedulerState :=
  mkSS (base_priority s) (effective_priority s) (inherited_priority s) (expected_runtime_ns s) d
    (active s) (ss_state s) (curr_cpu s) (last_cpu s) (next_cpu s) (hard_affinity s).

Record Scheduler := mkScheduler {
  this_cpu : Z;
  active_thread : Z;
  weight_total : Z;
  runnable_fair_task_count : Z;
  total_expected_runtime_ns : Z;
  exported_total_expected_runtime_ns : Z;
  _performance_scale : Z;
  performance_scale_reciprocal : Z;
}.

Definition Scheduler_new : Scheduler := mkScheduler 0 null 0 0 0 0 1 1.

Definition scale_up (self : Scheduler) (value : Z) : Z := umul value (performance_scale_reciprocal self).

Definition update_total_expected_runtime (delta_ns : Z) (s : Scheduler) : Scheduler :=
  let total := uadd (total_expected_runtime_ns s) delta_ns in
  mkScheduler (this_cpu s) (active_thread s) (weight_total s) (runnable_fair_task_count s) total
    (scale_up s total) (_performance_scale s) (performance_scale_reciprocal s).

(** ** kstack.rs *)

Definition DEFAULT_STACK_SIZE : Z := ARCH_DEFAULT_STACK_SIZE.
Record StackType := mkStackType { stack_name : string; stack_size : Z }.
Definition K_SAFE : StackType := mkStackType "kernel-safe-stack" DEFAULT_STACK_SIZE.

Record KernelStackMapping := mkKSM { ks_base : Z; ks_size : Z; ks_vmar : VmAddressRegion }.
Definition KernelStackMapping_new : KernelStackMapping := mkKSM 0 0 VmAddressRegion_new.
Definition KernelStackMapping_top (m : KernelStackMapping) : Z := uadd (ks_base m) (ks_size m).

Record KernelStack := mkKernelStack { main_map : KernelStackMapping }.
Definition KernelStack_new : KernelStack := mkKernelStack KernelStackMapping_new.

(** The address spaces behind their lock, and the memory objects. *)
Record kstack_world := mkKW { ASPACE_LIST : Mutex (list VmAspace); vw : vmo_world }.

Section kstack.
Context (cur : Z) (queue_addr : Z → Z) (free_list prealloc_pages arc vmo_ref this : Z) (boxes : list Z).

(** [set_name] does not return, and a [todo!] follows it. *)
Definition allocate_map (fuel : nat) (stype : StackType) (map : KernelStackMapping) :
    M kstack_world (Result unit) :=
  let on_vw {A} (m : M vmo_world A) : M kstack_world A := zoom vw (λ v k, mkKW (ASPACE_LIST k) v) m in
  zx_assert (ks_base map =? 0);;
  zx_assert (ks_size map =? 0);;
  with_lock ASPACE_LIST (λ l k, mkKW l (vw k)) (mret cur) (
    k ← getS;
    match data (ASPACE_LIST k) with
    | [] => fault
    | kernel_aspace :: _ =>
        match VmAspace_root_vmar kernel_aspace with
        | Ret _vmar =>
            stack_vmo ←? on_vw (VmObjectPaged_create cur queue_addr free_list prealloc_pages arc vmo_ref
                                  this boxes fuel PMM_ALLOC_FLAG_ANY K_ALWAYS_PINNED (stack_size stype));
            on_vw (on_vmo stack_vmo (Mutex_lock cur;;
              zoom data set_data (VmObjectPaged_set_name fuel (stack_name stype))));;
            panic
        | _ => panic
        end
    end).

Definition KernelStack_init (fuel : nat) (s : KernelStack) : M kstack_world (Result unit) :=
  allocate_map fuel K_SAFE (main_map s).
End kstack.

(** ** thread.rs: data *)

Definition THREAD_FLAG_DETACHED : Z := Z.shiftl 1 0.
Definition THREAD_FLAG_FREE_STRUCT : Z := Z.shiftl 1 1.

Record ThreadArg := mkThreadArg {}.
(** The entry point of a thread that has none panics when run. *)
Definition dummy_thread_start_entry (_arg : option ThreadArg) : outcome (Result unit) := Panic.

Record ThreadInfo := mkInfo { ti_flags : Z; _preempt_count : Z; ti_cpu : Z }.
Definition ThreadInfo_new : ThreadInfo := mkInfo 0 0 0.

Record PreemptionState := mkPreempt { preempt_state : Z }.
Definition K_MAX_COUNT_VALUE : Z := 0x7fff.
Definition K_PREEMPT_DISABLE_MASK : Z := K_MAX_COUNT_VALUE.
Definition PreemptionState_new : PreemptionState := mkPreempt 0.
Definition preempt_disable_count (st : Z) : Z := Z.land st K_PREEMPT_DISABLE_MASK.
(** The counter is incremented before the assertion on its old value. *)
Definition preempt_disable : M PreemptionState unit := λ p,
  let old_state := preempt_state p in
  zx_assert (preempt_disable_count old_state <? K_MAX_COUNT_VALUE) (mkPreempt (u32_wrap (old_state + 1))).

Definition ThreadStartEntry : Type := option ThreadArg → outcome (Result unit).
Record TaskState := mkTask { entry : ThreadStartEntry; arg : option ThreadArg }.
Definition TaskState_new : TaskState := mkTask dummy_thread_start_entry None.
Definition TaskState_init (e : ThreadStartEntry) (a : option ThreadArg) (_ : TaskState) : TaskState := mkTask e a.

(** [queue_node] is in the list memory. *)
Record Thread := mkThread {
  thread_info : ThreadInfo;
  thread_name : string;
  percpu_field : Z;
  sched_state : SchedulerState;
  task_state : TaskState;
  preemption_state : PreemptionState;
  stack : KernelStack;
}.

Definition NUM_PRIORITIES : Z := 32.
Definition _LOWEST_PRIORITY : Z := 0.
Definition HIGHEST_PRIORITY : Z := NUM_PRIORITIES - 1.
Definition _DPC_PRIORITY : Z := NUM_PRIORITIES - 2.
Definition _IDLE_PRIORITY : Z := _LOWEST_PRIORITY.
Definition _LOW_PRIORITY : Z := NUM_PRIORITIES / 4.
Definition DEFAULT_PRIORITY : Z := NUM_PRIORITIES / 2.
Definition _HIGH_PRIORITY : Z := (NUM_PRIORITIES / 4) * 3.

Definition Thread_new : Thread :=
  mkThread ThreadInfo_new EmptyString null SchedulerState_new TaskState_new PreemptionState_new KernelStack_new.

Definition with_info (i : ThreadInfo) (t : Thread) : Thread :=
  mkThread i (thread_name t) (percpu_field t) (sched_state t) (task_state t) (preemption_state t) (stack t).
Definition with_percpu (p : Z) (t : Thread) : Thread :=
  mkThread (thread_info t) (thread_name t) p (sched_state t) (task_state t) (preemption_state t) (stack t).
Definition with_ss (s : SchedulerState) (t : Thread) : Thread :=
  mkThread (thread_info t) (thread_name t) (percpu_field t) s (task_state t) (preemption_state t) (stack t).
Definition with_task (k : TaskState) (t : Thread) : Thread :=
  mkThread (thread_info t) (thread_name t) (percpu_field t) (sched_state t) k (preemption_state t) (stack t).
Definition with_preempt (p : PreemptionState) (t : Thread) : Thread :=
  mkThread (thread_info t) (thread_name t) (percpu_field t) (sched_state t) (task_state t) p (stack t).

Definition Thread_set_name (nm : string) (t : Thread) : Thread :=
  mkThread (thread_info t) nm (percpu_field t) (sched_state t) (task_state t) (preemption_state t) (stack t).
Definition detatched (t : Thread) : bool :=
  negb (Z.land (ti_flags (thread_info t)) THREAD_FLAG_DETACHED =? 0).
Definition set_detached (b : bool) (t : Thread) : Thread :=
  let i := thread_info t in
  with_info (mkInfo (if b then Z.lor (ti_flags i) THREAD_FLAG_DETACHED
                     else Z.land (ti_flags i) (Z.lxor u32_max THREAD_FLAG_DETACHED))
               (_preempt_count i) (ti_cpu i)) t.

(** ** The state *)

Record tworld := mkTW {
  tp : Z;
  sstatus : Z;
  threads : gmap Z Thread;
  scheds : gmap Z Scheduler;
  tlists : lmem;
  PERCPU_ARRAY : Mutex (list Z);
  THREAD_LIST : Mutex Z;       (* the address of the list object *)
  kw : kstack_world;
}.

Definition w_tp (x : Z) (w : tworld) := mkTW x (sstatus w) (threads w) (scheds w) (tlists w) (PERCPU_ARRAY w) (THREAD_LIST w) (kw w).
Definition w_threads x (w : tworld) := mkTW (tp w) (sstatus w) x (scheds w) (tlists w) (PERCPU_ARRAY w) (THREAD_LIST w) (kw w).
Definition w_scheds x (w : tworld) := mkTW (tp w) (sstatus w) (threads w) x (tlists w) (PERCPU_ARRAY w) (THREAD_LIST w) (kw w).
Definition w_lists x (w : tworld) := mkTW (tp w) (sstatus w) (threads w) (scheds w) x (PERCPU_ARRAY w) (THREAD_LIST w) (kw w).
Definition w_array x (w : tworld) := mkTW (tp w) (sstatus w) (threads w) (scheds w) (tlists w) x (THREAD_LIST w) (kw w).
Definition w_tlist x (w : tworld) := mkTW (tp w) (sstatus w) (threads w) (scheds w) (tlists w) (PERCPU_ARRAY w) x (kw w).
Definition w_kw x (w : tworld) := mkTW (tp w) (sstatus w) (threads w) (scheds w) (tlists w) (PERCPU_ARRAY w) (THREAD_LIST w) x.

Definition thread_set_current (current : Z) : M tworld unit := modifyS (w_tp current).
Definition thread_get_current : M tworld Z := w ← getS; mret (tp w).

Definition thread_at (t : Z) : M tworld Thread := deref (λ w, threads w !! t).
Definition update_thread (t : Z) (f : Thread → Thread) : M tworld unit :=
  x ← thread_at t; modifyS (λ w, w_threads (<[t := f x]> (threads w)) w).
Definition sched_at (s : Z) : M tworld Scheduler := deref (λ w, scheds w !! s).
Definition update_sched (s : Z) (f : Scheduler → Scheduler) : M tworld unit :=
  x ← sched_at s; modifyS (λ w, w_scheds (<[s := f x]> (scheds w)) w).

(** csr.rs and irq.rs *)
Definition SR_SIE : Z := 0x2.
Definition SR_IE : Z := SR_SIE.
Definition arch_irqs_disabled_flags (flags : Z) : bool := Z.land flags SR_IE =? 0.
Definition arch_irqs_disabled : M tworld bool := w ← getS; mret (arch_irqs_disabled_flags (sstatus w)).

(** Bring a world back to constructor form after an update. *)
Ltac wnorm :=
  cbv beta iota delta [w_tp w_threads w_scheds w_lists w_array w_tlist w_kw
    tp sstatus threads scheds tlists PERCPU_ARRAY THREAD_LIST kw];
  rewrite ?insert_insert_eq.

Section thread.
(** Offsets of [thread_info] and [queue_node] in a [Thread], of the idle
    thread and of the scheduler in a [PerCPU], and the alignment of [Thread]. *)
Context (info_off queue_off idle_off sched_off align_of_thread : Z).

#[local] Instance thread_linked : Linked := {| node_offset := queue_off |}.

(** [ThreadInfo::current()]: the [ThreadInfo] at address [tp]. *)
Definition ThreadInfo_current : M tworld ThreadInfo :=
  c ← thread_get_current; t ← thread_at (c - info_off); mret (thread_info t).

(** [Thread::current()]: the [Thread] at address [tp]. *)
Definition Thread_current : M tworld Thread := c ← thread_get_current; thread_at c.

Definition raw_smp_processor_id : M tworld Z := i ← ThreadInfo_current; mret (ti_cpu i).
Definition arch_curr_cpu_num : M tworld Z := raw_smp_processor_id.

Definition Thread_percpu (t : Z) : M tworld Z :=
  x ← thread_at t; zx_assert (negb (percpu_field x =? null));; mret (percpu_field x).
Definition percpu_ptr : Z → M tworld Z := Thread_percpu.
Definition set_percpu_ptr (t ptr : Z) : M tworld unit :=
  x ← thread_at t; zx_assert (percpu_field x =? null);; update_thread t (with_percpu ptr).

(** ** sched.rs: operations *)

Definition init_thread (thread priority : Z) : M tworld unit :=
  match priority_to_weight priority with
  | Ret weight =>
      update_thread thread (λ t,
        let s := set_discipline (Fair (mkFair weight)) (sched_state t) in
        with_ss (mkSS priority priority (-1) K_DEFAULT_MINIMUM_GRANULARITY (discipline s) (active s)
                   (ss_state s) (curr_cpu s) (last_cpu s) (next_cpu s) (hard_affinity s)) t)
  | _ => panic
  end.

(** [i32] addition. *)
Definition i32_wrap (z : Z) : Z := (z + 2 ^ 31) mod 2 ^ 32 - 2 ^ 31.

Definition init_first_thread (thread : Z) : M tworld unit :=
  current_cpu ← arch_curr_cpu_num;
  init_thread thread HIGHEST_PRIORITY;;
  update_thread thread (λ t,
    let s := sched_state t in
    with_ss (mkSS (base_priority s) (effective_priority s) (inherited_priority s) (expected_runtime_ns s)
               (discipline s) (active s) ThreadRunning current_cpu current_cpu INVALID_CPU
               (cpu_num_to_mask current_cpu)) t);;
  percpu ← Thread_percpu thread;
  let sched := percpu + sched_off in
  update_thread thread (λ t,
    let s := sched_state t in
    with_ss (mkSS (base_priority s) (effective_priority s) (inherited_priority s) (expected_runtime_ns s)
               (discipline s) true (ss_state s) (curr_cpu s) (last_cpu s) (next_cpu s) (hard_affinity s)) t);;
  t ← thread_at thread;
  match discipline (sched_state t) with
  | Fair params =>
      update_sched sched (λ s, mkScheduler (this_cpu s) thread (fair_weight params)
        (i32_wrap (runnable_fair_task_count s + 1)) (total_expected_runtime_ns s)
        (exported_total_expected_runtime_ns s) (_performance_scale s) (performance_scale_reciprocal s));;
      update_sched sched (update_total_expected_runtime (expected_runtime_ns (sched_state t)))
  | _ => panic
  end.

(** ** thread.rs: operations *)

Definition construct_thread (thread : Z) (nm : string) : M tworld unit :=
  update_thread thread (Thread_set_name nm).

Definition arch_thread_construct_first (_t : Z) : M tworld unit := mret ().

Definition thread_preempt_disable (thread : Z) : M tworld unit :=
  t ← thread_at thread;
  match preempt_disable (preemption_state t) with
  | Ret (_, p) => update_thread thread (with_preempt p)
  | _ => panic
  end.

Definition on_tlists {A} (m : M lmem A) : M tworld A := zoom tlists w_lists m.
Definition lock_threads {A} : M tworld A → M tworld A := with_lock THREAD_LIST w_tlist thread_get_current.
Definition lock_percpus {A} : M tworld A → M tworld A := with_lock PERCPU_ARRAY w_array thread_get_current.

Definition thread_construct_first (thread : Z) (nm : string) : M tworld unit :=
  b ← arch_irqs_disabled;
  zx_assert b;;
  construct_thread thread nm;;
  update_thread thread (set_detached true);;
  init_first_thread thread;;
  thread_preempt_disable thread;;
  arch_thread_construct_first thread;;
  lock_threads (w ← getS; on_tlists (List_add_tail (data (THREAD_LIST w)) thread)).

(** ** percpu.rs *)

Definition BOOT_CPU_ID : Z := 0.

(** Both fields of the object are assigned; the zeroed values they replace own
    nothing.  The list node of the idle thread is part of [Thread::new]. *)
Definition PerCPU_init (p : Z) : M tworld unit :=
  if p =? null then fault
  else
    modifyS (λ w, w_scheds (<[p + sched_off := Scheduler_new]> (scheds w)) w);;
    modifyS (λ w, w_lists (mkMem (<[into_node (p + idle_off) := ListNode_new]> (nodes (tlists w)))
                             (refs (tlists w)))
                    (w_threads (<[p + idle_off := Thread_new]> (threads w)) w)).
Definition idle_thread_ptr (p : Z) : Z := p + idle_off.
Definition PerCPU_scheduler (p : Z) : Z := p + sched_off.

Definition PerCPUArray_new : list Z := replicate (Z.to_nat _CONFIG_NR_CPUS) null.
Definition PerCPUArray_get (index : Z) : M tworld Z :=
  w ← getS;
  match data (PERCPU_ARRAY w) !! Z.to_nat index with
  | Some ptr => zx_assert (negb (ptr =? null));; mret ptr
  | None => panic
  end.
Definition PerCPUArray_set (index ptr : Z) : M tworld unit :=
  w ← getS;
  let l := data (PERCPU_ARRAY w) in
  if decide (Z.to_nat index < length l)%nat
  then putS (w_array (set_data (<[Z.to_nat index := ptr]> l) (PERCPU_ARRAY w)) w)
  else panic.

Definition PerCPU_init_boot : M tworld unit :=
  lock_percpus (
    boot_percpu ← PerCPUArray_get BOOT_CPU_ID;
    update_sched (PerCPU_scheduler boot_percpu) (λ s,
      mkScheduler BOOT_CPU_ID (active_thread s) (weight_total s) (runnable_fair_task_count s)
        (total_expected_runtime_ns s) (exported_total_expected_runtime_ns s) (_performance_scale s)
        (performance_scale_reciprocal s));;
    thread_construct_first (idle_thread_ptr boot_percpu) "bootstrap").

(** [boot_percpu]: what [alloc_zeroed] answers. *)
Definition construct_boot_percpu (boot_percpu : Z) : M tworld unit :=
  PerCPU_init boot_percpu;;
  let t := idle_thread_ptr boot_percpu in
  update_thread t (λ x, with_info (mkInfo (ti_flags (thread_info x)) (_preempt_count (thread_info x)) BOOT_CPU_ID) x);;
  update_thread t (with_percpu boot_percpu);;
  thread_set_current t;;
  lock_percpus (PerCPUArray_set BOOT_CPU_ID boot_percpu).

Definition thread_init_early (boot_percpu : Z) : M tworld unit :=
  construct_boot_percpu boot_percpu;;
  c ← arch_curr_cpu_num;
  zx_assert (c =? 0);;
  lock_threads (w ← getS; on_tlists (List_init (data (THREAD_LIST w))));;
  PerCPU_init_boot.

(** ** Creation of threads *)

Section create.
Context (queue_addr : Z → Z) (free_list prealloc_pages arc vmo_ref this : Z) (boxes : list Z).

Definition on_kstack {A} (m : M kstack_world A) : M tworld A := zoom kw w_kw m.

(** [fresh]: what [alloc] answers for a new [Thread], whose contents are then
    [junk].  Every path that gets past the stack ends in [todo!]. *)
Definition create_etc (fuel : nat) (fresh : Z) (junk : Thread) (thread : Z) (nm : string)
    (e : ThreadStartEntry) (a : option ThreadArg) (priority : Z) : M tworld (Result Thread) :=
  thread ← (if thread =? null then
              if fresh =? null then panic
              else modifyS (λ w, w_threads (<[fresh := junk]> (threads w)) w);; mret fresh
            else mret thread);
  zx_assert (IS_ALIGNED thread align_of_thread);;
  construct_thread thread nm;;
  update_thread thread (λ t, with_task (TaskState_init e a (task_state t)) t);;
  init_thread thread priority;;
  t ← thread_at thread;
  cur ← thread_get_current;
  _ ←? on_kstack (KernelStack_init cur queue_addr free_list prealloc_pages arc vmo_ref this boxes fuel (stack t));
  panic.

Definition Thread_create (fuel : nat) (fresh : Z) (junk : Thread) (nm : string) (e : ThreadStartEntry)
    (a : option ThreadArg) (priority : Z) : M tworld (Result Thread) :=
  create_etc fuel fresh junk null nm e a priority.
End create.

(** [todo!], both. *)
Definition Thread_detach : M tworld unit := panic.
Definition Thread_resume : M tworld unit := panic.

(** ** Running *)

Lemma update_thread_run t f w x :
  threads w !! t = Some x → update_thread t f w = Ret ((), w_threads (<[t := f x]> (threads w)) w).
Proof.
  intros Hx. unfold update_thread. by rewrite (M_bind_run _ _ _ _ _ (deref_run (λ w, threads w !! t) _ _ Hx)).
Qed.
Lemma update_sched_run s f w x :
  scheds w !! s = Some x → update_sched s f w = Ret ((), w_scheds (<[s := f x]> (scheds w)) w).
Proof.
  intros Hx. unfold update_sched. by rewrite (M_bind_run _ _ _ _ _ (deref_run (λ w, scheds w !! s) _ _ Hx)).
Qed.
Lemma thread_at_run t w x : threads w !! t = Some x → thread_at t w = Ret (x, w).
Proof. apply (deref_run (λ w, threads w !! t)). Qed.

(** Run an update of the thread or the scheduler that was updated before. *)
Ltac wstep :=
  first [ erewrite M_bind_run by (apply update_thread_run; apply lookup_insert_eq)
        | erewrite M_bind_run by (apply thread_at_run; apply lookup_insert_eq)
        | erewrite M_bind_run by (apply update_sched_run; apply lookup_insert_eq) ]; wnorm.

Hypothesis info_first : info_off = 0.

Lemma arch_curr_cpu_num_run w x :
  threads w !! tp w = Some x → arch_curr_cpu_num w = Ret (ti_cpu (thread_info x), w).
Proof.
  intros Hx. unfold arch_curr_cpu_num, raw_smp_processor_id, ThreadInfo_current.
  assert (thread_get_current w = Ret (tp w, w)) as Hc by reflexivity.
  assert (thread_at (tp w - info_off) w = Ret (x, w)) as Ht
    by (replace (tp w - info_off) with (tp w) by lia; by apply thread_at_run).
  unfold mbind, M_bind. by rewrite Hc, Ht.
Qed.

(** The scheduling state and the scheduler after [init_first_thread] on [cpu]. *)
Definition first_ss (cpu : Z) : SchedulerState :=
  mkSS HIGHEST_PRIORITY HIGHEST_PRIORITY (-1) K_DEFAULT_MINIMUM_GRANULARITY (Fair (mkFair 65536)) true
    ThreadRunning cpu cpu INVALID_CPU (cpu_num_to_mask cpu).
Definition first_sched (t : Z) (s : Scheduler) : Scheduler :=
  update_total_expected_runtime K_DEFAULT_MINIMUM_GRANULARITY
    (mkScheduler (this_cpu s) t 65536 (i32_wrap (runnable_fair_task_count s + 1)) (total_expected_runtime_ns s)
       (exported_total_expected_runtime_ns s) (_performance_scale s) (performance_scale_reciprocal s)).

Lemma init_first_thread_run w x s :
  threads w !! tp w = Some x → percpu_field x ≠ null → scheds w !! (percpu_field x + sched_off) = Some s →
  init_first_thread (tp w) w =
  Ret ((), w_scheds (<[percpu_field x + sched_off := first_sched (tp w) s]> (scheds w))
             (w_threads (<[tp w := with_ss (first_ss (ti_cpu (thread_info x))) x]> (threads w)) w)).
Proof.
  destruct w as [c st ths scs L pa tl k]. cbn [tp threads scheds].
  intros Hx Hp Hs. unfold init_first_thread. rewrite (M_bind_run _ _ _ _ _ (arch_curr_cpu_num_run (mkTW c st ths scs L pa tl k) _ Hx)).
  unfold init_thread. change (priority_to_weight HIGHEST_PRIORITY) with (Ret 65536). cbv beta iota.
  erewrite M_bind_run by (apply update_thread_run; exact Hx). wnorm. wstep.
  unfold Thread_percpu. erewrite M_bind_run.
  2:{ erewrite M_bind_run by (apply thread_at_run; apply lookup_insert_eq). cbn [percpu_field with_ss].
      rewrite (proj2 (Z.eqb_neq _ null)) by exact Hp. reflexivity. }
  cbv zeta. wstep. wstep. cbn [discipline sched_state with_ss set_discipline].
  erewrite M_bind_run by (apply update_sched_run; exact Hs). wnorm.
  erewrite update_sched_run by apply lookup_insert_eq. wnorm. reflexivity.
Qed.

Definition first_thread (nm : string) (x : Thread) : Thread :=
  with_preempt (mkPreempt (u32_wrap (preempt_state (preemption_state x) + 1)))
    (with_ss (first_ss (ti_cpu (thread_info x))) (set_detached true (Thread_set_name nm x))).

Lemma thread_construct_first_run w x s nm l :
  threads w !! tp w = Some x → percpu_field x ≠ null → scheds w !! (percpu_field x + sched_off) = Some s →
  arch_irqs_disabled_flags (sstatus w) = true →
  preempt_disable_count (preempt_state (preemption_state x)) < K_MAX_COUNT_VALUE →
  owner (THREAD_LIST w) = 0 → dll (tlists w) (data (THREAD_LIST w)) l →
  into_node (tp w) ∉ data (THREAD_LIST w) :: l → into_node (tp w) ≠ null →
  is_Some (nodes (tlists w) !! into_node (tp w)) →
  ∃ L, thread_construct_first (tp w) nm w =
      Ret ((), w_lists L (w_scheds (<[percpu_field x + sched_off := first_sched (tp w) s]> (scheds w))
                 (w_threads (<[tp w := first_thread nm x]> (threads w)) w))) ∧
    dll L (data (THREAD_LIST w)) (l ++ [into_node (tp w)]) ∧
    LinkedList.frame (tlists w) L (into_node (tp w) :: data (THREAD_LIST w) :: l).
Proof.
  destruct w as [c st ths scs L0 pa [o wl wls TL] k].
  cbn [tp threads scheds sstatus THREAD_LIST tlists owner data].
  intros Hx Hp Hs Hirq Hpre -> Hdll Hni Hn0 Hnode.
  destruct (List_add_tail_spec _ _ _ c Hdll Hni Hn0 Hnode) as (L & Hadd & Hdll' & Hf).
  exists L. split; [|done]. unfold thread_construct_first.
  erewrite (M_bind_run arch_irqs_disabled) by reflexivity. cbn [sstatus].
  rewrite Hirq, (M_bind_run _ _ _ _ _ eq_refl). unfold construct_thread.
  erewrite M_bind_run by (apply update_thread_run; exact Hx). wnorm. wstep.
  set (x1 := set_detached true (Thread_set_name nm x)).
  erewrite M_bind_run.
  2:{ apply (init_first_thread_run (mkTW c st (<[c := x1]> ths) scs L0 pa (mkMutex 0 wl wls TL) k) x1 s);
        [apply lookup_insert_eq|exact Hp|exact Hs]. }
  wnorm. unfold thread_preempt_disable. erewrite M_bind_run.
  2:{ erewrite M_bind_run by (apply thread_at_run; apply lookup_insert_eq).
      cbn [preemption_state with_ss]. unfold preempt_disable.
      rewrite zx_assert_true by (by apply Z.ltb_lt). cbv beta iota.
      apply update_thread_run. apply lookup_insert_eq. }
  wnorm. erewrite (M_bind_run (arch_thread_construct_first _)) by reflexivity.
  unfold lock_threads. erewrite with_lock_run; [|reflexivity|reflexivity| |reflexivity|].
  2:{ erewrite M_bind_run by reflexivity. unfold on_tlists, zoom, w_tlist.
      cbn [tlists THREAD_LIST data set_owner tp]. rewrite Hadd. reflexivity. }
  2:{ reflexivity. }
  wnorm. reflexivity.
Qed.

(** What [PerCPU_init] and the rest of [construct_boot_percpu] leave. *)
Definition percpu_thread (p : Z) : Thread := with_percpu p Thread_new.

Lemma construct_boot_percpu_run p w :
  p ≠ null → owner (PERCPU_ARRAY w) = 0 → (0 < length (data (PERCPU_ARRAY w)))%nat →
  let t := p + idle_off in
  construct_boot_percpu p w =
  Ret ((), mkTW t (sstatus w) (<[t := percpu_thread p]> (threads w))
             (<[p + sched_off := Scheduler_new]> (scheds w))
             (mkMem (<[into_node t := ListNode_new]> (nodes (tlists w))) (refs (tlists w)))
             (set_data (<[0%nat := p]> (data (PERCPU_ARRAY w))) (PERCPU_ARRAY w)) (THREAD_LIST w) (kw w)).
Proof.
  destruct w as [c st ths scs L0 [o wl wls arr] tl k]. cbn [PERCPU_ARRAY owner data].
  intros Hp -> Hlen. set (t := p + idle_off). unfold construct_boot_percpu, PerCPU_init.
  rewrite (proj2 (Z.eqb_neq p null)) by done. erewrite M_bind_run by reflexivity. wnorm.
  unfold idle_thread_ptr. fold t. wstep. wstep.
  erewrite (M_bind_run (thread_set_current t)) by reflexivity. wnorm.
  unfold lock_percpus. erewrite with_lock_run; [|reflexivity|reflexivity| |reflexivity|].
  2:{ unfold PerCPUArray_set. erewrite M_bind_run by reflexivity. wnorm.
      cbn [data set_owner]. rewrite decide_True by exact Hlen. reflexivity. }
  2:{ reflexivity. }
  wnorm. reflexivity.
Qed.
End thread.

(** [init_boot] on a world whose boot thread is current. *)
Lemma init_boot_run info_off queue_off idle_off sched_off p w s :
  let t := p + idle_off in
  let node := t + queue_off in
  info_off = 0 → p ≠ null → tp w = t → threads w !! t = Some (percpu_thread p) →
  scheds w !! (p + sched_off) = Some s → arch_irqs_disabled_flags (sstatus w) = true →
  owner (PERCPU_ARRAY w) = 0 → data (PERCPU_ARRAY w) !! 0%nat = Some p → owner (THREAD_LIST w) = 0 →
  dll (tlists w) (data (THREAD_LIST w)) [] → node ≠ data (THREAD_LIST w) → node ≠ null →
  is_Some (nodes (tlists w) !! node) →
  ∃ L, PerCPU_init_boot info_off queue_off idle_off sched_off w =
      Ret ((), w_lists L (w_scheds (<[p + sched_off := first_sched t
          (mkScheduler BOOT_CPU_ID (active_thread s) (weight_total s) (runnable_fair_task_count s)
             (total_expected_runtime_ns s) (exported_total_expected_runtime_ns s) (_performance_scale s)
             (performance_scale_reciprocal s))]> (scheds w))
        (w_threads (<[t := first_thread "bootstrap" (percpu_thread p)]> (threads w)) w))) ∧
    dll L (data (THREAD_LIST w)) [node] ∧ LinkedList.frame (tlists w) L [node; data (THREAD_LIST w)].
Proof.
  destruct w as [c st ths scs L0 [o wl wls arr] tl k].
  cbn [tp threads scheds sstatus THREAD_LIST PERCPU_ARRAY tlists owner data].
  intros Hinfo Hp -> Ht Hs Hirq -> Hget Hown Hdll Hne Hn0 Hnode. set (t := p + idle_off) in *.
  set (s' := mkScheduler BOOT_CPU_ID _ _ _ _ _ _ _).
  destruct (thread_construct_first_run info_off queue_off sched_off Hinfo
    (mkTW t st ths (<[p + sched_off := s']> scs) L0 (mkMutex t wl wls arr) tl k) (percpu_thread p) s'
    "bootstrap" []) as (L & Hrun & Hdll' & Hf); try done.
  { apply lookup_insert_eq. } { rewrite list_elem_of_singleton. exact Hne. }
  exists L. split; [|by rewrite app_nil_l in Hdll'].
  unfold PerCPU_init_boot, lock_percpus. erewrite with_lock_run; [|reflexivity|reflexivity| |reflexivity|].
  2:{ erewrite M_bind_run.
      2:{ unfold PerCPUArray_get. erewrite M_bind_run by reflexivity. wnorm. cbn [data set_owner].
          change (Z.to_nat BOOT_CPU_ID) with 0%nat. rewrite Hget. unfold zx_assert. rewrite (proj2 (Z.eqb_neq p null)) by done. reflexivity. }
      unfold PerCPU_scheduler. erewrite M_bind_run by (apply update_sched_run; exact Hs). wnorm.
      exact Hrun. }
  2:{ reflexivity. }
  wnorm. reflexivity.
Qed.

Lemma thread_init_early_spec info_off queue_off idle_off sched_off p w :
  let t := p + idle_off in
  let node := t + queue_off in
  let TL := data (THREAD_LIST w) in
  info_off = 0 → p ≠ null → arch_irqs_disabled_flags (sstatus w) = true →
  owner (PERCPU_ARRAY w) = 0 → data (PERCPU_ARRAY w) = PerCPUArray_new → owner (THREAD_LIST w) = 0 →
  TL ≠ null → is_Some (nodes (tlists w) !! TL) → is_Some (refs (tlists w) !! TL) →
  node ≠ null → node ≠ TL →
  ∃ L,
    thread_init_early info_off queue_off idle_off sched_off p w =
    Ret ((), mkTW t (sstatus w)
      (<[t := mkThread (mkInfo THREAD_FLAG_DETACHED 0 0) "bootstrap" p
                (mkSS 31 31 (-1) 1000000 (Fair (mkFair 65536)) true ThreadRunning 0 0 INVALID_CPU 1)
                TaskState_new (mkPreempt 1) KernelStack_new]> (threads w))
      (<[p + sched_off := mkScheduler 0 t 65536 1 1000000 1000000 1 1]> (scheds w))
      L (set_data (p :: replicate 7 null) (PERCPU_ARRAY w)) (THREAD_LIST w) (kw w)) ∧
    dll L TL [node] ∧ LinkedList.frame (tlists w) L [TL; node].
Proof.
  intros t node TL Hinfo Hp Hirq Hpa Hnew Hown HTL Hn Hr Hn0 Hne.
  destruct w as [c st ths scs L0 [o wl wls arr] [o' wl' wls' tl] k].
  cbn [sstatus PERCPU_ARRAY THREAD_LIST tlists owner data threads scheds kw] in *. subst o o' arr TL.
  unfold thread_init_early.
  rewrite (M_bind_run _ _ _ _ _ (construct_boot_percpu_run queue_off idle_off sched_off p
    (mkTW c st ths scs L0 (mkMutex 0 wl wls PerCPUArray_new) (mkMutex 0 wl' wls' tl) k) Hp eq_refl ltac:(by_compute))).
  cbn [sstatus PERCPU_ARRAY THREAD_LIST tlists threads scheds kw data set_data owner _wait_lock _wait_list].
  fold t. set (t1 := percpu_thread p). set (s1 := Scheduler_new).
  set (L1 := mkMem _ _). set (pa := set_data _ _).
  set (w1 := mkTW _ _ _ _ _ _ _ _).
  rewrite (M_bind_run _ _ _ _ _ (arch_curr_cpu_num_run info_off Hinfo w1 t1 (lookup_insert_eq _ _ _))).
  rewrite (M_bind_run _ _ _ _ _ eq_refl).
  assert (nodes L1 !! tl = nodes L0 !! tl) as EL by (apply lookup_insert_ne; exact Hne).
  destruct (List_init_spec L1 tl HTL) as (L2 & Hinit & Hdll2 & Hf2); [by rewrite EL|exact Hr|].
  assert (nodes L2 !! node = Some ListNode_new) as Hnode.
  { destruct (Hf2 node ltac:(rewrite list_elem_of_singleton; exact Hne)) as [-> _]. apply lookup_insert_eq. }
  destruct (init_boot_run info_off queue_off idle_off sched_off p
    (mkTW t st (<[t := t1]> ths) (<[p + sched_off := s1]> scs) L2 pa (mkMutex 0 wl' wls' tl) k) s1)
    as (L & Hrun & Hdll & Hf); try done.
  { apply lookup_insert_eq. } { apply lookup_insert_eq. }
  exists L. split; [|split; [exact Hdll|]].
  - erewrite M_bind_run.
    2:{ unfold lock_threads. eapply with_lock_run; [reflexivity|reflexivity| |reflexivity|].
        - erewrite M_bind_run by reflexivity. unfold on_tlists, zoom. cbn. rewrite Hinit. reflexivity.
        - reflexivity. }
    etransitivity; [exact Hrun|]. wnorm. reflexivity.
  - intros q Hq. apply not_elem_of_cons in Hq as [H1 [H2 _]%not_elem_of_cons].
    destruct (Hf q) as [E1 E2]; [set_solver|]. destruct (Hf2 q) as [E3 E4]; [set_solver|]. cbn in E1, E2.
    rewrite E1, E2, E3, E4. split; [by apply lookup_insert_ne|done].
Qed.


(** Memory for the [PerCPU] at 0x1000, the thread list object at 0x500. *)
Definition demo_tworld : tworld :=
  mkTW 0 0 ∅ ∅ (mkMem {[0x500 := ListNode_new]} {[0x500 := null]}) (Mutex_new PerCPUArray_new)
    (Mutex_new 0x500) (mkKW (Mutex_new []) demo_vw).


(** ** Preemption counter *)

(** The preemption counter stays in its 15 bits.  [preempt_disable] returns
    exactly when the count is below 32767; then the count is one more, and the
    other fields of the word, the eager counter and the flags, are unchanged.
    At 32767 the assertion stops the kernel before a carry is seen. *)
Theorem preempt_disable_exact x :
  0 ≤ x < 2 ^ 32 →
  match preempt_disable (mkPreempt x) with
  | Ret (_, p) =>
      preempt_disable_count x < K_MAX_COUNT_VALUE ∧
      preempt_disable_count (preempt_state p) = preempt_disable_count x + 1 ∧
      Z.shiftr (preempt_state p) 15 = Z.shiftr x 15 ∧ 0 ≤ preempt_state p < 2 ^ 32
  | o => o = Panic ∧ preempt_disable_count x = K_MAX_COUNT_VALUE
  end.
Proof.
  intros Hx. assert (∀ y, preempt_disable_count y = y mod 32768) as Hc
    by (intros y; apply (Z.land_ones y 15); lia).
  unfold preempt_disable, zx_assert. cbn [preempt_state]. rewrite !Hc.
  change K_MAX_COUNT_VALUE with 32767.
  assert (0 ≤ x mod 32768 < 32768) as Hm by (apply Z.mod_pos_bound; lia).
  destruct (Z.ltb_spec (x mod 32768) 32767) as [Hlt|Hge]; cbn [preempt_state]; [|split; [done|lia]].
  change (2 ^ 32) with (131072 * 32768) in Hx |- *.
  assert (0 ≤ x / 32768 < 131072) as Hq
    by (split; [apply Z.div_pos; lia|apply Z.div_lt_upper_bound; lia]).
  pose proof (Z.div_mod x 32768 ltac:(lia)) as Hd. set (q := x / 32768) in *. set (r := x mod 32768) in *.
  assert (u32_wrap (x + 1) = q * 32768 + (r + 1)) as ->.
  { unfold u32_wrap. rewrite Z.mod_small; [lia|]. change (2 ^ 32) with 4294967296. lia. }
  unfold mret, M_ret. cbn [preempt_state]. rewrite Hc, !Z.shiftr_div_pow2 by lia. change (2 ^ 15) with 32768.
  rewrite Z.div_add_l, (Z.div_small (r + 1)), Z.add_0_r by lia.
  rewrite (Z.add_comm (q * 32768)), Z.mod_add, Z.mod_small by lia.
  split_and!; [done|done|done|lia|lia].
Qed.

Lemma preempt_disable_exact_witness :
  preempt_disable (mkPreempt 0x7ffe) = Ret ((), mkPreempt 0x7fff) ∧
  preempt_disable_count 0x7ffe < K_MAX_COUNT_VALUE.
Proof.
  split; [reflexivity|]. assert (0 ≤ 0x7ffe < 2 ^ 32) as H by lia.
  apply (preempt_disable_exact 0x7ffe H).
Defined.

(** ** Priorities *)

Lemma K_PRIORITY_TO_WEIGHT_TABLE_sorted i j x y :
  K_PRIORITY_TO_WEIGHT_TABLE !! i = Some x → K_PRIORITY_TO_WEIGHT_TABLE !! j = Some y →
  (i < j)%nat → x < y.
Proof.
  assert (∀ l : list Z, forallb (λ p : Z * Z, p.1 <? p.2) (zip l (tail l)) = true →
    ∀ i j x y, l !! i = Some x → l !! j = Some y → (i < j)%nat → x < y) as Hgen.
  { clear. induction l as [|a [|b l] IH]; intros Hl i j x y Hi Hj Hij; [done| |].
    - destruct i, j; try lia; done.
    - cbn in Hl. apply andb_true_iff in Hl as [Hab Hl]. apply Z.ltb_lt in Hab. specialize (IH Hl).
      destruct j as [|j]; [lia|]. destruct i as [|i]; [|apply (IH i j); [done|done|lia]].
      cbn in Hi, Hj. simplify_eq. destruct j as [|j]; cbn in Hj; [by simplify_eq|].
      specialize (IH 0%nat (S j) b y eq_refl Hj). lia. }
  apply Hgen. reflexivity.
Qed.


