(* ===== verification/DtScan.v ===== *)
(** * platform/riscv/mod.rs: scanning the device tree

    The part of the platform code that reads the device tree: checking and
    loading the blob, the cells of the root, the command line and the ramdisk
    of /chosen, and the memory ranges of the memory nodes and of
    /reserved-memory.  The theorems relate [parse_reg] to an encoder of [reg]
    properties, say for which cell counts it terminates, and give the ranges
    found in a device tree. *)

From Stdlib Require Import String Ascii.
From S2P Require Import Prelude Defs BootReserve DeviceTree.

#[local] Open Scope Z_scope.

(** String literals of the source as bytes. *)
Definition bs (s : string) : list Z := (λ c, Z.of_N (N_of_ascii c)) <$> list_ascii_of_string s.

Definition MAX_ZBI_MEM_RANGES : Z := 32.

Inductive ZBIMemRangeType := RAM | PERIPHERAL | RESERVED.

Record ZBIMemRange := mkZBI {
  mtype : ZBIMemRangeType;
  zpaddr : Z;
  zlength : Z;
  zreserved : Z;
}.
Definition ZBIMemRange_new (t : ZBIMemRangeType) (pa ln : Z) : ZBIMemRange := mkZBI t pa ln 0.

Definition OF_ROOT_NODE_SIZE_CELLS_DEFAULT : Z := 1.
Definition OF_ROOT_NODE_ADDR_CELLS_DEFAULT : Z := 1.

Definition FDT_MAGIC : Z := 0xd00dfeed.
Definition FDT_MAGIC_OFFSET : Z := 0.
Definition FDT_TOTALSIZE_OFFSET : Z := 4.

(** ** The blob *)

(** [dtb]: the memory from [dtb_va] on. *)
Definition fdt_get_u32 (dtb : list Z) (offset : Z) : outcome Z :=
  match take 4 (drop (Z.to_nat offset) dtb) with
  | [a; b; c; d] => Ret (be [a; b; c; d])
  | _ => Fault
  end.

Definition early_init_dt_verify (dtb_va : Z) (dtb : list Z) : outcome (Result unit) :=
  if dtb_va =? 0 then Ret (Err NoDTB)
  else
    magic ← fdt_get_u32 dtb FDT_MAGIC_OFFSET;
    if negb (magic =? FDT_MAGIC) then Ret (Err BadDTB) else Ret (Ok ()).

Definition early_init_dt_load (fuel : nat) (dtb_va : Z) (dtb : list Z) : outcome (Result DeviceTree) :=
  r ← early_init_dt_verify dtb_va dtb;
  match r with
  | Err e => Ret (Err e)
  | Ok _ =>
      totalsize ← fdt_get_u32 dtb FDT_TOTALSIZE_OFFSET;
      if len dtb <? totalsize then Fault
      else
        t ← DeviceTree_load fuel (take (Z.to_nat totalsize) dtb);
        match t with rOk t => Ret (Ok t) | rErr _ => Ret (Err BadDTB) end
  end.

(** ** Scanning *)

(** Enough fuel for any path. *)
Definition dt_find (t : DeviceTree) (path : list Z) : outcome (option Node) :=
  DeviceTree_find (S (length path)) t path.

(** Code of the device tree crate inside the kernel's state; [unwrap] of its
    results. *)
Definition lift {S A} (o : outcome A) : M S A := λ s,
  match o with Ret a => Ret (a, s) | Panic => Panic | Fault => Fault | Spin => Spin end.
Definition unwrap_prop {S A} (o : outcome (RResult A PropError)) : M S A :=
  r ← lift o; match r with rOk a => mret a | rErr _ => panic end.

Definition early_init_dt_scan_root (t : DeviceTree) : outcome (Z * Z) :=
  r ← dt_find t (bs "/");
  match r with
  | None => Ret (OF_ROOT_NODE_ADDR_CELLS_DEFAULT, OF_ROOT_NODE_SIZE_CELLS_DEFAULT)
  | Some root =>
      a ← prop_u32 root (bs "#address-cells");
      s ← prop_u32 root (bs "#size-cells");
      Ret (match a with rOk a => a | rErr _ => OF_ROOT_NODE_ADDR_CELLS_DEFAULT end,
           match s with rOk s => s | rErr _ => OF_ROOT_NODE_SIZE_CELLS_DEFAULT end)
  end.

Definition early_init_dt_scan_chosen (t : DeviceTree) : M (list BootReserveRange) (list Z) :=
  c ← lift (dt_find t (bs "/chosen"));
  c ← (match c with Some n => mret (Some n) | None => lift (dt_find t (bs "/chosen@0")) end);
  match c with
  | None => mret []
  | Some chosen =>
      (if has_prop chosen (bs "linux,initrd-start") && has_prop chosen (bs "linux,initrd-end") then
         start ← unwrap_prop (prop_u32_at chosen (bs "linux,initrd-start") 0);
         end_ ← unwrap_prop (prop_u32_at chosen (bs "linux,initrd-end") 0);
         zx_assert (IS_PAGE_ALIGNED end_);;
         r ← boot_reserve_add_range start (usub end_ start);
         match r with Ok _ => mret () | Err _ => panic end
       else mret ());;
      s ← lift (prop_str chosen (bs "bootargs"));
      mret (match s with rOk s => s | rErr _ => [] end)
  end.

Section reg.
Context {S : Type} (cb : Z → Z → M S unit).

(** A cell count [c] takes [c << 2] bytes, in [u32]. *)
Definition cell_bytes (c : Z) : Z := u32_wrap (Z.shiftl c 2).

Definition read_cells (node : Node) (cells pos : Z) : M S Z :=
  if cells =? 2 then unwrap_prop (prop_u64_at node (bs "reg") pos)
  else unwrap_prop (prop_u32_at node (bs "reg") pos).

(** [while pos < reg_len]. *)
Fixpoint parse_reg_loop (fuel : nat) (node : Node) (addr_cells size_cells reg_len pos : Z) : M S unit :=
  match fuel with
  | O => spin
  | Datatypes.S fuel =>
      if negb (pos <? reg_len) then mret ()
      else
        base ← read_cells node addr_cells pos;
        let pos := uadd pos (cell_bytes addr_cells) in
        size ← read_cells node size_cells pos;
        let pos := uadd pos (cell_bytes size_cells) in
        (if size =? 0 then mret () else cb base size);;
        parse_reg_loop fuel node addr_cells size_cells reg_len pos
  end.

Definition parse_reg (fuel : nat) (node : Node) (addr_cells size_cells : Z) : M S unit :=
  parse_reg_loop fuel node addr_cells size_cells (prop_len node (bs "reg")) 0.
End reg.

Definition add_memory_arch (base size : Z) : M (list ZBIMemRange) unit :=
  modifyS (λ c, c ++ [ZBIMemRange_new RAM base size]).
Definition add_reserved_memory_arch (base size : Z) : M (list ZBIMemRange) unit :=
  modifyS (λ c, c ++ [ZBIMemRange_new RESERVED base size]).

Fixpoint reserved_loop (fuel : nat) (regions : list Node) (addr_cells size_cells : Z) : M (list ZBIMemRange) unit :=
  match regions with
  | [] => mret ()
  | region :: regions =>
      parse_reg add_reserved_memory_arch fuel region addr_cells size_cells;;
      reserved_loop fuel regions addr_cells size_cells
  end.

Definition early_scan_reserved_mem (fuel : nat) (t : DeviceTree) (addr_cells size_cells : Z) :
    M (list ZBIMemRange) (Result unit) :=
  r ← lift (dt_find t (bs "/reserved-memory"));
  match r with
  | None => mret (Err BadDTB)
  | Some regions => reserved_loop fuel (children regions) addr_cells size_cells;; mret (Ok ())
  end.

(** [for child in &root.children]. *)
Fixpoint memory_loop (fuel : nat) (nodes : list Node) (addr_cells size_cells : Z) : M (list ZBIMemRange) unit :=
  match nodes with
  | [] => mret ()
  | child :: nodes =>
      t ← lift (prop_str child (bs "device_type"));
      (if (match t with rOk t => bool_decide (t = bs "memory") | rErr _ => false end)
       then parse_reg add_memory_arch fuel child addr_cells size_cells
       else mret ());;
      memory_loop fuel nodes addr_cells size_cells
  end.

(** The vector of ranges is local: the state starts empty. *)
Definition early_init_dt_scan_memory (fuel : nat) (t : DeviceTree) (addr_cells size_cells : Z) :
    outcome (Result (list ZBIMemRange)) :=
  r ← dt_find t (bs "/");
  match r with
  | None => Ret (Err BadDTB)
  | Some root =>
      p ← (memory_loop fuel (children root) addr_cells size_cells;;
           early_scan_reserved_mem fuel t addr_cells size_cells) [];
      match p with
      | (Ok _, mem_config) => Ret (Ok mem_config)
      | (Err e, _) => Ret (Err e)
      end
  end.

Definition early_init_dt_scan (fuel : nat) (t : DeviceTree) :
    M (list BootReserveRange) (Result (list ZBIMemRange)) :=
  cells ← lift (early_init_dt_scan_root t);
  _ ← early_init_dt_scan_chosen t;
  lift (early_init_dt_scan_memory fuel t cells.1 cells.2).

(** ** [reg] properties and their encoding *)

Definition enc_cell (c v : Z) : list Z := if c =? 2 then be64 v else be32 v.
Definition cell_ok (c v : Z) : Prop := (c = 1 ∧ 0 ≤ v < 2 ^ 32) ∨ (c = 2 ∧ 0 ≤ v < 2 ^ 64).

Fixpoint enc_regs (ac sc : Z) (ps : list (Z * Z)) : list Z :=
  match ps with
  | [] => []
  | (b, z) :: ps => (enc_cell ac b ++ enc_cell sc z) ++ enc_regs ac sc ps
  end.

(** [node] describes the ranges [ps] in its [reg] property. *)
Definition has_reg (ac sc : Z) (node : Node) (ps : list (Z * Z)) : Prop :=
  match prop_raw node (bs "reg") with
  | Some v => v = enc_regs ac sc ps ∧ Forall (λ p, cell_ok ac p.1 ∧ cell_ok sc p.2) ps ∧ len v < 2 ^ 32
  | None => ps = []
  end.

Lemma cell_bytes_len c v : cell_ok c v → cell_bytes c = len (enc_cell c v).
Proof. by intros [[-> _]|[-> _]]. Qed.

Lemma read_cells_at {S} node buf c v pos (s : S) :
  prop_raw node (bs "reg") = Some buf → at_pos buf pos (enc_cell c v) → cell_ok c v → pos < 2 ^ 63 →
  read_cells node c pos s = Ret (v, s).
Proof.
  intros Hb Hat Hc Hp. unfold read_cells, enc_cell in *.
  unfold unwrap_prop, prop_u64_at, prop_u32_at, ok_or. rewrite Hb.
  destruct Hc as [[-> Hv]|[-> Hv]]; cbn [Z.eqb Pos.eqb] in *.
  - destruct (be32_spec v Hv) as [E B].
    unfold lift, bindE, map_err, mbind, M_bind, outcome_bind.
    by rewrite (read_be_u32_at buf pos _ Hat eq_refl B ltac:(lia)), E.
  - destruct (be64_spec v Hv) as [E B].
    unfold lift, bindE, map_err, mbind, M_bind, outcome_bind.
    by rewrite (read_be_u64_at buf pos _ Hat eq_refl B ltac:(lia)), E.
Qed.

(** What a callback that only updates the state sees. *)
Definition feed {S} (g : Z → Z → S → S) (ps : list (Z * Z)) (s : S) : S :=
  fold_left (λ s p, if p.2 =? 0 then s else g p.1 p.2 s) ps s.

Lemma parse_reg_loop_run {S} (cb : Z → Z → M S unit) g node buf ac sc ps pos fuel (s : S) :
  (∀ b z s, cb b z s = Ret ((), g b z s)) → prop_raw node (bs "reg") = Some buf →
  at_pos buf pos (enc_regs ac sc ps) → pos + len (enc_regs ac sc ps) = len buf → len buf < 2 ^ 32 →
  Forall (λ p, cell_ok ac p.1 ∧ cell_ok sc p.2) ps → (length ps < fuel)%nat →
  parse_reg_loop cb fuel node ac sc (len buf) pos s = Ret ((), feed g ps s).
Proof.
  intros Hcb Hbuf. revert pos fuel s. induction ps as [|[b z] ps IH]; intros pos fuel s Hat Hlen Hb Hok Hf.
  all: (destruct fuel as [|fuel]; [simpl in Hf; lia|]); cbn [parse_reg_loop].
  { cbn [enc_regs] in Hlen. change (len []) with 0 in Hlen. rewrite (proj2 (Z.ltb_ge _ _)) by lia. done. }
  apply Forall_cons in Hok as [[H1 H2] Hok]. cbn [fst snd] in H1, H2.
  cbn [enc_regs] in Hat, Hlen. rewrite !len_app in Hlen.
  apply at_pos_app in Hat as [Hat1 Hat]. apply at_pos_app in Hat1 as [Ha Hz].
  pose proof (at_pos_bounds _ _ _ Ha) as [Hp0 _]. pose proof (at_pos_bounds _ _ _ Hz) as [Hp1 Hp2].
  pose proof (at_pos_bounds _ _ _ Hat) as [_ Hp3]. rewrite len_app in Hat, Hp3.
  assert (0 < len (enc_cell ac b) ∧ 0 < len (enc_cell sc z)) as [Hl1 Hl2]
    by (destruct H1 as [[-> _]|[-> _]], H2 as [[-> _]|[-> _]]; by compute).
  pose proof (len_nonneg (enc_regs ac sc ps)).
  rewrite (proj2 (Z.ltb_lt _ _)) by lia. cbn [negb].
  rewrite (M_bind_run _ _ _ _ _ (read_cells_at node buf ac b pos s Hbuf Ha H1 ltac:(lia))).
  rewrite (cell_bytes_len ac b H1), (uadd_small pos (len (enc_cell ac b))) by (unfold is_usize; lia).
  rewrite (M_bind_run _ _ _ _ _ (read_cells_at node buf sc z _ s Hbuf Hz H2 ltac:(lia))).
  rewrite (cell_bytes_len sc z H2), uadd_small by (unfold is_usize; lia).
  assert ((if z =? 0 then mret () else cb b z) s = Ret ((), if z =? 0 then s else g b z s)) as Hc
    by (destruct (z =? 0); [done|apply Hcb]).
  rewrite (M_bind_run _ _ _ _ _ Hc). apply IH; [|lia|lia|done|simpl in Hf; lia].
  by replace (pos + len (enc_cell ac b) + len (enc_cell sc z))
    with (pos + (len (enc_cell ac b) + len (enc_cell sc z))) by lia.
Qed.

Lemma parse_reg_run {S} (cb : Z → Z → M S unit) g node ac sc ps fuel (s : S) :
  (∀ b z s, cb b z s = Ret ((), g b z s)) → has_reg ac sc node ps → (length ps < fuel)%nat →
  parse_reg cb fuel node ac sc s = Ret ((), feed g ps s).
Proof.
  intros Hcb Hreg Hf. unfold parse_reg, has_reg, prop_len in *.
  destruct (prop_raw node (bs "reg")) as [buf|] eqn:E.
  - destruct Hreg as (-> & Hok & Hl).
    apply (parse_reg_loop_run cb g node (enc_regs ac sc ps)); try done.
    exists [], []. by rewrite app_nil_r.
  - subst ps. destruct fuel as [|fuel]; [simpl in Hf; lia|]. done.
Qed.

(** ** The ranges of a device tree *)

Definition to_ranges (t : ZBIMemRangeType) (ps : list (Z * Z)) : list ZBIMemRange :=
  (λ p, ZBIMemRange_new t p.1 p.2) <$> filter (λ p, p.2 ≠ 0) ps.

Lemma feed_push t ps c :
  feed (λ b z c, c ++ [ZBIMemRange_new t b z]) ps c = c ++ to_ranges t ps.
Proof.
  unfold feed, to_ranges. revert c. induction ps as [|[b z] ps IH]; intros c; [by rewrite app_nil_r|].
  cbn [fold_left fst snd]. rewrite IH, filter_cons. cbn [fst snd]. destruct (Z.eqb_spec z 0) as [->|Hz].
  - by rewrite decide_False by (intros H; by apply H).
  - rewrite decide_True by done. by rewrite <-app_assoc.
Qed.

Definition memory_node (n : Node) : bool :=
  match prop_str n (bs "device_type") with
  | Ret (rOk t) => bool_decide (t = bs "memory")
  | _ => false
  end.

(** [prop_str] answers, whatever the property holds. *)
Lemma prop_str_returns n nm :
  (∀ v, prop_raw n nm = Some v → len v < 2 ^ 32) → ∃ r, prop_str n nm = Ret r.
Proof.
  intros Hl. unfold prop_str, ok_or, bindE. destruct (prop_raw n nm) as [v|]; cbn; [|by eexists].
  specialize (Hl v eq_refl). destruct (Z.ltb_spec (len v) 1) as [|Hge]; cbn; [by eexists|].
  rewrite usub_small by (unfold is_usize; lia). unfold index.
  destruct (lookup_lt_is_Some_2 v (Z.to_nat (len v - 1))) as [b ->]; [unfold len in *; lia|]. cbn.
  destruct (negb (b =? 0)); cbn; [by eexists|]. unfold slice.
  rewrite (proj2 (Z.leb_le 0 (len v - 1))), (proj2 (Z.leb_le (len v - 1) (len v))) by lia. cbn. by eexists.
Qed.

Section scan.
Context (ac sc : Z) (regs : Node → list (Z * Z)) (fuel : nat).

Definition scannable (n : Node) : Prop := has_reg ac sc n (regs n) ∧ (length (regs n) < fuel)%nat.

Lemma memory_loop_run nodes c :
  (∀ n, n ∈ nodes → memory_node n = true → scannable n) →
  (∀ n v, n ∈ nodes → prop_raw n (bs "device_type") = Some v → len v < 2 ^ 32) →
  memory_loop fuel nodes ac sc c =
  Ret ((), c ++ concat ((λ n, to_ranges RAM (regs n)) <$> filter (λ n, memory_node n = true) nodes)).
Proof.
  revert c. induction nodes as [|n nodes IH]; intros c Hs Hl; [by rewrite app_nil_r|].
  cbn [memory_loop]. destruct (prop_str_returns n (bs "device_type")) as [r Hr]; [intros v; apply Hl; set_solver +|].
  assert (lift (prop_str n (bs "device_type")) c = Ret (r, c)) as Hlift by (unfold lift; by rewrite Hr).
  rewrite (M_bind_run _ _ _ _ _ Hlift).
  assert (memory_node n = match r with rOk t => bool_decide (t = bs "memory") | rErr _ => false end) as Hm
    by (unfold memory_node; rewrite Hr; by destruct r).
  rewrite <-Hm, filter_cons. destruct (memory_node n) eqn:E.
  - destruct (Hs n ltac:(set_solver +) E) as [Hreg Hf].
    rewrite (M_bind_run _ _ _ _ _ (parse_reg_run add_memory_arch
      (λ b z c, c ++ [ZBIMemRange_new RAM b z]) n ac sc (regs n) fuel c (λ _ _ _, eq_refl) Hreg Hf)).
    rewrite feed_push, IH; [|intros; apply Hs; set_solver|intros n' v Hn'; apply Hl; set_solver].
    rewrite decide_True by done. cbn. by rewrite <-app_assoc.
  - rewrite (M_bind_run _ _ _ _ _ eq_refl).
    rewrite IH; [|intros; apply Hs; set_solver|intros n' v Hn'; apply Hl; set_solver].
    by rewrite decide_False.
Qed.

Lemma reserved_loop_run nodes c :
  (∀ n, n ∈ nodes → scannable n) →
  reserved_loop fuel nodes ac sc c = Ret ((), c ++ concat ((λ n, to_ranges RESERVED (regs n)) <$> nodes)).
Proof.
  revert c. induction nodes as [|n nodes IH]; intros c Hs; [by rewrite app_nil_r|]. cbn [reserved_loop].
  destruct (Hs n ltac:(set_solver +)) as [Hreg Hf].
  rewrite (M_bind_run _ _ _ _ _ (parse_reg_run add_reserved_memory_arch
    (λ b z c, c ++ [ZBIMemRange_new RESERVED b z]) n ac sc (regs n) fuel c (λ _ _ _, eq_refl) Hreg Hf)).
  rewrite feed_push, IH by (intros; apply Hs; set_solver). cbn. by rewrite <-app_assoc.
Qed.

Definition reserved_memory (t : DeviceTree) : option Node :=
  List.find (λ c, bool_decide (name c = bs "reserved-memory")) (children (root t)).

Lemma dt_find_root t : dt_find t (bs "/") = Ret (Some (root t)).
Proof. reflexivity. Qed.
Lemma dt_find_reserved t : dt_find t (bs "/reserved-memory") = Ret (reserved_memory t).
Proof. reflexivity. Qed.

Lemma scan_memory_spec t :
  (∀ n, n ∈ children (root t) → memory_node n = true → scannable n) →
  (∀ n v, n ∈ children (root t) → prop_raw n (bs "device_type") = Some v → len v < 2 ^ 32) →
  (∀ rm n, reserved_memory t = Some rm → n ∈ children rm → scannable n) →
  early_init_dt_scan_memory fuel t ac sc =
  Ret (match reserved_memory t with
       | None => Err BadDTB
       | Some rm =>
           Ok (concat ((λ n, to_ranges RAM (regs n)) <$> filter (λ n, memory_node n = true) (children (root t))) ++
               concat ((λ n, to_ranges RESERVED (regs n)) <$> children rm))
       end).
Proof.
  intros Hmem Hty Hres. unfold early_init_dt_scan_memory. rewrite dt_find_root. cbn [mbind outcome_bind].
  rewrite (M_bind_run _ _ _ _ _ (memory_loop_run _ [] Hmem Hty)). rewrite app_nil_l.
  set (ram := concat _). unfold early_scan_reserved_mem.
  assert (lift (dt_find t (bs "/reserved-memory")) ram = Ret (reserved_memory t, ram)) as Hf
    by (unfold lift; by rewrite dt_find_reserved).
  rewrite (M_bind_run _ _ _ _ _ Hf). destruct (reserved_memory t) as [rm|]; [|done].
  by rewrite (M_bind_run _ _ _ _ _ (reserved_loop_run _ ram (λ n, Hres rm n eq_refl))).
Qed.

(** C15: The memory map.  When the [reg] property of every memory node and of
    every child of /reserved-memory is an encoding of ranges with one or two
    cells for address and size, scanning returns exactly those ranges: first
    the RAM of the memory nodes, then the reserved ranges, in the order of the
    tree, without the empty ones.  A tree without /reserved-memory is refused
    with [BadDTB]. *)
Theorem early_init_dt_scan_memory_exact t :
  (∀ n, n ∈ children (root t) → memory_node n = true → scannable n) →
  (∀ n v, n ∈ children (root t) → prop_raw n (bs "device_type") = Some v → len v < 2 ^ 32) →
  (∀ rm n, reserved_memory t = Some rm → n ∈ children rm → scannable n) →
  early_init_dt_scan_memory fuel t ac sc =
  Ret (match reserved_memory t with
       | None => Err BadDTB
       | Some rm =>
           Ok (concat ((λ n, to_ranges RAM (regs n)) <$> filter (λ n, memory_node n = true) (children (root t))) ++
               concat ((λ n, to_ranges RESERVED (regs n)) <$> children rm))
       end).
Proof. apply scan_memory_spec. Qed.
End scan.

(** ** From the blob *)

Lemma fdt_get_u32_at pre v post :
  0 ≤ v < 2 ^ 32 → fdt_get_u32 (pre ++ be32 v ++ post) (Z.of_nat (length pre)) = Ret v.
Proof.
  intros Hv. unfold fdt_get_u32. rewrite Nat2Z.id, drop_app_length.
  change (take 4 (be32 v ++ post)) with (be32 v).
  transitivity (Ret (be (be32 v))); [reflexivity|]. by rewrite (proj1 (be32_spec v Hv)).
Qed.

(** The total size that the encoder writes is the size of the blob. *)
Lemma flatten_head tbl t :
  ∃ post, flatten tbl t = be32 MAGIC_NUMBER ++ be32 (len (flatten tbl t)) ++ post.
Proof.
  set (total := len (flatten tbl t)).
  assert (total = HEADER_SIZE + len (concat (map enc_rsv (reserved t))) +
    len (enc_node (string_off tbl) (root t) ++ be32 FDT_END) + len (strings tbl)) as E.
  { unfold total, flatten. cbv zeta. rewrite !len_app. change (len (be32 _)) with 4. unfold HEADER_SIZE. lia. }
  rewrite E. unfold flatten. cbv zeta. eexists. rewrite <-!app_assoc. reflexivity.
Qed.

(** Loading from memory where a tree is encoded, whatever follows it. *)
Lemma early_init_dt_load_flatten tbl t fuel va rest :
  va ≠ 0 → tree_ok tbl t = true → len (flatten tbl t) < 2 ^ 32 → (length (flatten tbl t) < fuel)%nat →
  early_init_dt_load fuel va (flatten tbl t ++ rest) = Ret (Ok t).
Proof.
  intros Hva Hok Hlen Hf. destruct (flatten_head tbl t) as [post E].
  unfold early_init_dt_load, early_init_dt_verify. rewrite (proj2 (Z.eqb_neq va 0)) by done.
  assert (fdt_get_u32 (flatten tbl t ++ rest) FDT_MAGIC_OFFSET = Ret FDT_MAGIC) as ->.
  { rewrite E, <-app_assoc. by apply (fdt_get_u32_at []). }
  cbn [mbind outcome_bind]. rewrite Z.eqb_refl. cbn [negb].
  assert (fdt_get_u32 (flatten tbl t ++ rest) FDT_TOTALSIZE_OFFSET = Ret (len (flatten tbl t))) as ->.
  { rewrite E at 1. rewrite <-!app_assoc. apply (fdt_get_u32_at (be32 MAGIC_NUMBER)).
    split; [apply len_nonneg|done]. }
  cbn [mbind outcome_bind]. rewrite (proj2 (Z.ltb_ge _ _)) by (rewrite len_app; pose proof (len_nonneg rest); lia).
  assert (take (Z.to_nat (len (flatten tbl t))) (flatten tbl t ++ rest) = flatten tbl t) as ->
    by (unfold len; rewrite Nat2Z.id; apply take_app_length).
  by rewrite (DeviceTree_load_flatten tbl t fuel Hok Hlen Hf).
Qed.

(** The ranges of some nodes, without the empty ones. *)
Definition node_ranges (regs : Node → list (Z * Z)) (nodes : list Node) : list (Z * Z) :=
  filter (λ p, p.2 ≠ 0) (concat (regs <$> nodes)).

Lemma concat_to_ranges t regs nodes :
  concat ((λ n, to_ranges t (regs n)) <$> nodes) = (λ p, ZBIMemRange_new t p.1 p.2) <$> node_ranges regs nodes.
Proof.
  unfold node_ranges. induction nodes as [|n nodes IH]; [done|]. cbn [fmap list_fmap concat].
  rewrite filter_app, fmap_app, <-IH. reflexivity.
Qed.

(** ** Termination of [parse_reg] *)

Definition never_spins {S A} (m : M S A) : Prop := ∀ s, m s ≠ Spin.

Lemma never_spins_bind {S A B} (m : M S A) (k : A → M S B) :
  never_spins m → (∀ a, never_spins (k a)) → never_spins (m ≫= k).
Proof.
  intros Hm Hk s. unfold mbind, M_bind. specialize (Hm s).
  destruct (m s) as [[a s']| | |]; try done. apply Hk.
Qed.

Lemma index_spins buf i : index buf i ≠ Spin.
Proof. unfold index. by destruct (buf !! _). Qed.

Lemma outcome_bind_spins {A B} (m : outcome A) (k : A → outcome B) :
  m ≠ Spin → (∀ a, k a ≠ Spin) → (m ≫= k) ≠ Spin.
Proof. intros Hm Hk. unfold mbind, outcome_bind. destruct m; [apply Hk|done..]. Qed.

Lemma read_cells_spins {S} node c pos : never_spins (S:=S) (read_cells node c pos).
Proof.
  assert (∀ o : outcome (RResult Z PropError), o ≠ Spin → never_spins (S:=S) (unwrap_prop o)) as Hu.
  { intros o Ho. apply never_spins_bind; [intros s; unfold lift; by destruct o|]. intros [a|e] s; done. }
  assert (∀ (f : list Z → outcome (RResult Z SliceReadError)), (∀ b, f b ≠ Spin) →
    bindE (ok_or (prop_raw node (bs "reg"))) (λ raw, map_err P_SliceReadError (f raw)) ≠ Spin) as Hb.
  { intros f Hf. unfold bindE, ok_or. destruct (prop_raw node (bs "reg")) as [v|]; cbn; [|done].
    apply outcome_bind_spins; [apply Hf|done]. }
  unfold read_cells, prop_u64_at, prop_u32_at. destruct (c =? 2); apply Hu, Hb; intros b.
  - unfold read_be_u64. destruct (negb _); [done|].
    repeat (apply outcome_bind_spins; [apply index_spins|intros ?]). done.
  - unfold read_be_u32. destruct (negb _); [done|].
    repeat (apply outcome_bind_spins; [apply index_spins|intros ?]). done.
Qed.

Lemma cell_bytes_range c : 0 ≤ cell_bytes c < 2 ^ 32.
Proof. apply Z.mod_pos_bound. lia. Qed.

Section termination.
Context {S : Type} (cb : Z → Z → M S unit) (node : Node) (ac sc : Z).

Lemma parse_reg_loop_spins reg_len fuel pos :
  (∀ b z, never_spins (cb b z)) → 0 < cell_bytes ac + cell_bytes sc → 0 ≤ pos < 2 ^ 63 → reg_len < 2 ^ 32 →
  (Z.to_nat (reg_len - pos) < fuel)%nat → never_spins (parse_reg_loop cb fuel node ac sc reg_len pos).
Proof.
  intros Hcb Hstep Hpos Hl. revert pos Hpos. induction fuel as [|fuel IH]; intros pos Hpos Hf; [lia|].
  cbn [parse_reg_loop]. destruct (Z.ltb_spec pos reg_len) as [Hlt|Hge]; cbn [negb]; [|done].
  pose proof (cell_bytes_range ac). pose proof (cell_bytes_range sc).
  apply never_spins_bind; [apply read_cells_spins|]. intros b.
  rewrite (uadd_small pos) by (unfold is_usize; lia).
  apply never_spins_bind; [apply read_cells_spins|]. intros z.
  rewrite uadd_small by (unfold is_usize; lia).
  apply never_spins_bind; [destruct (z =? 0); [done|apply Hcb]|]. intros _. apply IH; lia.
Qed.

(** C31: Termination of [parse_reg].  It returns or panics, with fuel beyond the
    length of the property, whenever an entry takes at least one byte; when
    both cell counts take none (0 cells each), it goes round for ever on every
    property of at least four bytes. *)
Theorem parse_reg_termination fuel s :
  (∀ b z s, ∃ s', cb b z s = Ret ((), s')) → prop_len node (bs "reg") < 2 ^ 32 →
  (0 < cell_bytes ac + cell_bytes sc → (Z.to_nat (prop_len node (bs "reg")) < fuel)%nat →
     parse_reg cb fuel node ac sc s ≠ Spin) ∧
  (cell_bytes ac = 0 → cell_bytes sc = 0 → Forall byte_ok (default [] (prop_raw node (bs "reg"))) →
     4 ≤ prop_len node (bs "reg") → parse_reg cb fuel node ac sc s = Spin).
Proof.
  intros Hcb Hl. split.
  - intros Hstep Hf. apply parse_reg_loop_spins; [|lia|lia|lia|by rewrite Z.sub_0_r].
    intros b z s'. by destruct (Hcb b z s') as [? ->].
  - intros Ha Hs Hb H4. unfold parse_reg.
    assert (∀ c (s : S), cell_bytes c = 0 → ∃ v, read_cells node c 0 s = Ret (v, s)) as Hrd.
    { intros c s' Hc. unfold prop_len in H4, Hl. destruct (prop_raw node (bs "reg")) as [buf|] eqn:E; [|lia].
      cbn [default] in Hb. destruct (at_pos_exists buf 0 4) as [Hat Hlen]; [lia|unfold len in *; lia|].
      unfold read_cells. destruct (Z.eqb_spec c 2) as [->|]; [done|].
      unfold unwrap_prop, prop_u32_at, ok_or. rewrite E.
      unfold lift, bindE, map_err, mbind, M_bind, outcome_bind.
      rewrite (read_be_u32_at buf 0 _ Hat Hlen (Forall_take _ _ _ (Forall_drop _ _ _ Hb)) ltac:(lia)). by eexists. }
    revert s. induction fuel as [|fuel IH]; intros s; [done|]. cbn [parse_reg_loop].
    rewrite (proj2 (Z.ltb_lt 0 (prop_len node (bs "reg")))) by lia. cbn [negb].
    destruct (Hrd ac s Ha) as [b Hb1]. rewrite (M_bind_run _ _ _ _ _ Hb1), Ha.
    change (uadd 0 0) with 0. destruct (Hrd sc s Hs) as [z Hz]. rewrite (M_bind_run _ _ _ _ _ Hz), Hs.
    change (uadd 0 0) with 0. destruct (Hcb b z s) as [s' Hs'].
    assert ((if z =? 0 then mret () else cb b z) s = Ret ((), if z =? 0 then s else s')) as Hc
      by (destruct (z =? 0); [done|exact Hs']).
    rewrite (M_bind_run _ _ _ _ _ Hc). apply IH.
Qed.
End termination.

(** ** Witnesses *)

(** A tree with one memory node (two cells each, the second range empty) and
    one reserved range. *)
Definition demo_mem : Node :=
  mkDTNode (bs "memory") [(bs "device_type", bs "memory" ++ [0]);
                          (bs "reg", enc_regs 2 2 [(0x80000000, 0x8000000); (0x90000000, 0)])] [].
Definition demo_rsv : Node := mkDTNode (bs "mmode") [(bs "reg", enc_regs 2 2 [(0x80000000, 0x80000)])] [].
Definition demo_dt : DeviceTree :=
  mkDT 17 0 [(0, 0)] (mkDTNode [] [(bs "#address-cells", be32 2); (bs "#size-cells", be32 2)]
    [mkDTNode (bs "chosen") [(bs "linux,initrd-start", be32 0x82000000);
                             (bs "linux,initrd-end", be32 0x82800000);
                             (bs "bootargs", bs "quiet" ++ [0])] [];
     demo_mem; mkDTNode (bs "reserved-memory") [] [demo_rsv]]).

Definition demo_regs (n : Node) : list (Z * Z) :=
  if bool_decide (name n = bs "memory") then [(0x80000000, 0x8000000); (0x90000000, 0)]
  else [(0x80000000, 0x80000)].

Lemma demo_scannable : scannable 2 2 demo_regs 5 demo_mem ∧ scannable 2 2 demo_regs 5 demo_rsv.
Proof.
  unfold scannable, has_reg, cell_ok.
  split; (split; [|vm_compute; lia]); (split; [vm_compute; reflexivity|]);
    (split; [by_compute|vm_compute; reflexivity]).
Qed.

Lemma early_init_dt_scan_memory_exact_witness :
  early_init_dt_scan_memory 5 demo_dt 2 2 =
  Ret (Ok [ZBIMemRange_new RAM 0x80000000 0x8000000; ZBIMemRange_new RESERVED 0x80000000 0x80000]).
Proof.
  rewrite (early_init_dt_scan_memory_exact 2 2 demo_regs 5 demo_dt); [vm_compute; reflexivity| | |].
  - intros n Hn Hm. cbn in Hn. rewrite !elem_of_cons in Hn.
    destruct Hn as [->|[->|[->|Hn]]];
      [vm_compute in Hm; discriminate|apply demo_scannable|vm_compute in Hm; discriminate|by apply not_elem_of_nil in Hn].
  - intros n v Hn Hv. cbn in Hn. rewrite !elem_of_cons in Hn.
    destruct Hn as [->|[->|[->|Hn]]]; [discriminate Hv| |discriminate Hv|by apply not_elem_of_nil in Hn].
    vm_compute in Hv. injection Hv as <-. vm_compute. reflexivity.
  - intros rm n Hrm Hn. vm_compute in Hrm. injection Hrm as <-. cbn in Hn.
    apply list_elem_of_singleton in Hn as ->. apply demo_scannable.
Defined.

Lemma parse_reg_termination_witness :
  parse_reg add_memory_arch 1000 demo_rsv 0 0 [] = Spin ∧ parse_reg add_memory_arch 17 demo_rsv 1 1 [] ≠ Spin.
Proof.
  split.
  - refine (proj2 (parse_reg_termination add_memory_arch demo_rsv 0 0 1000 [] _ _) _ _ _ _);
      [intros b z s; eexists; reflexivity|vm_compute; reflexivity|reflexivity|reflexivity| |vm_compute; discriminate].
    apply (bool_decide_unpack _). vm_compute. exact I.
  - refine (proj1 (parse_reg_termination add_memory_arch demo_rsv 1 1 17 [] _ _) _ _);
      [intros b z s; eexists; reflexivity|vm_compute; reflexivity|reflexivity|vm_compute; lia].
Defined.
