(* ===== verification/Platform.v ===== *)
(** * platform/riscv/mod.rs and periphmap.rs, mark_pages_in_use of vm/vm.rs

    The platform's part of the boot: the peripheral ranges mapped below the
    kernel image, the memory ranges of the device tree turned into arenas,
    peripheral ranges and reservations, and the reserved pages taken from the
    free list and marked as wired.  The state [platform] has the reservations
    and peripheral ranges of [BOOT_CONTEXT], the physical memory manager, the
    page tables and the cursor of the closure that hands out tables. *)

From Stdlib Require Import String.
From S2P Require Import Prelude Defs LinkedList Page BootReserve Pmm DeviceTree DtScan Mmu.

#[local] Open Scope Z_scope.

(** ** periphmap.rs *)

Definition MAX_PERIPH_RANGES : Z := 4.

Record PeriphRange := mkPeriph { base_phys : Z; base_virt : Z; plength : Z }.

Record platform := mkPlat {
  reserve_ranges : list BootReserveRange;
  periph_ranges : list PeriphRange;
  pmm_node : PmmNode;
  ptables : gmap Z (list Z);
  periph_pos : Z;             (* the static [pos] *)
}.

Definition on_reserves {A} (m : M (list BootReserveRange) A) : M platform A :=
  zoom reserve_ranges (λ r s, mkPlat r (periph_ranges s) (pmm_node s) (ptables s) (periph_pos s)) m.
Definition on_node {A} (m : M PmmNode A) : M platform A :=
  zoom pmm_node (λ n s, mkPlat (reserve_ranges s) (periph_ranges s) n (ptables s) (periph_pos s)) m.
Definition on_boot_mmu {A} (m : M (mmu Z) A) : M platform A :=
  zoom (λ s, mkMmu (ptables s) (periph_pos s))
    (λ m s, mkPlat (reserve_ranges s) (periph_ranges s) (pmm_node s) (tables m) (frames m)) m.

Section platform.
(** Linker symbols, the root table, and the address of the list objects:
    [PMM_NODE]'s free list, the locals, and [BOOT_CONTEXT.reserved_page_list]. *)
Context (kernel_base_virt kernel_base_phys kernel_size periph_tables_start periph_tables_end swapper_pgd : Z).
Context (free_list local_list total_list reserved_page_list : Z).

(** The closure [alloc]. *)
Definition periph_alloc : M (mmu Z) Z := λ m,
  let take_page pos :=
    match kernel_va_to_pa kernel_base_virt kernel_base_phys pos with
    | Ret pa => Ret (pa, mkMmu (tables m) (uadd pos PAGE_SIZE))
    | _ => Panic
    end in
  if frames m =? 0 then take_page periph_tables_start
  else if periph_tables_end <=? frames m then Ret (null, m)
  else take_page (frames m).

Definition periph_base (ranges : list PeriphRange) (length : Z) : Z :=
  usub (fold_left (λ b r, usub b (plength r)) ranges (usub kernel_base_virt 0x40000000)) length.

Definition add_periph_range (fuel : nat) (pa length : Z) : M platform (Result unit) :=
  s ← getS;
  let ranges := periph_ranges s in
  if MAX_PERIPH_RANGES <=? Z.of_nat (List.length ranges) then mret (Err OutOfRange)
  else if negb (IS_PAGE_ALIGNED pa) || negb (IS_PAGE_ALIGNED length) then mret (Err BadAlign)
  else
    let bv := periph_base ranges length in
    _ ←? on_boot_mmu (boot_map periph_alloc paddr_to_physmap fuel swapper_pgd bv pa length PAGE_IOREMAP);
    modifyS (λ s, mkPlat (reserve_ranges s) (periph_ranges s ++ [mkPeriph pa bv length]) (pmm_node s)
                    (ptables s) (periph_pos s));;
    mret (Ok ()).

(** ** mod.rs *)

Definition init_mem_config_arch (config : list ZBIMemRange) : list ZBIMemRange :=
  config ++ [ZBIMemRange_new PERIPHERAL 0 0x40000000].

(** [for range in mem_config]; [break] when there are enough arenas. *)
Fixpoint mem_ranges_loop (fuel : nat) (mem_config : list ZBIMemRange) (mem_arenas : list ArenaInfo) :
    M platform (Result (list ArenaInfo)) :=
  match mem_config with
  | [] => mret (Ok mem_arenas)
  | range :: mem_config =>
      match mtype range with
      | RAM =>
          if MAX_ARENAS <=? Z.of_nat (List.length mem_arenas) then mret (Ok mem_arenas)
          else mem_ranges_loop fuel mem_config (mem_arenas ++ [mkInfo "ram" 0 (zpaddr range) (zlength range)])
      | PERIPHERAL =>
          _ ←? add_periph_range fuel (zpaddr range) (zlength range);
          mem_ranges_loop fuel mem_config mem_arenas
      | RESERVED =>
          _ ←? on_reserves (boot_reserve_add_range (zpaddr range) (zlength range));
          mem_ranges_loop fuel mem_config mem_arenas
      end
  end.

Definition process_mem_ranges (fuel : nat) (mem_config : list ZBIMemRange) : M platform (Result (list ArenaInfo)) :=
  mem_ranges_loop fuel mem_config [].

(** [dtb]: the memory at the physmap address of [dtb_pa]. *)
Definition process_dtb_early (fuel : nat) (dtb_pa : Z) (dtb : list Z) : M platform (Result (list ArenaInfo)) :=
  let dtb_va := paddr_to_physmap dtb_pa in
  dt ←? lift (early_init_dt_load fuel dtb_va dtb);
  mem_config ←? on_reserves (early_init_dt_scan fuel dt);
  process_mem_ranges fuel (init_mem_config_arch mem_config).

Definition memory_limit_init : Result unit := Err NotSupported.
(** [todo!], both. *)
Definition memory_limit_add_range (_base _size : Z) : M platform (Result unit) := panic.
Definition memory_limit_add_arenas : M platform (Result unit) := panic.
Definition dlog_bypass_init : M platform unit := mret ().
Definition pmm_checker_init_from_cmdline : M platform unit := mret ().

(** [for page in list.iter_mut()]: mark what the iterator yields as wired. *)
Fixpoint wire_loop (fuel : nat) (it : Iter) : M PmmNode unit :=
  match fuel with
  | O => spin
  | S fuel =>
      p ← on_plist (Iter_next it);
      match p with
      | (None, _) => mret ()
      | (Some page, it) => on_pages (set_state page WIRED);; wire_loop fuel it
      end
  end.
Definition wire_pages (fuel : nat) (list : Z) : M PmmNode unit :=
  it ← on_plist (List_iter list); wire_loop fuel it.

Definition fresh_list (l : Z) : M PmmNode unit := on_plist (List_new l);; on_plist (List_init l).

Fixpoint wire_ranges (res : list BootReserveRange) : M PmmNode (Result unit) :=
  match res with
  | [] => mret (Ok ())
  | r :: res =>
      fresh_list local_list;;
      let pages := ROUNDUP_PAGE_SIZE (r_len r) / PAGE_SIZE in
      _ ←? pmm_alloc_range (r_pa r) pages local_list;
      on_plist (List_splice total_list local_list);;
      wire_ranges res
  end.

(** [BOOT_CONTEXT.reserved_page_list()]. *)
Definition BootContext_reserved_page_list : M PmmNode Z :=
  b ← on_plist (List_is_initialized reserved_page_list);
  if (b : bool) then mret reserved_page_list else panic.

Definition boot_reserve_wire (fuel : nat) : M platform (Result unit) :=
  s ← getS;
  on_node (
    fresh_list total_list;;
    _ ←? wire_ranges (reserve_ranges s);
    wire_pages fuel total_list;;
    l ← BootContext_reserved_page_list;
    on_plist (List_splice l total_list);;
    mret (Ok ())).

(** [while let Some(arena) = mem_arenas.pop()]; the list is given in the order
    of the pops. *)
Fixpoint add_arenas (have_limit : bool) (arenas : list ArenaInfo) : M platform (Result unit) :=
  match arenas with
  | [] => mret (Ok ())
  | arena :: arenas =>
      added ← (if have_limit then
                 r ← memory_limit_add_range (Pmm.base arena) (Pmm.size arena);
                 mret (match r with Ok _ => true | Err _ => false end)
               else mret false);
      if (added : bool) then add_arenas have_limit arenas
      else
        s ← getS;
        _ ←? on_node (pmm_add_arena free_list (reserve_ranges s) local_list arena);
        add_arenas have_limit arenas
  end.

Definition platform_early_init (fuel : nat) (dtb_pa : Z) (dtb : list Z) : M platform (Result unit) :=
  _ ←? on_reserves (boot_reserve_init kernel_base_phys kernel_size);
  mem_arenas ←? process_dtb_early fuel dtb_pa dtb;
  dlog_bypass_init;;
  pmm_checker_init_from_cmdline;;
  let have_limit := match memory_limit_init with Ok _ => true | Err _ => false end in
  _ ←? add_arenas have_limit (rev mem_arenas);
  (if have_limit then
     r ← memory_limit_add_arenas; zx_assert (match r with Ok _ => true | Err _ => false end)
   else mret ());;
  boot_reserve_wire fuel.

(** ** vm.rs: [mark_pages_in_use] *)

Definition mark_pages_in_use (fuel : nat) (pa len : Z) : M PmmNode unit :=
  let len := PAGE_ALIGN (uadd len (Z.land pa (PAGE_SIZE - 1))) in
  let pa := ROUNDDOWN pa PAGE_SIZE in
  fresh_list local_list;;
  r ← pmm_alloc_range pa (len / PAGE_SIZE) local_list;
  match r with
  | Ok _ => wire_pages fuel local_list
  | Err _ => panic
  end.
End platform.

(** ** Memory ranges *)

Definition ram_arena (p : Z * Z) : ArenaInfo := mkInfo "ram" 0 p.1 p.2.

Section ranges.
Context (kernel_base_virt kernel_base_phys periph_tables_start periph_tables_end swapper_pgd : Z).
#[local] Notation loop := (mem_ranges_loop kernel_base_virt kernel_base_phys periph_tables_start
  periph_tables_end swapper_pgd).

Lemma mem_ranges_loop_ram fuel ps rest acc :
  Z.of_nat (length acc) ≤ MAX_ARENAS →
  loop fuel (((λ p, ZBIMemRange_new RAM p.1 p.2) <$> ps) ++ rest) acc =
  if decide (Z.of_nat (length acc + length ps) ≤ MAX_ARENAS)
  then loop fuel rest (acc ++ (ram_arena <$> ps))
  else mret (Ok (acc ++ (ram_arena <$> take (Z.to_nat MAX_ARENAS - length acc) ps))).
Proof.
  change MAX_ARENAS with 16. change (Z.to_nat 16) with 16%nat.
  revert acc. induction ps as [|p ps IH]; intros acc Hacc.
  { rewrite app_nil_r, decide_True by (cbn [length]; lia). done. }
  cbn [fmap list_fmap app mem_ranges_loop mtype ZBIMemRange_new zpaddr zlength].
  change MAX_ARENAS with 16. destruct (Z.leb_spec 16 (Z.of_nat (length acc))) as [Hge|Hlt].
  - rewrite decide_False by (cbn [length]; lia).
    replace (16 - length acc)%nat with 0%nat by lia. cbn. by rewrite app_nil_r.
  - rewrite IH by (rewrite length_app; cbn [length]; lia). rewrite length_app. cbn [length].
    replace (length acc + 1 + length ps)%nat with (length acc + S (length ps))%nat by lia.
    case_decide; [by rewrite <-app_assoc|].
    replace (16 - length acc)%nat with (S (16 - (length acc + 1)))%nat by lia.
    cbn [take fmap list_fmap]. by rewrite <-app_assoc.
Qed.

(** RAM ranges become arenas.  With at most 16 RAM ranges in front, each
    becomes an arena, in order, and the rest of the map is processed after
    them.  With more, the first 16 become arenas and everything after them is
    dropped, the reserved and peripheral ranges that follow included: the
    state does not change. *)
Lemma process_mem_ranges_ram fuel ps rest s :
  process_mem_ranges kernel_base_virt kernel_base_phys periph_tables_start periph_tables_end swapper_pgd
    fuel (((λ p, ZBIMemRange_new RAM p.1 p.2) <$> ps) ++ rest) s =
  if decide (Z.of_nat (length ps) ≤ 16)
  then loop fuel rest (ram_arena <$> ps) s
  else Ret (Ok (ram_arena <$> take 16 ps), s).
Proof.
  unfold process_mem_ranges. rewrite mem_ranges_loop_ram by (vm_compute; discriminate).
  change (Z.to_nat MAX_ARENAS - length (@nil ArenaInfo))%nat with 16%nat.
  change MAX_ARENAS with 16. cbn [length Nat.add app]. case_decide; reflexivity.
Qed.

(** The state with other reservations. *)
Definition with_reserves (r : list BootReserveRange) (s : platform) : platform :=
  mkPlat r (periph_ranges s) (pmm_node s) (ptables s) (periph_pos s).

End ranges.

(** ** Peripheral ranges *)

(** Ranges laid out downwards from [top] without gaps. *)
Fixpoint periph_layout (top : Z) (l : list PeriphRange) : Prop :=
  match l with
  | [] => True
  | r :: l => base_virt r + plength r = top ∧ 0 ≤ plength r ∧ 0 ≤ base_virt r ∧ periph_layout (base_virt r) l
  end.
Definition total_length (l : list PeriphRange) : Z := foldr (λ r n, plength r + n) 0 l.

Lemma periph_layout_total top l : periph_layout top l → 0 ≤ total_length l.
Proof.
  revert top. induction l as [|r l IH]; intros top; cbn; [lia|]. intros (_ & ? & _ & Hl).
  specialize (IH _ Hl). unfold total_length in IH. lia.
Qed.

Lemma fold_usub top l :
  periph_layout top l → is_usize top → total_length l ≤ top →
  fold_left (λ b r, usub b (plength r)) l top = top - total_length l.
Proof.
  revert top. induction l as [|r l IH]; intros top Hl Ht Htot; cbn in *; [lia|].
  destruct Hl as (Hr & Hp & Hb & Hl). pose proof (periph_layout_total _ _ Hl) as Hn.
  unfold is_usize, total_length in *. rewrite usub_small by (unfold is_usize; lia).
  replace (top - plength r) with (base_virt r) by lia. rewrite IH by (done || lia). lia.
Qed.

Lemma periph_layout_snoc top l pa n :
  periph_layout top l → 0 ≤ n → total_length l + n ≤ top →
  periph_layout top (l ++ [mkPeriph pa (top - total_length l - n) n]).
Proof.
  revert top. induction l as [|r l IH]; intros top Hl Hn Htot; cbn in *.
  { split_and!; lia. }
  destruct Hl as (Hr & Hp & Hb & Hl). split_and!; [done|done|done|].
  specialize (IH _ Hl Hn). unfold total_length in *.
  replace (top - (plength r + foldr (λ r n, plength r + n) 0 l) - n)
    with (base_virt r - foldr (λ r n, plength r + n) 0 l - n) by lia.
  apply IH. lia.
Qed.

Lemma periph_layout_disjoint top l i j ri rj :
  periph_layout top l → l !! i = Some ri → l !! j = Some rj → (i < j)%nat →
  base_virt rj + plength rj ≤ base_virt ri ∧ base_virt ri + plength ri ≤ top.
Proof.
  assert (∀ l top k r, periph_layout top l → l !! k = Some r → base_virt r + plength r ≤ top) as Htop.
  { clear. induction l as [|x l IH]; intros top k r Hl Hk; [done|]. destruct Hl as (? & ? & ? & Hl).
    destruct k as [|k]; cbn in Hk; [simplify_eq; lia|]. specialize (IH _ _ _ Hl Hk). lia. }
  intros Hl Hi Hj Hlt. split; [|by eapply Htop].
  revert top i j Hl Hi Hj Hlt. induction l as [|x l IH]; intros top i j Hl Hi Hj Hlt; [done|].
  destruct Hl as (_ & _ & _ & Hl). destruct j as [|j]; [lia|]. cbn in Hj.
  destruct i as [|i]; cbn in Hi; [simplify_eq; by eapply Htop|]. eapply IH; [done|done|done|lia].
Qed.

(** C30: Peripheral ranges.  [add_periph_range] refuses a fifth range and
    unaligned ranges without changing anything; any other call that returns
    leaves the ranges packed downwards from 1 GiB below the kernel image,
    pairwise disjoint, with the new range last when it answers [Ok] and the
    same ranges otherwise, and touches neither the reservations nor the pages. *)
Theorem add_periph_range_layout kbv kbp pts pte pgd fuel pa n s :
  let top := kbv - 0x40000000 in
  let call := add_periph_range kbv kbp pts pte pgd fuel pa n in
  0 ≤ top → is_usize kbv → periph_layout top (periph_ranges s) → 0 ≤ n →
  total_length (periph_ranges s) + n ≤ top →
  (4 ≤ Z.of_nat (length (periph_ranges s)) → call s = Ret (Err OutOfRange, s)) ∧
  (Z.of_nat (length (periph_ranges s)) < 4 → pa mod 4096 ≠ 0 ∨ n mod 4096 ≠ 0 → call s = Ret (Err BadAlign, s)) ∧
  (∀ r s', call s = Ret (r, s') →
     periph_layout top (periph_ranges s') ∧ reserve_ranges s' = reserve_ranges s ∧ pmm_node s' = pmm_node s ∧
     periph_ranges s' = match r with
                        | Ok _ => periph_ranges s ++ [mkPeriph pa (top - total_length (periph_ranges s) - n) n]
                        | Err _ => periph_ranges s
                        end ∧
     ∀ i j ri rj, periph_ranges s' !! i = Some ri → periph_ranges s' !! j = Some rj → (i < j)%nat →
       base_virt rj + plength rj ≤ base_virt ri).
Proof.
  intros top call Ht Hk Hl Hn Htot. unfold call, add_periph_range. split_and!.
  - intros H4. erewrite M_bind_run by reflexivity. cbv zeta.
    by rewrite (proj2 (Z.leb_le MAX_PERIPH_RANGES _)) by exact H4.
  - intros H4 Hal. erewrite M_bind_run by reflexivity. cbv zeta.
    rewrite (proj2 (Z.leb_gt MAX_PERIPH_RANGES _)) by exact H4.
    by destruct Hal as [->%IS_PAGE_ALIGNED_false| ->%IS_PAGE_ALIGNED_false]; rewrite ?orb_true_r.
  - intros r s' Hr.
    assert (reserve_ranges s' = reserve_ranges s ∧ pmm_node s' = pmm_node s ∧
      periph_ranges s' = match r with
        | Ok _ => periph_ranges s ++ [mkPeriph pa (top - total_length (periph_ranges s) - n) n]
        | Err _ => periph_ranges s end) as (Hres & Hpmm & Hrs).
    { erewrite M_bind_run in Hr by reflexivity. cbv zeta in Hr.
      destruct (MAX_PERIPH_RANGES <=? _); [by injection Hr as <- <-|].
      destruct (negb _ || negb _); [by injection Hr as <- <-|].
      unfold bindR in Hr. apply M_bind_inv in Hr as ([u|e] & s1 & Hb & Hr).
      - unfold on_boot_mmu, zoom in Hb. destruct (boot_map _ _ _ _ _ _ _ _ _) as [[x m]| | |]; try done.
        injection Hb as -> <-. injection Hr as <- <-. cbn. split_and!; [done|done|].
        unfold periph_base. unfold is_usize in Hk.
        pose proof (periph_layout_total _ _ Hl).
        rewrite (usub_small kbv) by (unfold is_usize; lia). fold top.
        rewrite fold_usub by first [done|unfold is_usize; lia].
        by rewrite usub_small by (unfold is_usize; lia).
      - unfold on_boot_mmu, zoom in Hb. destruct (boot_map _ _ _ _ _ _ _ _ _) as [[x m]| | |]; try done.
        injection Hb as -> <-. injection Hr as <- <-. done. }
    assert (periph_layout top (periph_ranges s')) as Hl'.
    { rewrite Hrs. destruct r; [by apply periph_layout_snoc|done]. }
    split_and!; [done|done|done|done|]. intros i j ri rj Hi Hj Hij.
    by apply (periph_layout_disjoint top (periph_ranges s') i j ri rj).
Qed.

(** ** Wiring *)

(** Code that gives no page descriptor to an address that has none. *)
Definition no_new_page {A} (d : Z) (m : M PmmNode A) : Prop :=
  ∀ s a s', vpages (mem s) !! d = None → m s = Ret (a, s') → vpages (mem s') !! d = None.

Lemma no_new_page_bind {A B} d (m : M PmmNode A) (k : A → M PmmNode B) :
  no_new_page d m → (∀ a, no_new_page d (k a)) → no_new_page d (m ≫= k).
Proof. intros Hm Hk s b s'' H0 (a & s' & H1 & H2)%M_bind_inv. by eapply Hk; [eapply Hm|]. Qed.
Lemma no_new_page_ret {A} d (a : A) : no_new_page d (mret a).
Proof. intros s x s' H0 [= _ <-]. done. Qed.
Lemma no_new_page_fail {A} d : no_new_page d (panic : M PmmNode A).
Proof. intros s x s' _ [=]. Qed.
Lemma no_new_page_plist {A} d (f : M lmem A) : no_new_page d (on_plist f).
Proof.
  intros s a s' H0 Hr. unfold on_plist, on_pages, on_lists, zoom in Hr.
  destruct (f (lists (mem s))) as [[x l]| | |]; try done. by injection Hr as _ <-.
Qed.
Lemma no_new_page_at d p : no_new_page d (on_pages (page_at p)).
Proof.
  intros s a s' H0 Hr. unfold on_pages, zoom, page_at, deref in Hr.
  destruct (vpages (mem s) !! p); [|done]. by injection Hr as _ <-.
Qed.
Lemma no_new_page_state d p st : no_new_page d (on_pages (set_state p st)).
Proof.
  intros s a s' H0 Hr. unfold on_pages, zoom, set_state, update_page in Hr.
  unfold mbind, M_bind, page_at, deref in Hr. destruct (vpages (mem s) !! p) eqn:E; [|done].
  injection Hr as _ <-. cbn. rewrite lookup_alter_ne; [done|]. intros ->. congruence.
Qed.
Lemma no_new_page_count d f : no_new_page d (add_count f).
Proof. intros s a s' H0 [= _ <-]. done. Qed.
Lemma no_new_page_assert d b : no_new_page d (zx_assert b : M PmmNode unit).
Proof. destruct b; [apply no_new_page_ret|apply no_new_page_fail]. Qed.

Lemma no_new_page_get d : no_new_page d (getS : M PmmNode PmmNode).
Proof. intros s a s' H0 [= _ <-]. done. Qed.

Create HintDb no_new_page.
#[local] Hint Resolve no_new_page_bind no_new_page_ret no_new_page_fail no_new_page_plist no_new_page_at
  no_new_page_state no_new_page_count no_new_page_assert no_new_page_get : no_new_page.

Ltac nnp :=
  repeat first
    [ apply no_new_page_bind; [|intros ?]
    | progress eauto with no_new_page
    | case_match ].

Lemma alloc_range_no_new_page d address count dst : no_new_page d (alloc_range address count dst).
Proof.
  assert (∀ p, no_new_page d (alloc_page_helper_locked p)) as Hh
    by (intros p; unfold alloc_page_helper_locked; nnp).
  assert (∀ area k a, no_new_page d (alloc_range_area area dst k a)) as Ha.
  { intros area k. induction k as [|k IH]; intros a; cbn [alloc_range_area]; nnp; auto. }
  assert (∀ areas k a, no_new_page d (alloc_range_areas areas dst k a)) as Hs.
  { intros areas. induction areas as [|area areas IH]; intros k a; cbn [alloc_range_areas]; nnp; auto. }
  unfold alloc_range, free_list_locked. nnp; auto.
Qed.

(** The loop over a non-empty list reaches the list object itself, which is
    not a page descriptor. *)
Lemma wire_loop_faults s h l1 x l2 fuel :
  dll (lists (mem s)) h (l1 ++ x :: l2) → (∀ p, p ∈ l2 → is_Some (vpages (mem s) !! p)) →
  vpages (mem s) !! h = None → (length l2 < fuel)%nat →
  wire_loop fuel (mkIter x h) s = Fault.
Proof.
  revert s l1 x l2. induction fuel as [|fuel IH]; intros s l1 x l2 Hd Hp Hh Hf; [lia|]. cbn [wire_loop].
  destruct (head_or_home h l2) as (b & qs & E).
  pose proof (Iter_next_spec _ _ _ _ _ _ _ Hd E) as Hnext. rewrite vm_page_from_node in Hnext.
  rewrite (M_bind_run _ _ _ _ _ (on_plist_run _ s _ _ Hnext)), with_mem_id.
  destruct l2 as [|y l2]; injection E as <- <-.
  - unfold mbind, M_bind, on_pages, zoom, set_state, update_page.
    unfold mbind, M_bind, page_at, deref. by rewrite Hh.
  - destruct (Hp y) as [pg Hpg]; [set_solver|].
    assert (on_pages (set_state y WIRED) s = Ret ((), with_mem (mkPmem (lists (mem s))
      (alter (λ pg, mkPage (paddr pg) (object pg) WIRED (loaned_state pg)) y (vpages (mem s)))) s)) as Hset.
    { unfold on_pages, zoom, set_state. by rewrite (update_page_run _ _ _ _ Hpg). }
    rewrite (M_bind_run _ _ _ _ _ Hset). apply (IH _ (l1 ++ [x]) y l2); cbn [mem with_mem lists vpages].
    + by rewrite <-app_assoc.
    + intros p Hin. destruct (decide (p = y)) as [->|]; [by rewrite lookup_alter_eq, Hpg; eexists|].
      rewrite lookup_alter_ne by done. apply Hp. set_solver.
    + destruct (decide (h = y)) as [->|]; [congruence|]. by rewrite lookup_alter_ne.
    + simpl in Hf. lia.
Qed.

Lemma wire_pages_faults s h x l fuel :
  dll (lists (mem s)) h (x :: l) → (∀ p, p ∈ l → is_Some (vpages (mem s) !! p)) →
  vpages (mem s) !! h = None → (length l < fuel)%nat →
  wire_pages fuel h s = Fault.
Proof.
  intros Hd Hp Hh Hf. unfold wire_pages.
  destruct (cons_last h (x :: l)) as (ps & a & E1).
  destruct (dll_home _ _ _ ps a x (l ++ [h]) Hd E1 eq_refl) as (Hr & Hn & Hpv & Hh0).
  assert (List_iter h (lists (mem s)) = Ret (mkIter x h, lists (mem s))) as Hit.
  { unfold List_iter. rewrite (M_bind_run _ _ _ _ _ (node_at_run _ _ _ _ Hn Hpv)).
    erewrite M_bind_run by (by apply (deref_run (λ m, refs m !! h))). done. }
  rewrite (M_bind_run _ _ _ _ _ (on_plist_run _ s _ _ Hit)), with_mem_id.
  by apply (wire_loop_faults s h [] x l).
Qed.

Lemma length_pages_of ar addr n : length (pages_of ar addr n) = n.
Proof. revert addr. induction n; intros; cbn; auto. Qed.

Lemma pages_of_page ar addr n p : p ∈ pages_of ar addr n → ∃ a, p = paddr_to_page_in ar a.
Proof.
  revert addr. induction n as [|n IH]; intros addr; cbn [pages_of]; [by intros []%not_elem_of_nil|].
  intros [->|Hp]%elem_of_cons; [by eexists|by eapply IH].
Qed.

Lemma ROUNDDOWN_page pa :
  is_usize pa → is_usize (ROUNDDOWN pa PAGE_SIZE) ∧
  ROUNDDOWN (ROUNDDOWN pa PAGE_SIZE) PAGE_SIZE = ROUNDDOWN pa PAGE_SIZE.
Proof.
  intros Hpa. pose proof (Z.mod_pos_bound pa (2 ^ 12) ltac:(lia)). pose proof (Z.mod_le pa (2 ^ 12)).
  unfold is_usize in *. rewrite PAGE_SIZE_eq, (ROUNDDOWN_spec pa 12) by (unfold is_usize; lia).
  assert (is_usize (pa - pa mod 2 ^ 12)) by (unfold is_usize; lia). split; [done|].
  rewrite ROUNDDOWN_spec by (done || lia). rewrite Zminus_mod_idemp_r, Z.sub_diag. 
  change (0 mod 2 ^ 12) with 0. lia.
Qed.

(** [mark_pages_in_use] cannot succeed on at least one page.  When the
    pages of the range are free, they are taken from the free list, and then
    the loop that should mark them as wired skips the first one and, after
    the others, writes through a pointer to its own list object: an access
    to no page.  When one of them is not free the call panics. *)
Theorem mark_pages_in_use_faults free_list local_list extra s fl pa len fuel :
  pmm_inv free_list extra s fl → local_list ≠ null → local_list ∉ free_list :: fl →
  vpages (mem s) !! local_list = None → is_usize pa → 0 < len →
  pa mod 4096 + len + 4095 < 2 ^ 64 →
  let count := (pa mod 4096 + len + 4095) / 4096 in
  (Z.to_nat count < fuel)%nat →
  let ps := pages_of (arenas s) (ROUNDDOWN pa PAGE_SIZE) (Z.to_nat count) in
  mark_pages_in_use local_list fuel pa len s = if decide (ps ⊆ fl) then Fault else Panic.
Proof.
  intros Hinv Hl0 Hnin Hnone Hpa Hlen Hov count Hf ps.
  pose proof (Z.mod_pos_bound pa 4096 ltac:(lia)) as Hm.
  assert (0 < count) as Hc by (apply Z.div_str_pos; lia).
  assert (PAGE_ALIGN (uadd len (Z.land pa (PAGE_SIZE - 1))) / PAGE_SIZE = count) as Ec.
  { change (PAGE_SIZE - 1) with (Z.ones 12). rewrite Z.land_ones by lia. change (2 ^ 12) with 4096.
    unfold PAGE_ALIGN. rewrite uadd_small by (unfold is_usize; lia).
    rewrite ROUNDUP_page by lia. change PAGE_SIZE with 4096. rewrite Z.div_mul by lia.
    unfold count. f_equal. lia. }
  destruct (local_list_spec free_list local_list s fl (proj1 Hinv) Hl0 Hnin) as (m & Hrun & Hinv1 & Hd1 & _).
  set (s1 := with_mem (mkPmem m (vpages (mem s))) s) in *.
  unfold mark_pages_in_use. cbv zeta. rewrite Ec. unfold fresh_list.
  rewrite (M_bind_run _ _ _ _ _ Hrun). unfold pmm_alloc_range.
  destruct (alloc_range_spec free_list local_list extra s1 fl (ROUNDDOWN pa PAGE_SIZE) count) as [Hok Hbad]; try done.
  { split; [exact Hinv1|apply Hinv]. } { by apply ROUNDDOWN_page. }
  rewrite (proj2 (ROUNDDOWN_page pa Hpa)) in Hok, Hbad. change (arenas s1) with (arenas s) in *. fold ps in Hok, Hbad.
  case_decide as Hsub.
  - destruct (Hok Hsub) as (s2 & fl' & Hrun2 & Hinv2 & Hd2 & Hfl & Har & _).
    rewrite (M_bind_run _ _ _ _ _ Hrun2).
    assert (∀ p, p ∈ ps → is_Some (vpages (mem s2) !! p)) as Hps.
    { intros p Hp. assert (p ≠ null) as Hp0 by (eapply pages_inv_nonnull; [apply Hinv|by apply Hsub]).
      destruct (pages_of_page _ _ _ _ Hp) as [a ->]. rewrite <-Har in Hp0 |- *.
      destruct (paddr_to_page_in_cases free_list s2 fl' a (proj1 Hinv2)) as [[? _]|(? & pg & _ & _ & _ & _ & Hpg & _)];
        [done|by eexists]. }
    subst ps. destruct (Z.to_nat count) as [|k] eqn:Ek; [lia|]. cbn [pages_of] in Hd2, Hps.
    apply (wire_pages_faults s2 local_list _ _ fuel Hd2); [set_solver| |rewrite length_pages_of; lia].
    by apply (alloc_range_no_new_page local_list (ROUNDDOWN pa PAGE_SIZE) count local_list s1 _ _ Hnone Hrun2).
  - unfold mbind, M_bind. by rewrite (Hbad Hsub).
Qed.

(** Two pages of the demo node. *)
Lemma mark_pages_in_use_faults_witness : mark_pages_in_use 16 10 0x80001234 0x1000 demo_node = Fault.
Proof.
  rewrite (mark_pages_in_use_faults 8 16 1 demo_node demo_free 0x80001234 0x1000 10);
    [|apply demo_node_inv|discriminate|by_compute|reflexivity|by_compute|reflexivity|reflexivity|vm_compute; lia].
  rewrite decide_True; [reflexivity|].
  intros q Hq. assert (q ∈ demo_slot <$> [1; 2]) as Hq' by exact Hq. unfold demo_free. set_solver + Hq'.
Defined.

(** A world at boot: root table at 0xffffffff00200000, tables for peripherals
    at 0xffffffff00300000, the kernel image loaded at 0x80200000. *)
Definition demo_kbv : Z := 0xffffffff00000000.
Definition demo_pts : Z := 0xffffffff00300000.
Definition demo_pgd : Z := 0xffffffff00200000.
Definition demo_tables : gmap Z (list Z) :=
  list_to_map ((λ a, (a, empty_table)) <$>
    demo_pgd :: ((λ i, paddr_to_physmap (0x80500000 + i * 4096)) <$> [0; 1; 2; 3])).
Definition demo_plat : platform := mkPlat [] [] demo_node demo_tables 0.

(** One gigabyte of peripherals at physical address 0. *)
Lemma add_periph_range_layout_witness :
  ∃ s', add_periph_range demo_kbv 0x80200000 demo_pts (demo_pts + 0x4000) demo_pgd 600 0 0x40000000 demo_plat =
          Ret (Ok (), s') ∧
    periph_ranges s' = [mkPeriph 0 0xfffffffe80000000 0x40000000] ∧ pmm_node s' = demo_node.
Proof.
  destruct (add_periph_range_layout demo_kbv 0x80200000 demo_pts (demo_pts + 0x4000) demo_pgd 600 0 0x40000000
    demo_plat) as (_ & _ & H); [vm_compute; discriminate|by_compute|exact I|discriminate|vm_compute; discriminate|].
  destruct (add_periph_range demo_kbv 0x80200000 demo_pts (demo_pts + 0x4000) demo_pgd 600 0 0x40000000 demo_plat)
    as [[[[]|e] s']| | |] eqn:E; try (exfalso; vm_compute in E; discriminate E).
  destruct (H _ _ eq_refl) as (_ & _ & Hp & Hr & _).
  exists s'. split; [reflexivity|]. split; [rewrite Hr; vm_compute; reflexivity|exact Hp].
Defined.

(** From the bytes of a device tree to arenas, reservations and peripherals. *)
Definition demo_names : list (list Z) :=
  [bs "#address-cells"; bs "#size-cells"; bs "linux,initrd-start"; bs "linux,initrd-end"; bs "bootargs";
   bs "device_type"; bs "reg"].


Example process_dtb_early_demo :
  match process_dtb_early demo_kbv 0x80200000 demo_pts (demo_pts + 0x4000) demo_pgd 600 0x82200000
          (flatten demo_names demo_dt) demo_plat with
  | Ret (Ok arenas, s) =>
      arenas = [mkInfo "ram" 0 0x80000000 0x8000000] ∧
      reserve_ranges s = [mkRange 0x80000000 0x80000; mkRange 0x82000000 0x800000] ∧
      periph_ranges s = [mkPeriph 0 0xfffffffe80000000 0x40000000]
  | _ => False
  end.
Proof. vm_compute. repeat split. Qed.
