(* ===== verification/Wiring.v ===== *)
(** * platform/riscv/mod.rs: from memory regions to arenas and reserved pages

    The end of [platform_early_init]: [add_arenas] hands the memory of the
    machine to the physical memory manager region by region, and
    [boot_reserve_wire] takes the pages of the boot reservations off the free
    list.  The record [machine] is what the first needs, [wiring] the state of
    the second between two reservations.  [memory_setup_stops] composes both:
    the arenas and the free list are exactly those of the regions, the pages
    of the reservations are moved in order to a local list, and the loop over
    that list which should mark them as wired leaves the list. *)

From Stdlib Require Import Sorted.
From S2P Require Import Prelude Defs LinkedList Page BootReserve Pmm Platform.

(** ** Arenas *)

Section arenas.
Context (free_list local_list : Z) (res : list BootReserveRange).

(** A region and the place of its page array: what [boot_reserve_range_search]
    found for it, inside the region. *)
Definition region := (ArenaInfo * Z)%type.
Definition region_ok (x : region) : Prop :=
  info_ok x.1 ∧
  boot_reserve_range_search (S (length res)) res (base x.1) (size x.1) (array_size x.1)
    = Ret (Ok (mkRange x.2 (array_size x.1))) ∧
  (PAGE_SIZE | x.2) ∧ base x.1 ≤ x.2 ∧ x.2 + array_size x.1 ≤ base x.1 + size x.1.

Definition regions_apart (x y : region) : Prop :=
  base x.1 + size x.1 ≤ base y.1 ∨ base y.1 + size y.1 ≤ base x.1.

Definition region_arena (x : region) : PmmArena := arena_at x.1 x.2.
Definition region_free (x : region) : list Z := new_free x.1 x.2.

(** A page descriptor of a region lies in the physmap image of the region. *)
Lemma region_slot x j :
  region_ok x → 0 ≤ j < size x.1 / PAGE_SIZE →
  base x.1 + PHYSMAP_BASE ≤ arena_slot (region_arena x) j < base x.1 + size x.1 + PHYSMAP_BASE.
Proof.
  intros (Hi & _ & _ & Hlo & Hhi) Hj. destruct (array_size_spec _ Hi) as (_ & _ & _ & Hb).
  destruct Hi as (? & _ & _ & _ & Hmap). change PHYSMAP_SIZE with (2 ^ 39) in Hmap.
  unfold arena_slot, region_arena, arena_at, paddr_to_physmap. cbn [page_array start].
  rewrite VM_PAGE_T_SIZE_val in *. set (pc := size x.1 / PAGE_SIZE) in *.
  unfold PHYSMAP_BASE_PHYS, PHYSMAP_BASE, KERNEL_ASPACE_BASE, _CONFIG_KERNEL_ASPACE_BASE.
  rewrite (usub_small _ 0), Z.sub_0_r by (unfold is_usize; lia).
  rewrite uadd_small by (unfold is_usize; lia). lia.
Qed.

Lemma region_slots_apart x y j k :
  region_ok x → region_ok y → regions_apart x y → 0 ≤ j < size x.1 / PAGE_SIZE → 0 ≤ k < size y.1 / PAGE_SIZE →
  arena_slot (region_arena x) j ≠ arena_slot (region_arena y) k.
Proof.
  intros Hx Hy Ha Hj Hk. pose proof (region_slot x j Hx Hj). pose proof (region_slot y k Hy Hk).
  destruct Ha; lia.
Qed.

(** One region more: the memory of the others is as ready as before. *)
Lemma ready_step s s' fl x y :
  region_ok x → region_ok y → regions_apart x y → backed s s' → arenas s' = arena_insert (region_arena x) (arenas s) →
  array_ready free_list local_list s fl y.1 y.2 →
  array_ready free_list local_list s' (fl ++ region_free x) y.1 y.2.
Proof.
  intros Hx Hy Hap [Hv Hn] Ha Hready j Hj. destruct (Hready j Hj) as (H1 & H2 & H3 & H4).
  split_and!; [by apply Hv|by apply Hn| |].
  - intros Hin. rewrite !app_comm_cons, elem_of_app in Hin. destruct Hin as [Hin|Hin]; [done|].
    apply list_elem_of_fmap in Hin as (k & E & [_ Hk%elem_of_seqZ]%list_elem_of_filter).
    apply (region_slots_apart x y k j Hx Hy Hap); [lia|exact Hj|by symmetry].
  - intros a k Hin Hk. rewrite Ha in Hin. apply arena_insert_elem in Hin as [->|Hin]; [|by apply H4].
    intros E. apply (region_slots_apart x y k j Hx Hy Hap); [exact Hk|exact Hj|by symmetry].
Qed.

(** The pages that the page arrays occupy. *)
Definition array_pages (xs : list region) : Z := foldr (λ x n, array_size x.1 / PAGE_SIZE + n) 0 xs.

(** What [add_arenas] needs of the machine. *)
Record machine (s : PmmNode) (fl : list Z) (xs : list region) : Prop := {
  ma_local : local_list ≠ null ∧ local_list ∉ free_list :: fl;
  ma_regions : Forall region_ok xs;
  ma_apart : ForallOrdPairs regions_apart xs;
  ma_ready : ∀ x, x ∈ xs → array_ready free_list local_list s fl x.1 x.2;
  ma_new : ∀ x a, x ∈ xs → a ∈ arenas s → arena_below a (region_arena x) ∨ arena_below (region_arena x) a;
}.

Lemma machine_step s s' fl x xs :
  machine s fl (x :: xs) → backed s s' → arenas s' = arena_insert (region_arena x) (arenas s) →
  machine s' (fl ++ region_free x) xs.
Proof.
  intros [[Hl0 Hl] Hok Hap Hre Hne] Hb Ha. inversion Hap as [|? ? Hx Hap']; subst.
  apply Forall_cons in Hok as [Hox Hok]. pose proof (proj1 (Forall_forall _ _) Hok) as Hoks.
  pose proof (proj1 (Forall_forall _ _) Hx) as Hxs. split; [split; [done|]|done|done|..].
  - rewrite app_comm_cons, not_elem_of_app. split; [done|].
    intros (k & E & [_ Hk%elem_of_seqZ]%list_elem_of_filter)%list_elem_of_fmap.
    destruct (Hre x ltac:(set_solver) k ltac:(lia)) as (_ & _ & Hn & _). set_solver.
  - intros y Hy. apply (ready_step s s' fl x y); [done|by apply Hoks|by apply Hxs|done|done|apply Hre; set_solver].
  - intros y a Hy Hin. rewrite Ha in Hin. apply arena_insert_elem in Hin as [->|Hin]; [|apply Hne; set_solver].
    apply (Hxs y Hy).
Qed.

(** All regions of the machine, in the order in which they are added. *)
Lemma add_arenas_spec xs p fl extra :
  reserve_ranges p = res → pmm_inv free_list extra (pmm_node p) fl → machine (pmm_node p) fl xs →
  ∃ s', add_arenas free_list local_list false (xs.*1) p =
          Ret (Ok (), mkPlat res (periph_ranges p) s' (ptables p) (periph_pos p)) ∧
    arenas s' = foldl (λ l x, arena_insert (region_arena x) l) (arenas (pmm_node p)) xs ∧
    pmm_inv free_list (extra + array_pages xs) s' (fl ++ concat (region_free <$> xs)) ∧
    machine s' (fl ++ concat (region_free <$> xs)) [] ∧
    ∀ q, vpages (mem (pmm_node p)) !! q = None → vpages (mem s') !! q = None.
Proof.
  revert p fl extra. induction xs as [|x xs IH]; intros p fl extra Hres Hinv Hm.
  { exists (pmm_node p). cbn. rewrite app_nil_r, Z.add_0_r, <-Hres. by destruct p. }
  pose proof Hm as [[Hl0 Hl] Hok _ Hre Hne]. apply Forall_cons in Hok as [(Hi & Hsr & Hal & Hlo & Hhi) _].
  destruct (add_arena_spec free_list local_list extra res (pmm_node p) fl x.1 x.2) as (s1 & Hrun & Ha & Hinv1 & _ & Hb);
    try done; [apply Hre; set_solver|intros a; apply Hne; set_solver|].
  pose proof (machine_step _ _ _ _ _ Hm Hb Ha) as Hm1.
  destruct (IH (mkPlat res (periph_ranges p) s1 (ptables p) (periph_pos p)) _ _ eq_refl Hinv1 Hm1)
    as (s' & Hrun' & Ha' & Hinv' & Hm' & Hv).
  exists s'. split_and!.
  - assert (on_node (pmm_add_arena free_list (reserve_ranges p) local_list x.1) p =
      Ret (Ok (), mkPlat res (periph_ranges p) s1 (ptables p) (periph_pos p))) as Hnode
      by (unfold on_node, zoom, pmm_add_arena; by rewrite Hres, Hrun).
    cbn [fmap list_fmap add_arenas]. erewrite M_bind_run by reflexivity. cbv iota.
    erewrite M_bind_run by reflexivity. by rewrite (bindR_run _ _ _ _ _ Hnode).
  - rewrite Ha'. cbn [pmm_node foldl]. by rewrite Ha.
  - cbn [fmap list_fmap concat array_pages foldr]. by rewrite app_assoc, Z.add_assoc.
  - cbn [fmap list_fmap concat]. by rewrite app_assoc.
  - intros q Hq. apply Hv. cbn [pmm_node]. rewrite eq_None_not_Some in *. by rewrite <-(proj1 Hb).
Qed.

Lemma arena_insert_perm x l : arena_insert x l ≡ₚ x :: l.
Proof.
  induction l as [|a l IH]; cbn [arena_insert]; [done|]. destruct (_ <? _); [done|]. by rewrite IH, Permutation_swap.
Qed.

Lemma arenas_perm xs l : foldl (λ l x, arena_insert (region_arena x) l) l xs ≡ₚ (region_arena <$> xs) ++ l.
Proof.
  revert l. induction xs as [|x xs IH]; intros l; cbn [foldl fmap list_fmap app]; [done|].
  by rewrite IH, arena_insert_perm, Permutation_middle.
Qed.
End arenas.

(** ** Reservations *)

(** The pages of one reservation, and of all. *)
Definition range_pages (ar : list PmmArena) (r : BootReserveRange) : list Z :=
  pages_of ar (ROUNDDOWN (r_pa r) PAGE_SIZE) (Z.to_nat (ROUNDUP_PAGE_SIZE (r_len r) / PAGE_SIZE)).
Definition reserved_pages (ar : list PmmArena) (res : list BootReserveRange) : list Z :=
  concat (range_pages ar <$> res).

Section wiring.
Context (free_list local_list total_list : Z) (extra : Z).
Hypothesis local_not_null : local_list ≠ null.

(** The free list holds [fl], the list of reserved pages [tl], and the list
    objects are apart from both. *)
Record wiring (s : PmmNode) (fl tl : list Z) : Prop := {
  wi_inv : pmm_inv free_list extra s fl;
  wi_total : dll (lists (mem s)) total_list tl;
  wi_apart : total_list :: tl ## free_list :: fl;
  wi_local : local_list ∉ (free_list :: fl) ++ total_list :: tl;
  wi_object : vpages (mem s) !! total_list = None;
}.

(** An empty local list for the next range. *)
Lemma fresh_local s fl tl :
  wiring s fl tl →
  ∃ s', fresh_list local_list s = Ret ((), s') ∧ wiring s' fl tl ∧ arenas s' = arenas s ∧
    dll (lists (mem s')) local_list [].
Proof.
  intros []. destruct (local_list_spec free_list local_list s fl (proj1 wi_inv0) local_not_null) as
    (m & Hrun & Hinv & Hd & _ & Hf); [set_solver|].
  eexists. split; [exact Hrun|]. split; [|by split]. split; simpl; try done.
  - split; [exact Hinv|apply wi_inv0].
  - apply (dll_frame _ _ _ _ _ wi_total0 Hf). set_solver.
Qed.

(** The pages that were taken join the reserved ones. *)
Lemma splice_total s fl tl ps :
  pmm_inv free_list extra s fl → dll (lists (mem s)) total_list tl → dll (lists (mem s)) local_list ps →
  total_list :: tl ++ ps ## free_list :: fl → local_list ∉ (free_list :: fl) ++ total_list :: tl ++ ps →
  total_list :: tl ## ps → vpages (mem s) !! total_list = None →
  ∃ s', on_plist (List_splice total_list local_list) s = Ret ((), s') ∧ wiring s' fl (tl ++ ps) ∧ arenas s' = arenas s.
Proof.
  intros Hinv Ht Hl Hap Hlo Hdis Hv.
  destruct (List_splice_spec (lists (mem s)) total_list tl local_list ps Ht Hl) as (m & Hrun & Hd & Hd' & Hf); [set_solver|].
  eexists. split; [apply (on_plist_run _ s _ _ Hrun)|]. split; [|done]. split; simpl; try done.
  split; [|apply Hinv]. apply (pages_inv_lists free_list s fl m _ (proj1 Hinv) Hf); [set_solver|].
  intros q. apply (frame_is_some _ _ _ _ _ _ Hf Hd). intros r Hr.
  destruct (decide (r ∈ total_list :: tl ++ ps)); [by left|right].
  assert (r = local_list) as -> by set_solver.
  destruct Hd' as (_ & _ & _ & Hp). destruct Hp as [[Hx _] _]. unfold nx in Hx. by destruct (nodes m !! local_list).
Qed.

(** A reservation of at least one byte that does not wrap when rounded. *)
Definition reserve_ok (r : BootReserveRange) : Prop :=
  is_usize (r_pa r) ∧ 0 < r_len r ∧ r_len r + 4095 < 2 ^ 64.

Lemma reserve_count r : reserve_ok r → 0 < ROUNDUP_PAGE_SIZE (r_len r) / PAGE_SIZE.
Proof.
  intros (_ & Hl & Hu). unfold ROUNDUP_PAGE_SIZE. rewrite ROUNDUP_page by lia.
  change PAGE_SIZE with 4096. rewrite Z.div_mul by lia. apply Z.div_str_pos. lia.
Qed.

(** One reservation, and what comes after it. *)
Lemma wire_range s fl tl r (k : M PmmNode (Result unit)) :
  wiring s fl tl → reserve_ok r →
  let ps := range_pages (arenas s) r in
  let step := (fresh_list local_list;;
     _ ←? pmm_alloc_range (r_pa r) (ROUNDUP_PAGE_SIZE (r_len r) / PAGE_SIZE) local_list;
     on_plist (List_splice total_list local_list);; k) in
  (ps ⊆ fl → ∃ s' fl', step s = k s' ∧ wiring s' fl' (tl ++ ps) ∧ fl ≡ₚ ps ++ fl' ∧ arenas s' = arenas s) ∧
  (¬ ps ⊆ fl → step s = Panic).
Proof.
  intros Hw Hok ps step. destruct (fresh_local s fl tl Hw) as (s1 & Hrun1 & Hw1 & Ha1 & Hd1). subst step.
  pose proof Hw1 as [Hinv1 Ht1 Hap1 Hlo1 Ho1]. rewrite (M_bind_run _ _ _ _ _ Hrun1). unfold pmm_alloc_range.
  destruct (alloc_range_spec free_list local_list extra s1 fl (r_pa r) (ROUNDUP_PAGE_SIZE (r_len r) / PAGE_SIZE))
    as [Hgood Hbad]; [done|done|set_solver|apply Hok|by apply reserve_count|]. rewrite Ha1 in Hgood, Hbad.
  fold (range_pages (arenas s) r) in Hgood, Hbad. fold ps in Hgood, Hbad. split; intros Hsub.
  2:{ unfold bindR, mbind, M_bind. by rewrite (Hbad Hsub). }
  destruct (Hgood Hsub) as (s2 & fl' & Hrun2 & Hinv2 & Hd2 & Hfl & Ha2 & Hf). rewrite (bindR_run _ _ _ _ _ Hrun2).
  assert (free_list ∉ fl ∧ NoDup fl) as [Hnf Hnd].
  { destruct (proj1 Hinv1) as ((_ & _ & Hnd%NoDup_cons & _) & _). done. }
  rewrite Hfl in Hnd. apply NoDup_app in Hnd as (_ & Hnd & _).
  destruct (splice_total s2 fl' tl ps) as (s3 & Hrun3 & Hw3 & Ha3); try done.
  - apply (dll_frame _ _ _ _ _ Ht1 Hf). intros q Hq Hin. rewrite app_comm_cons, elem_of_app in Hin. set_solver.
  - intros q Hq Hin. rewrite app_comm_cons, elem_of_app in Hq. destruct Hq as [Hq|Hq].
    + apply (Hap1 q Hq). rewrite Hfl. set_solver.
    + apply elem_of_cons in Hin as [->|Hin]; [by apply Hnf; apply Hsub|by apply (Hnd q)].
  - intros Hin. rewrite Hfl in Hlo1. set_solver.
  - intros q Hq Hin. apply (Hap1 q Hq). set_solver.
  - by apply (alloc_range_no_new_page total_list (r_pa r) _ local_list s1 _ _ Ho1 Hrun2).
  - exists s3, fl'. rewrite (M_bind_run _ _ _ _ _ Hrun3). split_and!; [done|done|done|congruence].
Qed.

(** The whole loop: it succeeds exactly when the pages of all reservations
    are free, and then moves them in order. *)
Lemma wire_ranges_spec res s fl tl :
  wiring s fl tl → Forall reserve_ok res →
  let ps := reserved_pages (arenas s) res in
  (ps ⊆+ fl → ∃ s' fl', wire_ranges local_list total_list res s = Ret (Ok (), s') ∧ wiring s' fl' (tl ++ ps) ∧
     fl ≡ₚ ps ++ fl' ∧ arenas s' = arenas s) ∧
  (¬ ps ⊆+ fl → wire_ranges local_list total_list res s = Panic).
Proof.
  intros Hw Hres. revert s fl tl Hw. induction Hres as [|r res Hr _ IH]; intros s fl tl Hw; cbv zeta; cbn [wire_ranges].
  { split; [|by intros []; apply submseteq_nil_l]. intros _. exists s, fl. rewrite app_nil_r. done. }
  destruct (wire_range s fl tl r (wire_ranges local_list total_list res) Hw Hr) as [Hgood Hbad].
  change (reserved_pages (arenas s) (r :: res)) with (range_pages (arenas s) r ++ reserved_pages (arenas s) res).
  set (ps := range_pages (arenas s) r) in *. destruct (decide (ps ⊆ fl)) as [Hsub|Hno].
  2:{ split; [|intros _; by apply Hbad]. intros Hs. destruct Hno. intros q Hq. eapply elem_of_submseteq; [|exact Hs]. set_solver. }
  destruct (Hgood Hsub) as (s1 & fl1 & Hrun & Hw1 & Hfl & Ha). rewrite Hrun.
  destruct (IH s1 fl1 _ Hw1) as [Hg2 Hb2]. rewrite Ha in Hg2, Hb2.
  assert (ps ++ reserved_pages (arenas s) res ⊆+ fl ↔ reserved_pages (arenas s) res ⊆+ fl1) as ->.
  { rewrite Hfl. split; [apply submseteq_app_inv_l|apply submseteq_skips_l]. }
  split; [|done]. intros Hs. destruct (Hg2 Hs) as (s' & fl' & -> & Hw' & Hfl' & Ha'). exists s', fl'. rewrite app_assoc.
  split_and!; [done|done|by rewrite Hfl, Hfl', app_assoc|congruence].
Qed.

(** The pages of a wiring state have descriptors. *)
Lemma reserved_descriptors s fl tl ar res p :
  wiring s fl tl → arenas s = ar → p ∈ reserved_pages ar res → p ≠ null → is_Some (vpages (mem s) !! p).
Proof.
  intros [Hinv] <- Hp Hnn. unfold reserved_pages in Hp.
  apply list_elem_of_In, in_concat in Hp as (l & Hl%list_elem_of_In & Hp%list_elem_of_In).
  apply list_elem_of_fmap in Hl as (r & -> & _). destruct (pages_of_page _ _ _ _ Hp) as [a ->].
  destruct (paddr_to_page_in_cases free_list s fl a (proj1 Hinv)) as [[? _]|(? & pg & _ & _ & _ & _ & Hpg & _)]; [done|by eexists].
Qed.
End wiring.

(** The list objects of [boot_reserve_wire] before the loop. *)
Lemma fresh_total free_list local_list total_list extra s fl :
  pmm_inv free_list extra s fl → total_list ≠ null → NoDup [local_list; total_list] →
  local_list ∉ free_list :: fl → total_list ∉ free_list :: fl → vpages (mem s) !! total_list = None →
  ∃ s', fresh_list total_list s = Ret ((), s') ∧ wiring free_list local_list total_list extra s' fl [] ∧
    arenas s' = arenas s.
Proof.
  intros [Hinv Hc] Hnn Hnd Hlo Hto Hv.
  destruct (local_list_spec free_list total_list s fl Hinv Hnn Hto) as (m & Hrun & Hinv' & Hd & _).
  eexists. split; [exact Hrun|]. split; [|done]. apply NoDup_cons in Hnd as [Hnd _].
  split; simpl; [by split|done|set_solver|set_solver|done].
Qed.

(** [boot_reserve_wire] takes the pages of the reservations, and stops. *)
Lemma boot_reserve_wire_spec free_list local_list total_list reserved_page_list extra p fl fuel :
  let s := pmm_node p in
  let ps := reserved_pages (arenas s) (reserve_ranges p) in
  pmm_inv free_list extra s fl → local_list ≠ null → total_list ≠ null → NoDup [local_list; total_list] →
  local_list ∉ free_list :: fl → total_list ∉ free_list :: fl → vpages (mem s) !! total_list = None →
  Forall reserve_ok (reserve_ranges p) → reserve_ranges p ≠ [] → (length ps < fuel)%nat →
  (ps ⊆+ fl →
     (∃ s' fl', (fresh_list total_list;; wire_ranges local_list total_list (reserve_ranges p)) s = Ret (Ok (), s') ∧
        pmm_inv free_list extra s' fl' ∧ fl ≡ₚ ps ++ fl' ∧ dll (lists (mem s')) total_list ps) ∧
     boot_reserve_wire local_list total_list reserved_page_list fuel p = Fault) ∧
  (¬ ps ⊆+ fl → boot_reserve_wire local_list total_list reserved_page_list fuel p = Panic).
Proof.
  intros s ps Hinv Hl0 Ht0 Hnd Hlo Hto Hv Hres Hne Hf.
  destruct (fresh_total _ _ _ _ _ _ Hinv Ht0 Hnd Hlo Hto Hv) as (s1 & Hrun1 & Hw1 & Ha1).
  destruct (wire_ranges_spec free_list local_list total_list extra Hl0 (reserve_ranges p) s1 fl [] Hw1 Hres)
    as [Hgood Hbad]. rewrite Ha1 in Hgood, Hbad. fold ps in Hgood, Hbad.
  assert (∀ s2, wire_ranges local_list total_list (reserve_ranges p) s1 = s2 →
    boot_reserve_wire local_list total_list reserved_page_list fuel p = on_node (λ _, 
      (_ ←? λ _, s2; wire_pages fuel total_list;; l ← BootContext_reserved_page_list reserved_page_list;
       on_plist (List_splice l total_list);; mret (Ok ())) s1) p) as Hrun.
  { intros s2 <-. unfold boot_reserve_wire, getS, on_node, zoom. unfold mbind at 1, M_bind at 1.
    by rewrite (M_bind_run _ _ _ _ _ Hrun1). }
  split; intros Hsub; [|by rewrite (Hrun _ (Hbad Hsub))].
  destruct (Hgood Hsub) as (s2 & fl' & Hrun2 & Hw2 & Hfl & Ha2).
  split; [exists s2, fl'; rewrite (M_bind_run _ _ _ _ _ Hrun1); split_and!; [done|apply Hw2|done|apply Hw2]|].
  rewrite (Hrun _ Hrun2). clear Hrun. assert (wire_pages fuel total_list s2 = Fault) as Hfault.
  2:{ unfold on_node, zoom, bindR, mbind, M_bind. by rewrite Hfault. }
  assert (∀ q, q ∈ ps → is_Some (vpages (mem s2) !! q)) as Hps.
  { intros q Hq. eapply (reserved_descriptors _ _ _ _ _ _ _ _ _ _ Hw2 eq_refl).
    - by rewrite Ha2.
    - eapply pages_inv_nonnull; [apply Hinv|]. eapply elem_of_submseteq; [exact Hq|exact Hsub]. }
  destruct ps as [|x l] eqn:E; [exfalso|].
  { subst ps. destruct (reserve_ranges p) as [|r res]; [done|]. apply Forall_cons in Hres as [Hr _].
    pose proof (reserve_count r Hr). apply (f_equal length) in E. unfold reserved_pages in E. cbn [fmap list_fmap concat] in E.
    rewrite length_app in E. unfold range_pages in E. rewrite length_pages_of in E. cbn [length] in E. lia. }
  apply (wire_pages_faults s2 total_list x l fuel (wi_total _ _ _ _ _ _ _ Hw2)); [set_solver|apply Hw2|].
  cbn [length] in Hf. lia.
Qed.


(** Four pages at 2 GiB with their page array in the last one, two pages at
    4 GiB with theirs in the second one; two reservations in the first region. *)
Definition demo_regions : list region :=
  [(demo_info, demo_array_pa); (mkInfo (Pmm.name demo_info) 0 0x100000000 0x2000, 0x100001000)].
Definition demo_slots : list Z :=
  concat ((λ x, arena_slot (region_arena x) <$> seqZ 0 (size x.1 / PAGE_SIZE)) <$> demo_regions).
Definition demo_machine : platform :=
  mkPlat [mkRange 0x80000000 0x1000; mkRange 0x80002000 0x800] []
    (mkPmm (mkPmem (mkMem (list_to_map ((8, mkNode 8 8) :: ((λ a, (a, mkNode 5 7)) <$> demo_slots)))
                          (list_to_map [(8, 8)]))
                   (list_to_map ((λ a, (a, mkPage 9 vm_page_object_new 9 9)) <$> demo_slots))) [] 0 0) ∅ 0.

Lemma demo_machine_ready : machine 8 32 (reserve_ranges demo_machine) (pmm_node demo_machine) [] demo_regions.
Proof.
  split.
  - split; [discriminate|by_compute].
  - constructor; [|constructor; [|constructor]].
    + split_and!; [apply demo_info_ok|vm_compute; reflexivity|by exists 0x80003|vm_compute; discriminate..].
    + split_and!; [|vm_compute; reflexivity|by exists 0x100001|vm_compute; discriminate..].
      split_and!; try done; [by exists 0x100000|by exists 2].
  - repeat constructor. vm_compute. discriminate.
  - intros x Hx j Hj. unfold demo_regions in Hx. rewrite !elem_of_cons in Hx. destruct Hx as [->|[->|[]%not_elem_of_nil]].
    + destruct (index4 j Hj) as [->|[->|[->| ->]]];
        (split_and!; [by eexists|by eexists|by_compute|]); intros a k Ha; by apply not_elem_of_nil in Ha.
    + assert (j = 0 ∨ j = 1) as [->| ->] by (change (0 ≤ j < 2) in Hj; lia);
        (split_and!; [by eexists|by eexists|by_compute|]); intros a k Ha; by apply not_elem_of_nil in Ha.
  - intros x a _ Ha. by apply not_elem_of_nil in Ha.
Qed.

