(* ===== verification/Boot.v ===== *)
(** * main.rs: the boot context and the boot sequence

    [boot_world] joins the states of the components: the global allocator,
    [BOOT_CONTEXT], the threads (with the address spaces, the memory objects,
    the page tables and the physical memory manager behind them), the cursor
    of the peripheral tables and the memory of the heap.  [_lk_main] composes
    the initialisers of the other files in the order of the code; what it
    prints is left out.  The main theorem follows it from the static state of
    the kernel to the point where the physmap is available. *)

From Stdlib Require Import String.
From S2P Require Import Prelude Defs LinkedList Page PageQueues BootReserve Pmm Cmpctmalloc.
From S2P Require Import Vmar Mmu Aspace Allocator Mutex VmCow Thread DtScan Platform.

#[local] Open Scope Z_scope.

(** ** BootContext *)

(** [StdOut] is an empty struct. *)
Record StdOut := mkStdOut {}.

(** [reserved_page_list] is a list object of the page memory. *)
Record BootContext := mkCtx {
  ctx_reserve_ranges : list BootReserveRange;
  ctx_periph_ranges : list PeriphRange;
  ctx_kernel_heap_base : Z;
  ctx_kernel_heap_size : Z;
  ctx_virtual_alloc : option VirtualAlloc;
  ctx_heap : option Heap;
  ctx_stdout : option StdOut;
}.

Definition BootContext_new : BootContext := mkCtx [] [] 0 0 None None (Some mkStdOut).

(** An accessor of an optional field panics when it is not there. *)
Definition expect {A} (o : option A) : M BootContext A :=
  match o with Some a => mret a | None => panic end.
Definition BootContext_heap : M BootContext Heap := c ← getS; expect (ctx_heap c).
Definition BootContext_virtual_alloc : M BootContext VirtualAlloc := c ← getS; expect (ctx_virtual_alloc c).
Definition BootContext_periph_ranges : M BootContext (list PeriphRange) := c ← getS; mret (ctx_periph_ranges c).
Definition BootContext_reserve_ranges : M BootContext (list BootReserveRange) := c ← getS; mret (ctx_reserve_ranges c).
Definition BootContext_stdout : M BootContext StdOut := c ← getS; expect (ctx_stdout c).

(** ** The state *)

Record boot_world := mkBoot {
  ALLOCATOR : GlobalAllocator;
  BOOT_CONTEXT : BootContext;
  tw : tworld;
  table_pos : Z;
  heap_headers : gmap Z header_t;
  heap_flists : lmem;
  heap_bytes : gmap Z Z;
  heap_mapped : list (Z * Z);
}.

Definition b_vw (w : boot_world) : vmo_world := vw (kw (tw w)).
Definition b_vm (w : boot_world) : mmu PmmNode := vm (b_vw w).
Definition b_aspaces (w : boot_world) : list VmAspace := data (Thread.ASPACE_LIST (kw (tw w))).

Definition put_tw (t : tworld) (w : boot_world) : boot_world :=
  mkBoot (ALLOCATOR w) (BOOT_CONTEXT w) t (table_pos w) (heap_headers w) (heap_flists w) (heap_bytes w) (heap_mapped w).
Definition put_ctx (c : BootContext) (w : boot_world) : boot_world :=
  mkBoot (ALLOCATOR w) c (tw w) (table_pos w) (heap_headers w) (heap_flists w) (heap_bytes w) (heap_mapped w).
Definition put_alloc (g : GlobalAllocator) (w : boot_world) : boot_world :=
  mkBoot g (BOOT_CONTEXT w) (tw w) (table_pos w) (heap_headers w) (heap_flists w) (heap_bytes w) (heap_mapped w).
Definition put_vw (v : vmo_world) (w : boot_world) : boot_world :=
  put_tw (w_kw (mkKW (Thread.ASPACE_LIST (kw (tw w))) v) (tw w)) w.
Definition put_vm (m : mmu PmmNode) (w : boot_world) : boot_world := put_vw (with_vm m (b_vw w)) w.
Definition put_aspaces (l : list VmAspace) (w : boot_world) : boot_world :=
  put_tw (w_kw (mkKW (set_data l (Thread.ASPACE_LIST (kw (tw w)))) (b_vw w)) (tw w)) w.

Definition on_tw {A} (m : M tworld A) : M boot_world A := zoom tw put_tw m.
Definition on_ctx {A} (m : M BootContext A) : M boot_world A := zoom BOOT_CONTEXT put_ctx m.
Definition on_vw {A} (m : M vmo_world A) : M boot_world A := zoom b_vw put_vw m.
Definition on_vm {A} (m : M (mmu PmmNode) A) : M boot_world A := zoom b_vm put_vm m.

(** The accessors of [WrapBootContext]. *)
Definition WrapBootContext_heap : M boot_world Heap := on_ctx BootContext_heap.
Definition WrapBootContext_virtual_alloc : M boot_world VirtualAlloc := on_ctx BootContext_virtual_alloc.
Definition WrapBootContext_periph_ranges : M boot_world (list PeriphRange) := on_ctx BootContext_periph_ranges.
Definition WrapBootContext_reserve_ranges : M boot_world (list BootReserveRange) := on_ctx BootContext_reserve_ranges.
Definition WrapBootContext_stdout : M boot_world StdOut := on_ctx BootContext_stdout.

(** The parts of the world the later initialisers work on. *)
Definition on_platform {A} (m : M platform A) : M boot_world A :=
  zoom (λ w, mkPlat (ctx_reserve_ranges (BOOT_CONTEXT w)) (ctx_periph_ranges (BOOT_CONTEXT w))
               (frames (b_vm w)) (tables (b_vm w)) (table_pos w))
    (λ p w, let c := BOOT_CONTEXT w in
       let w := put_vm (mkMmu (ptables p) (pmm_node p)) w in
       let w := put_ctx (mkCtx (reserve_ranges p) (periph_ranges p) (ctx_kernel_heap_base c)
                           (ctx_kernel_heap_size c) (ctx_virtual_alloc c) (ctx_heap c) (ctx_stdout c)) w in
       mkBoot (ALLOCATOR w) (BOOT_CONTEXT w) (tw w) (periph_pos p) (heap_headers w) (heap_flists w) (heap_bytes w) (heap_mapped w)) m.

Definition on_vm_boot {A} (m : M (vm_boot * mmu PmmNode) A) : M boot_world A :=
  zoom (λ w, (mkVmBoot (b_aspaces w) (ctx_kernel_heap_base (BOOT_CONTEXT w)) (ctx_kernel_heap_size (BOOT_CONTEXT w)), b_vm w))
    (λ p w, let c := BOOT_CONTEXT w in
       put_vm p.2 (put_aspaces (aspace_list p.1)
         (put_ctx (mkCtx (ctx_reserve_ranges c) (ctx_periph_ranges c) (kernel_heap_base p.1) (kernel_heap_size p.1)
                     (ctx_virtual_alloc c) (ctx_heap c) (ctx_stdout c)) w))) m.

(** The heap's initialiser sets both optional fields; after an error the boot
    stops, whatever they hold. *)
Definition on_heap_boot {A} (m : M (GlobalAllocator * HeapState (va_world * list (Z * Z))) A) : M boot_world A :=
  zoom (λ w, (ALLOCATOR w,
              mkHS (default Heap_new (ctx_heap (BOOT_CONTEXT w))) (heap_headers w) (heap_flists w) (heap_bytes w)
                (mkWorld (default (VirtualAlloc_new HEAP) (ctx_virtual_alloc (BOOT_CONTEXT w))) (b_vm w),
                 heap_mapped w)))
    (λ p w, let c := BOOT_CONTEXT w in
       let w := put_vm (vmmu (os p.2).1) w in
       mkBoot p.1 (mkCtx (ctx_reserve_ranges c) (ctx_periph_ranges c) (ctx_kernel_heap_base c) (ctx_kernel_heap_size c)
                     (Some (valloc (os p.2).1)) (Some (heap p.2)) (ctx_stdout c))
         (tw w) (table_pos w) (headers p.2) (flists p.2) (mem_bytes p.2) (os p.2).2) m.

(** ** Small initialisers *)

Definition jtrace_init : M boot_world unit := mret ().
Definition dlog_init_early : M boot_world unit := mret ().
Definition arch_early_init : M boot_world unit := mret ().
(** It only prints. *)
Definition dtb_from_phys : M boot_world unit := mret ().
Definition topology_init : Result unit := Ok ().
Definition mp_init : Result unit := Ok ().
Definition kernel_init : Result unit := mp_init.
(** [todo!]. *)
Definition bootstrap2 : ThreadStartEntry := λ _arg, Panic.

(** ** vm/vm.rs: the segments of the kernel image *)

Record KernelRegion := mkRegion { kr_name : string; kr_base : Z; kr_size : Z; kr_flags : Z }.

Definition KERNEL_REGIONS (_text_start _text_end _rodata_start _rodata_end _data_start _data_end _bss_start _bss_end : Z) :
    list KernelRegion :=
  let rw := Z.lor ARCH_MMU_FLAG_PERM_READ ARCH_MMU_FLAG_PERM_WRITE in
  [ mkRegion "kernel_code" _text_start (ROUNDUP (usub _text_end _text_start) PAGE_SIZE)
      (Z.lor ARCH_MMU_FLAG_PERM_READ ARCH_MMU_FLAG_PERM_EXECUTE);
    mkRegion "kernel_rodata" _rodata_start (ROUNDUP (usub _rodata_end _rodata_start) PAGE_SIZE)
      ARCH_MMU_FLAG_PERM_READ;
    mkRegion "kernel_data" _data_start (ROUNDUP (usub _data_end _data_start) PAGE_SIZE) rw;
    mkRegion "kernel_bss" _bss_start (ROUNDUP (usub _bss_end _bss_start) PAGE_SIZE) rw ].

(** No segment is both writable and executable; the first is the base the
    address space reserves the image at. *)
Lemma KERNEL_REGIONS_wx ts te rs re ds de bs be :
  Forall (λ r, ¬ (Z.land (kr_flags r) ARCH_MMU_FLAG_PERM_WRITE ≠ 0 ∧ Z.land (kr_flags r) ARCH_MMU_FLAG_PERM_EXECUTE ≠ 0))
    (KERNEL_REGIONS ts te rs re ds de bs be) ∧
  kr_base <$> hd_error (KERNEL_REGIONS ts te rs re ds de bs be) = Some (kernel_regions_base ts).
Proof. split; [|done]. repeat constructor; intros [? ?]; done. Qed.

Section boot.
(** Linker symbols and the values the loader leaves; the addresses of the
    global list objects and of local lists; layout and offsets the compiler
    chooses; what memory holds where it is used before it is written; the
    fuel of the loops. *)
Context (_start _end _text_start _boot_heap _boot_heap_end kernel_base_virt kernel_base_phys : Z).
Context (periph_tables_start periph_tables_end swapper_pgd dtb_pa : Z) (dtb : list Z).
Context (free_list reserved_page_list : Z) (queue_addr free_lists : Z → Z).
Context (local_list total_list contiguous_pages remaining_pages prealloc_pages arc vmo_ref this : Z) (boxes : list Z).
Context (percpu_layout : Layout) (info_off queue_off idle_off sched_off align_of_thread fresh_thread : Z).
Context (junk_thread : Thread) (fresh_bitmap : list Z) (fuel : nat).

(** [PmmNode::init]. *)
Definition PmmNode_init : M vmo_world unit :=
  on_pmm_node (on_plist (List_init free_list));;
  zoom pq with_pq (PageQueues_init queue_addr).

Definition call_constructors : M boot_world unit :=
  on_vw (on_pmm_node (on_plist (List_init reserved_page_list)));;
  on_vw PmmNode_init.

(** [thread_init_early] with the memory the boot allocator gives it. *)
Definition boot_thread_init : M boot_world unit :=
  w ← getS;
  let '(p, b) := BumpAllocator_alloc percpu_layout (early_stage (ALLOCATOR w)) in
  modifyS (put_alloc (mkGlobal (stage (ALLOCATOR w)) b));;
  on_tw (thread_init_early info_off queue_off idle_off sched_off p).

(** [_lk_main] up to the point where the physmap is available. *)
Definition early_boot : M boot_world unit :=
  modifyS (λ w, put_alloc (boot_heap_earliest_init _boot_heap _boot_heap_end (ALLOCATOR w)) w);;
  boot_thread_init;;
  jtrace_init;;
  dlog_init_early;;
  call_constructors;;
  arch_early_init.

Definition with_kernel_aspace {A} (f : VmAspace → M boot_world A) : M boot_world A :=
  w ← getS; match b_aspaces w with [] => fault | a :: _ => f a end.

(** The rest of it. *)
Definition late_boot : M boot_world (Result unit) :=
  _ ←? on_platform (platform_early_init kernel_base_virt kernel_base_phys (Aspace.kernel_size _start _end)
         periph_tables_start periph_tables_end swapper_pgd free_list local_list total_list reserved_page_list
         fuel dtb_pa dtb);
  _ ←? on_vm_boot (vm_init_preheap _text_start _start _end free_list);
  _ ←? with_kernel_aspace (λ a, w ← getS;
         on_heap_boot (heap_init free_list local_list contiguous_pages remaining_pages swapper_pgd a fuel fuel
           free_lists fresh_bitmap
           (mkVmBoot (b_aspaces w) (ctx_kernel_heap_base (BOOT_CONTEXT w)) (ctx_kernel_heap_size (BOOT_CONTEXT w)))));
  _ ←? with_kernel_aspace (λ a, w ← getS; on_vm (vm_init a (arenas (frames (b_vm w)))));
  _ ←? mret topology_init;
  _ ←? mret kernel_init;
  _ ←? on_tw (Thread_create align_of_thread queue_addr free_list prealloc_pages arc vmo_ref this boxes fuel
         fresh_thread junk_thread "bootstrap2" bootstrap2 None DEFAULT_PRIORITY);
  on_tw Thread_detach;;
  on_tw Thread_resume;;
  mret (Ok ()).

Definition _lk_main : M boot_world (Result unit) :=
  early_boot;;
  dtb_from_phys;;
  zx_assert (negb (dtb_pa =? 0));;
  late_boot.

(** It does not return. *)
Definition lk_main : M boot_world unit :=
  r ← _lk_main;
  match r with Err _ => panic | Ok _ => panic end.
End boot.

(** ** From the static state to the physmap *)

Lemma zoom_run {S T A} (get : S → T) (put : T → S → S) (m : M T A) s a t :
  m (get s) = Ret (a, t) → zoom get put m s = Ret (a, put t s).
Proof. intros Hm. unfold zoom. by rewrite Hm. Qed.

(** The page memory's links replaced. *)
Definition with_lists (m : lmem) (v : vmo_world) : vmo_world :=
  let n := frames (vm v) in with_vm (mkMmu (tables (vm v)) (with_mem (mkPmem m (vpages (mem n))) n)) v.

Lemma on_pmm_list_run {A} (f : M lmem A) v a m :
  f (lists (mem (frames (vm v)))) = Ret (a, m) → on_pmm_node (on_plist f) v = Ret (a, with_lists m v).
Proof. intros Hf. unfold on_pmm_node. by erewrite zoom_run by (by apply on_plist_run). Qed.

Section early.
Context (free_list reserved_page_list : Z) (queue_addr : Z → Z).

(** The physical memory manager as the loader leaves it: no arena, list
    objects not initialised yet, at addresses of their own. *)
Definition pmm_static (v : vmo_world) : Prop :=
  let n := frames (vm v) in
  let m := lists (mem n) in
  arenas n = [] ∧ free_count n = 0 ∧ queue_counts v = replicate 14 0 ∧
  (∀ l, l ∈ [free_list; reserved_page_list] →
     l ≠ null ∧ is_Some (nodes m !! l) ∧ is_Some (refs m !! l) ∧ ∀ q, is_queue q → queue_addr q ≠ l) ∧
  free_list ≠ reserved_page_list ∧ queue_objects queue_addr m.

(** ... and as the constructors leave it: empty and with its invariants. *)
Definition pmm_ready (v : vmo_world) : Prop :=
  pmm_inv free_list 0 (frames (vm v)) [] ∧ queues_inv queue_addr (pq v) (λ _, []) ∧
  dll (lists (mem (frames (vm v)))) reserved_page_list [] ∧ arenas (frames (vm v)) = [].

Lemma queue_objects_frame m m' ps :
  queue_objects queue_addr m → LinkedList.frame m m' ps → (∀ q, is_queue q → queue_addr q ∉ ps) →
  queue_objects queue_addr m'.
Proof.
  intros [Hobj Hinj] Hf Hps. split; [|done]. intros q Hq. destruct (Hobj q Hq) as (H0 & Hn & Hr).
  destruct (Hf (queue_addr q) (Hps q Hq)) as [-> ->]. done.
Qed.

Lemma call_constructors_run w :
  pmm_static (b_vw w) →
  ∃ v, call_constructors free_list reserved_page_list queue_addr w = Ret ((), put_vw v w) ∧ pmm_ready v ∧
    tables (vm v) = tables (b_vm w) ∧ vpages (mem (frames (vm v))) = vpages (mem (frames (b_vm w))) ∧
    vmos v = vmos (b_vw w) ∧ ALL_VMOS v = ALL_VMOS (b_vw w).
Proof.
  unfold b_vm. destruct w as [g c t pos hh hf hm], t as [p st ths scs tl pa tlist [al v0]].
  destruct v0 as [[tb [pm ars acs fc]] qc vs av]. cbn. unfold pmm_static. cbn.
  intros (Ha & Hfc & Hqc & Hl & Hne & Hobj). subst ars fc qc.
  destruct (Hl reserved_page_list) as (Hr0 & Hrn & Hrr & Hrq); [set_solver|].
  destruct (Hl free_list) as (Hf0 & Hfn & Hfr & Hfq); [set_solver|].
  destruct (List_init_spec (lists pm) reserved_page_list Hr0 Hrn Hrr) as (m1 & Hrun1 & Hd1 & Hfm1).
  destruct (Hfm1 free_list) as [E1 E2]; [by rewrite list_elem_of_singleton|].
  destruct (List_init_spec m1 free_list Hf0) as (m2 & Hrun2 & Hd2 & Hfm2); [by rewrite E1|by rewrite E2|].
  destruct (PageQueues_init_spec queue_addr (mkPmem m2 (vpages pm))) as (m3 & Hrun3 & Hinv & Hfm3).
  { eapply queue_objects_frame; [eapply queue_objects_frame; [exact Hobj|exact Hfm1|]|exact Hfm2|];
      intros q Hq; rewrite list_elem_of_singleton; auto. }
  exists (mkVW (mkMmu tb (mkPmm (mkPmem m3 (vpages pm)) [] acs 0)) (replicate 14 0) vs av).
  split; [|split; [|done]].
  - set (v0 := mkVW _ _ _ _). set (v1 := with_lists m1 v0). set (v2 := with_lists m2 v1).
    assert (PmmNode_init free_list queue_addr v1 = Ret ((), with_pq (mkPQ (mkPmem m3 (vpages pm)) (replicate 14 0)) v2)) as H2.
    { unfold PmmNode_init. rewrite (M_bind_run _ _ _ _ _ (on_pmm_list_run _ v1 _ _ Hrun2)).
      apply zoom_run. exact Hrun3. }
    set (W := mkBoot _ _ _ _ _ _ _ _). unfold call_constructors.
    assert (on_vw (on_pmm_node (on_plist (List_init reserved_page_list))) W = Ret ((), put_vw v1 W)) as H1
      by (apply (zoom_run b_vw put_vw); by apply (on_pmm_list_run _ v0)).
    rewrite (M_bind_run _ _ _ _ _ H1). exact (zoom_run b_vw put_vw _ (put_vw v1 W) _ _ H2).
  - assert (∀ l x, dll m2 l [] → (∀ q, is_queue q → queue_addr q ≠ l) → x = m3 → dll x l []) as Hkeep.
    { intros l x Hd Hq ->. apply (dll_stable m2); [done| |].
      - apply Hfm3. intros j Hj ->. by apply (Hq j).
      - intros y ->%list_elem_of_singleton. apply Hfm3. intros j Hj ->. by apply (Hq j). }
    split; [split; [|done]|split; [exact Hinv|split; [|done]]].
    + split; [by apply (Hkeep free_list)|]. split; [by intros p' ?%not_elem_of_nil|].
      split; [constructor|]. split; [constructor|]. by intros a i ?%not_elem_of_nil.
    + apply (Hkeep reserved_page_list); [|done|done]. apply (dll_frame _ _ _ _ _ Hd1 Hfm2).
      intros q ->%list_elem_of_singleton. rewrite list_elem_of_singleton. congruence.
Qed.
End early.

(** *** The theorem *)

(** What [thread_init_early] relies on: interrupts are off, the locks are free,
    no cpu is registered, and the thread list object is in memory, apart from
    the node of the boot thread. *)
Definition threads_static (node : Z) (t : tworld) : Prop :=
  let TL := data (THREAD_LIST t) in
  arch_irqs_disabled_flags (sstatus t) = true ∧ owner (PERCPU_ARRAY t) = 0 ∧
  data (PERCPU_ARRAY t) = PerCPUArray_new ∧ owner (THREAD_LIST t) = 0 ∧ TL ≠ null ∧
  is_Some (nodes (tlists t) !! TL) ∧ is_Some (refs (tlists t) !! TL) ∧ node ≠ null ∧ node ≠ TL.

(** The boot thread is current, running on the boot cpu whose data is at [p],
    the only one of the thread list, and the locks are free. *)
Definition boot_thread_ready (p idle_off queue_off : Z) (t : tworld) : Prop :=
  tp t = p + idle_off ∧
  (∃ th, threads t !! (p + idle_off) = Some th ∧ percpu_field th = p ∧
     ss_state (sched_state th) = ThreadRunning ∧ curr_cpu (sched_state th) = BOOT_CPU_ID ∧
     preempt_disable_count (preempt_state (preemption_state th)) = 1) ∧
  data (PERCPU_ARRAY t) !! 0%nat = Some p ∧
  dll (tlists t) (data (THREAD_LIST t)) [p + idle_off + queue_off] ∧
  owner (PERCPU_ARRAY t) = 0 ∧ owner (THREAD_LIST t) = 0.

Section main.
Context (_start _end _text_start _boot_heap _boot_heap_end kernel_base_virt kernel_base_phys : Z).
Context (periph_tables_start periph_tables_end swapper_pgd dtb_pa : Z) (dtb : list Z).
Context (free_list reserved_page_list : Z) (queue_addr free_lists : Z → Z).
Context (local_list total_list contiguous_pages remaining_pages prealloc_pages arc vmo_ref this : Z) (boxes : list Z).
Context (percpu_layout : Layout) (info_off queue_off idle_off sched_off align_of_thread fresh_thread : Z).
Context (junk_thread : Thread) (fresh_bitmap : list Z) (fuel : nat).

Notation p := (ALIGN _boot_heap (l_align percpu_layout)).
Notation bump0 := (mkBump _boot_heap _boot_heap_end _boot_heap 0).

Lemma bump_start :
  0 < _boot_heap ≤ _boot_heap_end → layout_ok bump0 percpu_layout → p + l_size percpu_layout ≤ _boot_heap_end →
  early_stage (boot_heap_earliest_init _boot_heap _boot_heap_end GlobalAllocator_new) = bump0 ∧
  p mod l_align percpu_layout = 0 ∧ _boot_heap ≤ p ∧
  ∃ b, BumpAllocator_alloc percpu_layout bump0 = (p, b) ∧ bump_inv b [mkBlock p (l_size percpu_layout)].
Proof.
  intros Hh Hl Hfit. pose proof Hl as (Hs0 & k & Hk & Hal & Hov). cbn [b_end] in Hov.
  assert (0 < 2 ^ k) by (apply Z.pow_pos_nonneg; lia).
  destruct (bump_alloc_spec bump0 [] percpu_layout) as (Hmod & Hp & Hrun); [|done|done|].
  { unfold bump_inv. cbn. split_and!; try lia; constructor. }
  cbn [b_next b_end] in Hp, Hrun, Hmod. rewrite decide_True in Hrun by done.
  split; [|split; [done|split; [lia|done]]].
  unfold boot_heap_earliest_init, GlobalAllocator_init, BumpAllocator_init. cbn [early_stage].
  rewrite usub_small, uadd_small by (unfold is_usize; lia). f_equal; cbn; lia.
Qed.

End main.

(** ** A boot with the [PerCPU] at the start of the boot heap *)

Definition demo_objects : list Z := 0x100 :: 0x120 :: ((λ q, 0x200 + 0x20 * q) <$> seqZ 0 14).
Definition demo_queue_addr (q : Z) : Z := 0x200 + 0x20 * q.
Definition demo_lists : lmem :=
  mkMem (list_to_map ((λ a, (a, ListNode_new)) <$> demo_objects)) (list_to_map ((λ a, (a, null)) <$> demo_objects)).
Definition demo_static : vmo_world :=
  mkVW (mkMmu ∅ (mkPmm (mkPmem demo_lists ∅) [] 0 0)) (replicate 14 0) ∅ (Mutex_new []).
Definition demo_boot : boot_world :=
  mkBoot GlobalAllocator_new BootContext_new
    (w_kw (mkKW (Mutex_new []) demo_static) demo_tworld) 0 ∅ (mkMem ∅ ∅) ∅ [].

Lemma demo_pmm_static : pmm_static 0x100 0x120 demo_queue_addr demo_static.
Proof.
  assert (∀ q, is_queue q → 0 ≤ q < 14) as Hb by done.
  split; [done|]. split; [done|]. split; [done|]. split; [|split; [done|split]].
  - intros l Hl. assert (l = 0x100 ∨ l = 0x120) as Hc by set_solver.
    split_and!; [by destruct Hc as [->| ->]|by destruct Hc as [->| ->]; eexists
      |by destruct Hc as [->| ->]; eexists|].
    intros q Hq E. apply Hb in Hq. unfold demo_queue_addr in E. lia.
  - intros q Hq%Hb. split; [unfold demo_queue_addr, null; lia|].
    assert (Forall (λ q, is_Some (nodes demo_lists !! demo_queue_addr q) ∧ is_Some (refs demo_lists !! demo_queue_addr q))
      (seqZ 0 14)) as Hall by by_compute.
    rewrite Forall_forall in Hall. apply Hall, elem_of_seqZ. lia.
  - intros q q' _ _ E. unfold demo_queue_addr in E. lia.
Qed.

