(* ===== verification/Tests.v ===== *)
(** * tests/: the kernel's own tests

    [do_tests] runs the tests of the heap ([test_cmpct]: blocks are filled
    with a pattern, checked and freed, one by one and sixteen at a time) and
    of the mutex ([test_mutex]).  A client's loads and stores work on the
    bytes of the heap state; a store also destroys the headers and list nodes
    it overlaps, so that a client that leaves its payload breaks the heap.
    The theorems say that the tests pass on every heap that keeps its
    invariant: a pattern that was written is found again, whatever blocks are
    allocated and freed in between, and any other byte stops the test. *)

From stdpp Require Import strings pretty.
From S2P Require Import Prelude Defs LinkedList Cmpctmalloc HeapPages HeapLists CmpctHeap KernelHeap Mutex.

#[local] Existing Instance free_t_linked.

(** ** Little-endian integers *)

Fixpoint le_split (n : nat) (v : Z) : list Z :=
  match n with O => [] | Datatypes.S n => v mod 256 :: le_split n (v / 256) end.
Fixpoint le_combine (bs : list Z) : Z :=
  match bs with [] => 0 | b :: bs => b + 256 * le_combine bs end.
Definition is_byte (b : Z) : Prop := 0 ≤ b < 256.

Lemma le_split_length n v : length (le_split n v) = n.
Proof. revert v. induction n as [|n IH]; intros v; simpl; [done|by rewrite IH]. Qed.

Lemma le_split_bytes n v : Forall is_byte (le_split n v).
Proof.
  revert v. induction n as [|n IH]; intros v; simpl; constructor; [|apply IH].
  unfold is_byte. apply Z.mod_pos_bound. lia.
Qed.

Lemma le_combine_split n v : 0 ≤ v < 256 ^ Z.of_nat n → le_combine (le_split n v) = v.
Proof.
  revert v. induction n as [|n IH]; intros v Hv; cbn [le_split le_combine]; [simpl in Hv; lia|].
  rewrite Nat2Z.inj_succ, Z.pow_succ_r in Hv by lia. rewrite IH.
  - pose proof (Z.div_mod v 256). lia.
  - split; [apply Z.div_pos; lia|]. apply Z.div_lt_upper_bound; lia.
Qed.

Lemma le_split_combine bs : Forall is_byte bs → le_split (length bs) (le_combine bs) = bs.
Proof.
  induction 1 as [|b bs Hb _ IH]; [done|]. cbn [length le_split le_combine]. unfold is_byte in Hb.
  rewrite (Z.mul_comm 256), Z.mod_add, Z.div_add, Z.mod_small, Z.div_small by lia. by rewrite Z.add_0_l, IH.
Qed.

(** A comparison of integers is one of bytes. *)
Lemma le_eqb bs n v :
  Forall is_byte bs → length bs = n → 0 ≤ v < 256 ^ Z.of_nat n →
  (le_combine bs =? v) = bool_decide (bs = le_split n v).
Proof.
  intros Hb <- Hv. apply eq_true_iff_eq. rewrite Z.eqb_eq, bool_decide_eq_true. split.
  - intros <-. by rewrite le_split_combine.
  - intros E. rewrite E. by apply le_combine_split.
Qed.

(** ** A client of the heap *)

Definition PADDING_SEED : Z := 0xCDEF_0123_4567_89AB.

Section client_ops.
Context {S : Type} {PA : PageAllocator S}.
Context (free_lists : Z → Z).
Notation HS := (HeapState S).

Fixpoint put_bytes (p : Z) (bs : list Z) (d : gmap Z Z) : gmap Z Z :=
  match bs with [] => d | b :: bs => <[p := b]> (put_bytes (p + 1) bs d) end.

(** [*ptr = v] and [*ptr] for a pointer to an integer of [n] bytes. *)
Definition store (p : Z) (n : nat) (v : Z) : M HS unit :=
  check_mapped p (Z.of_nat n);;
  modifyS (λ s, mkHS (heap s) (keep_n p (Z.of_nat n) (headers s))
                  (mkMem (keep_n p (Z.of_nat n) (nodes (flists s))) (refs (flists s)))
                  (put_bytes p (le_split n v) (mem_bytes s)) (os s)).
Definition load (p : Z) (n : nat) : M HS Z :=
  check_mapped p (Z.of_nat n);;
  deref (λ s, le_combine <$> mapM (λ i, mem_bytes s !! i) (seqZ p (Z.of_nat n))).

(** [while size >= w]: the pointer and the size that are left. *)
Fixpoint fill_loop (fuel w : nat) (v ptr size : Z) : M HS (Z * Z) :=
  if size <? Z.of_nat w then mret (ptr, size)
  else match fuel with
  | O => spin
  | Datatypes.S fuel =>
      store ptr w v;; fill_loop fuel w v (uadd ptr (Z.of_nat w)) (usub size (Z.of_nat w))
  end.

Definition fill_in (ptr size : Z) : M HS unit :=
  let fuel := Z.to_nat size in
  let padding := Z.lxor PADDING_SEED size in
  p ← fill_loop fuel 8 padding ptr size;
  p ← fill_loop fuel 4 (Z.land padding 0xFFFF_FFFF) p.1 p.2;
  p ← fill_loop fuel 2 (Z.land padding 0xFFFF) p.1 p.2;
  p ← fill_loop fuel 1 (Z.land padding 0xFF) p.1 p.2;
  mret ().

Fixpoint check_loop (fuel w : nat) (v ptr size : Z) : M HS (Z * Z) :=
  if size <? Z.of_nat w then mret (ptr, size)
  else match fuel with
  | O => spin
  | Datatypes.S fuel =>
      x ← load ptr w;
      zx_assert (x =? v);;
      check_loop fuel w v (uadd ptr (Z.of_nat w)) (usub size (Z.of_nat w))
  end.

Definition check_on (ptr size : Z) : M HS unit :=
  let fuel := Z.to_nat size in
  let padding := Z.lxor PADDING_SEED size in
  p ← check_loop fuel 8 padding ptr size;
  p ← check_loop fuel 4 (Z.land padding 0xFFFF_FFFF) p.1 p.2;
  p ← check_loop fuel 2 (Z.land padding 0xFFFF) p.1 p.2;
  p ← check_loop fuel 1 (Z.land padding 0xFF) p.1 p.2;
  mret ().

(** ** tests/cmpct.rs *)

(** [fuel] is that of [cmpct_alloc]. *)
Definition test_alloc_and_free (fuel : nat) (size : Z) : M HS unit :=
  ptr ← cmpct_alloc free_lists fuel size;
  fill_in ptr size;;
  check_on ptr size;;
  cmpct_free free_lists ptr.

(** [for i in ..n] of the two loops of [test_bundle_alloc], on the array
    [ptr]. *)
Definition index (ptr : list Z) (i : Z) : M HS Z :=
  match ptr !! Z.to_nat i with Some p => mret p | None => panic end.
Fixpoint bundle_fill (fuel n : nat) (i : Z) (ptr : list Z) : M HS (list Z) :=
  match n with
  | O => mret ptr
  | Datatypes.S n =>
      p ← cmpct_alloc free_lists fuel (i + 16);
      _ ← index ptr i;
      fill_in p (i + 16);;
      bundle_fill fuel n (i + 1) (<[Z.to_nat i := p]> ptr)
  end.
Fixpoint bundle_check (n : nat) (i : Z) (ptr : list Z) : M HS unit :=
  match n with
  | O => mret ()
  | Datatypes.S n =>
      p ← index ptr i;
      check_on p (i + 16);;
      cmpct_free free_lists p;;
      bundle_check n (i + 1) ptr
  end.
Definition test_bundle_alloc (fuel : nat) : M HS unit :=
  ptr ← bundle_fill fuel 16 0 (replicate 16 null);
  bundle_check 16 0 ptr.

Fixpoint each_size (fuel : nat) (sizes : list Z) : M HS unit :=
  match sizes with
  | [] => mret ()
  | i :: sizes => test_alloc_and_free fuel i;; each_size fuel sizes
  end.
Definition test_cmpct (fuel : nat) : M HS unit :=
  each_size fuel (seqZ 0 33);;
  each_size fuel (seqZ 512 17);;
  test_bundle_alloc fuel.
End client_ops.

(** ** tests/heap.rs *)

(** The strings and vectors are values: their memory is the business of the
    alloc crate, which calls the global allocator. *)
Section values.
Context {S : Type}.

Definition test_string : M S unit :=
  let str0 := "Hello, "%string in
  zx_assert (bool_decide (str0 = "Hello, "%string));;
  let str1 := (str0 +:+ "world!")%string in
  zx_assert (bool_decide (str1 = "Hello, world!"%string)).
End values.

Module HeapTest.
Record Test := mkTest { a : Z; b : Z }.
End HeapTest.

Fixpoint print_all (l : list string) : string :=
  match l with [] => "" | x :: l => (x +:+ ", " +:+ print_all l)%string end.
Definition print_len (n : nat) : string := ("len: " +:+ pretty (Z.of_nat n))%string.
(** The two lines that [test_vec] prints. *)
Definition test_vec : list string :=
  let v0 := [0; 1; 2] in
  let v1 := [HeapTest.mkTest 1 2] in
  [(print_all (pretty <$> v0) +:+ print_len (length v0))%string;
   (print_all ((λ v, "(" +:+ pretty (HeapTest.a v) +:+ " : " +:+ pretty (HeapTest.b v) +:+ ")")%string <$> v1) +:+
      print_len (length v1))%string].
Definition test_heap {S} : M S (list string) := test_string;; mret test_vec.

(** ** tests/mutex.rs *)

Module MutexTest.
Record Test := mkTest { a : Z }.
Definition Test_new : Test := mkTest 0.
End MutexTest.

(** Run by the thread with id [cur]; the values of [a] that are printed. *)
Definition test_mutex (cur : Z) : M (Mutex MutexTest.Test) (Z * Z) :=
  Mutex_lock cur;;
  test ← MutexGuard_deref;
  let before := MutexTest.a test in
  MutexGuard_deref_mut (MutexTest.mkTest 1);;
  test ← MutexGuard_deref;
  let after := MutexTest.a test in
  MutexGuard_drop cur;;
  mret (before, after).

(** ** tests/mod.rs *)

Definition TEST_MUTEX_static : Mutex MutexTest.Test := Mutex_new MutexTest.Test_new.

Record test_world (S : Type) := mkTW { test_heap_state : HeapState S; TEST_MUTEX : Mutex MutexTest.Test }.
Arguments mkTW {S} _ _.
Arguments test_heap_state {S} _.
Arguments TEST_MUTEX {S} _.

Definition do_tests {S} {PA : PageAllocator S} (free_lists : Z → Z) (fuel : nat) (cur : Z) :
    M (test_world S) (list string * (Z * Z)) :=
  zoom test_heap_state (λ h w, mkTW h (TEST_MUTEX w)) (test_cmpct free_lists fuel);;
  lines ← test_heap;
  values ← zoom TEST_MUTEX (λ m w, mkTW (test_heap_state w) m) (test_mutex cur);
  mret (lines, values).

(** ** What is written is found again *)

Definition rep (k : nat) (l : list Z) : list Z := concat (replicate k l).

(** The bytes that [fill_in] writes: as many whole words as fit, then the
    rest in halves. *)
Definition pattern (size : nat) : list Z :=
  let padding := Z.lxor PADDING_SEED (Z.of_nat size) in
  let r8 := (size `mod` 8)%nat in
  let r4 := (r8 `mod` 4)%nat in
  let r2 := (r4 `mod` 2)%nat in
  rep (size `div` 8) (le_split 8 padding) ++
  rep (r8 `div` 4) (le_split 4 (Z.land padding 0xFFFF_FFFF)) ++
  rep (r4 `div` 2) (le_split 2 (Z.land padding 0xFFFF)) ++
  rep (r2 `div` 1) (le_split 1 (Z.land padding 0xFF)).

Lemma rep_length k l : length (rep k l) = (k * length l)%nat.
Proof. unfold rep. induction k as [|k IH]; simpl; [done|]. rewrite length_app, IH. done. Qed.

Lemma pattern_length n : length (pattern n) = n.
Proof.
  unfold pattern. cbv zeta. rewrite !length_app, !rep_length, !le_split_length.
  pose proof (Nat.div_mod_eq n 8). pose proof (Nat.div_mod_eq (n mod 8) 4).
  pose proof (Nat.div_mod_eq ((n mod 8) mod 4) 2). rewrite Nat.div_1_r. lia.
Qed.

Section client.
Context {S : Type} {PA : PageAllocator S}.
Notation HS := (HeapState S).

(** [p, p + n) lies in one mapped range. *)
Definition inside (o : S) (p n : Z) : Prop := ∃ r, r ∈ mapped o ∧ r.1 ≤ p ∧ p + n ≤ r.1 + r.2.
(** The bytes from [p] on are [bs]. *)
Definition bytes_at (s : HS) (p : Z) (bs : list Z) : Prop :=
  ∀ i b, bs !! i = Some b → mem_bytes s !! (p + Z.of_nat i) = Some b.
(** [s'] is [s] with [bs] written at [p]: whatever is elsewhere is kept. *)
Record wrote (p : Z) (bs : list Z) (s s' : HS) : Prop := {
  w_heap : heap s' = heap s;
  w_os : os s' = os s;
  w_refs : refs (flists s') = refs (flists s);
  w_hdrs q : q + 16 ≤ p ∨ p + Z.of_nat (length bs) ≤ q → headers s' !! q = headers s !! q;
  w_nodes q : q + 16 ≤ p ∨ p + Z.of_nat (length bs) ≤ q → nodes (flists s') !! q = nodes (flists s) !! q;
  w_bytes q : q < p ∨ p + Z.of_nat (length bs) ≤ q → mem_bytes s' !! q = mem_bytes s !! q;
  w_new : bytes_at s' p bs;
}.

Lemma inside_sub o p n q m : inside o p n → p ≤ q → q + m ≤ p + n → inside o q m.
Proof. intros (r & ? & ? & ?) ? ?. exists r. split; [done|lia]. Qed.

Lemma inside_mapped o p n : inside o p n → is_mapped o p n = true.
Proof. intros (r & ? & ? & ?). by apply (is_mapped_spec _ _ _ r). Qed.

Lemma bytes_at_app s p bs bs' :
  bytes_at s p (bs ++ bs') ↔ bytes_at s p bs ∧ bytes_at s (p + Z.of_nat (length bs)) bs'.
Proof.
  split.
  - intros H. split; intros i b Hi.
    + apply H. by apply lookup_app_l_Some.
    + rewrite <-Z.add_assoc, <-Nat2Z.inj_add. apply H. rewrite lookup_app_r by lia. by rewrite Nat.add_comm, Nat.add_sub.
  - intros [H H'] i b [Hi|[Hl Hi]]%lookup_app_Some; [by apply H|].
    replace (p + Z.of_nat i) with (p + Z.of_nat (length bs) + Z.of_nat (i - length bs)) by lia. by apply H'.
Qed.

Lemma wrote_nil p s : wrote p [] s s.
Proof. split; try done. Qed.

Lemma wrote_app p bs bs' s s1 s2 :
  wrote p bs s s1 → wrote (p + Z.of_nat (length bs)) bs' s1 s2 → wrote p (bs ++ bs') s s2.
Proof.
  intros [] []. split; try congruence.
  - intros q Hq. rewrite length_app in Hq. rewrite w_hdrs1, w_hdrs0 by lia. done.
  - intros q Hq. rewrite length_app in Hq. rewrite w_nodes1, w_nodes0 by lia. done.
  - intros q Hq. rewrite length_app in Hq. rewrite w_bytes1, w_bytes0 by lia. done.
  - apply bytes_at_app. split; [|done]. intros i b Hi. rewrite w_bytes1; [by apply w_new0|].
    apply lookup_lt_Some in Hi. lia.
Qed.

Lemma put_bytes_far p bs d q : q < p ∨ p + Z.of_nat (length bs) ≤ q → put_bytes p bs d !! q = d !! q.
Proof.
  revert p. induction bs as [|b bs IH]; intros p Hq; simpl in *; [done|].
  rewrite lookup_insert_ne by lia. apply IH. lia.
Qed.
Lemma put_bytes_at p bs d i b : bs !! i = Some b → put_bytes p bs d !! (p + Z.of_nat i) = Some b.
Proof.
  revert p i. induction bs as [|b' bs IH]; intros p i Hi; [done|]. destruct i as [|i]; simpl in *.
  - injection Hi as ->. by rewrite Z.add_0_r, lookup_insert_eq.
  - rewrite lookup_insert_ne by lia. replace (p + Z.of_nat (Datatypes.S i)) with (p + 1 + Z.of_nat i) by lia. by apply IH.
Qed.

Lemma keep_n_far {A} p n (m : gmap Z A) q : q + 16 ≤ p ∨ p + n ≤ q → keep_n p n m !! q = m !! q.
Proof.
  intros Hq. unfold keep_n. rewrite map_lookup_filter. destruct (m !! q); simpl; [|done]. by rewrite option_guard_True.
Qed.

Lemma store_spec p n v s :
  inside (os s) p (Z.of_nat n) → ∃ s', store p n v s = Ret ((), s') ∧ wrote p (le_split n v) s s'.
Proof.
  intros Hin. unfold store. erewrite M_bind_run by (apply check_mapped_run; by apply inside_mapped).
  eexists. split; [reflexivity|]. split; simpl; try done; rewrite ?le_split_length.
  - intros q Hq. by apply keep_n_far.
  - intros q Hq. by apply keep_n_far.
  - intros q Hq. apply put_bytes_far. by rewrite le_split_length.
  - intros i b Hi. by apply put_bytes_at.
Qed.

Lemma load_spec p bs s :
  inside (os s) p (Z.of_nat (length bs)) → bytes_at s p bs → load p (length bs) s = Ret (le_combine bs, s).
Proof.
  intros Hin Hb. unfold load. erewrite M_bind_run by (apply check_mapped_run; by apply inside_mapped).
  apply deref_run. enough (mapM (λ i, mem_bytes s !! i) (seqZ p (Z.of_nat (length bs))) = Some bs) as -> by done.
  apply mapM_Some. apply Forall2_same_length_lookup. rewrite length_seqZ, Nat2Z.id. split; [done|].
  intros i q b Hq Hi. apply lookup_seqZ in Hq as [-> _]. by apply Hb.
Qed.
(** ** The loops *)

Lemma loop_step (n w : nat) :
  (0 < w ≤ n)%nat → (n `div` w = Datatypes.S ((n - w) `div` w) ∧ n `mod` w = (n - w) `mod` w)%nat.
Proof.
  intros Hw. replace n with ((n - w) + 1 * w)%nat at 1 3 by lia.
  rewrite Nat.div_add, Nat.Div0.mod_add by lia. lia.
Qed.

Lemma fill_loop_spec fuel w v p n s :
  (0 < w)%nat → (n ≤ fuel)%nat → 0 ≤ p → p + Z.of_nat n < 2 ^ 64 → inside (os s) p (Z.of_nat n) →
  ∃ s', fill_loop fuel w v p (Z.of_nat n) s =
          Ret ((p + Z.of_nat (w * (n `div` w)), Z.of_nat (n `mod` w)), s') ∧
    wrote p (rep (n `div` w) (le_split w v)) s s'.
Proof.
  intros Hw. revert p n s. induction fuel as [|fuel IH]; intros p n s Hf Hp Hu Hin; cbn [fill_loop];
    destruct (Z.ltb_spec (Z.of_nat n) (Z.of_nat w)) as [Hlt|Hge]; try lia.
  1,2: exists s; rewrite Nat.div_small, Nat.mod_small, Nat.mul_0_r, Z.add_0_r by lia; split; [done|apply wrote_nil].
  destruct (store_spec p w v s) as (s1 & Hrun & Hw1); [by apply (inside_sub _ p (Z.of_nat n)); [|lia|lia]|].
  rewrite (M_bind_run _ _ _ _ _ Hrun). rewrite uadd_small, usub_small by (unfold is_usize; lia).
  replace (Z.of_nat n - Z.of_nat w) with (Z.of_nat (n - w)) by lia.
  destruct (IH (p + Z.of_nat w) (n - w)%nat s1) as (s2 & Hrun2 & Hw2); [lia|lia|lia| |].
  { rewrite (w_os _ _ _ _ Hw1). by apply (inside_sub _ p (Z.of_nat n)); [|lia|lia]. }
  exists s2. destruct (loop_step n w) as [-> ->]; [lia|]. split.
  - rewrite Hrun2. do 3 f_equal. lia.
  - apply (wrote_app _ (le_split w v) _ _ s1); [done|]. by rewrite le_split_length.
Qed.

Lemma check_loop_spec fuel w v p bs s :
  (0 < w)%nat → (length bs ≤ fuel)%nat → 0 ≤ p → p + Z.of_nat (length bs) < 2 ^ 64 →
  inside (os s) p (Z.of_nat (length bs)) → bytes_at s p bs → Forall is_byte bs → 0 ≤ v < 256 ^ Z.of_nat w →
  let k := (length bs `div` w)%nat in
  check_loop fuel w v p (Z.of_nat (length bs)) s =
    if bool_decide (take (w * k) bs = rep k (le_split w v))
    then Ret ((p + Z.of_nat (w * k), Z.of_nat (length bs `mod` w)), s) else Panic.
Proof.
  intros Hw. revert p bs s. induction fuel as [|fuel IH]; intros p bs s Hf Hp Hu Hin Hb Hbs Hv; cbv zeta; cbn [check_loop];
    destruct (Z.ltb_spec (Z.of_nat (length bs)) (Z.of_nat w)) as [Hlt|Hge]; try lia.
  1,2: by rewrite Nat.div_small, Nat.mod_small, Nat.mul_0_r, Z.add_0_r, take_0 by lia.
  destruct (loop_step (length bs) w) as [-> ->]; [lia|].
  assert (∃ b1 b2, bs = b1 ++ b2 ∧ length b1 = w) as (b1 & b2 & -> & E1).
  { exists (take w bs), (drop w bs). by rewrite take_drop, length_take_le by lia. }
  rewrite length_app in *. apply bytes_at_app in Hb as [Hb1 Hb2]. apply Forall_app in Hbs as [Hs1 Hs2].
  rewrite E1 in Hb2. pose proof (load_spec p b1 s) as Hload. rewrite E1 in *.
  rewrite (M_bind_run _ _ _ _ _ (Hload ltac:(by apply (inside_sub _ p (Z.of_nat (w + length b2))); [|lia|lia]) Hb1)).
  rewrite (le_eqb b1 w v Hs1 E1 Hv), uadd_small, usub_small by (unfold is_usize; lia).
  replace (Z.of_nat (w + length b2) - Z.of_nat w) with (Z.of_nat (length b2)) by lia.
  replace (w + length b2 - w)%nat with (length b2) by lia.
  rewrite Nat.mul_succ_r, Nat.add_comm, take_app_add' by done.
  change (rep (Datatypes.S ?k) ?l) with (l ++ rep k l).
  case_bool_decide as Ec; [subst b1|].
  2:{ rewrite bool_decide_false; [done|]. intros [E _]%app_inj_1; [done|]. by rewrite le_split_length. }
  erewrite M_bind_run by reflexivity. rewrite (IH _ b2); try done; [|lia|lia|lia|].
  2:{ by apply (inside_sub _ p (Z.of_nat (w + length b2))); [|lia|lia]. }
  erewrite (bool_decide_ext (le_split w v ++ _ = _)) by (split; [apply app_inv_head|by intros ->]).
  by replace (p + Z.of_nat (w + w * length b2 `div` w)) with (p + Z.of_nat w + Z.of_nat (w * length b2 `div` w)) by lia.
Qed.
Lemma padding_bound n : is_usize n → 0 ≤ Z.lxor PADDING_SEED n < 256 ^ Z.of_nat 8.
Proof.
  intros Hn. change (256 ^ Z.of_nat 8) with (2 ^ 64). 
  assert (0 ≤ PADDING_SEED) by by_compute. apply u_bits_bound; [lia|apply Z.lxor_nonneg; unfold is_usize in Hn; tauto|].
  intros l Hl. rewrite Z.lxor_spec, !usize_testbit_high by (done || lia || by_compute). done.
Qed.
Lemma land_bound v k : 0 ≤ k → 0 ≤ Z.land v (Z.ones k) < 2 ^ k.
Proof. intros Hk. rewrite Z.land_ones by done. apply Z.mod_pos_bound. lia. Qed.

Lemma fill_in_spec p n s :
  0 ≤ p → p + Z.of_nat n < 2 ^ 64 → inside (os s) p (Z.of_nat n) →
  ∃ s', fill_in p (Z.of_nat n) s = Ret ((), s') ∧ wrote p (pattern n) s s'.
Proof.
  intros Hp Hu Hin. unfold fill_in. rewrite Nat2Z.id.
  pose proof (Nat.div_mod_eq n 8). pose proof (Nat.div_mod_eq (n mod 8) 4). pose proof (Nat.div_mod_eq ((n mod 8) mod 4) 2).
  set (pad := Z.lxor _ _).
  (* one loop, and where the next one goes on *)
  assert (∀ w v q m s1, (0 < w)%nat → p ≤ q → q + Z.of_nat m ≤ p + Z.of_nat n → os s1 = os s →
    ∃ s2, fill_loop n w v q (Z.of_nat m) s1 = Ret ((q + Z.of_nat (w * (m `div` w)), Z.of_nat (m `mod` w)), s2) ∧
      wrote q (rep (m `div` w) (le_split w v)) s1 s2 ∧ os s2 = os s) as Hloop.
  { intros w v q m s1 Hw Hq Hm Ho. destruct (fill_loop_spec n w v q m s1) as (s2 & Hrun & Hwr); try lia.
    - rewrite Ho. apply (inside_sub _ p (Z.of_nat n)); [done|lia|lia].
    - exists s2. split; [done|]. split; [done|]. by rewrite (w_os _ _ _ _ Hwr). }
  destruct (Hloop 8%nat pad p n s) as (s1 & Hr1 & Hw1 & Ho1); [lia|lia|lia|done|].
  destruct (Hloop 4%nat (Z.land pad 0xFFFF_FFFF) (p + Z.of_nat (8 * (n `div` 8))) (n `mod` 8)%nat s1) as (s2 & Hr2 & Hw2 & Ho2);
    [lia|lia|lia|done|].
  destruct (Hloop 2%nat (Z.land pad 0xFFFF) (p + Z.of_nat (8 * (n `div` 8)) + Z.of_nat (4 * (n `mod` 8 `div` 4)))
    (n `mod` 8 `mod` 4)%nat s2) as (s3 & Hr3 & Hw3 & Ho3); [lia|lia|lia|done|].
  destruct (Hloop 1%nat (Z.land pad 0xFF) (p + Z.of_nat (8 * (n `div` 8)) + Z.of_nat (4 * (n `mod` 8 `div` 4)) +
      Z.of_nat (2 * (n `mod` 8 `mod` 4 `div` 2))) (n `mod` 8 `mod` 4 `mod` 2)%nat s3) as (s4 & Hr4 & Hw4 & Ho4); [lia|lia| |done|].
  { pose proof (Nat.Div0.mod_le (n mod 8 mod 4) 2). lia. }
  rewrite (M_bind_run _ _ _ _ _ Hr1). cbn [fst snd]. rewrite (M_bind_run _ _ _ _ _ Hr2). cbn [fst snd].
  rewrite (M_bind_run _ _ _ _ _ Hr3). cbn [fst snd]. rewrite (M_bind_run _ _ _ _ _ Hr4). exists s4. split; [done|].
  apply (wrote_app _ _ _ _ s1 _ Hw1). rewrite rep_length, le_split_length, (Nat.mul_comm _ 8).
  apply (wrote_app _ _ _ _ s2 _ Hw2). rewrite rep_length, le_split_length, (Nat.mul_comm _ 4).
  apply (wrote_app _ _ _ _ s3 _ Hw3). by rewrite rep_length, le_split_length, (Nat.mul_comm _ 2).
Qed.

(** One check loop and the rest of the function. *)
Lemma check_seg {A} fuel w v p n b1 b2 (k : Z * Z → M HS A) s :
  n = (length b1 + length b2)%nat → (0 < w)%nat → length b1 = (w * (n `div` w))%nat → (n ≤ fuel)%nat → 0 ≤ p →
  p + Z.of_nat n < 2 ^ 64 → inside (os s) p (Z.of_nat n) →
  bytes_at s p (b1 ++ b2) → Forall is_byte (b1 ++ b2) → 0 ≤ v < 256 ^ Z.of_nat w →
  (x ← check_loop fuel w v p (Z.of_nat n); k x) s =
    if bool_decide (b1 = rep (n `div` w) (le_split w v))
    then k (p + Z.of_nat (length b1), Z.of_nat (length b2)) s else Panic.
Proof.
  intros -> Hw Hl Hf Hp Hu Hin Hb Hbs Hv. pose proof (check_loop_spec fuel w v p (b1 ++ b2) s) as Hc.
  rewrite length_app in Hc. specialize (Hc Hw Hf Hp Hu Hin Hb Hbs Hv). cbv zeta in Hc. rewrite <-Hl in Hc.
  rewrite take_app_length in Hc. pose proof (Nat.div_mod_eq (length b1 + length b2) w).
  replace ((length b1 + length b2) `mod` w)%nat with (length b2) in Hc by lia.
  destruct (bool_decide _); [by rewrite (M_bind_run _ _ _ _ _ Hc)|]. unfold mbind, M_bind. by rewrite Hc.
Qed.

(** The four parts of a buffer that the loops look at. *)
Lemma split_parts (bs : list Z) : let n := length bs in
  ∃ b1 b2 b3 b4, bs = b1 ++ b2 ++ b3 ++ b4 ∧ length b1 = (8 * (n `div` 8))%nat ∧
    length b2 = (4 * (n `mod` 8 `div` 4))%nat ∧ length b3 = (2 * (n `mod` 8 `mod` 4 `div` 2))%nat ∧
    length b4 = (n `mod` 8 `mod` 4 `mod` 2)%nat.
Proof.
  intros n. pose proof (Nat.div_mod_eq n 8). pose proof (Nat.div_mod_eq (n mod 8) 4).
  pose proof (Nat.div_mod_eq ((n mod 8) mod 4) 2).
  set (k1 := (8 * (n `div` 8))%nat). set (k2 := (4 * (n `mod` 8 `div` 4))%nat).
  set (k3 := (2 * (n `mod` 8 `mod` 4 `div` 2))%nat).
  exists (take k1 bs), (take k2 (drop k1 bs)), (take k3 (drop k2 (drop k1 bs))), (drop k3 (drop k2 (drop k1 bs))).
  rewrite !take_drop. rewrite !length_take, !length_drop. fold n. split; [done|]. lia.
Qed.

Lemma app_eq_bool (b1 p1 b2 p2 : list Z) :
  length b1 = length p1 → bool_decide (b1 ++ b2 = p1 ++ p2) = bool_decide (b1 = p1) && bool_decide (b2 = p2).
Proof.
  intros Hl. apply eq_true_iff_eq. rewrite andb_true_iff, !bool_decide_eq_true. split.
  - by intros ?%app_inj_1.
  - by intros [-> ->].
Qed.

Lemma check_on_spec p bs s :
  0 ≤ p → p + Z.of_nat (length bs) < 2 ^ 64 → inside (os s) p (Z.of_nat (length bs)) →
  bytes_at s p bs → Forall is_byte bs →
  check_on p (Z.of_nat (length bs)) s = if bool_decide (bs = pattern (length bs)) then Ret ((), s) else Panic.
Proof.
  intros Hp Hu Hin Hb Hbs. set (n := length bs) in *. unfold check_on. rewrite Nat2Z.id.
  assert (0 ≤ Z.lxor PADDING_SEED (Z.of_nat n) < 256 ^ Z.of_nat 8) as Hpad by (apply padding_bound; unfold is_usize; lia).
  unfold pattern. cbv zeta. set (pad := Z.lxor _ _) in *.
  destruct (split_parts bs) as (b1 & b2 & b3 & b4 & E & L1 & L2 & L3 & L4). fold n in L1, L2, L3, L4.
  assert (n = length b1 + (length b2 + (length b3 + length b4)))%nat as En by (unfold n; rewrite E, !length_app; lia).
  pose proof (Nat.div_mod_eq n 8). pose proof (Nat.div_mod_eq (n mod 8) 4). pose proof (Nat.div_mod_eq ((n mod 8) mod 4) 2).
  assert (n `mod` 8 = length b2 + (length b3 + length b4))%nat as E8 by lia.
  assert (n `mod` 8 `mod` 4 = length b3 + length b4)%nat as E4 by lia.
  rewrite E in Hb, Hbs |- *. pose proof Hb as [_ Hb2]%bytes_at_app. pose proof Hb2 as [_ Hb3]%bytes_at_app.
  pose proof Hb3 as [_ Hb4]%bytes_at_app. pose proof Hbs as [_ Hs2]%Forall_app. pose proof Hs2 as [_ Hs3]%Forall_app.
  pose proof Hs3 as [_ Hs4]%Forall_app.
  rewrite !app_eq_bool by (rewrite rep_length, le_split_length; lia).
  rewrite (check_seg n 8 pad p n b1 (b2 ++ b3 ++ b4)) by (rewrite ?length_app; done || lia).
  case_bool_decide; [|done]. cbn [fst snd andb]. rewrite !length_app, <-E8.
  rewrite (check_seg n 4 _ _ (n `mod` 8) b2 (b3 ++ b4)); [|by rewrite length_app|lia|lia|lia|lia|lia| |done|done|apply (land_bound _ 32); lia].
  2:{ apply (inside_sub _ p (Z.of_nat n)); [done|lia|lia]. }
  case_bool_decide; [|done]. cbn [fst snd andb]. rewrite length_app, <-E4.
  rewrite (check_seg n 2 _ _ (n `mod` 8 `mod` 4) b3 b4); [|done|lia|lia|lia|lia|lia| |done|done|apply (land_bound _ 16); lia].
  2:{ apply (inside_sub _ p (Z.of_nat n)); [done|lia|lia]. }
  case_bool_decide; [|done]. cbn [fst snd andb].
  rewrite (check_seg n 1 _ _ (length b4) b4 []) by
    first [done | by rewrite app_nil_r | rewrite ?Nat.div_1_r; simpl; lia | apply (land_bound _ 8); lia
      | apply (inside_sub _ p (Z.of_nat n)); [done|lia|lia]].
  rewrite L4. by case_bool_decide.
Qed.
End client.

Lemma rep_bytes k l : Forall is_byte l → Forall is_byte (rep k l).
Proof. intros Hl. unfold rep. induction k as [|k IH]; simpl; [constructor|]. by apply Forall_app. Qed.
Lemma pattern_bytes n : Forall is_byte (pattern n).
Proof. unfold pattern. cbv zeta. rewrite !Forall_app. split_and!; apply rep_bytes, le_split_bytes. Qed.

(** ** Clients that stay within their blocks *)

Lemma test_mutex_run cur m :
  owner m = 0 → test_mutex cur m = Ret ((MutexTest.a (data m), 1), set_data (MutexTest.mkTest 1) m).
Proof.
  intros Hfree. unfold test_mutex. erewrite M_bind_run by (rewrite Mutex_lock_run, Hfree; reflexivity).
  do 3 erewrite M_bind_run by reflexivity.
  erewrite M_bind_run by (rewrite MutexGuard_drop_run; simpl; rewrite Z.eqb_refl; reflexivity).
  destruct m. simpl in *. by subst.
Qed.

Section tests.
Context {S : Type} `{PageAllocatorLaws S}.
Context (free_lists : Z → Z).
Hypothesis heads_apart : ∀ o r b, os_ok o → r ∈ mapped o → is_bucket b →
  free_lists b + 16 ≤ r.1 ∨ r.1 + r.2 ≤ free_lists b.

(** A write inside the payload of a live block keeps the heap in order and
    the payloads of the other blocks as they are. *)
Lemma wrote_inv (s s' : HeapState S) areas x sz p bs :
  heap_inv free_lists s areas → (x, sz) ∈ used areas →
  x + 16 ≤ p → p + Z.of_nat (length bs) ≤ x + sz → wrote p bs s s' →
  heap_inv free_lists s' areas ∧ ∀ u, used areas ≡ₚ (x, sz) :: u → kept u (mem_bytes s) (mem_bytes s').
Proof.
  intros Hinv Hin Hlo Hhi Hw. pose proof Hinv as (v & Hr & Hv). pose proof Hr as (Ho & Hc & Hs & Hh & Hdt & Hl).
  destruct (find_area false areas x sz Hin) as (base & bs1 & bs2 & rest & Hperm & ->). set (x := base + 16 + sum bs1) in *.
  pose proof (view_ok_perm v _ _ Hperm Hv) as Hv1.
  destruct (run_facts free_lists heads_apart v base bs1 [(sz, false)] bs2 rest Hv1)
    as (? & ? & ? & ? & ? & _ & _ & _ & Hheads & Hoth & Hfr & _).
  assert (sum [(sz, false)] = sz) as Es by (simpl; lia). rewrite Es in *. simpl in Hfr. fold x in Hoth.
  pose proof Hv1 as (_ & Har & _). apply Forall_cons in Har as [Hao _]. pose proof Hao as (_ & _ & Hok & Hco & _).
  cbn [snd] in Hok, Hco. rewrite Forall_app, Forall_cons in Hok. destruct Hok as (_ & Hbo & _).
  destruct (block_header _ base bs1 sz false bs2 Hao) as [Hx Hright]. fold x in Hx, Hright. split.
  - exists (mkView (v_os v) (v_cached v) (v_size v) (headers s') (v_frees v) (mem_bytes s')). split.
    + destruct Hw. unfold repr; simpl. rewrite w_heap0, w_os0. split_and!; try done.
      apply (lists_inv_stable free_lists s); [done|done|done|]. intros q [(y & szy & Hy & ->)|(b & Hb & ->)]; apply w_nodes0.
      * rewrite Hfr in Hy. destruct (Hoth y szy Hy). lia.
      * destruct (Hheads p b); [unfold x in *; lia|done|lia|unfold x in *; lia].
    + eapply view_ok_perm; [symmetry; exact Hperm|]. destruct Hw.
      apply (view_splice free_lists heads_apart v _ base bs1 [(sz, false)] [(sz, false)] bs2 rest); simpl; try done.
      * constructor; [done|constructor].
      * intros q Hq. fold x in Hq. rewrite w_hdrs0, Hh by lia. done.
      * fold x. split; [|done]. rewrite w_hdrs0, Hh by lia. done.
      * fold x. rewrite Z.add_0_r. intros h E. rewrite w_hdrs0, Hh, E by lia. rewrite Hright in E. by injection E as <-.
  - intros u Hu y szy q Hy Hq. apply (w_bytes _ _ _ _ Hw). change SIZE_OF_HEADER_T with 16 in Hq.
    pose proof (ForallOrdPairs_perm _ _ _ disj_sym Hu (used_disjoint free_lists s areas Hinv)) as Hd.
    inversion Hd as [|? ? Hd' _]; subst. pose proof (proj1 (Forall_forall _ _) Hd' _ Hy) as Hdj.
    unfold disj in Hdj. simpl in Hdj. lia.
Qed.

(** Where a live block is. *)
Lemma live_inside (s : HeapState S) areas x sz n :
  heap_inv free_lists s areas → (x, sz) ∈ used areas → 0 ≤ n → n + 16 ≤ sz →
  0 < x ∧ x + 16 + n < 2 ^ 64 ∧ inside (os s) (x + 16) n.
Proof.
  intros Hinv Hin Hn0 Hn. destruct (used_live free_lists heads_apart s areas (x, sz) Hinv Hin) as (_ & _ & _ & r & Hr & ? & ?).
  destruct Hinv as (v & (Ho & _) & (Hos & _)). cbn [fst snd] in *. pose proof Hr as Hr'. rewrite Ho in Hr'.
  destruct (proj1 (Forall_forall _ _) (os_ranges _ Hos) _ Hr') as (? & ? & ? & _).
  split; [lia|]. split; [lia|]. exists r. split; [done|lia].
Qed.

(** [fill_in] on a live block, and [check_on] in any later state that kept
    its bytes. *)
Lemma fill_live (s : HeapState S) areas x sz n :
  heap_inv free_lists s areas → (x, sz) ∈ used areas → Z.of_nat n + 16 ≤ sz →
  ∃ s', fill_in (x + 16) (Z.of_nat n) s = Ret ((), s') ∧ heap_inv free_lists s' areas ∧ os s' = os s ∧
    bytes_at s' (x + 16) (pattern n) ∧ ∀ u, used areas ≡ₚ (x, sz) :: u → kept u (mem_bytes s) (mem_bytes s').
Proof.
  intros Hinv Hin Hn. destruct (live_inside s areas x sz (Z.of_nat n) Hinv Hin) as (? & ? & Hi); [lia|done|].
  destruct (fill_in_spec (x + 16) n s) as (s' & Hrun & Hw); [lia|lia|done|].
  destruct (wrote_inv s s' areas x sz (x + 16) (pattern n) Hinv Hin) as [Hinv' Hk]; [lia|rewrite pattern_length; lia|done|].
  exists s'. split_and!; [done|done|by apply (w_os _ _ _ _ Hw)|by apply (w_new _ _ _ _ Hw)|done].
Qed.

Lemma check_live (s : HeapState S) areas x sz n :
  heap_inv free_lists s areas → (x, sz) ∈ used areas → Z.of_nat n + 16 ≤ sz →
  bytes_at s (x + 16) (pattern n) → check_on (x + 16) (Z.of_nat n) s = Ret ((), s).
Proof.
  intros Hinv Hin Hn Hb. destruct (live_inside s areas x sz (Z.of_nat n) Hinv Hin) as (? & ? & Hi); [lia|done|].
  pose proof (check_on_spec (x + 16) (pattern n) s) as Hc. rewrite pattern_length in Hc.
  rewrite Hc, bool_decide_true by (done || lia || apply pattern_bytes). done.
Qed.

(** Bytes of a block that are kept are still there. *)
Lemma bytes_kept (s s' : HeapState S) bs x sz l :
  bytes_at s (x + 16) l → (x, sz) ∈ bs → Z.of_nat (length l) + 16 ≤ sz →
  kept bs (mem_bytes s) (mem_bytes s') → bytes_at s' (x + 16) l.
Proof.
  intros Hb Hin Hl Hk i b Hi. pose proof (lookup_lt_Some _ _ _ Hi).
  rewrite (Hk x sz); [by apply Hb|done|change SIZE_OF_HEADER_T with 16; lia].
Qed.

(** A store through the null pointer faults. *)
Lemma fill_null (s : HeapState S) areas n : heap_inv free_lists s areas → 0 < n → fill_in null n s = Fault.
Proof.
  intros (v & (Ho & _) & (Hos & _)) Hn. unfold fill_in.
  assert (∀ w : nat, (0 < w)%nat → is_mapped (os s) null (Z.of_nat w) = false) as Hm.
  { intros w Hw. apply not_true_iff_false. unfold is_mapped. rewrite existsb_exists. intros (r & Hr%list_elem_of_In & Hb).
    rewrite Ho in Hr. destruct (proj1 (Forall_forall _ _) (os_ranges _ Hos) _ Hr) as (? & _).
    apply andb_prop in Hb as [Hb%Z.leb_le _]. unfold null in Hb. lia. }
  assert (∀ (w : nat) v m, (0 < w)%nat → fill_loop (Z.to_nat n) w v null m s =
    if m <? Z.of_nat w then Ret ((null, m), s) else Fault) as Hl.
  { intros w val m Hw. destruct (Z.to_nat n) as [|f] eqn:E; [lia|]. cbn [fill_loop].
    destruct (m <? Z.of_nat w); [done|]. unfold store, check_mapped, mbind, M_bind, getS. simpl. by rewrite Hm. }
  unfold mbind, M_bind. rewrite Hl by lia. destruct (Z.ltb_spec n (Z.of_nat 8)); [|done]. cbn [fst snd].
  rewrite Hl by lia. destruct (Z.ltb_spec n (Z.of_nat 4)); [|done]. cbn [fst snd].
  rewrite Hl by lia. destruct (Z.ltb_spec n (Z.of_nat 2)); [|done]. cbn [fst snd].
  rewrite Hl by lia. destruct (Z.ltb_spec n (Z.of_nat 1)); [lia|done].
Qed.
(** ** The tests pass *)

(** What a test may do to a heap with [k] requests for pages: return with the
    same live blocks, every byte of their payloads kept; or store through the
    null pointer, after the page allocator refused a request. *)
Definition out_of_memory (k : nat) (o : S) : Prop :=
  ∃ o1 n e o2, os_run k o o1 ∧ 0 < n * PAGE_SIZE ≤ 2 ^ 21 ∧ va_alloc_pages n o1 = Ret (Err e, o2).
Definition test_result (k : nat) (s : HeapState S) (areas : list area) (r : outcome (unit * HeapState S)) : Prop :=
  match r with
  | Ret (_, s') => ∃ areas', heap_inv free_lists s' areas' ∧ used areas' ≡ₚ used areas ∧
      kept (used areas) (mem_bytes s) (mem_bytes s') ∧ os_run k (os s) (os s')
  | Fault => out_of_memory k (os s)
  | _ => False
  end.
Definition passes (k : nat) (m : M (HeapState S) unit) : Prop :=
  ∀ s areas, heap_inv free_lists s areas → test_result k s areas (m s).

Lemma out_of_memory_trans i j o o' : os_run i o o' → out_of_memory j o' → out_of_memory (i + j) o.
Proof. intros Hr (o1 & n & e & o2 & Ho & Hn & Ha). exists o1, n, e, o2. split; [by eapply os_run_trans|done]. Qed.

Lemma out_of_memory_mono i j o : (i ≤ j)%nat → out_of_memory i o → out_of_memory j o.
Proof. intros Hle (o1 & n & e & o2 & Ho & Hn & Ha). exists o1, n, e, o2. split; [by apply (os_run_mono i)|done]. Qed.

Lemma passes_bind i j m k : passes i m → passes j k → passes (i + j) (m;; k).
Proof.
  intros Hm Hk s areas Hinv. specialize (Hm s areas Hinv). unfold mbind, M_bind.
  destruct (m s) as [[[] s1]| | |]; try done; [|by apply (out_of_memory_mono i); [lia|]].
  destruct Hm as (areas1 & Hinv1 & Hu1 & Hb1 & Ho1). specialize (Hk s1 areas1 Hinv1). unfold test_result in *.
  destruct (k s1) as [[[] s2]| | |]; try done; [|by apply (out_of_memory_trans _ _ _ (os s1))].
  destruct Hk as (areas2 & Hinv2 & Hu2 & Hb2 & Ho2). exists areas2. rewrite Hu1 in Hu2, Hb2.
  split_and!; [done|done|by apply (kept_trans _ _ (mem_bytes s1))|by eapply os_run_trans].
Qed.

Lemma test_alloc_and_free_passes fuel n :
  (22 ≤ fuel)%nat → 0 ≤ n ≤ HEAP_MAX_ALLOC_SIZE → passes 1 (test_alloc_and_free free_lists fuel n).
Proof.
  intros Hf Hn s areas Hinv. unfold test_alloc_and_free. destruct (decide (n = 0)) as [->|Hn0].
  { exists areas. split_and!; [done|done|apply kept_refl|constructor]. }
  destruct (cmpct_alloc_spec free_lists heads_apart fuel s areas n Hinv) as (p & s1 & areas1 & Hrun & Hinv1 & Hk1 & Hcase); [lia|done|].
  rewrite (M_bind_run _ _ _ _ _ Hrun). destruct Hcase as [(-> & _ & Hfail)|(x & nsz & -> & _ & Hfit & Hu1 & Hfr)].
  { unfold mbind, M_bind. rewrite (fill_null s1 areas1 n Hinv1) by lia. apply (out_of_memory_mono 0); [lia|].
    apply (alloc_fails_refused _ areas n); [done|lia]. }
  assert ((x, nsz) ∈ used areas1) as Hin by (rewrite Hu1; set_solver).
  rewrite <-(Z2Nat.id n) by lia.
  destruct (fill_live s1 areas1 x nsz (Z.to_nat n) Hinv1 Hin) as (s2 & Hrun2 & Hinv2 & Ho2 & Hb2 & Hk2); [lia|].
  rewrite (M_bind_run _ _ _ _ _ Hrun2).
  rewrite (M_bind_run _ _ _ _ _ (check_live s2 areas1 x nsz (Z.to_nat n) Hinv2 Hin ltac:(lia) Hb2)).
  destruct (cmpct_free_spec free_lists heads_apart s2 areas1 x nsz Hinv2 Hin Hfr) as (s3 & areas3 & Hrun3 & Hinv3 & Hu3 & Hk3).
  rewrite Hrun3, Hu1 in *. apply Permutation_cons_inv in Hu3. exists areas3. split_and!; [done|done| |].
  - apply (kept_trans _ _ (mem_bytes s1)); [done|]. apply (kept_trans _ _ (mem_bytes s2)); [by apply Hk2|by rewrite Hu3].
  - apply (os_run_trans 1 0 _ (os s1)); [by apply (cmpct_alloc_asks _ _ _ _ _ _ Hrun)|]. rewrite <-Ho2.
    by apply (asks_cmpct_free _ _ _ _ _ Hrun3).
Qed.

Lemma each_size_passes fuel sizes :
  (22 ≤ fuel)%nat → Forall (λ n, 0 ≤ n ≤ HEAP_MAX_ALLOC_SIZE) sizes →
  passes (length sizes) (each_size free_lists fuel sizes).
Proof.
  intros Hf. induction 1 as [|n sizes Hn _ IH]; cbn [each_size].
  - intros s areas Hinv. exists areas. split_and!; [done|done|apply kept_refl|constructor].
  - by apply (passes_bind 1); [apply test_alloc_and_free_passes|].
Qed.

(** The blocks [bl] hold the patterns of the sizes from [i + 16] on. *)
Fixpoint filled (s : HeapState S) (i : Z) (bl : list (Z * Z)) : Prop :=
  match bl with
  | [] => True
  | b :: bl => i + 16 + 16 ≤ b.2 ∧ bytes_at s (b.1 + 16) (pattern (Z.to_nat (i + 16))) ∧ filled s (i + 1) bl
  end.

Lemma filled_kept s s' i bl bs :
  0 ≤ i → filled s i bl → (∀ b, b ∈ bl → b ∈ bs) → kept bs (mem_bytes s) (mem_bytes s') → filled s' i bl.
Proof.
  revert i. induction bl as [|[x sz] bl IH]; intros i Hi Hf Hin Hk; [done|]. destruct Hf as (Hsz & Hb & Hf). cbn [fst snd] in *.
  split; [done|]. split; [|apply IH; [lia|done|set_solver|done]].
  apply (bytes_kept s s' bs x sz); [done|apply Hin; set_solver| |done]. rewrite pattern_length. lia.
Qed.

Lemma bundle_fill_spec fuel n i ptr s areas :
  (22 ≤ fuel)%nat → heap_inv free_lists s areas → 0 ≤ i → (Z.to_nat i + n ≤ length ptr)%nat →
  i + Z.of_nat n + 16 ≤ HEAP_MAX_ALLOC_SIZE →
  match bundle_fill free_lists fuel n i ptr s with
  | Ret (ptr', s') => ∃ areas' bl, length bl = n ∧ heap_inv free_lists s' areas' ∧ used areas' ≡ₚ bl ++ used areas ∧
      filled s' i bl ∧ kept (used areas) (mem_bytes s) (mem_bytes s') ∧ os_run n (os s) (os s') ∧
      (∀ j, (j < Z.to_nat i)%nat → ptr' !! j = ptr !! j) ∧
      (∀ k b, bl !! k = Some b → ptr' !! (Z.to_nat i + k)%nat = Some (b.1 + 16))
  | Fault => out_of_memory n (os s)
  | _ => False
  end.
Proof.
  intros Hfuel. revert i ptr s areas. induction n as [|n IH]; intros i ptr s areas Hinv Hi Hl Hmax; cbn [bundle_fill].
  { exists areas, []. split_and!; try done. constructor. }
  destruct (cmpct_alloc_spec free_lists heads_apart fuel s areas (i + 16) Hinv) as
    (p & s1 & areas1 & Hrun & Hinv1 & Hk1 & Hcase); [lia|done|].
  rewrite (M_bind_run _ _ _ _ _ Hrun).
  assert (index ptr i s1 = Ret (default 0 (ptr !! Z.to_nat i), s1)) as Hix.
  { unfold index. destruct (lookup_lt_is_Some_2 ptr (Z.to_nat i)) as [q ->]; [lia|done]. }
  rewrite (M_bind_run _ _ _ _ _ Hix). destruct Hcase as [(-> & _ & Hfail)|(x & nsz & -> & _ & Hfit & Hu1 & Hfr)].
  { unfold mbind, M_bind. rewrite (fill_null s1 areas1 (i + 16) Hinv1) by lia. apply (out_of_memory_mono 0); [lia|].
    apply (alloc_fails_refused _ areas (i + 16)); [done|lia]. }
  assert ((x, nsz) ∈ used areas1) as Hin by (rewrite Hu1; set_solver). pose proof (Z2Nat.id (i + 16) ltac:(lia)) as Ei.
  destruct (fill_live s1 areas1 x nsz (Z.to_nat (i + 16)) Hinv1 Hin) as (s2 & Hrun2 & Hinv2 & Ho2 & Hb2 & Hk2); [lia|].
  rewrite Ei in Hrun2. rewrite (M_bind_run _ _ _ _ _ Hrun2).
  specialize (IH (i + 1) (<[Z.to_nat i := x + 16]> ptr) s2 areas1 Hinv2 ltac:(lia)). rewrite length_insert in IH.
  specialize (IH ltac:(lia) ltac:(lia)). pose proof (cmpct_alloc_asks _ _ _ _ _ _ Hrun) as Ho1. rewrite <-Ho2 in Ho1.
  destruct (bundle_fill _ _ _ _ _ s2) as [[ptr' s']| | |]; try done; [|by apply (out_of_memory_trans 1 n _ (os s2))].
  destruct IH as (areas' & bl & Hlen & Hinv' & Hu' & Hf & Hk & Ho & Hlo & Hhi). exists areas', ((x, nsz) :: bl).
  split_and!; [simpl; lia|done| | | |by apply (os_run_trans 1 n _ (os s2))| |].
  - rewrite Hu', Hu1. simpl. by rewrite Permutation_middle.
  - split; [simpl; lia|]. split; [|done]. simpl. apply (bytes_kept s2 s' (used areas1) x nsz); [done|done| |done].
    rewrite pattern_length. lia.
  - apply (kept_trans _ _ (mem_bytes s1)); [done|]. apply (kept_trans _ _ (mem_bytes s2)); [by apply Hk2|].
    apply (kept_incl (used areas1)); [|done]. intros b Hb. rewrite Hu1. set_solver.
  - intros j Hj. rewrite Hlo, list_lookup_insert_ne by lia. done.
  - intros [|k] b Hb; simpl in Hb.
    + injection Hb as <-. rewrite Nat.add_0_r, Hlo, list_lookup_insert_eq by lia. done.
    + replace (Z.to_nat i + Datatypes.S k)%nat with (Z.to_nat (i + 1) + k)%nat by lia. by apply Hhi.
Qed.

Lemma bundle_check_spec n i ptr s areas bl u :
  heap_inv free_lists s areas → used areas ≡ₚ bl ++ u → 0 ≤ i → filled s i bl → length bl = n →
  (∀ k b, bl !! k = Some b → ptr !! (Z.to_nat i + k)%nat = Some (b.1 + 16)) →
  ∃ s' areas', bundle_check free_lists n i ptr s = Ret ((), s') ∧ heap_inv free_lists s' areas' ∧
    used areas' ≡ₚ u ∧ kept u (mem_bytes s) (mem_bytes s') ∧ os_run 0 (os s) (os s').
Proof.
  revert i s areas bl. induction n as [|n IH]; intros i s areas bl Hinv Hu Hi Hf Hl Hp; cbn [bundle_check].
  { destruct bl; [|done]. exists s, areas. split_and!; [done|done|done|apply kept_refl|constructor]. }
  destruct bl as [|[x sz] bl]; [done|]. injection Hl as Hl. destruct Hf as (Hsz & Hb & Hf). cbn [fst snd] in *.
  assert (index ptr i s = Ret (x + 16, s)) as Hix.
  { unfold index. specialize (Hp 0%nat (x, sz) eq_refl). rewrite Nat.add_0_r in Hp. by rewrite Hp. }
  rewrite (M_bind_run _ _ _ _ _ Hix). assert ((x, sz) ∈ used areas) as Hin by (rewrite Hu; set_solver).
  pose proof (Z2Nat.id (i + 16) ltac:(lia)) as Ei.
  pose proof (check_live s areas x sz (Z.to_nat (i + 16)) Hinv Hin ltac:(lia) Hb) as Hrun. rewrite Ei in Hrun.
  rewrite (M_bind_run _ _ _ _ _ Hrun).
  destruct (cmpct_free_spec free_lists heads_apart s areas x sz Hinv Hin) as (s1 & areas1 & Hrun1 & Hinv1 & Hu1 & Hk1).
  { left. change SIZE_OF_FREE_T with 32. simpl. lia. }
  rewrite (M_bind_run _ _ _ _ _ Hrun1). rewrite Hu in Hu1. simpl in Hu1. apply Permutation_cons_inv in Hu1.
  destruct (IH (i + 1) s1 areas1 bl Hinv1) as (s' & areas' & Hrun2 & Hinv2 & Hu2 & Hk2 & Ho2); [by symmetry|lia| |done| |].
  - apply (filled_kept s s1 (i + 1) bl (used areas1)); [lia|done| |done]. intros b Hb'. rewrite <-Hu1. set_solver.
  - intros k b Hb'. replace (Z.to_nat (i + 1) + k)%nat with (Z.to_nat i + Datatypes.S k)%nat by lia. by apply Hp.
  - exists s', areas'. split_and!; [done|done|done| |].
    + apply (kept_trans _ _ (mem_bytes s1)); [|done]. apply (kept_incl (used areas1)); [|done].
      intros b Hb'. rewrite <-Hu1. set_solver.
    + apply (os_run_trans 0 0 _ (os s1)); [by apply (asks_cmpct_free _ _ _ _ _ Hrun1)|done].
Qed.

Lemma test_bundle_alloc_passes fuel : (22 ≤ fuel)%nat → passes 16 (test_bundle_alloc free_lists fuel).
Proof.
  intros Hf s areas Hinv. unfold test_bundle_alloc, mbind, M_bind.
  pose proof (bundle_fill_spec fuel 16 0 (replicate 16 null) s areas Hf Hinv ltac:(lia) ltac:(simpl; lia) ltac:(by_compute)) as Hb.
  destruct (bundle_fill _ _ _ _ _ s) as [[ptr s1]| | |]; try done.
  destruct Hb as (areas1 & bl & Hl & Hinv1 & Hu1 & Hfl & Hk1 & Ho1 & _ & Hp).
  destruct (bundle_check_spec 16 0 ptr s1 areas1 bl (used areas)) as (s2 & areas2 & -> & Hinv2 & Hu2 & Hk2 & Ho2); try done.
  exists areas2. split_and!; [done|done|by apply (kept_trans _ _ (mem_bytes s1))|by apply (os_run_trans 16 0 _ (os s1))].
Qed.

Lemma test_cmpct_passes fuel : (22 ≤ fuel)%nat → passes 66 (test_cmpct free_lists fuel).
Proof.
  intros Hf. unfold test_cmpct.
  assert (∀ lo n, 0 ≤ lo → lo + n ≤ HEAP_MAX_ALLOC_SIZE → Forall (λ k, 0 ≤ k ≤ HEAP_MAX_ALLOC_SIZE) (seqZ lo n)) as Hs.
  { intros lo n ? ?. apply Forall_forall. intros k Hk%elem_of_seqZ. lia. }
  apply (passes_bind 33 33); [by apply (each_size_passes fuel (seqZ 0 33)); [|apply Hs]|].
  apply (passes_bind 17 16); [by apply (each_size_passes fuel (seqZ 512 17)); [|apply Hs]|].
  by apply test_bundle_alloc_passes.
Qed.

(** C38: what [fill_in] writes is what [check_on] expects, for every size: on a
    buffer inside one mapped range the fill succeeds, a check right after it
    passes, and in any state a check passes exactly when the buffer holds the
    pattern of its size and panics for any other bytes. *)
Theorem fill_check_roundtrip (s : HeapState S) p n :
  0 ≤ p → p + Z.of_nat n < 2 ^ 64 → inside (os s) p (Z.of_nat n) →
  (∃ s', fill_in p (Z.of_nat n) s = Ret ((), s') ∧ check_on p (Z.of_nat n) s' = Ret ((), s')) ∧
  ∀ s' bs, os s' = os s → length bs = n → bytes_at s' p bs → Forall is_byte bs →
    check_on p (Z.of_nat n) s' = if bool_decide (bs = pattern n) then Ret ((), s') else Panic.
Proof.
  intros Hp Hu Hin.
  assert (∀ s' bs, os s' = os s → length bs = n → bytes_at s' p bs → Forall is_byte bs →
    check_on p (Z.of_nat n) s' = if bool_decide (bs = pattern n) then Ret ((), s') else Panic) as Hex.
  { intros s' bs Ho <- Hb Hbs. apply check_on_spec; try done. by rewrite Ho. }
  split; [|done]. destruct (fill_in_spec p n s Hp Hu Hin) as (s' & Hrun & Hw). exists s'. split; [done|].
  rewrite (Hex s' (pattern n)), bool_decide_true by (done || apply Hw || apply pattern_length || apply pattern_bytes). done.
Qed.


(** [do_tests] as a whole: the heap test as above, then the other tests always
    pass and leave [TEST_MUTEX] free with the new value. *)
Theorem do_tests_correct fuel (w : test_world S) areas cur :
  (22 ≤ fuel)%nat → heap_inv free_lists (test_heap_state w) areas → owner (TEST_MUTEX w) = 0 →
  match do_tests free_lists fuel cur w with
  | Ret ((lines, values), w') => lines = ["0, 1, 2, len: 3"; "(1 : 2), len: 1"]%string ∧
      values = (MutexTest.a (data (TEST_MUTEX w)), 1) ∧
      TEST_MUTEX w' = set_data (MutexTest.mkTest 1) (TEST_MUTEX w) ∧
      ∃ areas', heap_inv free_lists (test_heap_state w') areas' ∧ used areas' ≡ₚ used areas
  | Fault => out_of_memory 66 (os (test_heap_state w))
  | _ => False
  end.
Proof.
  intros Hf Hinv Hfree. pose proof (test_cmpct_passes fuel Hf _ _ Hinv) as Ht. unfold test_result in Ht.
  unfold do_tests. destruct (test_cmpct free_lists fuel (test_heap_state w)) as [[[] s']| | |] eqn:E; try done;
    [|unfold mbind, M_bind, zoom; by rewrite E].
  destruct Ht as (areas' & Hinv' & Hu & _).
  erewrite M_bind_run by (unfold zoom; rewrite E; reflexivity). erewrite M_bind_run by reflexivity.
  erewrite M_bind_run by (unfold zoom; cbn [TEST_MUTEX]; rewrite test_mutex_run by done; reflexivity).
  split; [vm_compute; reflexivity|]. split; [done|]. split; [done|]. by exists areas'.
Qed.
End tests.

(** ** The theorems at work *)

(** On a fresh heap the tests of single blocks return. *)
Lemma test_alloc_and_free_runs : ∃ s, each_size Pages.heads 22 [0; 1; 8; 9; 24] Pages.fresh = Ret ((), s).
Proof. eexists. vm_compute. reflexivity. Qed.

#[local] Opaque test_cmpct Pages.fresh.

Lemma fill_check_roundtrip_witness :
  let s := Pages.after_alloc 100 Pages.fresh in
  ∃ s', fill_in (Pages.BASE + 32) (Z.of_nat 100) s = Ret ((), s') ∧
    check_on (Pages.BASE + 32) (Z.of_nat 100) s' = Ret ((), s').
Proof.
  intros s. destruct (fill_check_roundtrip s (Pages.BASE + 32) 100) as [Hfill _]; [by_compute|by_compute| |exact Hfill].
  exists (Pages.BASE, 262144). split; [|split; by_compute].
  assert (mapped (os s) = [(Pages.BASE, 262144)]) as E by (vm_compute; reflexivity). rewrite E. apply list_elem_of_here.
Defined.

(** Sixty-six requests of 2 MiB do not exhaust the page allocator. *)
Lemma pages_run k (o o' : Pages.t) :
  os_run k o o' → Pages.next_va o + Z.of_nat k * 2 ^ 21 ≤ Pages.LIMIT →
  Pages.next_va o' ≤ Pages.next_va o + Z.of_nat k * 2 ^ 21.
Proof.
  induction 1 as [k o|k o n va o1 o2 Hn Ha _ IH|k o n e o1 o2 Hn Ha _ IH|k o va n r o1 o2 Ha _ IH]; intros Hl; [lia|..].
  - change (Pages.alloc n o = Ret (Ok va, o1)) in Ha. unfold Pages.alloc in Ha. destruct (_ <=? Pages.LIMIT); [|done].
    injection Ha as _ <-. cbn [Pages.next_va] in IH. lia.
  - change (Pages.alloc n o = Ret (Err e, o1)) in Ha. unfold Pages.alloc in Ha. destruct (_ <=? Pages.LIMIT); [done|].
    injection Ha as _ <-. by apply IH.
  - change (Pages.free va n o = Ret (r, o1)) in Ha. unfold Pages.free in Ha.
    destruct (Pages.remove _ _); injection Ha as _ <-; by apply IH.
Qed.

